(** * Octocep: the n8n DSL compiler

    A shallow embedding of the code generator ([src/generator/generator.ts]),
    the node template registry ([src/generator/nodeTemplates.ts] and its two
    richer variants), the validator ([src/utils/validation.ts]), the lexer
    ([src/parser/lexer.ts]), the parser ([src/parser/parser.ts]) and the
    orchestrating [Compiler.compile], together with the properties stated for
    them.

    Conventions of the embedding.
    - A JavaScript string is a [string]: a sequence of code units, here the
      units U+0000 to U+00FF.
    - A JavaScript number is a [num]: an exact decimal [m / 10^f], an infinity
      or NaN.  Rounding to binary64 is outside the model; coordinates of the
      layout are integers ([Z]).
    - A JavaScript object is an association list in insertion order.
    - [Math.random], [new Date()], [process.env] and [Date.parse] are read
      from a [Host]; the number of draws and clock reads made so far is part
      of the state. *)

From Stdlib Require Import List String Ascii ZArith Bool Lia Arith DecimalString.
Import ListNotations.
Local Open Scope string_scope.
Local Open Scope Z_scope.

Set Implicit Arguments.

(** ** Strings *)

Module Str.

Definition code (c : ascii) : nat := nat_of_ascii c.

(** White space of [String.prototype.trim] and of the regular expression
    class [\s], within U+0000..U+00FF. *)
Definition isSpace (c : ascii) : bool :=
  let n := code c in
  ((9 <=? n) && (n <=? 13))%nat || (n =? 32)%nat || (n =? 160)%nat.

(** Line terminators: the characters the regular expression [.] rejects. *)
Definition isLineTerminator (c : ascii) : bool :=
  let n := code c in (n =? 10)%nat || (n =? 13)%nat.

Definition isDigit (c : ascii) : bool :=
  let n := code c in ((48 <=? n) && (n <=? 57))%nat.

Definition isUpper (c : ascii) : bool :=
  let n := code c in ((65 <=? n) && (n <=? 90))%nat.

Definition isLower (c : ascii) : bool :=
  let n := code c in ((97 <=? n) && (n <=? 122))%nat.

(** The class [\w]. *)
Definition isWord (c : ascii) : bool :=
  isDigit c || isUpper c || isLower c || (code c =? 95)%nat.

Definition lowerChar (c : ascii) : ascii :=
  if isUpper c then ascii_of_nat (code c + 32) else c.

Fixpoint toLowerCase (s : string) : string :=
  match s with
  | EmptyString => EmptyString
  | String c s' => String (lowerChar c) (toLowerCase s')
  end.

Fixpoint trimStart (s : string) : string :=
  match s with
  | EmptyString => EmptyString
  | String c s' => if isSpace c then trimStart s' else s
  end.

Fixpoint trimEnd (s : string) : string :=
  match s with
  | EmptyString => EmptyString
  | String c s' =>
      match trimEnd s' with
      | EmptyString => if isSpace c then EmptyString else String c EmptyString
      | t => String c t
      end
  end.

Definition trim (s : string) : string := trimEnd (trimStart s).

Definition isEmpty (s : string) : bool :=
  match s with EmptyString => true | _ => false end.

(** [s.startsWith(p)] *)
Fixpoint startsWith (p s : string) : bool :=
  match p, s with
  | EmptyString, _ => true
  | String a p', String b s' => Ascii.eqb a b && startsWith p' s'
  | String _ _, EmptyString => false
  end.

(** [s.includes(p)] *)
Fixpoint includes (p s : string) : bool :=
  startsWith p s ||
  match s with
  | EmptyString => false
  | String _ s' => includes p s'
  end.

(** [s.split(sep)] for a non-empty separator: the pieces between the
    left-most, non-overlapping occurrences of [sep].  [skip] counts the
    characters of an occurrence still to be passed over, [cur] is the piece
    being read, in reverse. *)
Fixpoint splitFrom (sep : string) (skip : nat) (cur : list ascii) (s : string)
  : list string :=
  match s with
  | EmptyString => [string_of_list_ascii (rev cur)]
  | String c s' =>
      match skip with
      | S k => splitFrom sep k cur s'
      | O =>
          if startsWith sep s
          then string_of_list_ascii (rev cur)
                 :: splitFrom sep (String.length sep - 1) [] s'
          else splitFrom sep O (c :: cur) s'
      end
  end.

Definition split (sep s : string) : list string := splitFrom sep O [] s.

(** [s.endsWith(p)] for a one-character [p], and removal of that suffix. *)
Fixpoint dropLast (c : ascii) (s : string) : string :=
  match s with
  | EmptyString => EmptyString
  | String a EmptyString => if Ascii.eqb a c then EmptyString else s
  | String a s' => String a (dropLast c s')
  end.

Fixpoint join (sep : string) (l : list string) : string :=
  match l with
  | [] => EmptyString
  | [x] => x
  | x :: l' => x ++ sep ++ join sep l'
  end.

End Str.

(** ** Numbers *)

Module Num.

(** [Fin m f] is the decimal [m / 10^f], as a literal or a string gives
    it, and stands for the double nearest to it; [normal] keeps [f]
    minimal. *)
Inductive num : Type :=
| NaN
| Inf (neg : bool)
| Fin (m : Z) (f : nat).

Fixpoint normal (m : Z) (f : nat) : num :=
  match f with
  | O => Fin m 0
  | S f' => if m mod 10 =? 0 then normal (m / 10) f' else Fin m f
  end.

Definition ofZ (z : Z) : num := Fin z 0.

Definition isNaN (n : num) : bool :=
  match n with NaN => true | _ => false end.

(** *** The double of a decimal *)

(** The fraction [(a / b) / base ^ e]. *)
Definition scaled (base a b e : Z) : Z * Z :=
  if 0 <=? e then (a, b * base ^ e) else (a * base ^ (- e), b).

(** [a / b] rounded to the nearest integer, to the even one of two. *)
Definition roundDiv (a b : Z) : Z :=
  let q := a / b in
  let r := a mod b in
  if 2 * r <? b then q
  else if b <? 2 * r then q + 1
  else if Z.even q then q else q + 1.

(** A positive double: [m * 2 ^ e] with [m] below [2 ^ 53], and at least
    [2 ^ 52] unless [e] is the least exponent, [-1074]. *)
Inductive double : Type :=
| Zero
| Double (m e : Z)
| Infinite.

Definition sameDouble (x y : double) : bool :=
  match x, y with
  | Zero, Zero | Infinite, Infinite => true
  | Double m e, Double m' e' => (m =? m') && (e =? e')
  | _, _ => false
  end.

(** The double nearest to [a / b], for positive [a] and [b]. *)
Definition nearest (a b : Z) : double :=
  let t := Z.log2 a - Z.log2 b in
  let '(a1, b1) := scaled 2 a b t in
  let l := if b1 <=? a1 then t else t - 1 in
  let e := Z.max (l - 52) (-1074) in
  let '(a2, b2) := scaled 2 a b e in
  let q := roundDiv a2 b2 in
  let '(m, e') := if q =? 2 ^ 53 then (2 ^ 52, e + 1) else (q, e) in
  if m =? 0 then Zero
  else if 971 <? e' then Infinite
  else Double m e'.

(** The double of [Fin m f], without its sign. *)
Definition doubleOf (m : Z) (f : nat) : double :=
  if m =? 0 then Zero else nearest (Z.abs m) (10 ^ Z.of_nat f).

(** A decimal below half the least double is zero as well. *)
Definition isZero (n : num) : bool :=
  match n with
  | Fin m f => sameDouble (doubleOf m f) Zero
  | _ => false
  end.

(** Digits. *)
Definition digitVal (c : ascii) : Z := Z.of_nat (Str.code c) - 48.

Definition hexVal (c : ascii) : option Z :=
  let n := Z.of_nat (Str.code c) in
  if Str.isDigit c then Some (n - 48)
  else if (97 <=? n) && (n <=? 102) then Some (n - 87)
  else if (65 <=? n) && (n <=? 70) then Some (n - 55)
  else None.

Fixpoint spanDigits (s : string) : string * string :=
  match s with
  | String c s' =>
      if Str.isDigit c
      then let (d, r) := spanDigits s' in (String c d, r)
      else (EmptyString, s)
  | EmptyString => (EmptyString, EmptyString)
  end.

Fixpoint digitsVal (acc : Z) (s : string) : Z :=
  match s with
  | EmptyString => acc
  | String c s' => digitsVal (10 * acc + digitVal c) s'
  end.

(** Digits of a non-decimal integer literal in base [b]; [None] when a
    character is not a digit of the base or the literal is empty. *)
Fixpoint radixVal (b : Z) (acc : Z) (s : string) : option Z :=
  match s with
  | EmptyString => Some acc
  | String c s' =>
      match hexVal c with
      | Some d => if d <? b then radixVal b (b * acc + d) s' else None
      | None => None
      end
  end.

Definition nonDecimal (s : string) : option Z :=
  match s with
  | String "0" (String x r) =>
      let lit (b : Z) := if Str.isEmpty r then None else radixVal b 0 r in
      if (Ascii.eqb x "x" || Ascii.eqb x "X")%bool then lit 16
      else if (Ascii.eqb x "o" || Ascii.eqb x "O")%bool then lit 8
      else if (Ascii.eqb x "b" || Ascii.eqb x "B")%bool then lit 2
      else None
  | _ => None
  end.

(** The exponent part: empty, or [e] or [E], an optional sign and digits. *)
Definition exponent (s : string) : option Z :=
  match s with
  | EmptyString => Some 0
  | String e r =>
      if (Ascii.eqb e "e" || Ascii.eqb e "E")%bool then
        let '(neg, r') :=
          match r with
          | String "+" t => (false, t)
          | String "-" t => (true, t)
          | _ => (false, r)
          end in
        let (d, rest) := spanDigits r' in
        if (Str.isEmpty d || negb (Str.isEmpty rest))%bool then None
        else Some (if neg then - digitsVal 0 d else digitsVal 0 d)
      else None
  end.

(** [m * 10^(e - f)] *)
Definition scale (m : Z) (f : nat) (e : Z) : num :=
  let k := e - Z.of_nat f in
  if 0 <=? k then Fin (m * 10 ^ k) 0 else normal m (Z.to_nat (- k)).

Definition unsignedDecimal (s : string) : option (Z * nat * Z) :=
  let (ip, r1) := spanDigits s in
  let '(fp, r2) :=
    match r1 with
    | String "." r => spanDigits r
    | _ => (EmptyString, r1)
    end in
  if (Str.isEmpty ip && Str.isEmpty fp)%bool then None
  else match exponent r2 with
       | Some e => Some (digitsVal 0 (ip ++ fp), String.length fp, e)
       | None => None
       end.

Definition strDecimal (s : string) : num :=
  let '(neg, r) :=
    match s with
    | String "+" t => (false, t)
    | String "-" t => (true, t)
    | _ => (false, s)
    end in
  if String.eqb r "Infinity" then Inf neg
  else match unsignedDecimal r with
       | Some (m, f, e) => scale (if neg then - m else m) f e
       | None => NaN
       end.

(** [Number(s)] for a string [s] (StringToNumber). *)
Definition ofString (s : string) : num :=
  let t := Str.trim s in
  if Str.isEmpty t then Fin 0 0
  else match nonDecimal t with
       | Some z => Fin z 0
       | None => strDecimal t
       end.

(** *** The notation of a number *)

Definition zString (z : Z) : string := NilZero.string_of_int (Z.to_int z).

Definition digits (z : Z) : Z := Z.of_nat (String.length (zString z)).

(** The [n] with [10 ^ (n - 1) <= a / b < 10 ^ n]. *)
Definition magnitude (a b : Z) : Z :=
  let d := digits a - digits b in
  let '(a1, b1) := scaled 10 a b d in
  if b1 <=? a1 then d + 1 else d.

(** The least number [k] of digits, and the integer [s] of [k] digits,
    such that [s * 10 ^ (n - k)] has the double [x], which is [a / b]; of
    two such integers the one nearer to [a / b], and the even one when
    they are as near. *)
Fixpoint shortest (fuel : nat) (k : Z) (a b n : Z) (x : double) : Z * Z :=
  let '(p, q) := scaled 10 a b (n - k) in
  let lo := p / q in
  let hi := lo + 1 in
  let r := p mod q in
  let fits (s : Z) :=
    let '(c, d) := scaled 10 1 1 (k - n) in
    sameDouble (nearest (s * c) d) x in
  match fuel with
  | O => (lo, k)
  | S fuel' =>
      match fits lo, fits hi with
      | true, true =>
          if 2 * r <? q then (lo, k)
          else if q <? 2 * r then (hi, k)
          else if Z.even lo then (lo, k) else (hi, k)
      | true, false => (lo, k)
      | false, true => (hi, k)
      | false, false => shortest fuel' (k + 1) a b n x
      end
  end.

Fixpoint padZeros (k : nat) (s : string) : string :=
  match k with
  | O => s
  | S k' => String "0" (padZeros k' s)
  end.

Fixpoint zeros (k : nat) : string :=
  match k with
  | O => EmptyString
  | S k' => String "0" (zeros k')
  end.

(** The digits without the zeros at their end. *)
Fixpoint significant (s : string) : string :=
  match s with
  | EmptyString => EmptyString
  | String c s' =>
      let r := significant s' in
      if (Ascii.eqb c "0" && Str.isEmpty r)%bool then EmptyString
      else String c r
  end.

(** The notation of [0.s * 10 ^ n], with [s] the [k] significant digits of
    [all] (Number::toString in base ten): the digits and [n - k] zeros
    when [k <= n <= 21]; the point after [n] digits when [0 < n <= 21];
    [0.] and [- n] zeros before the digits when [-6 < n <= 0]; and the
    exponent [n - 1] after [e+] or [e-] otherwise, that is from [1e21]
    upwards and below [1e-6]. *)
Definition notation (all : string) (n : Z) : string :=
  let s := significant all in
  let k := Z.of_nat (String.length s) in
  if (k <=? n) && (n <=? 21) then s ++ zeros (Z.to_nat (n - k))
  else if (0 <? n) && (n <=? 21) then
    substring 0 (Z.to_nat n) s ++ "."
      ++ substring (Z.to_nat n) (Z.to_nat (k - n)) s
  else if (-6 <? n) && (n <=? 0) then
    "0." ++ padZeros (Z.to_nat (- n)) s
  else
    let e := n - 1 in
    let power := (if e <? 0 then "e-" else "e+") ++ zString (Z.abs e) in
    match s with
    | String d EmptyString => String d power
    | String d r => String d ("." ++ r ++ power)
    | EmptyString => power
    end.

(** [String(n)]: the shortest digits that give the double back, seventeen
    at most. *)
Definition toString (n : num) : string :=
  match n with
  | NaN => "NaN"
  | Inf false => "Infinity"
  | Inf true => "-Infinity"
  | Fin m f =>
      match doubleOf m f with
        | Zero => "0"
        | Infinite => if m <? 0 then "-Infinity" else "Infinity"
        | Double mantissa e =>
            let '(a, b) := scaled 2 mantissa 1 (- e) in
            let n := magnitude a b in
            let '(s, k) := shortest 17 1 a b n (Double mantissa e) in
            (if m <? 0 then "-" else "")
              ++ notation (zString s) (n + (digits s - k))
      end
  end.

End Num.

(** ** Values *)

Module Js.

Import Num.

#[warnings="-register-all"]
Inductive Value : Type :=
| VUndef
| VNull
| VBool (b : bool)
| VNum (n : num)
| VStr (s : string)
| VArr (l : list Value)
| VObj (o : list (string * Value)).

(** An object: its own enumerable properties, in insertion order. *)
Definition Obj : Type := list (string * Value).

Definition int (z : Z) : Value := VNum (Fin z 0).

Inductive Exn : Type :=
| Error (msg : string)
| TypeError (msg : string).

Inductive Res (A : Type) : Type :=
| Ok (a : A)
| Throw (e : Exn).

Arguments Ok {A} a.
Arguments Throw {A} e.

Definition isOk {A} (r : Res A) : bool :=
  match r with Ok _ => true | Throw _ => false end.

Definition mapOk {A B} (f : A -> B) (r : Res A) : Res B :=
  match r with Ok a => Ok (f a) | Throw e => Throw e end.

(** [l.map(f)] for an [f] that may throw, left to right. *)
Fixpoint mapRes {A B} (f : A -> Res B) (l : list A) : Res (list B) :=
  match l with
  | [] => Ok []
  | x :: l' =>
      match f x with
      | Ok y => mapOk (cons y) (mapRes f l')
      | Throw e => Throw e
      end
  end.

(** Truthiness (ToBoolean). *)
Definition truthy (v : Value) : bool :=
  match v with
  | VUndef | VNull => false
  | VBool b => b
  | VNum n => negb (isNaN n || isZero n)
  | VStr s => negb (Str.isEmpty s)
  | VArr _ | VObj _ => true
  end.

(** [a || b] and [cond ? a : b] on values. *)
Definition or (a b : Value) : Value := if truthy a then a else b.

Inductive Typeof : Type :=
| TUndefined | TObject | TBoolean | TNumber | TString.

Definition typeof (v : Value) : Typeof :=
  match v with
  | VUndef => TUndefined
  | VNull | VArr _ | VObj _ => TObject
  | VBool _ => TBoolean
  | VNum _ => TNumber
  | VStr _ => TString
  end.

Definition isObject (v : Value) : bool :=
  match typeof v with TObject => true | _ => false end.

Definition isArray (v : Value) : bool :=
  match v with VArr _ => true | _ => false end.

Definition isString (v : Value) : bool :=
  match v with VStr _ => true | _ => false end.

Definition isUndefined (v : Value) : bool :=
  match v with VUndef => true | _ => false end.

(** Own properties. *)
Fixpoint lookup (k : string) (o : Obj) : option Value :=
  match o with
  | [] => None
  | (k', v) :: o' => if String.eqb k k' then Some v else lookup k o'
  end.

Definition hasOwn (k : string) (o : Obj) : bool :=
  match lookup k o with Some _ => true | None => false end.

(** What [String(v)] and [Number(v)] throw for an object that has no
    primitive value. *)
Definition notPrimitive : Exn :=
  TypeError "Cannot convert object to primitive value".

(** [String(v)].  An array joins its elements with commas, [null] and
    [undefined] among them as nothing, and throws what an element throws.
    An object is asked for its [toString] and then for its [valueOf]: a
    property of its own holds a value, never a function, so an object
    without a [toString] of its own answers with the one of
    [Object.prototype], and an object with one has nothing left to call
    ([Object.prototype.valueOf] gives the object back) and the conversion
    throws. *)
Fixpoint toStr (v : Value) : Res string :=
  match v with
  | VUndef => Ok "undefined"
  | VNull => Ok "null"
  | VBool true => Ok "true"
  | VBool false => Ok "false"
  | VNum n => Ok (toString n)
  | VStr s => Ok s
  | VArr l =>
      mapOk (Str.join ",")
        (mapRes (fun x => match x with
                          | VUndef | VNull => Ok EmptyString
                          | _ => toStr x
                          end) l)
  | VObj o =>
      if hasOwn "toString" o then Throw notPrimitive
      else Ok "[object Object]"
  end.

(** [Number(v)]: an array or an object by the string it converts to. *)
Definition toNum (v : Value) : Res num :=
  match v with
  | VUndef => Ok NaN
  | VNull => Ok (Fin 0 0)
  | VBool true => Ok (Fin 1 0)
  | VBool false => Ok (Fin 0 0)
  | VNum n => Ok n
  | VStr s => Ok (ofString s)
  | VArr _ | VObj _ => mapOk ofString (toStr v)
  end.

(** [o.k] for an object. *)
Definition get (o : Obj) (k : string) : Value :=
  match lookup k o with Some v => v | None => VUndef end.

(** [o[k] = v]: in place when the key exists, appended otherwise. *)
Fixpoint set (k : string) (v : Value) (o : Obj) : Obj :=
  match o with
  | [] => [(k, v)]
  | (k', v') :: o' =>
      if String.eqb k k' then (k, v) :: o' else (k', v') :: set k v o'
  end.

(** [{...a, ...b}] *)
Definition spread (a b : Obj) : Obj :=
  fold_left (fun acc kv => set (fst kv) (snd kv) acc) b a.

Definition indexName (i : nat) : string := zString (Z.of_nat i).

Fixpoint indexed {A} (i : nat) (l : list A) : list (string * A) :=
  match l with
  | [] => []
  | x :: l' => (indexName i, x) :: indexed (S i) l'
  end.

Fixpoint chars (s : string) : list Value :=
  match s with
  | EmptyString => []
  | String c s' => VStr (String c EmptyString) :: chars s'
  end.

(** [Object.entries(v)]: a TypeError on [null] and [undefined], the indexed
    elements of an array or a string, nothing for a number or a boolean. *)
Definition entries (v : Value) : Res Obj :=
  match v with
  | VUndef | VNull =>
      Throw (TypeError "Cannot convert undefined or null to object")
  | VObj o => Ok o
  | VArr l => Ok (indexed 0 l)
  | VStr s => Ok (indexed 0 (chars s))
  | VBool _ | VNum _ => Ok []
  end.

(** [v.k] for an arbitrary receiver and one of the data keys the templates
    read: a TypeError on [null] and [undefined], [undefined] on a primitive
    or an array. *)
Definition prop (v : Value) (k : string) : Res Value :=
  match v with
  | VUndef | VNull =>
      Throw (TypeError ("Cannot read properties of "
                          ++ match v with VNull => "null" | _ => "undefined" end))
  | VObj o => Ok (get o k)
  | _ => Ok VUndef
  end.

End Js.

(** ** Regular expressions

    A backtracking matcher with the priorities of the JavaScript one: the
    alternatives of [|] from left to right, a greedy star trying one more
    iteration first, a lazy star trying the continuation first.  Matching
    is in continuation-passing style; the first success is the match. *)

Module Regex.

Inductive re : Type :=
| Eps
| Cls (p : ascii -> bool)
| Cat (a b : re)
| Alt (a b : re)
| Star (greedy : bool) (a : re)
| Cap (i : nat) (a : re).

Definition Caps : Type := list (nat * string).

Fixpoint cap (i : nat) (c : Caps) : option string :=
  match c with
  | [] => None
  | (j, s) :: c' => if (i =? j)%nat then Some s else cap i c'
  end.

(** The first [n] characters of [s]. *)
Fixpoint take (n : nat) (s : string) : string :=
  match n, s with
  | S n', String c s' => String c (take n' s')
  | _, _ => EmptyString
  end.

Section Run.

Variable R : Type.

(** The iterations of a star over [step], the matcher of its body.  An
    iteration that consumes nothing is refused, so [n], one more than the
    length of the text, bounds their number. *)
Fixpoint starLoop
  (step : string -> Caps -> (string -> Caps -> option R) -> option R)
  (greedy : bool) (k : string -> Caps -> option R)
  (n : nat) (s : string) (c : Caps) {struct n} : option R :=
  match n with
  | O => k s c
  | S n' =>
      let more :=
        step s c (fun s' c' =>
          if (String.length s' <? String.length s)%nat
          then starLoop step greedy k n' s' c' else None) in
      if greedy
      then match more with Some x => Some x | None => k s c end
      else match k s c with Some x => Some x | None => more end
  end.

Fixpoint run (r : re) (s : string) (c : Caps)
  (k : string -> Caps -> option R) {struct r} : option R :=
  match r with
  | Eps => k s c
  | Cls p =>
      match s with
      | String a s' => if p a then k s' c else None
      | EmptyString => None
      end
  | Cat a b => run a s c (fun s' c' => run b s' c' k)
  | Alt a b =>
      match run a s c k with
      | Some x => Some x
      | None => run b s c k
      end
  | Star g a => starLoop (run a) g k (S (String.length s)) s c
  | Cap i a =>
      run a s c (fun s' c' =>
        k s' ((i, take (String.length s - String.length s') s) :: c'))
  end.

End Run.

(** The result of [s.match(r)] for a pattern without the [g] flag: the text
    before the match, the matched text, the groups and the text after. *)
Record Match : Type := {
  before : string;
  whole : string;
  groups : Caps;
  after : string
}.

Definition group (i : nat) (m : Match) : string :=
  match cap i (groups m) with Some s => s | None => EmptyString end.

Fixpoint searchFrom (r : re) (pre : list ascii) (s : string) : option Match :=
  match run r s [] (fun s' c => Some (s', c)) with
  | Some (s', c) =>
      Some {| before := string_of_list_ascii (rev pre);
              whole := take (String.length s - String.length s') s;
              groups := c;
              after := s' |}
  | None =>
      match s with
      | String a s' => searchFrom r (a :: pre) s'
      | EmptyString => None
      end
  end.

(** [s.match(r)] *)
Definition exec (r : re) (s : string) : option Match := searchFrom r [] s.

(** [r.test(s)] *)
Definition test (r : re) (s : string) : bool :=
  match exec r s with Some _ => true | None => false end.

(** Pattern builders. *)
Definition chr (c : ascii) : re := Cls (Ascii.eqb c).

(** A letter under the [i] flag. *)
Definition chrI (c : ascii) : re :=
  Cls (fun a => Ascii.eqb (Str.lowerChar a) (Str.lowerChar c)).

Fixpoint lit (s : string) : re :=
  match s with
  | EmptyString => Eps
  | String c EmptyString => chr c
  | String c s' => Cat (chr c) (lit s')
  end.

Fixpoint litI (s : string) : re :=
  match s with
  | EmptyString => Eps
  | String c EmptyString => chrI c
  | String c s' => Cat (chrI c) (litI s')
  end.

Definition plus (g : bool) (a : re) : re := Cat a (Star g a).

Fixpoint alts (l : list re) : re :=
  match l with
  | [] => Cls (fun _ => false)
  | [a] => a
  | a :: l' => Alt a (alts l')
  end.

Fixpoint cats (l : list re) : re :=
  match l with
  | [] => Eps
  | [a] => a
  | a :: l' => Cat a (cats l')
  end.

(** [.], [\s], [\w] and a negated set of characters. *)
Definition dot : re := Cls (fun a => negb (Str.isLineTerminator a)).
Definition space : re := Cls Str.isSpace.
Definition word : re := Cls Str.isWord.
Definition noneOf (s : string) : re :=
  Cls (fun a => negb (existsb (Ascii.eqb a) (list_ascii_of_string s))).
Definition oneOf (s : string) : re :=
  Cls (fun a => existsb (Ascii.eqb a) (list_ascii_of_string s)).

End Regex.

(** ** Effects

    The host supplies what the code reads from its environment.  A
    computation threads a state and either returns or throws. *)

Module Eff.

Import Js.

(** The random source: the draws of [Math.random()], in order. *)
Record Random : Type := {
  (** [Math.floor(r * 16)] for the [k]-th draw [r] *)
  random16 : nat -> Z;
  (** [r.toString(36).substr(2, 9)] for the [k]-th draw [r] *)
  random36 : nat -> string
}.

(** The clock, the process environment and the date parser. *)
Record World : Type := {
  (** the [k]-th [new Date().toISOString()] *)
  nowISO : nat -> string;
  (** [process.env[name]] *)
  environ : string -> option string;
  (** [!isNaN(Date.parse(s))] *)
  dateParses : string -> bool
}.

Record Host : Type := {
  randomSource : Random;
  world : World
}.

Definition M (S A : Type) : Type := S -> Res (A * S).

Definition ret {S A} (a : A) : M S A := fun s => Ok (a, s).

Definition bind {S A B} (m : M S A) (k : A -> M S B) : M S B :=
  fun s => match m s with
           | Ok (a, s') => k a s'
           | Throw e => Throw e
           end.

Definition throw {S A} (e : Exn) : M S A := fun _ => Throw e.

Definition lift {S A} (r : Res A) : M S A :=
  fun s => match r with Ok a => Ok (a, s) | Throw e => Throw e end.

(** [l.map(f)] for an effectful [f], left to right. *)
Fixpoint mapM {S A B} (f : A -> M S B) (l : list A) : M S (list B) :=
  match l with
  | [] => ret []
  | x :: l' =>
      bind (f x) (fun y => bind (mapM f l') (fun ys => ret (y :: ys)))
  end.

End Eff.

Declare Scope eff_scope.
Delimit Scope eff_scope with eff.
Notation "x <- c ;; k" := (Eff.bind c (fun x => k))
  (at level 61, c at next level, right associativity) : eff_scope.
Notation "' p <- c ;; k" := (Eff.bind c (fun x => let 'p := x in k))
  (at level 61, p pattern, c at next level, right associativity) : eff_scope.

(** ** The node template registry, [src/generator/nodeTemplates.ts] *)

Module Templates.

Import Js Eff Regex.
Local Open Scope eff_scope.

Section WithHost.

Variable rs : Random.

(** A template runs in the state of the random source: the number of
    draws made so far. *)
Definition T (A : Type) : Type := M nat A.

(** [Math.random().toString(36).substr(2, 9)] *)
Definition generateId : T string := fun k => Ok (random36 rs k, S k).

(** [Object.entries(v).map(([name, value]) => ({name, value: String(value)}))] *)
Definition nameValuePairs (v : Value) : Res Value :=
  match entries v with
  | Ok o =>
      mapOk VArr
        (mapRes (fun kv =>
                   mapOk (fun value => VObj [("name", VStr (fst kv));
                                             ("value", VStr value)])
                     (toStr (snd kv))) o)
  | Throw e => Throw e
  end.

(** [HttpRequestTemplate.mapParameters] *)
Definition HttpRequestTemplate (params : Obj) : T Obj :=
  let mapped :=
    [("method", or (get params "method") (VStr "GET"));
     ("url", or (get params "url") (VStr ""))] in
  mapped <-
    (if truthy (get params "headers") && isObject (get params "headers")
     then ps <- lift (nameValuePairs (get params "headers")) ;;
          ret (set "headerParameters" (VObj [("parameters", ps)])
                 (set "sendHeaders" (VBool true) mapped))
     else ret mapped) ;;
  mapped <-
    (if truthy (get params "body")
     then ps <- lift (nameValuePairs (get params "body")) ;;
          ret (set "bodyParameters" (VObj [("parameters", ps)])
                 (set "sendBody" (VBool true) mapped))
     else ret mapped) ;;
  ret mapped.

(** [GmailTemplate.mapParameters] *)
Definition GmailTemplate (params : Obj) : T Obj :=
  ret (spread
         [("operation", VStr "send");
          ("sendTo", or (get params "to") (VStr ""));
          ("subject", or (get params "subject") (VStr ""));
          ("message", or (get params "body") (VStr ""));
          ("emailType", or (get params "bodyType") (VStr "text"))]
         params).

(** [/(.+?)\s*(>=|<=|>|<|==|!=)\s*(.+)/] *)
Definition comparisonRegex : re :=
  cats [Cap 1 (plus false dot);
        Star true space;
        Cap 2 (alts (map lit [">="; "<="; ">"; "<"; "=="; "!="]));
        Star true space;
        Cap 3 (plus true dot)].

(** [IfTemplate.mapOperator] *)
Definition mapOperator (op : string) : string :=
  if String.eqb op "==" then "equal"
  else if String.eqb op "!=" then "notEqual"
  else if String.eqb op ">" then "larger"
  else if String.eqb op "<" then "smaller"
  else if String.eqb op ">=" then "largerEqual"
  else if String.eqb op "<=" then "smallerEqual"
  else "equal".

(** [IfTemplate.getOperatorType] *)
Definition getOperatorType (value : string) : string :=
  if negb (Num.isNaN (Num.ofString value)) then "number"
  else if String.eqb value "true" || String.eqb value "false" then "boolean"
  else "string".

Definition ifOptions : Value :=
  VObj [("caseSensitive", VBool true);
        ("leftValue", VStr "");
        ("typeValidation", VStr "strict")].

(** [IfTemplate.mapParameters] *)
Definition IfTemplate (params : Obj) : T Obj :=
  match or (get params "condition") (VStr "") with
  | VStr condition =>
      match exec comparisonRegex condition with
      | Some m =>
          let leftValue := group 1 m in
          let operator := group 2 m in
          let rightValue := group 3 m in
          id <- generateId ;;
          ret [("conditions",
                VObj [("options", ifOptions);
                      ("conditions",
                       VArr [VObj
                         [("id", VStr id);
                          ("leftValue", VStr (Str.trim leftValue));
                          ("rightValue", VStr (Str.trim rightValue));
                          ("operator",
                           VObj [("type",
                                  VStr (getOperatorType (Str.trim rightValue)));
                                 ("operation",
                                  VStr (mapOperator (Str.trim operator)))])]]);
                      ("combinator", VStr "and")])]
      | None =>
          id <- generateId ;;
          ret [("conditions",
                VObj [("options", ifOptions);
                      ("conditions",
                       VArr [VObj
                         [("id", VStr id);
                          ("leftValue", VStr condition);
                          ("rightValue", VStr "true");
                          ("operator",
                           VObj [("type", VStr "boolean");
                                 ("operation", VStr "equal")])]]);
                      ("combinator", VStr "and")])]
      end
  | _ => throw (TypeError "condition.match is not a function")
  end.

Definition intervalRule (item : Obj) : Obj :=
  [("rule", VObj [("interval", VArr [VObj item])])].

(** [ScheduleTriggerTemplate.mapParameters] *)
Definition ScheduleTriggerTemplate (params : Obj) : T Obj :=
  let hourly :=
    intervalRule [("field", VStr "hours"); ("hoursInterval", int 1)] in
  if truthy (get params "cron") then
    match get params "cron" with
    | VStr cron =>
        let cronParts := Str.split " " cron in
        if (5 <=? List.length cronParts)%nat
        then ret (intervalRule [("field", VStr "cronExpression");
                                ("cronExpression", VStr cron)])
        else ret hourly
    | _ => throw (TypeError "params.cron.split is not a function")
    end
  else ret hourly.

(** [CodeTemplate.mapParameters] *)
Definition CodeTemplate (params : Obj) : T Obj :=
  ret [("mode", VStr "runOnceForAllItems");
       ("jsCode", or (get params "code") (VStr "return items;"))].

(** [SetTemplate.getValueType] *)
Definition getValueType (value : Value) : string :=
  match value with
  | VNum _ => "number"
  | VBool _ => "boolean"
  | VArr _ => "array"
  | VNull | VObj _ => "object"
  | VUndef | VStr _ => "string"
  end.

(** [SetTemplate.mapParameters] *)
Definition SetTemplate (params : Obj) : T Obj :=
  assignments <-
    (if truthy (get params "assignments") && isObject (get params "assignments")
     then es <- lift (entries (get params "assignments")) ;;
          mapM (fun kv =>
                  id <- generateId ;;
                  value <- lift (toStr (snd kv)) ;;
                  ret (VObj [("id", VStr id);
                             ("name", VStr (fst kv));
                             ("value", VStr value);
                             ("type", VStr (getValueType (snd kv)))])) es
     else ret []) ;;
  ret [("assignments", VObj [("assignments", VArr assignments)]);
       ("options", VObj [])].

(** [ManualTriggerTemplate.mapParameters] *)
Definition ManualTriggerTemplate (params : Obj) : T Obj := ret [].

(** [NODE_TEMPLATES] *)
Definition NODE_TEMPLATES : list (string * (Obj -> T Obj)) :=
  [("n8n-nodes-base.httpRequest", HttpRequestTemplate);
   ("n8n-nodes-base.gmail", GmailTemplate);
   ("n8n-nodes-base.if", IfTemplate);
   ("n8n-nodes-base.scheduleTrigger", ScheduleTriggerTemplate);
   ("n8n-nodes-base.code", CodeTemplate);
   ("n8n-nodes-base.set", SetTemplate);
   ("n8n-nodes-base.manualTrigger", ManualTriggerTemplate)].

(** [getNodeTemplate] *)
Fixpoint find {A} (k : string) (l : list (string * A)) : option A :=
  match l with
  | [] => None
  | (k', a) :: l' => if String.eqb k k' then Some a else find k l'
  end.

Definition getNodeTemplate (nodeType : string) : option (Obj -> T Obj) :=
  find nodeType NODE_TEMPLATES.

End WithHost.

End Templates.

(** ** The richer variants of the template file

    The repository holds two further versions of [nodeTemplates.ts].
    [VariantTyped] is the one that infers operand types and normalises
    operator names; [VariantCompound] adds the splitting of compound
    conditions.  Their request strategies coincide.  Properties inherited
    from [Object.prototype] (a key such as [constructor] looked up in a
    table) are outside the model: tables hold their own keys only. *)

Module VariantCommon.

Import Js Eff Regex.
Local Open Scope eff_scope.

Section WithHost.

Variable rs : Random.
Variable w : World.

Definition T (A : Type) : Type := M nat A.

Definition generateId : T string := fun k => Ok (random36 rs k, S k).

(** [v.k] once [v] is known not to be [null] or [undefined]. *)
Definition field (v : Value) (k : string) : Value :=
  match v with VObj o => get o k | _ => VUndef end.

(** [v === s] for a string [s] *)
Definition isStr (s : string) (v : Value) : bool :=
  match v with VStr x => String.eqb x s | _ => false end.

(** [v !== false] *)
Definition notFalse (v : Value) : bool :=
  match v with VBool false => false | _ => true end.

Definition nameValuePairs (v : Value) : Res Value :=
  match entries v with
  | Ok o =>
      mapOk VArr
        (mapRes (fun kv =>
                   mapOk (fun value => VObj [("name", VStr (fst kv));
                                             ("value", VStr value)])
                     (toStr (snd kv))) o)
  | Throw e => Throw e
  end.

Definition listed (key : string) (flag : string) (v : Value) (mapped : Obj)
  : T Obj :=
  if truthy v && isObject v
  then ps <- lift (nameValuePairs v) ;;
       ret (set key (VObj [("parameters", ps)]) (set flag (VBool true) mapped))
  else ret mapped.

(** The methods that carry a body: [['POST', 'PUT', 'PATCH'].includes(m)]. *)
Definition carriesBody (method : Value) : bool :=
  existsb (fun m => isStr m method) ["POST"; "PUT"; "PATCH"].

(** The block [Handle body for POST/PUT/PATCH requests]. *)
Definition withBody (params mapped : Obj) : T Obj :=
  let body := get params "body" in
  if truthy body && carriesBody (get mapped "method")
  then
    let mapped := set "sendBody" (VBool true) mapped in
    match body with
    | VStr _ =>
        ret (set "body" body
               (set "rawContentType" (VStr "application/json")
                  (set "contentType" (VStr "raw") mapped)))
    | _ =>
        if isObject body
        then ps <- lift (nameValuePairs body) ;;
             ret (set "jsonParameters" (VObj [("parameters", ps)])
                    (set "contentType" (VStr "json") mapped))
        else ret mapped
    end
  else ret mapped.

(** The block [Handle authentication if provided]. *)
Definition withAuth (params mapped : Obj) : T Obj :=
  let auth := get params "auth" in
  if truthy auth
  then
    type <- lift (prop auth "type") ;;
    let mapped := set "authentication" (or type (VStr "none")) mapped in
    if isStr "basicAuth" type
    then ret (set "basicAuth"
                (VObj [("user", or (field auth "username") (VStr ""));
                       ("password", or (field auth "password") (VStr ""))])
                mapped)
    else if isStr "headerAuth" type
    then ret (set "headerAuth"
                (VObj [("name", or (field auth "name") (VStr "Authorization"));
                       ("value", or (field auth "value") (VStr ""))])
                mapped)
    else ret mapped
  else ret mapped.

(** The block [Additional options]. *)
Definition withTimeout (params mapped : Obj) : T Obj :=
  if truthy (get params "timeout")
  then timeout <- lift (toNum (get params "timeout")) ;;
       ret (set "timeout" (VNum timeout) mapped)
  else ret mapped.

(** [HttpRequestTemplate.mapParameters], the same in both variants. *)
Definition HttpRequestTemplate (params : Obj) : T Obj :=
  let mapped :=
    [("method", or (get params "method") (VStr "GET"));
     ("url", or (get params "url") (VStr ""));
     ("authentication", VStr "none");
     ("requestMethod", or (get params "method") (VStr "GET"))] in
  mapped <- listed "queryParameters" "sendQuery"
              (get params "queryParameters") mapped ;;
  mapped <- listed "headerParameters" "sendHeaders"
              (get params "headers") mapped ;;
  mapped <- withBody params mapped ;;
  mapped <- withAuth params mapped ;;
  mapped <- withTimeout params mapped ;;
  ret mapped.

(** [operationMap[op.toLowerCase()] || dflt] *)
Definition mapOperationWith (table : list (string * string)) (dflt : string)
  (op : Value) : Res string :=
  match op with
  | VStr s =>
      match Templates.find (Str.toLowerCase s) table with
      | Some r => Ok r
      | None => Ok dflt
      end
  | _ => Throw (TypeError "op.toLowerCase is not a function")
  end.

(** [IfTemplate.getDataType] *)
Definition typeMap : list (string * string) :=
  [("string", "string"); ("number", "number"); ("boolean", "boolean");
   ("array", "array"); ("object", "object"); ("datetime", "dateTime");
   ("date", "dateTime")].

Definition getDataType (type : Value) : string :=
  match type with
  | VStr s =>
      match Templates.find (Str.toLowerCase s) typeMap with
      | Some r => r
      | None => "string"
      end
  | _ => "string"
  end.

(** [!isNaN(Number(value)) && value.trim() !== ''] *)
Definition numericText (s : string) : bool :=
  negb (Num.isNaN (Num.ofString s)) && negb (Str.isEmpty (Str.trim s)).

(** [IfTemplate.inferDataType] *)
Definition inferDataType (value : Value) : string :=
  match value with
  | VNum _ => "number"
  | VBool _ => "boolean"
  | VStr s =>
      if numericText s then "number"
      else if String.eqb s "true" || String.eqb s "false" then "boolean"
      else if dateParses w s then "dateTime"
      else "string"
  | _ => "string"
  end.

(** [IfTemplate.parseValue] *)
Definition parseValue (value : Value) : Value :=
  match value with
  | VStr s =>
      if numericText s then VNum (Num.ofString s)
      else if String.eqb s "true" then VBool true
      else if String.eqb s "false" then VBool false
      else value
  | _ => value
  end.

(** The [options] record of a conditions object. *)
Definition conditionOptions (caseSensitive : bool) : Value :=
  VObj [("version", int 2);
        ("leftValue", VStr "");
        ("caseSensitive", VBool caseSensitive);
        ("typeValidation", VStr "strict")].

Section Branches.

(** The operator table and its default differ between the variants. *)
Variable mapOperation : Value -> Res string.

(** One element of [params.conditions.map(...)]. *)
Definition structured (cond : Value) : T Value :=
  id0 <- lift (prop cond "id") ;;
  id <- (if truthy id0 then ret id0
         else s <- generateId ;; ret (VStr s)) ;;
  let right := or (field cond "rightValue") (field cond "right") in
  let type := getDataType (or (field cond "dataType")
                             (VStr (inferDataType right))) in
  operation <- lift (mapOperation
                       (or (field cond "operator")
                          (or (field cond "operation") (VStr "eq")))) ;;
  ret (VObj [("id", id);
             ("leftValue",
              or (field cond "leftValue") (or (field cond "left") (VStr "")));
             ("rightValue", or right (VStr ""));
             ("operator",
              VObj [("type", VStr type); ("operation", VStr operation)])]).

(** The branch taken when [params.conditions] is an array. *)
Definition fromList (params : Obj) (mapped : Obj) (conds : list Value)
  : T Obj :=
  let options := conditionOptions (notFalse (get params "caseSensitive")) in
  let combinator := or (get params "combinator") (VStr "and") in
  cs <- mapM structured conds ;;
  ret (set "conditions"
         (VObj [("options", options);
                ("combinator", combinator);
                ("conditions", VArr cs)]) mapped).

(** The branch taken when [leftValue] or [rightValue] is given. *)
Definition fromFields (params : Obj) (mapped : Obj) : T Obj :=
  let options := conditionOptions (notFalse (get params "caseSensitive")) in
  let combinator := or (get params "combinator") (VStr "and") in
  id <- generateId ;;
  let type := getDataType (or (get params "dataType")
                             (VStr (inferDataType (get params "rightValue")))) in
  operation <- lift (mapOperation
                       (or (get params "operator")
                          (or (get params "operation") (VStr "eq")))) ;;
  ret (set "conditions"
         (VObj [("options", options);
                ("combinator", combinator);
                ("conditions",
                 VArr [VObj
                   [("id", VStr id);
                    ("leftValue", or (get params "leftValue") (VStr ""));
                    ("rightValue", parseValue (get params "rightValue"));
                    ("operator",
                     VObj [("type", VStr type);
                           ("operation", VStr operation)])]])]) mapped).

(** The fallback for an empty condition. *)
Definition fromNothing (mapped : Obj) : T Obj :=
  id <- generateId ;;
  ret (set "conditions"
         (VObj [("options", conditionOptions true);
                ("combinator", VStr "and");
                ("conditions",
                 VArr [VObj
                   [("id", VStr id);
                    ("leftValue", VStr "");
                    ("rightValue", VStr "");
                    ("operator",
                     VObj [("type", VStr "string");
                           ("operation", VStr "eq")])]])]) mapped).

End Branches.

End WithHost.

End VariantCommon.

(** *** The variant with typed operands *)

Module VariantTyped.

Import Js Eff Regex VariantCommon.
Local Open Scope eff_scope.

Section WithHost.

Variable rs : Random.
Variable w : World.

(** [IfTemplate.mapOperation] *)
Definition operationMap : list (string * string) :=
  [("==", "eq"); ("!=", "ne"); (">", "gt"); ("<", "lt"); (">=", "gte");
   ("<=", "lte"); ("contains", "contains"); ("startswith", "startsWith");
   ("endswith", "endsWith"); ("regex", "regex"); ("equal", "eq");
   ("notequal", "ne"); ("larger", "gt"); ("smaller", "lt");
   ("largerequal", "gte"); ("smallerequal", "lte"); ("eq", "eq");
   ("ne", "ne"); ("gt", "gt"); ("lt", "lt"); ("gte", "gte"); ("lte", "lte")].

Definition mapOperation : Value -> Res string :=
  mapOperationWith operationMap "eq".

(** [/(.+?)\s*(>=|<=|>|<|==|!=|contains|startsWith|endsWith|regex)\s*(.+)/i] *)
Definition comparisonRegex : re :=
  cats [Cap 1 (plus false dot);
        Star true space;
        Cap 2 (alts (map litI [">="; "<="; ">"; "<"; "=="; "!="; "contains";
                               "startsWith"; "endsWith"; "regex"]));
        Star true space;
        Cap 3 (plus true dot)].

(** [IfTemplate.mapParameters] *)
Definition IfTemplate (params : Obj) : T Obj :=
  let mapped := [("options", or (get params "options") (VObj []))] in
  match get params "conditions" with
  | VArr conds => fromList rs w mapOperation params mapped conds
  | _ =>
      match or (get params "condition") (VStr "") with
      | VStr condition =>
          match exec comparisonRegex condition with
          | Some m =>
              let operator := group 2 m in
              let rightValue := Str.trim (group 3 m) in
              let options :=
                conditionOptions (notFalse (get params "caseSensitive")) in
              id <- generateId rs ;;
              let type :=
                getDataType (or (get params "dataType")
                               (VStr (inferDataType w (VStr rightValue)))) in
              operation <- lift (mapOperation
                                   (VStr (Str.toLowerCase (Str.trim operator)))) ;;
              ret (set "conditions"
                     (VObj [("options", options);
                            ("combinator", VStr "and");
                            ("conditions",
                             VArr [VObj
                               [("id", VStr id);
                                ("leftValue", VStr (Str.trim (group 1 m)));
                                ("rightValue", parseValue (VStr rightValue));
                                ("operator",
                                 VObj [("type", VStr type);
                                       ("operation", VStr operation)])]])])
                     mapped)
          | None =>
              if negb (isUndefined (get params "leftValue"))
                 || negb (isUndefined (get params "rightValue"))
              then fromFields rs w mapOperation params mapped
              else fromNothing rs mapped
          end
      | _ => throw (TypeError "condition.match is not a function")
      end
  end.

End WithHost.

End VariantTyped.

(** *** The variant with compound conditions *)

Module VariantCompound.

Import Js Eff Regex VariantCommon.
Local Open Scope eff_scope.

Section WithHost.

Variable rs : Random.
Variable w : World.

(** [IfTemplate.mapOperation] *)
Definition operationMap : list (string * string) :=
  [("==", "equals"); ("===", "equals"); ("!=", "notEquals");
   ("!==", "notEquals"); (">", "gt"); ("<", "lt"); (">=", "gte");
   ("<=", "lte"); ("contains", "contains"); ("includes", "contains");
   ("startswith", "startsWith"); ("endswith", "endsWith"); ("regex", "regex");
   ("equal", "equals"); ("equals", "equals"); ("notequal", "notEquals");
   ("larger", "gt"); ("smaller", "lt"); ("largerequal", "gte");
   ("smallerequal", "lte"); ("eq", "equals"); ("ne", "notEquals");
   ("gt", "gt"); ("lt", "lt"); ("gte", "gte"); ("lte", "lte")].

Definition mapOperation : Value -> Res string :=
  mapOperationWith operationMap "equals".

(** The two quote characters, ['] and the double quote. *)
Definition quotes : string := String "'" (String "034"%char EmptyString).

(** [IfTemplate.isComplexExpression]: the patterns [/\|\|/], [/&&/],
    [/\.includes\(/], [/\.toLowerCase\(/], [/\.toUpperCase\(/],
    [/\$\{.*\}/] and [/\(/]. *)
Definition complexPatterns : list re :=
  [lit "||"; lit "&&"; lit ".includes("; lit ".toLowerCase(";
   lit ".toUpperCase("; cats [lit "${"; Star true dot; chr "}"]; lit "("].

Definition isComplexExpression (condition : string) : bool :=
  existsb (fun pattern => test pattern condition) complexPatterns.

(** [/(\w+)\.output\.(\w+)\.toLowerCase\(\)\.includes\(Q([^Q]+)Q\)/],
    where [Q] stands for the class of the two quote characters. *)
Definition includesRegex : re :=
  cats [Cap 1 (plus true word); lit ".output."; Cap 2 (plus true word);
        lit ".toLowerCase().includes("; oneOf quotes;
        Cap 3 (plus true (noneOf quotes)); oneOf quotes; chr ")"].

(** [/(\w+)\.output\.(\w+)/] *)
Definition nodeRefRegex : re :=
  cats [Cap 1 (plus true word); lit ".output."; Cap 2 (plus true word)].

(** The expression [{{ $('node').item.json.field }}]. *)
Definition itemRef (nodeName field : string) : string :=
  "{{ $('" ++ nodeName ++ "').item.json." ++ field ++ " }}".

Definition operatorOf (type operation : string) : Value :=
  VObj [("type", VStr type);
        ("operation", VStr operation);
        ("name", VStr ("filter.operator." ++ operation))].

(** [IfTemplate.parseConditionPart] *)
Definition parseConditionPart (part : string) : T Value :=
  match exec includesRegex part with
  | Some m =>
      id <- generateId rs ;;
      ret (VObj [("id", VStr id);
                 ("leftValue", VStr (itemRef (group 1 m) (group 2 m)));
                 ("rightValue", VStr (group 3 m));
                 ("operator", operatorOf "string" "contains")])
  | None =>
      match exec nodeRefRegex part with
      | Some m =>
          id <- generateId rs ;;
          ret (VObj [("id", VStr id);
                     ("leftValue", VStr (itemRef (group 1 m) (group 2 m)));
                     ("rightValue", VStr "");
                     ("operator", operatorOf "string" "exists")])
      | None =>
          id <- generateId rs ;;
          ret (VObj [("id", VStr id);
                     ("leftValue", VStr ("{{ " ++ part ++ " }}"));
                     ("rightValue", VBool true);
                     ("operator", operatorOf "boolean" "equals")])
      end
  end.

(** [condition.replace(/^\$\{|\}$/g, '')]: the leading [${] and the
    closing [}] of what remains are removed. *)
Definition dropOpen (s : string) : string :=
  match s with
  | String "$" (String "{" r) => r
  | _ => s
  end.

Definition cleanCondition (condition : string) : string :=
  Str.dropLast "}" (dropOpen condition).

(** [IfTemplate.parseComplexCondition] *)
Definition parseComplexCondition (condition : string)
  : T (string * list Value) :=
  let clean := cleanCondition condition in
  if Str.includes "||" clean then
    cs <- mapM parseConditionPart (map Str.trim (Str.split "||" clean)) ;;
    ret ("or", cs)
  else if Str.includes "&&" clean then
    cs <- mapM parseConditionPart (map Str.trim (Str.split "&&" clean)) ;;
    ret ("and", cs)
  else
    c <- parseConditionPart clean ;;
    ret ("and", [c]).

(** [/(.+?)\s*(>=|<=|>|<|==|!=|===|!==|contains|startsWith|endsWith|regex|includes)\s*(.+)/i] *)
Definition comparisonRegex : re :=
  cats [Cap 1 (plus false dot);
        Star true space;
        Cap 2 (alts (map litI [">="; "<="; ">"; "<"; "=="; "!="; "==="; "!==";
                               "contains"; "startsWith"; "endsWith"; "regex";
                               "includes"]));
        Star true space;
        Cap 3 (plus true dot)].

(** [IfTemplate.mapParameters] *)
Definition IfTemplate (params : Obj) : T Obj :=
  let mapped := [("options", or (get params "options") (VObj []))] in
  match get params "conditions" with
  | VArr conds => fromList rs w mapOperation params mapped conds
  | _ =>
      let condition := or (get params "condition") (VStr "") in
      text <- lift (toStr condition) ;;
      if isComplexExpression text then
        match condition with
        | VStr c =>
            '(combinator, cs) <- parseComplexCondition c ;;
            ret (set "conditions"
                   (VObj [("options",
                           conditionOptions
                             (notFalse (get params "caseSensitive")));
                          ("combinator", VStr combinator);
                          ("conditions", VArr cs)]) mapped)
        | _ => throw (TypeError "condition.replace is not a function")
        end
      else
        match condition with
        | VStr c =>
            match exec comparisonRegex c with
            | Some m =>
                let operator := group 2 m in
                let rightValue := Str.trim (group 3 m) in
                let options :=
                  conditionOptions (notFalse (get params "caseSensitive")) in
                id <- generateId rs ;;
                let type :=
                  getDataType (or (get params "dataType")
                                 (VStr (inferDataType w (VStr rightValue)))) in
                operation <-
                  lift (mapOperation
                          (VStr (Str.toLowerCase (Str.trim operator)))) ;;
                ret (set "conditions"
                       (VObj [("options", options);
                              ("combinator", VStr "and");
                              ("conditions",
                               VArr [VObj
                                 [("id", VStr id);
                                  ("leftValue", VStr (Str.trim (group 1 m)));
                                  ("rightValue", parseValue (VStr rightValue));
                                  ("operator", operatorOf type operation)]])])
                       mapped)
            | None =>
                if negb (isUndefined (get params "leftValue"))
                   || negb (isUndefined (get params "rightValue"))
                then fromFields rs w mapOperation params mapped
                else fromNothing rs mapped
            end
        | _ => throw (TypeError "condition.match is not a function")
        end
  end.

End WithHost.

End VariantCompound.

(** ** The abstract syntax tree, [src/types/dsl.ts] *)

Module Dsl.

Import Js.

(** [line] and [column] of an AST node. *)
Record Loc : Type := { line : option nat; column : option nat }.

Definition noLoc : Loc := {| line := None; column := None |}.

Inductive Literal : Type :=
| LString (s : string)
| LNumber (n : Num.num)
| LBoolean (b : bool).

Definition literalValue (l : Literal) : Value :=
  match l with
  | LString s => VStr s
  | LNumber n => VNum n
  | LBoolean b => VBool b
  end.

#[warnings="-register-all"]
Inductive Expression : Type :=
| LiteralExpression (value : Literal)
| IdentifierExpression (name : string)
| FunctionCallExpression (functionName : string) (arguments : list Expression)
| TemplateExpression (template : string)
| ObjectExpression (properties : list (string * Expression))
| ArrayExpression (elements : list Expression).

Record ParameterDeclaration : Type := {
  paramName : string;
  paramType : string;
  defaultValue : option Expression;
  required : bool;
  paramLoc : Loc
}.

Record VariableDeclaration : Type := {
  varName : string;
  varValue : Expression;
  varLoc : Loc
}.

Record NodeDeclaration : Type := {
  nodeName : string;
  nodeType : string;
  nodeParameters : list (string * Expression);
  position : option (Z * Z);
  nodeLoc : Loc
}.

Record ModuleDeclaration : Type := {
  moduleName : string;
  modulePath : string;
  moduleParameters : list (string * Expression);
  moduleLoc : Loc
}.

(** [NodeDeclaration | ModuleDeclaration] *)
Inductive NodeEntry : Type :=
| Node (n : NodeDeclaration)
| Module (m : ModuleDeclaration).

Definition entryName (e : NodeEntry) : string :=
  match e with
  | Node n => nodeName n
  | Module m => moduleName m
  end.

Definition entryLoc (e : NodeEntry) : Loc :=
  match e with
  | Node n => nodeLoc n
  | Module m => moduleLoc m
  end.

Record ConnectionDeclaration : Type := {
  sourceNode : string;
  sourceOutput : option string;
  targetNode : string;
  targetInput : option string;
  connLoc : Loc
}.

Record WorkflowDeclaration : Type := {
  workflowName : string;
  parameters : list ParameterDeclaration;
  variables : list VariableDeclaration;
  nodes : list NodeEntry;
  connections : list ConnectionDeclaration
}.

Record Program : Type := { workflow : WorkflowDeclaration }.

(** [DSL_TO_N8N_NODE_TYPES] *)
Definition DSL_TO_N8N_NODE_TYPES : list (string * string) :=
  [("trigger.manual", "n8n-nodes-base.manualTrigger");
   ("trigger.schedule", "n8n-nodes-base.scheduleTrigger");
   ("trigger.webhook", "n8n-nodes-base.webhook");
   ("trigger.form", "n8n-nodes-base.formTrigger");
   ("data.set", "n8n-nodes-base.set");
   ("data.transform", "n8n-nodes-base.code");
   ("flow.if", "n8n-nodes-base.if");
   ("flow.switch", "n8n-nodes-base.switch");
   ("flow.splitOut", "n8n-nodes-base.splitOut");
   ("flow.aggregate", "n8n-nodes-base.aggregate");
   ("http.request", "n8n-nodes-base.httpRequest");
   ("integration.email", "n8n-nodes-base.gmail");
   ("integration.slack", "n8n-nodes-base.slack");
   ("integration.sheets", "n8n-nodes-base.googleSheets");
   ("util.note", "n8n-nodes-base.stickyNote");
   ("util.noop", "n8n-nodes-base.noOp")].

(** [DEFAULT_TYPE_VERSIONS] *)
Definition DEFAULT_TYPE_VERSIONS : list (string * Num.num) :=
  [("n8n-nodes-base.manualTrigger", Num.Fin 1 0);
   ("n8n-nodes-base.scheduleTrigger", Num.Fin 12 1);
   ("n8n-nodes-base.webhook", Num.Fin 2 0);
   ("n8n-nodes-base.formTrigger", Num.Fin 22 1);
   ("n8n-nodes-base.set", Num.Fin 34 1);
   ("n8n-nodes-base.code", Num.Fin 2 0);
   ("n8n-nodes-base.if", Num.Fin 22 1);
   ("n8n-nodes-base.switch", Num.Fin 1 0);
   ("n8n-nodes-base.httpRequest", Num.Fin 42 1);
   ("n8n-nodes-base.gmail", Num.Fin 21 1);
   ("n8n-nodes-base.googleSheets", Num.Fin 46 1);
   ("n8n-nodes-base.stickyNote", Num.Fin 1 0);
   ("n8n-nodes-base.noOp", Num.Fin 1 0)].

End Dsl.

(** ** The target graph, [src/types/n8n.ts] *)

Module N8n.

Import Js Eff.

Record NodeConnection : Type := {
  node : string;
  type : string;
  index : Z
}.

(** [NodeConnection[][]]: the slots of an output type.  Writing past the
    end of a JavaScript array leaves holes, here [None]. *)
Definition Slots : Type := list (option (list NodeConnection)).

Definition NodeConnections : Type := list (string * Slots).

Definition WorkflowConnections : Type := list (string * NodeConnections).

Record N8nNode : Type := {
  id : string;
  name : string;
  nodeType : string;
  position : Z * Z;
  parameters : Obj;
  typeVersion : Num.num
}.

Record N8nWorkflow : Type := {
  nodes : list N8nNode;
  connections : WorkflowConnections;
  pinData : Obj;
  instanceId : string;
  workflowName : string;
  active : bool;
  executionOrder : string
}.

(** [v.toString(16)] for [0 <= v < 16] *)
Definition hexDigit (v : Z) : ascii :=
  match String.get (Z.to_nat (v mod 16)) "0123456789abcdef" with
  | Some c => c
  | None => "0"%char
  end.

(** [generateNodeId]: every [x] and [y] of the pattern takes one draw. *)
Fixpoint fillPattern (rs : Random) (pattern : string) (k : nat) : string * nat :=
  match pattern with
  | EmptyString => (EmptyString, k)
  | String c rest =>
      if Ascii.eqb c "x" then
        let (s, k') := fillPattern rs rest (S k) in
        (String (hexDigit (random16 rs k)) s, k')
      else if Ascii.eqb c "y" then
        let (s, k') := fillPattern rs rest (S k) in
        (String (hexDigit (Z.lor (Z.land (random16 rs k) 3) 8)) s, k')
      else
        let (s, k') := fillPattern rs rest k in (String c s, k')
  end.

Definition generateNodeId (rs : Random) : M nat string :=
  fun k => Ok (fillPattern rs "xxxxxxxx-xxxx-4xxx-yxxx-xxxxxxxxxxxx" k).

End N8n.

(** ** The generator, [src/generator/generator.ts] *)

Module Generator.

Import Js Eff.
Local Open Scope eff_scope.

Record GeneratorOptions : Type := {
  instanceId : option string;
  autoLayout : option bool;
  startPosition : option (Z * Z);
  spacing : option Z
}.

(** What [processParameters] stores for a parameter. *)
Record ParamInfo : Type := {
  infoType : string;
  infoDefault : Value;
  infoRequired : bool
}.

Definition orElse {A} (o : option A) (d : A) : A :=
  match o with Some a => a | None => d end.

(** [Map.prototype.set] *)
Fixpoint mapSet {A} (k : string) (a : A) (m : list (string * A))
  : list (string * A) :=
  match m with
  | [] => [(k, a)]
  | (k', a') :: m' =>
      if String.eqb k k' then (k, a) :: m' else (k', a') :: mapSet k a m'
  end.

(** [Map.prototype.get] *)
Definition mapGet {A} (k : string) (m : list (string * A)) : option A :=
  Templates.find k m.

(** *** Templates and expressions

    [evaluateTemplate] and [evaluateExpression] read the two symbol tables
    of the generator, the clock and the environment, and change nothing but
    the clock: they run in the state of the clock, the number of reads made
    so far. *)

Section Evaluator.

Variable w : World.
Variable variables : list (string * Value).
Variable parameters : list (string * ParamInfo).

Definition E (A : Type) : Type := M nat A.

(** [new Date().toISOString()] *)
Definition now : E string := fun k => Ok (nowISO w k, S k).

(** A piece of a template: a character outside any match of
    [/\$\{([^}]+)\}/g], or the text between the braces of a match. *)
Inductive Piece : Type :=
| Chr (c : ascii)
| Span (body : string).

(** The characters up to the first [}]. *)
Fixpoint untilBrace (s : string) : string * string :=
  match s with
  | EmptyString => (EmptyString, EmptyString)
  | String c s' =>
      if Ascii.eqb c "}" then (EmptyString, s)
      else let (b, r) := untilBrace s' in (String c b, r)
  end.

(** A match of [\$\{([^}]+)\}] at the head of [s]: its group. *)
Definition spanAt (s : string) : option string :=
  match s with
  | String "$" (String "{" r) =>
      match untilBrace r with
      | (String c b, String _ _) => Some (String c b)
      | _ => None
      end
  | _ => None
  end.

(** The matches of the global pattern, left to right and without overlap;
    [skip] counts the characters of a match still to be passed over. *)
Fixpoint pieces (skip : nat) (s : string) : list Piece :=
  match s with
  | EmptyString => []
  | String c s' =>
      match skip with
      | S k => pieces k s'
      | O =>
          match spanAt s with
          | Some body => Span body :: pieces (String.length body + 2) s'
          | None => Chr c :: pieces O s'
          end
      end
  end.

(** [/env\(Q([^Q]+)Q\)/], where [Q] is the class of the two quote
    characters. *)
Definition envRegex : Regex.re :=
  let quotes := VariantCompound.quotes in
  Regex.cats [Regex.lit "env("; Regex.oneOf quotes;
              Regex.Cap 1 (Regex.plus true (Regex.noneOf quotes));
              Regex.oneOf quotes; Regex.chr ")"].

(** [process.env[envVar || ''] || ''] *)
Definition envValue (trimmed : string) : string :=
  let envVar :=
    match Regex.exec envRegex trimmed with
    | Some m => Regex.group 1 m
    | None => EmptyString
    end in
  orElse (environ w envVar) EmptyString.

(** The replacement callback of [evaluateTemplate], applied to the group
    [varName] of a match [${varName}]. *)
Definition resolve (varName : string) : E string :=
  let trimmed := Str.trim varName in
  match mapGet trimmed variables with
  | Some v => lift (toStr v)
  | None =>
      match mapGet trimmed parameters with
      | Some param => lift (toStr (or (infoDefault param) (VStr "")))
      | None =>
          if Str.startsWith "now(" trimmed then now
          else if Str.startsWith "env(" trimmed then ret (envValue trimmed)
          else ret ("${" ++ varName ++ "}")
      end
  end.

Definition replacePiece (p : Piece) : E string :=
  match p with
  | Chr c => ret (String c EmptyString)
  | Span body => resolve body
  end.

(** [Generator.evaluateTemplate] *)
Definition evaluateTemplate (template : string) : E string :=
  parts <- mapM replacePiece (pieces O template) ;;
  ret (String.concat EmptyString parts).

(** [Generator.evaluateExpression] *)
Fixpoint evaluateExpression (expr : Dsl.Expression) : E Value :=
  match expr with
  | Dsl.LiteralExpression value => ret (Dsl.literalValue value)
  | Dsl.IdentifierExpression name =>
      match mapGet name variables with
      | Some v => ret v
      | None =>
          match mapGet name parameters with
          | Some param => ret (infoDefault param)
          | None => ret (VStr name)
          end
      end
  | Dsl.ObjectExpression properties =>
      (fix each (ps : list (string * Dsl.Expression)) (obj : Obj) : E Value :=
         match ps with
         | [] => ret (VObj obj)
         | (key, value) :: ps' =>
             v <- evaluateExpression value ;; each ps' (set key v obj)
         end) properties []
  | Dsl.ArrayExpression elements =>
      vs <- (fix each (es : list Dsl.Expression) : E (list Value) :=
               match es with
               | [] => ret []
               | e :: es' =>
                   v <- evaluateExpression e ;; vs <- each es' ;; ret (v :: vs)
               end) elements ;;
      ret (VArr vs)
  | Dsl.TemplateExpression template =>
      s <- evaluateTemplate template ;; ret (VStr s)
  | Dsl.FunctionCallExpression _ _ =>
      throw (Error "Unsupported expression type: FunctionCallExpression")
  end.

End Evaluator.

(** *** The generator object *)

(** The fields of a [Generator], with the options as merged with their
    defaults by the constructor, and the reads made of the host. *)
Record Gen : Type := {
  optInstanceId : option string;
  optAutoLayout : bool;
  optSpacing : Z;
  parameters : list (string * ParamInfo);
  variables : list (string * Value);
  nodePositions : list (string * (Z * Z));
  currentPosition : Z * Z;
  draws : nat;
  reads : nat
}.

(** [new Generator(options)] *)
Definition create (options : GeneratorOptions) : Gen :=
  {| optInstanceId := instanceId options;
     optAutoLayout := orElse (autoLayout options) true;
     optSpacing := orElse (spacing options) 200;
     parameters := [];
     variables := [];
     nodePositions := [];
     currentPosition := orElse (startPosition options) (0, 0);
     draws := 0;
     reads := 0 |}.

Definition withParameters (ps : list (string * ParamInfo)) (g : Gen) : Gen :=
  {| optInstanceId := optInstanceId g; optAutoLayout := optAutoLayout g;
     optSpacing := optSpacing g; parameters := ps; variables := variables g;
     nodePositions := nodePositions g; currentPosition := currentPosition g;
     draws := draws g; reads := reads g |}.

Definition withVariables (vs : list (string * Value)) (g : Gen) : Gen :=
  {| optInstanceId := optInstanceId g; optAutoLayout := optAutoLayout g;
     optSpacing := optSpacing g; parameters := parameters g; variables := vs;
     nodePositions := nodePositions g; currentPosition := currentPosition g;
     draws := draws g; reads := reads g |}.

Definition withLayout (np : list (string * (Z * Z))) (cp : Z * Z) (g : Gen)
  : Gen :=
  {| optInstanceId := optInstanceId g; optAutoLayout := optAutoLayout g;
     optSpacing := optSpacing g; parameters := parameters g;
     variables := variables g; nodePositions := np; currentPosition := cp;
     draws := draws g; reads := reads g |}.

Definition withDraws (k : nat) (g : Gen) : Gen :=
  {| optInstanceId := optInstanceId g; optAutoLayout := optAutoLayout g;
     optSpacing := optSpacing g; parameters := parameters g;
     variables := variables g; nodePositions := nodePositions g;
     currentPosition := currentPosition g; draws := k; reads := reads g |}.

Definition withReads (k : nat) (g : Gen) : Gen :=
  {| optInstanceId := optInstanceId g; optAutoLayout := optAutoLayout g;
     optSpacing := optSpacing g; parameters := parameters g;
     variables := variables g; nodePositions := nodePositions g;
     currentPosition := currentPosition g; draws := draws g; reads := k |}.

Definition G (A : Type) : Type := M Gen A.

(** A computation on the random source, run inside the generator. *)
Definition random {A} (t : M nat A) : G A :=
  fun g => match t (draws g) with
           | Ok (a, k) => Ok (a, withDraws k g)
           | Throw e => Throw e
           end.

Section WithHost.

Variable h : Host.

(** An evaluation, run inside the generator on its symbol tables. *)
Definition evaluate (expr : Dsl.Expression) : G Value :=
  fun g =>
    match evaluateExpression (world h) (variables g) (parameters g) expr
            (reads g) with
    | Ok (v, k) => Ok (v, withReads k g)
    | Throw e => Throw e
    end.

(** *** Parameters and variables *)

(** [Generator.processParameters] *)
Fixpoint processParameters (ps : list Dsl.ParameterDeclaration) : G unit :=
  match ps with
  | [] => ret tt
  | param :: ps' =>
      defaultValue <-
        match Dsl.defaultValue param with
        | Some e => evaluate e
        | None => ret VUndef
        end ;;
      _ <- (fun g =>
              Ok (tt, withParameters
                        (mapSet (Dsl.paramName param)
                           {| infoType := Dsl.paramType param;
                              infoDefault := defaultValue;
                              infoRequired := Dsl.required param |}
                           (parameters g)) g)) ;;
      processParameters ps'
  end.

(** [Generator.processVariables] *)
Fixpoint processVariables (vs : list Dsl.VariableDeclaration) : G unit :=
  match vs with
  | [] => ret tt
  | variable :: vs' =>
      value <- evaluate (Dsl.varValue variable) ;;
      _ <- (fun g =>
              Ok (tt, withVariables
                        (mapSet (Dsl.varName variable) value (variables g)) g)) ;;
      processVariables vs'
  end.

(** *** Nodes *)

(** [Generator.mapNodeType] *)
Definition mapNodeType (dslType : string) : Res string :=
  match Templates.find dslType Dsl.DSL_TO_N8N_NODE_TYPES with
  | Some n8nType => Ok n8nType
  | None => Throw (Error ("Unknown node type: " ++ dslType))
  end.

(** [Generator.getNodePosition] *)
Definition getNodePosition (nodeName : string) : G (Z * Z) :=
  fun g =>
    match mapGet nodeName (nodePositions g) with
    | Some p => Ok (p, g)
    | None =>
        if optAutoLayout g then
          let position := currentPosition g in
          Ok (position,
              withLayout (mapSet nodeName position (nodePositions g))
                (fst position + optSpacing g, snd position) g)
        else Ok ((0, 0), g)
    end.

(** [Generator.generateNodeParameters] *)
Fixpoint evaluateAll (ps : list (string * Dsl.Expression)) (raw : Obj)
  : G Obj :=
  match ps with
  | [] => ret raw
  | (key, expr) :: ps' =>
      v <- evaluate expr ;; evaluateAll ps' (set key v raw)
  end.

Definition generateNodeParameters (ps : list (string * Dsl.Expression))
  (nodeType : string) : G Obj :=
  rawParams <- evaluateAll ps [] ;;
  match Templates.getNodeTemplate (randomSource h) nodeType with
  | Some template => random (template rawParams)
  | None => ret rawParams
  end.

(** [DEFAULT_TYPE_VERSIONS[n8nNodeType] || 1] *)
Definition typeVersionOf (n8nNodeType : string) : Num.num :=
  match Templates.find n8nNodeType Dsl.DEFAULT_TYPE_VERSIONS with
  | Some v => if truthy (VNum v) then v else Num.Fin 1 0
  | None => Num.Fin 1 0
  end.

Definition moduleError : Exn := Error "Module resolution not implemented yet".

(** [Generator.generateNode] *)
Definition generateNode (nodeDecl : Dsl.NodeEntry) : G N8n.N8nNode :=
  match nodeDecl with
  | Dsl.Module _ => throw moduleError
  | Dsl.Node node =>
      n8nNodeType <- lift (mapNodeType (Dsl.nodeType node)) ;;
      position <- getNodePosition (Dsl.nodeName node) ;;
      parameters <- generateNodeParameters (Dsl.nodeParameters node)
                      n8nNodeType ;;
      id <- random (N8n.generateNodeId (randomSource h)) ;;
      ret {| N8n.id := id;
             N8n.name := Dsl.nodeName node;
             N8n.nodeType := n8nNodeType;
             N8n.position := position;
             N8n.parameters := parameters;
             N8n.typeVersion := typeVersionOf n8nNodeType |}
  end.

(** *** Connections *)

(** [Generator.mapConnectionType] *)
Definition mapConnectionType (dslType : string) : string :=
  if String.eqb dslType "main" || String.eqb dslType "output"
     || String.eqb dslType "true" || String.eqb dslType "false"
  then "main"
  else if String.eqb dslType "error" then "main"
  else "main".

(** [Generator.mapOutputIndex] *)
Definition mapOutputIndex (dslOutput : string) : nat :=
  if String.eqb dslOutput "main" || String.eqb dslOutput "output"
     || String.eqb dslOutput "true"
  then 0%nat
  else if String.eqb dslOutput "false" then 1%nat
  else 0%nat.

(** [conn.source.output || 'main'] *)
Definition outputName (conn : Dsl.ConnectionDeclaration) : string :=
  match Dsl.sourceOutput conn with
  | Some s => if Str.isEmpty s then "main" else s
  | None => "main"
  end.

(** [slots[i]], [undefined] for a hole or past the end. *)
Definition slotAt (i : nat) (slots : N8n.Slots) : option (list N8n.NodeConnection) :=
  match nth_error slots i with
  | Some (Some l) => Some l
  | _ => None
  end.

(** [slots[i] = l], which pads with holes when [i] is past the end. *)
Fixpoint slotSet (i : nat) (l : list N8n.NodeConnection) (slots : N8n.Slots)
  : N8n.Slots :=
  match i, slots with
  | O, [] => [Some l]
  | O, _ :: rest => Some l :: rest
  | S i', [] => None :: slotSet i' l []
  | S i', x :: rest => x :: slotSet i' l rest
  end.

(** [result] is a plain object, so [result[sourceName]] also finds what
    [Object.prototype] has: the prototype itself under [__proto__], its
    functions, and the key [main] once a connection from a source of the
    name [__proto__] has put an array there, where it stays.  A [Wiring]
    is the own keys of [result], which is all that [Object.entries] and
    the serialised workflow show, and whether [Object.prototype] has the
    key [main].  What the loop writes onto a function of the prototype or
    into the array [Object.prototype.main] is read by nothing else. *)
Record Wiring : Type := {
  own : N8n.WorkflowConnections;
  onPrototype : bool
}.

(** The functions of [Object.prototype]. *)
Definition prototypeFunctions : list string :=
  ["constructor"; "toString"; "toLocaleString"; "valueOf"; "hasOwnProperty";
   "isPrototypeOf"; "propertyIsEnumerable"; "__defineGetter__";
   "__defineSetter__"; "__lookupGetter__"; "__lookupSetter__"].

(** What [result[sourceName]] is when the loop has made sure of it. *)
Inductive Found : Type :=
| Own (byType : N8n.NodeConnections)
| Prototype
| Inherited.

(** [if (!result[sourceName]) { result[sourceName] = {}; }]: an own key
    first, then the accessor [__proto__], a function of the prototype or
    the array [Object.prototype.main], all of them truthy, and a new own
    object otherwise. *)
Definition findSource (sourceName : string) (w : Wiring) : Found :=
  match mapGet sourceName (own w) with
  | Some byType => Own byType
  | None =>
      if String.eqb sourceName "__proto__" then Prototype
      else if existsb (String.eqb sourceName) prototypeFunctions
      then Inherited
      else if onPrototype w && String.eqb sourceName "main" then Inherited
      else Own []
  end.

(** The body of the loop of [generateConnections], once both end points
    are known to exist.  [mapConnectionType] gives no other key than
    [main], the one that [onPrototype] is about. *)
Definition addConnection (conn : Dsl.ConnectionDeclaration) (w : Wiring)
  : Wiring :=
  let sourceName := Dsl.sourceNode conn in
  let connectionType := mapConnectionType (outputName conn) in
  let outputIndex := mapOutputIndex (outputName conn) in
  let inputIndex := 0 in
  let nodeConnection :=
    {| N8n.node := Dsl.targetNode conn;
       N8n.type := connectionType;
       N8n.index := inputIndex |} in
  match findSource sourceName w with
  | Own byType =>
      match mapGet connectionType byType with
      | None =>
          if onPrototype w
          then {| own := mapSet sourceName byType (own w);
                  onPrototype := true |}
          else {| own := mapSet sourceName
                           (mapSet connectionType
                              (slotSet outputIndex [nodeConnection] [])
                              byType)
                           (own w);
                  onPrototype := false |}
      | Some slots =>
          let existing := orElse (slotAt outputIndex slots) [] in
          {| own := mapSet sourceName
                      (mapSet connectionType
                         (slotSet outputIndex (existing ++ [nodeConnection])
                            slots)
                         byType)
                      (own w);
             onPrototype := onPrototype w |}
      end
  | Prototype => {| own := own w; onPrototype := true |}
  | Inherited => w
  end.

Definition hasNode (name : string) (nodes : list N8n.N8nNode) : bool :=
  existsb (fun n => String.eqb name (N8n.name n)) nodes.

Definition sourceError (name : string) : Exn :=
  Error ("Source node '" ++ name ++ "' not found").

Definition targetError (name : string) : Exn :=
  Error ("Target node '" ++ name ++ "' not found").

(** The loop of [generateConnections]. *)
Fixpoint connect (conns : list Dsl.ConnectionDeclaration)
  (nodes : list N8n.N8nNode) (w : Wiring) : Res Wiring :=
  match conns with
  | [] => Ok w
  | conn :: conns' =>
      if negb (hasNode (Dsl.sourceNode conn) nodes)
      then Throw (sourceError (Dsl.sourceNode conn))
      else if negb (hasNode (Dsl.targetNode conn) nodes)
      then Throw (targetError (Dsl.targetNode conn))
      else connect conns' nodes (addConnection conn w)
  end.

(** Whether the loop leaves the key [main] on [Object.prototype], also
    when it ends by throwing. *)
Fixpoint reachesPrototype (conns : list Dsl.ConnectionDeclaration)
  (nodes : list N8n.N8nNode) (w : Wiring) : bool :=
  match conns with
  | [] => onPrototype w
  | conn :: conns' =>
      if negb (hasNode (Dsl.sourceNode conn) nodes)
         || negb (hasNode (Dsl.targetNode conn) nodes)
      then onPrototype w
      else reachesPrototype conns' nodes (addConnection conn w)
  end.

(** [const result: WorkflowConnections = {}], in a process where nothing
    has put a key on [Object.prototype]: the first run of a process, and
    every run after runs that [reachesPrototype] is [false] of. *)
Definition fresh : Wiring := {| own := []; onPrototype := false |}.

(** [Generator.generateConnections] *)
Definition generateConnections (conns : list Dsl.ConnectionDeclaration)
  (nodes : list N8n.N8nNode) : Res N8n.WorkflowConnections :=
  mapOk own (connect conns nodes fresh).

(** *** The workflow *)

(** [Generator.generateInstanceId]: sixty-four draws, one hexadecimal
    digit each. *)
Fixpoint hexDigits (n : nat) (k : nat) : string :=
  match n with
  | O => EmptyString
  | S n' => String (N8n.hexDigit (random16 (randomSource h) k)) (hexDigits n' (S k))
  end.

Definition generateInstanceId : M nat string :=
  fun k => Ok (hexDigits 64 k, (k + 64)%nat).

(** [this.options.instanceId || this.generateInstanceId()] *)
Definition instanceIdOf : G string :=
  fun g =>
    match optInstanceId g with
    | Some s => if Str.isEmpty s then random generateInstanceId g else Ok (s, g)
    | None => random generateInstanceId g
    end.

(** [Generator.generate] *)
Definition generate (program : Dsl.Program) : G N8n.N8nWorkflow :=
  let workflow := Dsl.workflow program in
  _ <- processParameters (Dsl.parameters workflow) ;;
  _ <- processVariables (Dsl.variables workflow) ;;
  nodes <- mapM generateNode (Dsl.nodes workflow) ;;
  connections <- lift (generateConnections (Dsl.connections workflow) nodes) ;;
  instanceId <- instanceIdOf ;;
  ret {| N8n.nodes := nodes;
         N8n.connections := connections;
         N8n.pinData := [];
         N8n.instanceId := instanceId;
         N8n.workflowName := Dsl.workflowName workflow;
         N8n.active := false;
         N8n.executionOrder := "v1" |}.

End WithHost.

End Generator.

(** ** The validator, [src/utils/validation.ts] *)

Module Validation.

Import Js.

Inductive Severity : Type := error | warning.

Record ValidationError : Type := {
  message : string;
  line : option nat;
  column : option nat;
  type : Severity
}.

Definition addError (msg : string) (loc : Dsl.Loc) : ValidationError :=
  {| message := msg; line := Dsl.line loc; column := Dsl.column loc;
     type := error |}.

Definition addWarning (msg : string) (loc : Dsl.Loc) : ValidationError :=
  {| message := msg; line := Dsl.line loc; column := Dsl.column loc;
     type := warning |}.

Definition isError (e : ValidationError) : bool :=
  match type e with error => true | warning => false end.

(** [Set.prototype.has] *)
Definition has (name : string) (names : list string) : bool :=
  existsb (String.eqb name) names.

(** The loop over the parameters: [seen] is [paramNames]. *)
Fixpoint checkParameters (ps : list Dsl.ParameterDeclaration)
  (seen : list string) : list ValidationError :=
  match ps with
  | [] => []
  | param :: ps' =>
      (if has (Dsl.paramName param) seen
       then [addError ("Duplicate parameter name: " ++ Dsl.paramName param)
               (Dsl.paramLoc param)]
       else [])
      ++ checkParameters ps' (Dsl.paramName param :: seen)
  end.

(** The loop over the variables: [seen] is [varNames]. *)
Fixpoint checkVariables (vs : list Dsl.VariableDeclaration)
  (paramNames seen : list string) : list ValidationError :=
  match vs with
  | [] => []
  | variable :: vs' =>
      (if has (Dsl.varName variable) seen
       then [addError ("Duplicate variable name: " ++ Dsl.varName variable)
               (Dsl.varLoc variable)]
       else [])
      ++ (if has (Dsl.varName variable) paramNames
          then [addError ("Variable '" ++ Dsl.varName variable
                            ++ "' conflicts with parameter name")
                  (Dsl.varLoc variable)]
          else [])
      ++ checkVariables vs' paramNames (Dsl.varName variable :: seen)
  end.

(** The loop over the node entries: [seen] is [nodeNames]. *)
Fixpoint checkNodes (ns : list Dsl.NodeEntry) (seen : list string)
  : list ValidationError :=
  match ns with
  | [] => []
  | node :: ns' =>
      (if has (Dsl.entryName node) seen
       then [addError ("Duplicate node name: " ++ Dsl.entryName node)
               (Dsl.entryLoc node)]
       else [])
      ++ checkNodes ns' (Dsl.entryName node :: seen)
  end.

Definition sourceMissing (name : string) : string :=
  "Connection source node '" ++ name ++ "' does not exist".

Definition targetMissing (name : string) : string :=
  "Connection target node '" ++ name ++ "' does not exist".

(** The loop over the connections. *)
Fixpoint checkConnections (cs : list Dsl.ConnectionDeclaration)
  (nodeNames : list string) : list ValidationError :=
  match cs with
  | [] => []
  | connection :: cs' =>
      (if has (Dsl.sourceNode connection) nodeNames then []
       else [addError (sourceMissing (Dsl.sourceNode connection))
               (Dsl.connLoc connection)])
      ++ (if has (Dsl.targetNode connection) nodeNames then []
          else [addError (targetMissing (Dsl.targetNode connection))
                  (Dsl.connLoc connection)])
      ++ checkConnections cs' nodeNames
  end.

(** The loop that warns about nodes no connection mentions. *)
Fixpoint checkConnected (ns : list Dsl.NodeEntry) (connectedNodes : list string)
  : list ValidationError :=
  match ns with
  | [] => []
  | node :: ns' =>
      (if has (Dsl.entryName node) connectedNodes then []
       else [addWarning ("Node '" ++ Dsl.entryName node
                           ++ "' is not connected to any other nodes")
               (Dsl.entryLoc node)])
      ++ checkConnected ns' connectedNodes
  end.

(** [Validator.validateWorkflow] *)
Definition validateWorkflow (workflow : Dsl.WorkflowDeclaration)
  : list ValidationError :=
  let paramNames := map Dsl.paramName (Dsl.parameters workflow) in
  let nodeNames := map Dsl.entryName (Dsl.nodes workflow) in
  let connectedNodes :=
    flat_map (fun c => [Dsl.sourceNode c; Dsl.targetNode c])
      (Dsl.connections workflow) in
  checkParameters (Dsl.parameters workflow) []
  ++ checkVariables (Dsl.variables workflow) paramNames []
  ++ checkNodes (Dsl.nodes workflow) []
  ++ checkConnections (Dsl.connections workflow) nodeNames
  ++ checkConnected (Dsl.nodes workflow) connectedNodes.

(** [Validator.validateProgram] *)
Definition validateProgram (program : Dsl.Program) : list ValidationError :=
  validateWorkflow (Dsl.workflow program).

(** [Validator.validateNode]; the position and the parameters of a
    generated node always have the required shape. *)
Definition validateNode (node : N8n.N8nNode) : list ValidationError :=
  (if Str.isEmpty (N8n.id node)
   then [addError "Node must have an id" Dsl.noLoc] else [])
  ++ (if Str.isEmpty (N8n.name node)
      then [addError "Node must have a name" Dsl.noLoc] else [])
  ++ (if Str.isEmpty (N8n.nodeType node)
      then [addError "Node must have a type" Dsl.noLoc] else [])
  ++ (if truthy (VNum (N8n.typeVersion node)) then []
      else [addError "Node must have a typeVersion" Dsl.noLoc]).

Fixpoint checkGraphNodes (ns : list N8n.N8nNode) (seen : list string)
  : list ValidationError :=
  match ns with
  | [] => []
  | node :: ns' =>
      (if has (N8n.name node) seen
       then [addError ("Duplicate node name: " ++ N8n.name node) Dsl.noLoc]
       else [])
      ++ validateNode node
      ++ checkGraphNodes ns' (N8n.name node :: seen)
  end.

(** [for (const outputs of connType) for (const conn of outputs)]: a hole
    is read as [undefined], which is not iterable. *)
Fixpoint checkSlots (slots : N8n.Slots) (nodeNames : list string)
  : Res (list ValidationError) :=
  match slots with
  | [] => Ok []
  | None :: _ => Throw (TypeError "outputs is not iterable")
  | Some outputs :: rest =>
      match checkSlots rest nodeNames with
      | Ok es =>
          Ok (flat_map
                (fun conn =>
                   if has (N8n.node conn) nodeNames then []
                   else [addError (targetMissing (N8n.node conn)) Dsl.noLoc])
                outputs ++ es)%list
      | Throw e => Throw e
      end
  end.

Fixpoint checkTypes (byType : N8n.NodeConnections) (nodeNames : list string)
  : Res (list ValidationError) :=
  match byType with
  | [] => Ok []
  | (_, slots) :: rest =>
      match checkSlots slots nodeNames with
      | Ok es =>
          match checkTypes rest nodeNames with
          | Ok es' => Ok (es ++ es')%list
          | Throw e => Throw e
          end
      | Throw e => Throw e
      end
  end.

Fixpoint checkGraphConnections (cs : N8n.WorkflowConnections)
  (nodeNames : list string) : Res (list ValidationError) :=
  match cs with
  | [] => Ok []
  | (sourceName, byType) :: rest =>
      let here :=
        if has sourceName nodeNames then []
        else [addError (sourceMissing sourceName) Dsl.noLoc] in
      match checkTypes byType nodeNames with
      | Ok es =>
          match checkGraphConnections rest nodeNames with
          | Ok es' => Ok (here ++ es ++ es')%list
          | Throw e => Throw e
          end
      | Throw e => Throw e
      end
  end.

(** [Validator.validateN8nWorkflow] *)
Definition validateN8nWorkflow (workflow : N8n.N8nWorkflow)
  : Res (list ValidationError) :=
  let nodeNames := map N8n.name (N8n.nodes workflow) in
  match checkGraphConnections (N8n.connections workflow) nodeNames with
  | Ok es =>
      Ok ((match N8n.nodes workflow with
           | [] => [addError "Workflow must have at least one node" Dsl.noLoc]
           | _ => []
           end)
          ++ checkGraphNodes (N8n.nodes workflow) []
          ++ es)%list
  | Throw e => Throw e
  end.

End Validation.

(** ** The compiler, [src/compiler.ts]

    [compile] is taken from the parsed program on: lexing and parsing come
    before it, and a program that does not parse never reaches the
    validator or the generator. *)

Module Compiler.

Import Js Eff.

Record CompilerOptions : Type := {
  generatorOptions : Generator.GeneratorOptions;
  validate : option bool;
  strict : option bool
}.

Record CompilerResult : Type := {
  success : bool;
  workflow : option N8n.N8nWorkflow;
  ast : option Dsl.Program;
  errors : list Validation.ValidationError;
  warnings : list Validation.ValidationError
}.

(** [`${error}`] *)
Definition exnText (e : Exn) : string :=
  match e with
  | Error msg => "Error: " ++ msg
  | TypeError msg => "TypeError: " ++ msg
  end.

(** The [catch] clause. *)
Definition caught (e : Exn) (errors warnings : list Validation.ValidationError)
  : CompilerResult :=
  {| success := false; workflow := None; ast := None;
     errors := (errors
                ++ [Validation.addError ("Compilation error: " ++ exnText e)%string
                      Dsl.noLoc])%list;
     warnings := warnings |}.

Definition isWarning (e : Validation.ValidationError) : bool :=
  negb (Validation.isError e).

(** The constructor merges [autoLayout: true] into the options it hands to
    the generator. *)
Definition optionsForGenerator (options : CompilerOptions)
  : Generator.GeneratorOptions :=
  let o := generatorOptions options in
  {| Generator.instanceId := Generator.instanceId o;
     Generator.autoLayout :=
       Some (Generator.orElse (Generator.autoLayout o) true);
     Generator.startPosition := Generator.startPosition o;
     Generator.spacing := Generator.spacing o |}.

(** The part of [compile] from the generator on. *)
Definition generateAndCheck (h : Host) (options : CompilerOptions)
  (program : Dsl.Program) (warnings : list Validation.ValidationError)
  : CompilerResult :=
  match Generator.generate h program
          (Generator.create (optionsForGenerator options)) with
  | Throw e => caught e [] warnings
  | Ok (workflow, _) =>
      if Generator.orElse (validate options) true then
        match Validation.validateN8nWorkflow workflow with
        | Throw e => caught e [] warnings
        | Ok workflowErrors =>
            let errors := filter Validation.isError workflowErrors in
            let warnings := (warnings ++ filter isWarning workflowErrors)%list in
            match errors with
            | [] => {| success := true; workflow := Some workflow;
                       ast := Some program; errors := [];
                       warnings := warnings |}
            | _ => {| success := false; workflow := Some workflow;
                      ast := Some program; errors := errors;
                      warnings := warnings |}
            end
        end
      else {| success := true; workflow := Some workflow;
              ast := Some program; errors := []; warnings := warnings |}
  end.

(** [Compiler.compile] *)
Definition compile (h : Host) (options : CompilerOptions)
  (program : Dsl.Program) : CompilerResult :=
  if Generator.orElse (validate options) true then
    let validationErrors := Validation.validateProgram program in
    let errors := filter Validation.isError validationErrors in
    let warnings := filter isWarning validationErrors in
    match errors with
    | _ :: _ => {| success := false; workflow := None; ast := Some program;
                   errors := errors; warnings := warnings |}
    | [] =>
        match Generator.orElse (strict options) false, warnings with
        | true, _ :: _ =>
            {| success := false; workflow := None; ast := Some program;
               errors := warnings; warnings := [] |}
        | _, _ => generateAndCheck h options program warnings
        end
    end
  else generateAndCheck h options program [].

End Compiler.

(** ** The lexer, [src/parser/lexer.ts]

    The lexer reads its input from [position] on; the state of the
    embedding holds the text from [position] on instead of the whole
    input and the index.  The warning that [nextToken] prints when it
    skips a character is left out. *)

Module Lexer.

Import Js.
Local Open Scope nat_scope.

Inductive TokenType : Type :=
| STRING | NUMBER | BOOLEAN | IDENTIFIER
| WORKFLOW | PARAM | VAR | NODE | MODULE | CONNECT
| LBRACE | RBRACE | LPAREN | RPAREN | LBRACKET | RBRACKET
| COMMA | COLON | SEMICOLON | EQUALS | ARROW | DOT
| OR | AND
| TEMPLATE_START | TEMPLATE_END | NEWLINE | EOF
| COMMENT.

(** The string value of a member of the enumeration. *)
Definition typeName (t : TokenType) : string :=
  match t with
  | STRING => "STRING" | NUMBER => "NUMBER" | BOOLEAN => "BOOLEAN"
  | IDENTIFIER => "IDENTIFIER"
  | WORKFLOW => "WORKFLOW" | PARAM => "PARAM" | VAR => "VAR"
  | NODE => "NODE" | MODULE => "MODULE" | CONNECT => "CONNECT"
  | LBRACE => "LBRACE" | RBRACE => "RBRACE" | LPAREN => "LPAREN"
  | RPAREN => "RPAREN" | LBRACKET => "LBRACKET" | RBRACKET => "RBRACKET"
  | COMMA => "COMMA" | COLON => "COLON" | SEMICOLON => "SEMICOLON"
  | EQUALS => "EQUALS" | ARROW => "ARROW" | DOT => "DOT"
  | OR => "OR" | AND => "AND"
  | TEMPLATE_START => "TEMPLATE_START" | TEMPLATE_END => "TEMPLATE_END"
  | NEWLINE => "NEWLINE" | EOF => "EOF"
  | COMMENT => "COMMENT"
  end.

Definition sameType (a b : TokenType) : bool :=
  String.eqb (typeName a) (typeName b).

Record Token : Type := {
  type : TokenType;
  value : string;
  line : nat;
  column : nat
}.

(** The fields of a [Lexer]: the input from [position] on, [line] and
    [column]. *)
Record State : Type := {
  input : string;
  atLine : nat;
  atColumn : nat
}.

(** [new Lexer(input)] *)
Definition create (text : string) : State :=
  {| input := text; atLine := 1; atColumn := 1 |}.

Definition keywords : list string :=
  ["workflow"; "param"; "var"; "node"; "module"; "connect";
   "true"; "false"; "string"; "number"; "boolean"; "array"; "object"]%string.

(** A decimal number in a message. *)
Definition show (n : nat) : string := Num.zString (Z.of_nat n).

(** A character read from the input, [undefined] past its end. *)
Definition text (c : option ascii) : string :=
  match c with
  | Some a => String a EmptyString
  | None => "undefined"
  end.

(** [Lexer.advance] *)
Definition advance (st : State) : option ascii * State :=
  match input st with
  | String c r =>
      (Some c, {| input := r; atLine := atLine st;
                  atColumn := S (atColumn st) |})
  | EmptyString =>
      (None, {| input := EmptyString; atLine := atLine st;
                atColumn := S (atColumn st) |})
  end.

(** [Lexer.peek]: the character [offset] places on, the empty string past
    the end. *)
Definition peek (offset : nat) (st : State) : option ascii :=
  String.get offset (input st).

Definition isChar (c : ascii) (o : option ascii) : bool :=
  match o with Some a => Ascii.eqb a c | None => false end.

(** [Lexer.makeToken] *)
Definition makeToken (t : TokenType) (v : string) (st : State) : Token :=
  {| type := t; value := v; line := atLine st;
     column := atColumn st - String.length v |}.

(** [Lexer.isDigit], [Lexer.isAlpha] and [Lexer.isAlphaNumeric] *)
Definition isDigit (c : ascii) : bool := Str.isDigit c.

Definition isAlpha (c : ascii) : bool := Str.isLower c || Str.isUpper c.

Definition isAlphaNumeric (c : ascii) : bool := isAlpha c || isDigit c.

(** [Lexer.skipWhitespace] *)
Fixpoint skipBlanks (s : string) (col : nat) : string * nat :=
  match s with
  | String c r =>
      if Ascii.eqb c " " || Ascii.eqb c "009" || Ascii.eqb c "013"
      then skipBlanks r (S col)
      else (s, col)
  | EmptyString => (s, col)
  end.

Definition skipWhitespace (st : State) : State :=
  let (s, col) := skipBlanks (input st) (atColumn st) in
  {| input := s; atLine := atLine st; atColumn := col |}.

(** The character an escape sequence stands for. *)
Definition unescape (escaped : ascii) : ascii :=
  if Ascii.eqb escaped "n" then "010"%char
  else if Ascii.eqb escaped "t" then "009"%char
  else if Ascii.eqb escaped "r" then "013"%char
  else escaped.

Definition unterminated (what : string) (l start : nat) : Exn :=
  Error ("Unterminated " ++ what ++ " at line " ++ show l
         ++ ", column " ++ show start).

(** [Lexer.readString], after the opening quote: the loop. *)
Fixpoint stringLoop (quote : ascii) (start : nat) (s : string)
  (v : string) (l col : nat) : Res (Token * State) :=
  match s with
  | EmptyString => Throw (unterminated "string" l start)
  | String c r =>
      if Ascii.eqb c quote then
        Ok ({| type := STRING; value := v; line := l; column := start |},
            {| input := r; atLine := l; atColumn := S col |})
      else if Ascii.eqb c "\" then
        match r with
        | String escaped r' =>
            stringLoop quote start r'
              (v ++ String (unescape escaped) EmptyString) l (S (S col))
        | EmptyString => Throw (unterminated "string" l start)
        end
      else if Ascii.eqb c "010" then
        stringLoop quote start r (v ++ String c EmptyString) (S l) 2
      else stringLoop quote start r (v ++ String c EmptyString) l (S col)
  end.

Definition readString (quote : ascii) (st : State) : Res (Token * State) :=
  let start := atColumn st in
  let (_, st1) := advance st in
  stringLoop quote start (input st1) EmptyString (atLine st1) (atColumn st1).

Definition quote : ascii := "034"%char.

(** [Lexer.readMultiLineString], after the opening quotes: the loop. *)
Fixpoint multiLineLoop (start : nat) (s : string) (v : string) (l col : nat)
  : Res (Token * State) :=
  match s with
  | String c tl =>
      match tl with
      | String c1 (String c2 r) =>
          if Ascii.eqb c quote && Ascii.eqb c1 quote && Ascii.eqb c2 quote
          then
            Ok ({| type := STRING; value := Str.trim v; line := l;
                   column := start |},
                {| input := r; atLine := l; atColumn := S (S (S col)) |})
          else if Ascii.eqb c "010" then
            multiLineLoop start tl (v ++ String c EmptyString) (S l) 2
          else multiLineLoop start tl (v ++ String c EmptyString) l (S col)
      | _ => Throw (unterminated "multi-line string" l start)
      end
  | EmptyString => Throw (unterminated "multi-line string" l start)
  end.

Definition readMultiLineString (st : State) : Res (Token * State) :=
  let start := atColumn st in
  let (_, st1) := advance st in
  let (_, st2) := advance st1 in
  let (_, st3) := advance st2 in
  multiLineLoop start (input st3) EmptyString (atLine st3) (atColumn st3).

(** The longest prefix of characters of the class [p]. *)
Fixpoint span (p : ascii -> bool) (s : string) : string * string :=
  match s with
  | String c r =>
      if p c then let (v, rest) := span p r in (String c v, rest)
      else (EmptyString, s)
  | EmptyString => (EmptyString, EmptyString)
  end.

(** [Lexer.readNumber] *)
Definition readNumber (st : State) : Res (Token * State) :=
  let start := atColumn st in
  let (v, rest) := span (fun c => isDigit c || Ascii.eqb c ".") (input st) in
  Ok ({| type := NUMBER; value := v; line := atLine st; column := start |},
      {| input := rest; atLine := atLine st;
         atColumn := atColumn st + String.length v |}).

(** [Lexer.getKeywordType] *)
Definition getKeywordType (keyword : string) : TokenType :=
  if String.eqb keyword "workflow" then WORKFLOW
  else if String.eqb keyword "param" then PARAM
  else if String.eqb keyword "var" then VAR
  else if String.eqb keyword "node" then NODE
  else if String.eqb keyword "module" then MODULE
  else if String.eqb keyword "connect" then CONNECT
  else if String.eqb keyword "true" || String.eqb keyword "false"
  then BOOLEAN
  else IDENTIFIER.

(** [Lexer.readIdentifier] *)
Definition readIdentifier (st : State) : Res (Token * State) :=
  let start := atColumn st in
  let (v, rest) :=
    span (fun c => isAlphaNumeric c || Ascii.eqb c "_") (input st) in
  let t :=
    if existsb (String.eqb (Str.toLowerCase v)) keywords
    then getKeywordType (Str.toLowerCase v)
    else IDENTIFIER in
  Ok ({| type := t; value := v; line := atLine st; column := start |},
      {| input := rest; atLine := atLine st;
         atColumn := atColumn st + String.length v |}).

(** [Lexer.readComment] *)
Definition readComment (st : State) : Res (Token * State) :=
  let start := atColumn st in
  let (_, st1) := advance st in
  let (_, st2) := advance st1 in
  let (v, rest) := span (fun c => negb (Ascii.eqb c "010")) (input st2) in
  Ok ({| type := COMMENT; value := Str.trim v; line := atLine st2;
         column := start |},
      {| input := rest; atLine := atLine st2;
         atColumn := atColumn st2 + String.length v |}).

(** [Lexer.readBlockComment], after the opening: the loop.  It stops, with
    no error, one character before the end of an input that does not close
    the comment. *)
Fixpoint blockLoop (start : nat) (s : string) (v : string) (l col : nat)
  : Token * State :=
  match s with
  | String c tl =>
      match tl with
      | String c1 r =>
          if Ascii.eqb c "*" && Ascii.eqb c1 "/" then
            ({| type := COMMENT; value := Str.trim v; line := l;
                column := start |},
             {| input := r; atLine := l; atColumn := S (S col) |})
          else if Ascii.eqb c "010" then
            blockLoop start tl (v ++ String c EmptyString) (S l) 2
          else blockLoop start tl (v ++ String c EmptyString) l (S col)
      | EmptyString =>
          ({| type := COMMENT; value := Str.trim v; line := l;
              column := start |},
           {| input := s; atLine := l; atColumn := col |})
      end
  | EmptyString =>
      ({| type := COMMENT; value := Str.trim v; line := l; column := start |},
       {| input := s; atLine := l; atColumn := col |})
  end.

Definition readBlockComment (st : State) : Res (Token * State) :=
  let start := atColumn st in
  let (_, st1) := advance st in
  let (_, st2) := advance st1 in
  Ok (blockLoop start (input st2) EmptyString (atLine st2) (atColumn st2)).

(** A token of one character, and one of two of which the second is the
    value. *)
Definition single (t : TokenType) (st : State) : Res (Token * State) :=
  let (c, st1) := advance st in Ok (makeToken t (text c) st1, st1).

Definition double (t : TokenType) (st : State) : Res (Token * State) :=
  let (_, st1) := advance st in
  let (c, st2) := advance st1 in Ok (makeToken t (text c) st2, st2).

Definition unexpected (c : option ascii) (l col : nat) : Exn :=
  Error ("Unexpected character '" ++ text c ++ "' at line " ++ show l
         ++ ", column " ++ show col).

(** The characters that [nextToken] passes over. *)
Definition skipped (c : ascii) : bool :=
  Ascii.eqb c "*" || Ascii.eqb c "?" || Ascii.eqb c "\" || Ascii.eqb c "|"
  || Ascii.eqb c "&".

(** [Lexer.nextToken], on the input [s] at line [l] and column [col]. *)
Fixpoint nextToken (s : string) (l col : nat) : Res (Token * State) :=
  let st := {| input := s; atLine := l; atColumn := col |} in
  match s with
  | EmptyString => Throw (unexpected None l col)
  | String char r =>
      if Ascii.eqb char "{" then single LBRACE st
      else if Ascii.eqb char "}" then single RBRACE st
      else if Ascii.eqb char "(" then single LPAREN st
      else if Ascii.eqb char ")" then single RPAREN st
      else if Ascii.eqb char "[" then single LBRACKET st
      else if Ascii.eqb char "]" then single RBRACKET st
      else if Ascii.eqb char "," then single COMMA st
      else if Ascii.eqb char ":" then single COLON st
      else if Ascii.eqb char ";" then single SEMICOLON st
      else if Ascii.eqb char "." then single DOT st
      else if Ascii.eqb char "010" then
        single NEWLINE {| input := s; atLine := S l; atColumn := 1 |}
      else if Ascii.eqb char "=" && isChar "=" (peek 1 st) then double EQUALS st
      else if Ascii.eqb char "=" then single EQUALS st
      else if Ascii.eqb char "-" && isChar ">" (peek 1 st) then double ARROW st
      else if Ascii.eqb char "$" && isChar "{" (peek 1 st)
      then double TEMPLATE_START st
      else if Ascii.eqb char "|" && isChar "|" (peek 1 st) then double OR st
      else if Ascii.eqb char "&" && isChar "&" (peek 1 st) then double AND st
      else if Ascii.eqb char "/" && isChar "/" (peek 1 st) then readComment st
      else if Ascii.eqb char "/" && isChar "*" (peek 1 st)
      then readBlockComment st
      else if Ascii.eqb char quote && isChar quote (peek 1 st)
              && isChar quote (peek 2 st)
      then readMultiLineString st
      else if Ascii.eqb char quote || Ascii.eqb char "'"
      then readString char st
      else if isDigit char then readNumber st
      else if isAlpha char || Ascii.eqb char "_" then readIdentifier st
      else if skipped char then nextToken r l (S col)
      else Throw (unexpected (Some char) l col)
  end.

(** [Lexer.tokenize]: the loop, [fuel] bounding its iterations. *)
Fixpoint tokens (fuel : nat) (st : State) (acc : list Token)
  : option (Res (list Token)) :=
  let eof (st : State) :=
    {| type := EOF; value := EmptyString; line := atLine st;
       column := atColumn st |} in
  match fuel with
  | O => None
  | S fuel' =>
      if Str.isEmpty (input st) then Some (Ok (acc ++ [eof st])%list)
      else
        let st1 := skipWhitespace st in
        if Str.isEmpty (input st1) then Some (Ok (acc ++ [eof st1])%list)
        else
          match nextToken (input st1) (atLine st1) (atColumn st1) with
          | Ok (token, st2) => tokens fuel' st2 (acc ++ [token])%list
          | Throw e => Some (Throw e)
          end
  end.

(** Every iteration but the last consumes a character, so one more than
    the length of the input bounds them. *)
Definition tokenize (text : string) : option (Res (list Token)) :=
  tokens (S (String.length text)) (create text) [].

End Lexer.

(** ** The parser, [src/parser/parser.ts]

    A [Parser] holds the tokens of its input, without the comments and
    the line breaks, and the index [current] of the token it looks at.
    The tokens are fixed when the parser is made; a parsing method is a
    function of [current] that returns a value and the new index, or
    throws.  What a method throws is a [ParseError], which carries its
    token, or another exception: reading a field of a token that is not
    there is a [TypeError].  The index at the throw is kept, [parse]
    reads the token there.

    The recursion of [parseExpression] through [parseObject] and
    [parseArray], and the loops, are bounded by a number of steps;
    [None] is a run that needs more.  The line and the column stored
    in an expression and in the workflow declaration, which nothing
    reads, are left out of the syntax tree, the reads are made. *)

Module Parser.

Import Js Lexer.
Local Open Scope nat_scope.

Inductive Thrown : Type :=
| ParseError (message : string) (token : Token)
| Other (e : Exn).

Inductive Outcome (A : Type) : Type :=
| Done (a : A) (current : nat)
| Fail (t : Thrown) (current : nat).

Arguments Fail {A} t current.

(** What a call returns or throws. *)
Inductive Try (A : Type) : Type :=
| Returned (a : A)
| Raised (t : Thrown).

Arguments Raised {A} t.

Definition P (A : Type) : Type := nat -> option (Outcome A).

Definition ret {A} (a : A) : P A := fun c => Some (Done a c).

Definition fail {A} (t : Thrown) : P A := fun c => Some (Fail t c).

Definition bind {A B} (m : P A) (k : A -> P B) : P B :=
  fun c =>
    match m c with
    | Some (Done a c') => k a c'
    | Some (Fail t c') => Some (Fail t c')
    | None => None
    end.

(** A run that is out of steps. *)
Definition out {A} : P A := fun _ => None.

Declare Scope parse_scope.
Delimit Scope parse_scope with parse.
Notation "x <- c ;; k" := (bind c (fun x => k))
  (at level 61, c at next level, right associativity) : parse_scope.
Local Open Scope parse_scope.

(** [ParseFloat]: the longest prefix of the text, after leading blanks,
    that is a decimal literal. *)
Definition exponentPrefix (s : string) : Z :=
  match s with
  | String e r =>
      if (Ascii.eqb e "e" || Ascii.eqb e "E")%bool then
        let '(neg, r') :=
          match r with
          | String "+" t => (false, t)
          | String "-" t => (true, t)
          | _ => (false, r)
          end in
        let (d, _) := Num.spanDigits r' in
        if Str.isEmpty d then 0%Z
        else if neg then (- Num.digitsVal 0 d)%Z else Num.digitsVal 0 d
      else 0%Z
  | EmptyString => 0%Z
  end.

Definition parseFloat (s : string) : Num.num :=
  let t := Str.trimStart s in
  let '(neg, r) :=
    match t with
    | String "+" t' => (false, t')
    | String "-" t' => (true, t')
    | _ => (false, t)
    end in
  if Str.startsWith "Infinity" r then Num.Inf neg
  else
    let (ip, r1) := Num.spanDigits r in
    let '(fp, r2) :=
      match r1 with
      | String "." r' => Num.spanDigits r'
      | _ => (EmptyString, r1)
      end in
    if (Str.isEmpty ip && Str.isEmpty fp)%bool then Num.NaN
    else
      let m := Num.digitsVal 0 (ip ++ fp) in
      Num.scale (if neg then (- m)%Z else m) (String.length fp)
        (exponentPrefix r2).

(** *** Assignment to a key of an object

    The own keys of an object are listed with the array indices first,
    in ascending order, and the other keys after them in the order of
    their creation.  An assignment of an object to the key [__proto__]
    sets the prototype and makes no own key; the values assigned here
    are expressions, which are objects. *)

Fixpoint allDigits (s : string) : bool :=
  match s with
  | EmptyString => true
  | String c r => Str.isDigit c && allDigits r
  end.

Definition arrayIndex (k : string) : option Z :=
  match k with
  | EmptyString => None
  | String c r =>
      if (allDigits k && (Str.isEmpty r || negb (Ascii.eqb c "0")))%bool
      then let v := Num.digitsVal 0 k in
           if (v <? 4294967295)%Z then Some v else None
      else None
  end.

Fixpoint hasKey {A} (k : string) (o : list (string * A)) : bool :=
  match o with
  | [] => false
  | (k', _) :: o' => String.eqb k k' || hasKey k o'
  end.

Fixpoint replace {A} (k : string) (v : A) (o : list (string * A))
  : list (string * A) :=
  match o with
  | [] => []
  | (k', v') :: o' =>
      if String.eqb k k' then (k, v) :: o' else (k', v') :: replace k v o'
  end.

Fixpoint insertIndex {A} (i : Z) (k : string) (v : A) (o : list (string * A))
  : list (string * A) :=
  match o with
  | [] => [(k, v)]
  | (k', v') :: o' =>
      match arrayIndex k' with
      | Some j =>
          if (j <? i)%Z then (k', v') :: insertIndex i k v o'
          else (k, v) :: o
      | None => (k, v) :: o
      end
  end.

Definition assign {A} (k : string) (v : A) (o : list (string * A))
  : list (string * A) :=
  if String.eqb k "__proto__" then o
  else if hasKey k o then replace k v o
  else match arrayIndex k with
       | Some i => insertIndex i k v o
       | None => (o ++ [(k, v)])%list
       end.

Section WithTokens.

Variable tokens : list Token.

(** Reading the field [name] of [undefined]. *)
Definition undefinedRead (name : string) : Thrown :=
  Other (TypeError ("Cannot read properties of undefined (reading '"
                    ++ name ++ "')")).

Definition field {A} (name : string) (f : Token -> A) (t : option Token)
  : P A :=
  match t with
  | Some t => ret (f t)
  | None => fail (undefinedRead name)
  end.

(** [throw new ParseError(message, token)] *)
Definition throwParseError {A} (message : string) (t : option Token) : P A :=
  match t with
  | Some t =>
      fail (ParseError (message ++ " at line " ++ show (line t)
                        ++ ", column " ++ show (column t)) t)
  | None => fail (undefinedRead "line")
  end.

Definition getCurrentToken : P (option Token) :=
  fun c => Some (Done (nth_error tokens c) c).

Definition previous : P (option Token) :=
  fun c =>
    Some (Done (match c with O => None | S c' => nth_error tokens c' end) c).

Definition isAtEnd : P bool :=
  t <- getCurrentToken ;;
  ty <- field "type" type t ;;
  ret (sameType ty EOF).

Definition check (ty : TokenType) : P bool :=
  e <- isAtEnd ;;
  if e then ret false
  else
    t <- getCurrentToken ;;
    ty' <- field "type" type t ;;
    ret (sameType ty' ty).

Definition advance : P (option Token) :=
  e <- isAtEnd ;;
  _ <- (if e then ret tt else fun c => Some (Done tt (S c))) ;;
  previous.

(** [match], always called with one type. *)
Definition matchType (ty : TokenType) : P bool :=
  b <- check ty ;;
  if b then _ <- advance ;; ret true else ret false.

Definition expect (ty : TokenType) : P (option Token) :=
  b <- check ty ;;
  if b then advance
  else
    t <- getCurrentToken ;;
    got <- field "type" type t ;;
    t' <- getCurrentToken ;;
    throwParseError ("Expected " ++ typeName ty ++ " but got " ++ typeName got)
      t'.

(** [this.expect(type).value] *)
Definition expectValue (ty : TokenType) : P string :=
  t <- expect ty ;; field "value" value t.

(** [this.advance().value] *)
Definition advanceValue : P string :=
  t <- advance ;; field "value" value t.

(** [this.previous().value]; the reads of the line and the column of the
    same token that follow it find the token there. *)
Definition previousValue : P string :=
  t <- previous ;; field "value" value t.

(** [line: this.getCurrentToken().line, column: this.getCurrentToken().column] *)
Definition here : P Dsl.Loc :=
  t <- getCurrentToken ;;
  l <- field "line" line t ;;
  t' <- getCurrentToken ;;
  c <- field "column" column t' ;;
  ret {| Dsl.line := Some l; Dsl.column := Some c |}.

(** [Unexpected token '...'] *)
Definition unexpectedToken {A} : P A :=
  t <- getCurrentToken ;;
  v <- field "value" value t ;;
  t' <- getCurrentToken ;;
  throwParseError ("Unexpected token '" ++ v ++ "'") t'.

(** *** Expressions *)

Definition parsePrimary (parseObject parseArray : P Dsl.Expression)
  : P Dsl.Expression :=
  s <- matchType STRING ;;
  if s then
    v <- previousValue ;;
    ret (Dsl.LiteralExpression (Dsl.LString v))
  else
  n <- matchType NUMBER ;;
  if n then
    v <- previousValue ;;
    ret (Dsl.LiteralExpression (Dsl.LNumber (parseFloat v)))
  else
  b <- matchType BOOLEAN ;;
  if b then
    v <- previousValue ;;
    ret (Dsl.LiteralExpression (Dsl.LBoolean (String.eqb v "true")))
  else
  i <- matchType IDENTIFIER ;;
  if i then
    v <- previousValue ;;
    ret (Dsl.IdentifierExpression v)
  else
  o <- matchType LBRACE ;;
  if o then parseObject
  else
  a <- matchType LBRACKET ;;
  if a then parseArray
  else unexpectedToken.

Definition parseTemplateExpression (primary : P Dsl.Expression)
  : P Dsl.Expression :=
  s <- check STRING ;;
  if s then
    v <- advanceValue ;;
    if Str.includes "${" v then
      _ <- here ;;
      ret (Dsl.TemplateExpression v)
    else
      _ <- here ;;
      ret (Dsl.LiteralExpression (Dsl.LString v))
  else primary.

Definition Properties : Type := list (string * Dsl.Expression).

(** One turn of the loop of [parseObject]; [again] is the loop. *)
Definition objectTurn (parseExpression : P Dsl.Expression)
  (again : Properties -> P Properties) (properties : Properties)
  : P Properties :=
  r <- check RBRACE ;;
  if r then ret properties
  else
  e <- isAtEnd ;;
  if e then ret properties
  else
    i <- check IDENTIFIER ;;
    key <- (if i then advanceValue
            else
              s <- check STRING ;;
              if s then advanceValue
              else
                t <- getCurrentToken ;;
                throwParseError "Expected property name" t) ;;
    _ <- expect COLON ;;
    v <- parseExpression ;;
    let properties := assign key v properties in
    m <- matchType COMMA ;;
    if m then again properties else ret properties.

Definition parseObject (loop : Properties -> P Properties)
  : P Dsl.Expression :=
  properties <- loop [] ;;
  _ <- expect RBRACE ;;
  _ <- here ;;
  ret (Dsl.ObjectExpression properties).

(** One turn of the loop of [parseArray]. *)
Definition arrayTurn (parseExpression : P Dsl.Expression)
  (again : list Dsl.Expression -> P (list Dsl.Expression))
  (elements : list Dsl.Expression) : P (list Dsl.Expression) :=
  r <- check RBRACKET ;;
  if r then ret elements
  else
  e <- isAtEnd ;;
  if e then ret elements
  else
    v <- parseExpression ;;
    let elements := (elements ++ [v])%list in
    m <- matchType COMMA ;;
    if m then again elements else ret elements.

Definition parseArray (loop : list Dsl.Expression -> P (list Dsl.Expression))
  : P Dsl.Expression :=
  elements <- loop [] ;;
  _ <- expect RBRACKET ;;
  _ <- here ;;
  ret (Dsl.ArrayExpression elements).

Fixpoint parseExpression (fuel : nat) : P Dsl.Expression :=
  fun c =>
    match fuel with
    | O => None
    | S fuel' =>
        parseTemplateExpression
          (parsePrimary (parseObject (objectLoop fuel'))
             (parseArray (arrayLoop fuel'))) c
    end
with objectLoop (fuel : nat) (properties : Properties) : P Properties :=
  fun c =>
    match fuel with
    | O => None
    | S fuel' =>
        objectTurn (parseExpression fuel') (objectLoop fuel') properties c
    end
with arrayLoop (fuel : nat) (elements : list Dsl.Expression)
  : P (list Dsl.Expression) :=
  fun c =>
    match fuel with
    | O => None
    | S fuel' =>
        arrayTurn (parseExpression fuel') (arrayLoop fuel') elements c
    end.

(** *** Declarations *)

Definition parseParameter (fuel : nat) : P Dsl.ParameterDeclaration :=
  _ <- expect PARAM ;;
  name <- expectValue IDENTIFIER ;;
  paramType <- expectValue IDENTIFIER ;;
  m <- matchType EQUALS ;;
  defaultValue <- (if m then v <- parseExpression fuel ;; ret (Some v)
                   else ret None) ;;
  loc <- here ;;
  ret {| Dsl.paramName := name; Dsl.paramType := paramType;
         Dsl.defaultValue := defaultValue; Dsl.required := negb m;
         Dsl.paramLoc := loc |}.

Definition parseVariable (fuel : nat) : P Dsl.VariableDeclaration :=
  _ <- expect VAR ;;
  name <- expectValue IDENTIFIER ;;
  _ <- expect EQUALS ;;
  v <- parseExpression fuel ;;
  loc <- here ;;
  ret {| Dsl.varName := name; Dsl.varValue := v; Dsl.varLoc := loc |}.

(** The loop over the parameters of a node or of a module. *)
Fixpoint parametersLoop (fuel : nat) (parameters : Properties)
  : P Properties :=
  match fuel with
  | O => out
  | S fuel' =>
      r <- check RBRACE ;;
      if r then ret parameters
      else
      e <- isAtEnd ;;
      if e then ret parameters
      else
        paramName <- expectValue IDENTIFIER ;;
        _ <- expect COLON ;;
        paramValue <- parseExpression fuel' ;;
        let parameters := assign paramName paramValue parameters in
        _ <- matchType COMMA ;;
        parametersLoop fuel' parameters
  end.

Definition parseNode (fuel : nat) : P Dsl.NodeDeclaration :=
  _ <- expect NODE ;;
  name <- expectValue IDENTIFIER ;;
  nodeType <- expectValue STRING ;;
  _ <- expect LBRACE ;;
  parameters <- parametersLoop fuel [] ;;
  _ <- expect RBRACE ;;
  loc <- here ;;
  ret {| Dsl.nodeName := name; Dsl.nodeType := nodeType;
         Dsl.nodeParameters := parameters; Dsl.position := None;
         Dsl.nodeLoc := loc |}.

Definition parseModule (fuel : nat) : P Dsl.ModuleDeclaration :=
  _ <- expect MODULE ;;
  name <- expectValue IDENTIFIER ;;
  _ <- expect EQUALS ;;
  modulePath <- expectValue STRING ;;
  _ <- expect LBRACE ;;
  parameters <- parametersLoop fuel [] ;;
  _ <- expect RBRACE ;;
  loc <- here ;;
  ret {| Dsl.moduleName := name; Dsl.modulePath := modulePath;
         Dsl.moduleParameters := parameters; Dsl.moduleLoc := loc |}.

(** The name after the dot of an end of a connection. *)
Definition portName (what : string) : P string :=
  i <- check IDENTIFIER ;;
  if i then advanceValue
  else
    b <- check BOOLEAN ;;
    if b then advanceValue
    else
      t <- getCurrentToken ;;
      throwParseError ("Expected connection " ++ what ++ " name") t.

Definition parseConnection : P Dsl.ConnectionDeclaration :=
  _ <- expect CONNECT ;;
  sourceNode <- expectValue IDENTIFIER ;;
  d <- matchType DOT ;;
  sourceOutput <- (if d then portName "output" else ret "main") ;;
  _ <- expect ARROW ;;
  targetNode <- expectValue IDENTIFIER ;;
  d' <- matchType DOT ;;
  targetInput <- (if d' then portName "input" else ret "main") ;;
  loc <- here ;;
  ret {| Dsl.sourceNode := sourceNode; Dsl.sourceOutput := Some sourceOutput;
         Dsl.targetNode := targetNode; Dsl.targetInput := Some targetInput;
         Dsl.connLoc := loc |}.

(** The loop of [parseWorkflow]; [w] holds the four lists. *)
Fixpoint workflowLoop (fuel : nat) (w : Dsl.WorkflowDeclaration)
  : P Dsl.WorkflowDeclaration :=
  match fuel with
  | O => out
  | S fuel' =>
      let push parameters variables nodes connections :=
        workflowLoop fuel'
          {| Dsl.workflowName := Dsl.workflowName w;
             Dsl.parameters := (Dsl.parameters w ++ parameters)%list;
             Dsl.variables := (Dsl.variables w ++ variables)%list;
             Dsl.nodes := (Dsl.nodes w ++ nodes)%list;
             Dsl.connections := (Dsl.connections w ++ connections)%list |} in
      r <- check RBRACE ;;
      if r then ret w
      else
      e <- isAtEnd ;;
      if e then ret w
      else
      p <- check PARAM ;;
      if p then d <- parseParameter fuel' ;; push [d] [] [] []
      else
      v <- check VAR ;;
      if v then d <- parseVariable fuel' ;; push [] [d] [] []
      else
      n <- check NODE ;;
      if n then d <- parseNode fuel' ;; push [] [] [Dsl.Node d] []
      else
      m <- check MODULE ;;
      if m then d <- parseModule fuel' ;; push [] [] [Dsl.Module d] []
      else
      c <- check CONNECT ;;
      if c then d <- parseConnection ;; push [] [] [] [d]
      else unexpectedToken
  end.

Definition parseWorkflow (fuel : nat) : P Dsl.WorkflowDeclaration :=
  _ <- expect WORKFLOW ;;
  name <- expectValue STRING ;;
  _ <- expect LBRACE ;;
  w <- workflowLoop fuel
         {| Dsl.workflowName := name; Dsl.parameters := [];
            Dsl.variables := []; Dsl.nodes := []; Dsl.connections := [] |} ;;
  _ <- expect RBRACE ;;
  _ <- here ;;
  ret w.

(** The body of the [try] of [parse]. *)
Definition parseProgram (fuel : nat) : P Dsl.Program :=
  workflow <- parseWorkflow fuel ;;
  e <- isAtEnd ;;
  _ <- (if e then ret None else expect EOF) ;;
  ret {| Dsl.workflow := workflow |}.

(** [parse], with its [catch]: a [ParseError] is thrown again, anything
    else is wrapped in a [ParseError] at the current token. *)
Definition parseWithin (fuel : nat) : option (Try Dsl.Program) :=
  match parseProgram fuel 0 with
  | None => None
  | Some (Done program _) => Some (Returned program)
  | Some (Fail (ParseError message token) _) =>
      Some (Raised (ParseError message token))
  | Some (Fail (Other e) c) =>
      match throwParseError (A := unit)
              ("Unexpected error: " ++ Compiler.exnText e)
              (nth_error tokens c) c with
      | Some (Fail t _) => Some (Raised t)
      | _ => None
      end
  end.

(** A turn of a loop reads a token, and so does an expression, which an
    array parses at the token where its turn starts: two steps for each
    token are enough. *)
Definition parse : option (Try Dsl.Program) :=
  parseWithin (2 * List.length tokens).

End WithTokens.

(** [new Parser(input)]: the tokens that the parser keeps. *)
Definition kept (t : Token) : bool :=
  negb (sameType (type t) COMMENT) && negb (sameType (type t) NEWLINE).

Definition create (input : string) : option (Res (list Token)) :=
  match tokenize input with
  | None => None
  | Some (Throw e) => Some (Throw e)
  | Some (Ok ts) => Some (Ok (filter kept ts))
  end.

(** [new Parser(input).parse()] *)
Definition parseText (input : string) : option (Try Dsl.Program) :=
  match create input with
  | None => None
  | Some (Throw e) => Some (Raised (Other e))
  | Some (Ok tokens) => parse tokens
  end.

End Parser.

(** ** The compiler on a source text, [src/compiler.ts]

    [Compiler.compile] and [Compiler.validateOnly] as they are called,
    with the text of the program. *)

Module Driver.

Import Js Eff.

(** The error that [compile] and [validateOnly] make of a [ParseError]. *)
Definition ofParseError (message : string) (token : Lexer.Token)
  : Validation.ValidationError :=
  {| Validation.message := message;
     Validation.line := Some (Lexer.line token);
     Validation.column := Some (Lexer.column token);
     Validation.type := Validation.error |}.

(** What the [catch] of [compile] returns. *)
Definition failed (t : Parser.Thrown) : Compiler.CompilerResult :=
  match t with
  | Parser.ParseError message token =>
      {| Compiler.success := false; Compiler.workflow := None;
         Compiler.ast := None;
         Compiler.errors := [ofParseError message token];
         Compiler.warnings := [] |}
  | Parser.Other e => Compiler.caught e [] []
  end.

(** [Compiler.compile(dslCode)] *)
Definition compile (h : Host) (options : Compiler.CompilerOptions)
  (dslCode : string) : option Compiler.CompilerResult :=
  match Parser.parseText dslCode with
  | None => None
  | Some (Parser.Raised t) => Some (failed t)
  | Some (Parser.Returned ast) => Some (Compiler.compile h options ast)
  end.

(** [Compiler.validateOnly(dslCode)] *)
Definition validateOnly (dslCode : string)
  : option (list Validation.ValidationError) :=
  match Parser.parseText dslCode with
  | None => None
  | Some (Parser.Raised (Parser.ParseError message token)) =>
      Some [ofParseError message token]
  | Some (Parser.Raised (Parser.Other e)) =>
      Some [Validation.addError ("Parse error: " ++ Compiler.exnText e)
              Dsl.noLoc]
  | Some (Parser.Returned ast) => Some (Validation.validateProgram ast)
  end.

End Driver.

(** ** Sample hosts and programs, for the concrete instances *)

Module Sample.

Import Js Eff.

Definition randomA : Random :=
  {| random16 := fun k => Z.of_nat k mod 16;
     random36 := fun k => "a" ++ Num.zString (Z.of_nat k) |}.

Definition randomB : Random :=
  {| random16 := fun k => (Z.of_nat k + 7) mod 16;
     random36 := fun k => "b" ++ Num.zString (Z.of_nat k) |}.

Definition worldA : World :=
  {| nowISO := fun k => "2025-01-01T00:00:0" ++ Num.zString (Z.of_nat k) ++ ".000Z";
     environ := fun name => if String.eqb name "HOME" then Some "/root" else None;
     dateParses := fun s => String.eqb s "2025-01-01" |}.

Definition hostA : Host := {| randomSource := randomA; world := worldA |}.
Definition hostB : Host := {| randomSource := randomB; world := worldA |}.

Definition node (name type : string) (ps : list (string * Dsl.Expression))
  : Dsl.NodeEntry :=
  Dsl.Node {| Dsl.nodeName := name; Dsl.nodeType := type;
              Dsl.nodeParameters := ps; Dsl.position := None;
              Dsl.nodeLoc := Dsl.noLoc |}.

Definition moduleEntry (name path : string) : Dsl.NodeEntry :=
  Dsl.Module {| Dsl.moduleName := name; Dsl.modulePath := path;
                Dsl.moduleParameters := []; Dsl.moduleLoc := Dsl.noLoc |}.

(** [connect a.out -> b.inp] as the parser builds it. *)
Definition connection (a out b inp : string) : Dsl.ConnectionDeclaration :=
  {| Dsl.sourceNode := a; Dsl.sourceOutput := Some out;
     Dsl.targetNode := b; Dsl.targetInput := Some inp;
     Dsl.connLoc := Dsl.noLoc |}.

Definition str (s : string) : Dsl.Expression :=
  Dsl.LiteralExpression (Dsl.LString s).

Definition number (z : Z) : Dsl.Expression :=
  Dsl.LiteralExpression (Dsl.LNumber (Num.Fin z 0)).

Definition program (ps : list Dsl.ParameterDeclaration)
  (vs : list Dsl.VariableDeclaration) (ns : list Dsl.NodeEntry)
  (cs : list Dsl.ConnectionDeclaration) : Dsl.Program :=
  {| Dsl.workflow :=
       {| Dsl.workflowName := "sample"; Dsl.parameters := ps;
          Dsl.variables := vs; Dsl.nodes := ns; Dsl.connections := cs |} |}.

Definition param (name type : string) (d : option Dsl.Expression)
  : Dsl.ParameterDeclaration :=
  {| Dsl.paramName := name; Dsl.paramType := type; Dsl.defaultValue := d;
     Dsl.required := match d with Some _ => false | None => true end;
     Dsl.paramLoc := Dsl.noLoc |}.

Definition var (name : string) (e : Dsl.Expression) : Dsl.VariableDeclaration :=
  {| Dsl.varName := name; Dsl.varValue := e; Dsl.varLoc := Dsl.noLoc |}.

(** No option given: the defaults of the constructors apply. *)
Definition defaults : Generator.GeneratorOptions :=
  {| Generator.instanceId := None; Generator.autoLayout := None;
     Generator.startPosition := None; Generator.spacing := None |}.

(** [autoLayout: true, startPosition: [0, 0], spacing: 200] *)
Definition layout200 : Generator.GeneratorOptions :=
  {| Generator.instanceId := None; Generator.autoLayout := Some true;
     Generator.startPosition := Some (0, 0); Generator.spacing := Some 200 |}.

Definition compilerDefaults : Compiler.CompilerOptions :=
  {| Compiler.generatorOptions := defaults; Compiler.validate := None;
     Compiler.strict := None |}.

Definition withoutValidation : Compiler.CompilerOptions :=
  {| Compiler.generatorOptions := defaults; Compiler.validate := Some false;
     Compiler.strict := None |}.

(** A manual trigger, a request and a mail, in this order. *)
Definition threeNodes : Dsl.Program :=
  program [] []
    [node "start" "trigger.manual" [];
     node "fetch" "http.request" [("url", str "https://example.com")];
     node "mail" "integration.email" [("to", str "a@example.com")]]
    [connection "start" "main" "fetch" "main";
     connection "fetch" "main" "mail" "main"].

(** [connect missing -> alsoMissing] and nothing else. *)
Definition dangling : Dsl.Program :=
  program [] [] [] [connection "missing" "main" "alsoMissing" "main"].

End Sample.

(** * Properties *)

(** ** Conversions to a string *)

Module ConversionFacts.

Import Js.
Local Open Scope list_scope.

(** [String(v)] returns. *)
Definition converts (v : Value) : bool := isOk (toStr v).

(** [String] returns on the value of every entry of [v]. *)
Definition entriesConvert (v : Value) : bool :=
  match entries v with
  | Ok o => forallb (fun kv => converts (snd kv)) o
  | Throw _ => false
  end.

(** An object that [String] throws on: [{ toString: 1 }]. *)
Definition unprintable : Value := VObj [("toString"%string, int 1)].

Lemma isOk_mapOk {A B} (f : A -> B) (r : Res A) : isOk (mapOk f r) = isOk r.
Proof. now destruct r. Qed.

Lemma mapOk_Throw {A B} (f : A -> B) (r : Res A) e :
  mapOk f r = Throw e -> r = Throw e.
Proof. destruct r; cbn; congruence. Qed.

Lemma isOk_mapRes {A B} (f : A -> Res B) (l : list A) :
  isOk (mapRes f l) = forallb (fun x => isOk (f x)) l.
Proof.
  induction l as [|x l IH]; cbn [mapRes forallb]; [reflexivity|].
  destruct (f x); cbn [isOk andb]; [|reflexivity].
  now rewrite isOk_mapOk.
Qed.

Lemma mapRes_Throw {A B} (f : A -> Res B) (l : list A) e :
  mapRes f l = Throw e -> exists x, In x l /\ f x = Throw e.
Proof.
  induction l as [|x l IH]; cbn [mapRes]; [discriminate|].
  destruct (f x) as [y|e'] eqn:E.
  - intros H. apply mapOk_Throw in H. destruct (IH H) as (x' & Hin & Hx').
    exists x'. split; [now right|exact Hx'].
  - intros [= ->]. exists x. split; [now left|exact E].
Qed.

(** Induction on a value, through the elements of an array. *)
Lemma Value_elements (P : Value -> Prop) :
  (forall v, (forall l, v = VArr l -> Forall P l) -> P v) ->
  forall v, P v.
Proof.
  intros Step. fix IH 1. intros v. apply Step.
  destruct v as [| |b|n|s|l|o]; try discriminate.
  intros l' [= <-].
  induction l as [|x l IHl]; constructor; [apply IH|exact IHl].
Qed.

(** [String] throws nothing but the TypeError of an object without a
    primitive value. *)
Lemma toStr_throws v : forall e, toStr v = Throw e -> e = notPrimitive.
Proof.
  induction v as [v IH] using Value_elements.
  destruct v as [| |b|n|s|l|o]; intros e; cbn [toStr]; try discriminate.
  - destruct b; discriminate.
  - intros H. apply mapOk_Throw in H. apply mapRes_Throw in H.
    destruct H as (x & Hin & Hx).
    pose proof (IH l eq_refl) as Hl. rewrite Forall_forall in Hl.
    apply (Hl x Hin). destruct x; try discriminate; exact Hx.
  - destruct (hasOwn _ o); [|discriminate]. now intros [= <-].
Qed.

Lemma toNum_throws v e : toNum v = Throw e -> e = notPrimitive.
Proof.
  destruct v as [| |b|n|s|l|o]; cbn [toNum]; try discriminate.
  - destruct b; discriminate.
  - intros H. apply mapOk_Throw in H. exact (toStr_throws _ H).
  - intros H. apply mapOk_Throw in H. exact (toStr_throws _ H).
Qed.

Lemma converts_Ok v : converts v = true -> exists s, toStr v = Ok s.
Proof. unfold converts. destruct (toStr v); [eauto|discriminate]. Qed.

(** [String] and [Number] on objects and arrays. *)
Remark object_conversions :
  toStr (VObj [("a"%string, int 1)]) = Ok "[object Object]"%string
  /\ toStr unprintable = Throw notPrimitive
  /\ toStr (VArr [int 1; VNull; VArr [VStr "a"; VUndef]; VObj []])
     = Ok "1,,a,,[object Object]"%string
  /\ toStr (VArr [int 1; unprintable]) = Throw notPrimitive
  /\ toNum (VArr [int 5]) = Ok (Num.Fin 5 0)
  /\ toNum (VObj []) = Ok Num.NaN
  /\ toNum unprintable = Throw notPrimitive.
Proof. repeat split. Qed.

(** The notation of a number: positional from [1e-6] up to [1e21], with
    an exponent outside. *)
Remark number_notation :
  map Num.toString
    [Num.Fin 100 0; Num.Fin 15 1; Num.Fin (-15) 1; Num.Fin 1 6; Num.Fin 1 7;
     Num.Fin 123 8; Num.Fin 12 9; Num.Fin (10 ^ 20) 0; Num.Fin (10 ^ 21) 0;
     Num.Fin (123 * 10 ^ 19) 0; Num.Fin 0 0]
  = ["100"; "1.5"; "-1.5"; "0.000001"; "1e-7"; "0.00000123"; "1.2e-8";
     "100000000000000000000"; "1e+21"; "1.23e+21"; "0"]%string.
Proof. vm_compute. reflexivity. Qed.

(** The digits of a number are those of its double: seventeen at most,
    the fewest that give the double back; beyond the largest double is
    [Infinity], and below half the least one is [0]. *)
Remark number_digits :
  map Num.toString
    [Num.Fin 1 1; Num.Fin 435 2; Num.Fin 9007199254740993 0;
     Num.Fin 123456789123456789 9; Num.Fin 12345678901234567890123 0;
     Num.Fin 99999999999999999 0; Num.Fin 295147905179352825856 0;
     Num.Fin 5 324; Num.Fin 3 324; Num.Fin 2 324;
     Num.Fin (17976931348623157 * 10 ^ 292) 0; Num.Fin (10 ^ 309) 0;
     Num.Fin (- 10 ^ 309) 0]
  = ["0.1"; "4.35"; "9007199254740992"; "123456789.12345679";
     "1.2345678901234568e+22"; "100000000000000000";
     "295147905179352830000"; "5e-324"; "5e-324"; "0";
     "1.7976931348623157e+308"; "Infinity"; "-Infinity"]%string.
Proof. vm_compute. reflexivity. Qed.

End ConversionFacts.

(** ** Maps and slots *)

Module MapFacts.

Import Generator.

Lemma eqb_refl' (k : string) : String.eqb k k = true.
Proof. apply String.eqb_refl. Qed.

Lemma find_mapSet_same {A} (k : string) (a : A) (m : list (string * A)) :
  mapGet k (mapSet k a m) = Some a.
Proof.
  unfold mapGet.
  induction m as [|[k' a'] m IH]; simpl.
  - now rewrite String.eqb_refl.
  - destruct (String.eqb k k') eqn:E; simpl.
    + now rewrite String.eqb_refl.
    + now rewrite E.
Qed.

Lemma find_mapSet_other {A} (k k' : string) (a : A) (m : list (string * A)) :
  k' <> k -> mapGet k' (mapSet k a m) = mapGet k' m.
Proof.
  unfold mapGet. intros Hne.
  induction m as [|[k0 a0] m IH]; simpl.
  - destruct (String.eqb k' k) eqn:E; [apply String.eqb_eq in E; congruence|reflexivity].
  - destruct (String.eqb k k0) eqn:E; simpl.
    + apply String.eqb_eq in E. subst k0.
      destruct (String.eqb k' k) eqn:E'; [apply String.eqb_eq in E'; congruence|reflexivity].
    + now rewrite IH.
Qed.

Lemma find_Forall {A} (P : string * A -> Prop) (k : string) (a : A)
  (m : list (string * A)) :
  Forall P m -> mapGet k m = Some a -> P (k, a).
Proof.
  unfold mapGet.
  induction 1 as [|[k' a'] m Hx Hm IH]; simpl; [discriminate|].
  destruct (String.eqb k k') eqn:E.
  - apply String.eqb_eq in E. subst k'. now intros [= ->].
  - exact IH.
Qed.

Lemma mapSet_Forall {A} (P : string * A -> Prop) (k : string) (a : A)
  (m : list (string * A)) :
  Forall P m -> P (k, a) -> Forall P (mapSet k a m).
Proof.
  intros Hm Ha.
  induction Hm as [|[k' a'] m Hx Hm IH]; simpl.
  - now constructor.
  - destruct (String.eqb k k'); constructor; auto.
Qed.

Lemma mapSet_keys_in {A} (k : string) (a : A) (m : list (string * A)) :
  forall x, In x (map fst (mapSet k a m)) <-> x = k \/ In x (map fst m).
Proof.
  induction m as [|[k' a'] m IH]; simpl; intros x.
  - intuition.
  - destruct (String.eqb k k') eqn:E; simpl.
    + apply String.eqb_eq in E. subst. intuition.
    + rewrite IH. intuition.
Qed.

Lemma find_None_keys {A} (k : string) (m : list (string * A)) :
  mapGet k m = None <-> ~ In k (map fst m).
Proof.
  unfold mapGet.
  induction m as [|[k' a'] m IH]; simpl.
  - intuition.
  - destruct (String.eqb k k') eqn:E.
    + apply String.eqb_eq in E. subst. split; [discriminate|intuition].
    + apply String.eqb_neq in E. rewrite IH. intuition.
Qed.

Lemma slotAt_slotSet (i : nat) (l : list N8n.NodeConnection) (s : N8n.Slots) :
  slotAt i (slotSet i l s) = Some l.
Proof.
  unfold slotAt.
  revert s. induction i as [|i IH]; intros [|x s]; simpl; auto.
Qed.

Lemma slotAt_Forall (P : option (list N8n.NodeConnection) -> Prop) i l s :
  Forall P s -> slotAt i s = Some l -> P (Some l).
Proof.
  unfold slotAt. intros Hs.
  destruct (nth_error s i) as [[l'|]|] eqn:E; try discriminate.
  intros [= ->]. apply nth_error_In in E.
  rewrite Forall_forall in Hs. now apply Hs.
Qed.

Lemma slotSet_Forall (P : option (list N8n.NodeConnection) -> Prop) i l s :
  P None -> Forall P s -> P (Some l) -> Forall P (slotSet i l s).
Proof.
  intros Hn Hs Hl. revert s Hs.
  induction i as [|i IH]; intros [|x s] Hs; simpl.
  - auto.
  - inversion Hs; subst. auto.
  - constructor; auto.
  - inversion Hs; subst. constructor; auto.
Qed.

End MapFacts.

(** ** Connections *)

Module ConnectionFacts.

Import Js Generator MapFacts.
Local Open Scope list_scope.

(** An entry of the connections map as the claim wants it. *)
Definition entryOk (e : N8n.NodeConnection) : Prop :=
  N8n.type e = "main"%string /\ N8n.index e = 0.

Definition slotOk (slot : option (list N8n.NodeConnection)) : Prop :=
  match slot with
  | Some l => Forall entryOk l
  | None => True
  end.

Definition typesOk (kv : string * N8n.Slots) : Prop :=
  fst kv = "main"%string /\ Forall slotOk (snd kv).

Definition sourceOk (kv : string * N8n.NodeConnections) : Prop :=
  Forall typesOk (snd kv).

(** Every entry of the map has type [main] and input index 0, under the
    key [main]. *)
Definition allMain (r : N8n.WorkflowConnections) : Prop := Forall sourceOk r.

(** The declaration [c] with its target input port renamed. *)
Definition withInput (i : option string) (c : Dsl.ConnectionDeclaration)
  : Dsl.ConnectionDeclaration :=
  {| Dsl.sourceNode := Dsl.sourceNode c;
     Dsl.sourceOutput := Dsl.sourceOutput c;
     Dsl.targetNode := Dsl.targetNode c;
     Dsl.targetInput := i;
     Dsl.connLoc := Dsl.connLoc c |}.

(** The entry a declaration contributes. *)
Definition entryOf (c : Dsl.ConnectionDeclaration) : N8n.NodeConnection :=
  {| N8n.node := Dsl.targetNode c; N8n.type := "main"; N8n.index := 0 |}.

(** The output slot of a declaration. *)
Definition slotIndex (c : Dsl.ConnectionDeclaration) : nat :=
  mapOutputIndex (outputName c).

(** The entries of the declarations that leave [s] by the slot [i], in
    the order of the declarations. *)
Definition outputs (s : string) (i : nat)
  (conns : list Dsl.ConnectionDeclaration) : list N8n.NodeConnection :=
  map entryOf
    (filter (fun c => String.eqb (Dsl.sourceNode c) s
                      && (slotIndex c =? i)%nat) conns).

(** The slots of [s]: the first alone when nothing leaves by the second;
    a hole in the first place when nothing leaves by the first. *)
Definition slotsOf (s : string) (conns : list Dsl.ConnectionDeclaration)
  : N8n.Slots :=
  match outputs s 1 conns with
  | [] => [Some (outputs s 0 conns)]
  | o1 => [match outputs s 0 conns with [] => None | o0 => Some o0 end;
           Some o1]
  end.

Definition leaves (s : string) (conns : list Dsl.ConnectionDeclaration)
  : bool :=
  existsb (fun c => String.eqb (Dsl.sourceNode c) s) conns.

(** What the connections map holds for [s] when every declaration is
    recorded under its source. *)
Definition grouped (s : string) (conns : list Dsl.ConnectionDeclaration)
  : option N8n.NodeConnections :=
  if leaves s conns then Some [("main"%string, slotsOf s conns)] else None.

(** The name of a function that every object inherits. *)
Definition inherited (s : string) : bool :=
  existsb (String.eqb s) prototypeFunctions.

(** The declarations that are recorded under a key of the map: all but
    those that leave a node with the name of an inherited function. *)
Definition recorded (conns : list Dsl.ConnectionDeclaration)
  : list Dsl.ConnectionDeclaration :=
  filter (fun c => negb (inherited (Dsl.sourceNode c))) conns.

(** No declaration leaves a node of the name [__proto__]. *)
Definition plain (conns : list Dsl.ConnectionDeclaration) : Prop :=
  Forall (fun c => Dsl.sourceNode c <> "__proto__"%string) conns.

(** What the loop body makes of the own keys when the source has, or
    gets, a key and an array of its own. *)
Definition record (conn : Dsl.ConnectionDeclaration)
  (result : N8n.WorkflowConnections) : N8n.WorkflowConnections :=
  let byType := orElse (mapGet (Dsl.sourceNode conn) result) [] in
  let slots := orElse (mapGet "main"%string byType) [] in
  let existing := orElse (slotAt (slotIndex conn) slots) [] in
  mapSet (Dsl.sourceNode conn)
    (mapSet "main"%string
       (slotSet (slotIndex conn) (existing ++ [entryOf conn]) slots) byType)
    result.

Lemma mapConnectionType_main (p : string) :
  mapConnectionType p = "main"%string.
Proof.
  unfold mapConnectionType.
  destruct (_ || _)%bool; [reflexivity|].
  now destruct (String.eqb p "error").
Qed.

Lemma slotAt_nil i : slotAt i [] = None.
Proof. unfold slotAt. now destruct i. Qed.

Lemma findSource_Own s w byType :
  findSource s w = Own byType ->
  byType = orElse (mapGet s (own w)) [].
Proof.
  unfold findSource.
  destruct (mapGet s (own w)) as [b|]; cbn [orElse].
  - now intros [= ->].
  - destruct (String.eqb s "__proto__"); [discriminate|].
    destruct (existsb _ _); [discriminate|].
    destruct (_ && _)%bool; [discriminate|]. now intros [= <-].
Qed.

(** The three things the loop body does to the own keys: nothing; a key
    for the source with what it had, or with nothing; the entry in an
    array of its own. *)
Lemma addConnection_cases c w :
  own (addConnection c w) = own w
  \/ own (addConnection c w)
     = mapSet (Dsl.sourceNode c)
         (orElse (mapGet (Dsl.sourceNode c) (own w)) []) (own w)
  \/ own (addConnection c w) = record c (own w).
Proof.
  unfold addConnection. rewrite mapConnectionType_main.
  destruct (findSource (Dsl.sourceNode c) w) as [byType| |] eqn:F;
    [|now left|now left].
  apply findSource_Own in F.
  destruct (mapGet "main"%string byType) as [slots|] eqn:M.
  - right; right. cbn [own]. unfold record. fold (slotIndex c).
    rewrite <- F, M. reflexivity.
  - destruct (onPrototype w).
    + right; left. cbn [own]. now rewrite F.
    + right; right. cbn [own]. unfold record. fold (slotIndex c).
      rewrite <- F, M. cbn [orElse]. now rewrite slotAt_nil.
Qed.

(** With [Object.prototype] as it was, a source that has no inherited name
    is recorded. *)
Lemma addConnection_plain c w :
  onPrototype w = false ->
  Dsl.sourceNode c <> "__proto__"%string ->
  inherited (Dsl.sourceNode c) = false ->
  addConnection c w = {| own := record c (own w); onPrototype := false |}.
Proof.
  intros P N I. unfold addConnection. rewrite mapConnectionType_main.
  assert (F : findSource (Dsl.sourceNode c) w
              = Own (orElse (mapGet (Dsl.sourceNode c) (own w)) [])).
  { unfold findSource.
    destruct (mapGet (Dsl.sourceNode c) (own w)); [reflexivity|].
    apply String.eqb_neq in N. rewrite N.
    unfold inherited in I. rewrite I, P. reflexivity. }
  rewrite F, P. unfold record. fold (slotIndex c).
  destruct (mapGet "main"%string _) as [slots|]; [reflexivity|].
  cbn [orElse]. now rewrite slotAt_nil.
Qed.

(** A source with the name of an inherited function, and no key of its
    own, leaves the own keys as they are. *)
Lemma addConnection_inherited c w :
  mapGet (Dsl.sourceNode c) (own w) = None ->
  Dsl.sourceNode c <> "__proto__"%string ->
  inherited (Dsl.sourceNode c) = true ->
  addConnection c w = w.
Proof.
  intros M N I. unfold addConnection, findSource. rewrite M.
  apply String.eqb_neq in N. rewrite N.
  unfold inherited in I. now rewrite I.
Qed.

Lemma findSource_unowned s w :
  findSource s w = Prototype \/ findSource s w = Inherited ->
  mapGet s (own w) = None.
Proof.
  unfold findSource. destruct (mapGet s (own w)); [|reflexivity].
  intros [H|H]; discriminate.
Qed.

Lemma findSource_named s w byType :
  mapGet "__proto__"%string (own w) = None ->
  findSource s w = Own byType -> s <> "__proto__"%string.
Proof.
  unfold findSource. intros N H E. subst s. rewrite N in H. discriminate.
Qed.

Lemma addConnection_Prototype c w :
  findSource (Dsl.sourceNode c) w = Prototype ->
  addConnection c w = {| own := own w; onPrototype := true |}.
Proof. intros F. unfold addConnection. now rewrite F. Qed.

Lemma addConnection_Inherited c w :
  findSource (Dsl.sourceNode c) w = Inherited -> addConnection c w = w.
Proof. intros F. unfold addConnection. now rewrite F. Qed.

(** A source with an array of its own is recorded. *)
Lemma addConnection_array c w byType slots :
  findSource (Dsl.sourceNode c) w = Own byType ->
  mapGet "main"%string byType = Some slots ->
  mapGet (Dsl.sourceNode c) (own w) = Some byType
  /\ addConnection c w
     = {| own := record c (own w); onPrototype := onPrototype w |}.
Proof.
  intros F M.
  assert (B : mapGet (Dsl.sourceNode c) (own w) = Some byType).
  { pose proof (findSource_Own _ _ F) as E.
    destruct (mapGet (Dsl.sourceNode c) (own w)) as [b|]; cbn [orElse] in E;
      [now subst|].
    subst byType. discriminate. }
  split; [exact B|].
  unfold addConnection. cbv zeta. rewrite F, mapConnectionType_main, M.
  unfold record. fold (slotIndex c). rewrite B. cbn [orElse].
  now rewrite M.
Qed.

(** A source without an array of its own, once [Object.prototype] has
    one, is not recorded. *)
Lemma addConnection_shared c w byType :
  onPrototype w = true ->
  findSource (Dsl.sourceNode c) w = Own byType ->
  mapGet "main"%string byType = None ->
  addConnection c w
  = {| own := mapSet (Dsl.sourceNode c) byType (own w);
       onPrototype := true |}.
Proof.
  intros P F M. unfold addConnection. cbv zeta.
  now rewrite F, mapConnectionType_main, M, P.
Qed.

Lemma record_allMain c r : allMain r -> allMain (record c r).
Proof.
  intros Hr. unfold record, allMain.
  set (byType := orElse (mapGet (Dsl.sourceNode c) r) []).
  set (slots := orElse (mapGet "main"%string byType) []).
  assert (HbyType : Forall typesOk byType).
  { subst byType. destruct (mapGet (Dsl.sourceNode c) r) as [b|] eqn:E; simpl.
    - exact (@find_Forall _ sourceOk _ _ _ Hr E).
    - constructor. }
  assert (Hslots : Forall slotOk slots).
  { subst slots. destruct (mapGet "main"%string byType) as [s|] eqn:E; simpl.
    - exact (proj2 (@find_Forall _ typesOk _ _ _ HbyType E)).
    - constructor. }
  apply mapSet_Forall; [exact Hr|].
  unfold sourceOk; simpl.
  apply mapSet_Forall; [exact HbyType|].
  split; [reflexivity|]. simpl.
  apply slotSet_Forall; [exact I|exact Hslots|].
  simpl. apply Forall_app. split.
  - destruct (slotAt _ slots) as [l|] eqn:E; simpl; [|constructor].
    exact (@slotAt_Forall slotOk _ _ _ Hslots E).
  - constructor; [|constructor]. now split.
Qed.

Lemma addConnection_allMain c w :
  allMain (own w) -> allMain (own (addConnection c w)).
Proof.
  intros Hr.
  destruct (addConnection_cases c w) as [-> | [-> | ->]].
  - exact Hr.
  - apply mapSet_Forall; [exact Hr|]. unfold sourceOk. cbn [snd].
    destruct (mapGet (Dsl.sourceNode c) (own w)) as [b|] eqn:E; cbn [orElse].
    + exact (@find_Forall _ sourceOk _ _ _ Hr E).
    + constructor.
  - now apply record_allMain.
Qed.

Lemma connect_allMain conns nodes : forall w w',
  allMain (own w) -> connect conns nodes w = Ok w' -> allMain (own w').
Proof.
  induction conns as [|c conns IH]; simpl; intros w w' Hr.
  - now intros [= <-].
  - destruct (negb (hasNode (Dsl.sourceNode c) nodes)); [discriminate|].
    destruct (negb (hasNode (Dsl.targetNode c) nodes)); [discriminate|].
    apply IH. now apply addConnection_allMain.
Qed.

Lemma connect_withInput f conns nodes : forall w,
  connect (map (fun c => withInput (f c) c) conns) nodes w
  = connect conns nodes w.
Proof.
  induction conns as [|c conns IH]; simpl; intros w; [reflexivity|].
  destruct (negb (hasNode (Dsl.sourceNode c) nodes)); [reflexivity|].
  destruct (negb (hasNode (Dsl.targetNode c) nodes)); [reflexivity|].
  apply IH.
Qed.

Lemma connect_total conns nodes : forall w,
  (forall c, In c conns ->
     hasNode (Dsl.sourceNode c) nodes = true
     /\ hasNode (Dsl.targetNode c) nodes = true) ->
  exists w', connect conns nodes w = Ok w'.
Proof.
  induction conns as [|c conns IH]; simpl; intros w H.
  - now exists w.
  - destruct (H c (or_introl eq_refl)) as [-> ->]. simpl.
    apply IH. intros c' Hc'. apply H. now right.
Qed.

(** What [generateConnections] returns is the own keys the loop ends with. *)
Lemma generateConnections_Ok conns nodes r :
  generateConnections conns nodes = Ok r ->
  exists w, connect conns nodes fresh = Ok w /\ own w = r.
Proof.
  unfold generateConnections.
  destruct (connect conns nodes fresh) as [w|e]; cbn [mapOk]; [|discriminate].
  intros [= <-]. now exists w.
Qed.

Lemma mapOutputIndex_cases (p : string) :
  mapOutputIndex p = if String.eqb p "false" then 1%nat else 0%nat.
Proof.
  unfold mapOutputIndex.
  destruct (String.eqb p "main") eqn:E1.
  { apply String.eqb_eq in E1. now subst. }
  destruct (String.eqb p "output") eqn:E2.
  { apply String.eqb_eq in E2. now subst. }
  destruct (String.eqb p "true") eqn:E3.
  { apply String.eqb_eq in E3. now subst. }
  simpl. now destruct (String.eqb p "false").
Qed.

Lemma slotIndex_cases c : slotIndex c = 0%nat \/ slotIndex c = 1%nat.
Proof.
  unfold slotIndex. rewrite mapOutputIndex_cases.
  destruct (String.eqb _ "false"); auto.
Qed.

Lemma outputs_app s i done c :
  outputs s i (done ++ [c])
  = outputs s i done
    ++ (if String.eqb (Dsl.sourceNode c) s && (slotIndex c =? i)%nat
        then [entryOf c] else []).
Proof.
  unfold outputs. rewrite filter_app, map_app. cbn [filter].
  now destruct (String.eqb _ s && _).
Qed.

Lemma leaves_app s done c :
  leaves s (done ++ [c])
  = leaves s done || String.eqb (Dsl.sourceNode c) s.
Proof.
  unfold leaves. rewrite existsb_app. cbn [existsb]. now rewrite orb_false_r.
Qed.

Lemma outputs_none s i conns : leaves s conns = false -> outputs s i conns = [].
Proof.
  unfold leaves, outputs.
  induction conns as [|c conns IH]; cbn [existsb filter map]; [reflexivity|].
  intros H. apply orb_false_iff in H. destruct H as [-> H]. cbn. now apply IH.
Qed.

Lemma outputs_some s conns :
  leaves s conns = true ->
  outputs s 0 conns <> [] \/ outputs s 1 conns <> [].
Proof.
  unfold leaves, outputs.
  induction conns as [|c conns IH]; cbn [existsb filter map]; [discriminate|].
  intros H. destruct (String.eqb (Dsl.sourceNode c) s); cbn.
  - destruct (slotIndex_cases c) as [-> | ->]; cbn;
      [left|right]; discriminate.
  - now apply IH.
Qed.

Lemma record_grouped c r done :
  (forall s, mapGet s r = grouped s done) ->
  forall s, mapGet s (record c r) = grouped s (done ++ [c]).
Proof.
  intros Hr s. unfold grouped. rewrite leaves_app.
  destruct (string_dec (Dsl.sourceNode c) s) as [E|E].
  - subst s. rewrite String.eqb_refl, orb_true_r.
    unfold record.
    rewrite find_mapSet_same. f_equal.
    rewrite (Hr (Dsl.sourceNode c)). unfold grouped, slotsOf.
    rewrite !outputs_app, String.eqb_refl. cbn [andb].
    destruct (leaves (Dsl.sourceNode c) done) eqn:L.
    + cbn [orElse mapGet Templates.find String.eqb Ascii.eqb Bool.eqb].
      destruct (@outputs_some _ _ L) as [N|N];
        destruct (slotIndex_cases c) as [-> | ->];
        destruct (outputs (Dsl.sourceNode c) 0 done) as [|a o0];
        destruct (outputs (Dsl.sourceNode c) 1 done) as [|b o1];
        try congruence; cbn; rewrite ?app_nil_r; reflexivity.
    + rewrite !(@outputs_none _ _ _ L).
      destruct (slotIndex_cases c) as [-> | ->]; reflexivity.
  - assert (E' := E). apply String.eqb_neq in E'. rewrite E', orb_false_r.
    unfold slotsOf. rewrite !outputs_app, E'. cbn [andb]. rewrite !app_nil_r.
    unfold record. rewrite find_mapSet_other by congruence.
    exact (Hr s).
Qed.

Lemma recorded_app done c :
  recorded (done ++ [c])
  = recorded done ++ (if inherited (Dsl.sourceNode c) then [] else [c]).
Proof.
  unfold recorded. rewrite filter_app. cbn [filter].
  now destruct (inherited (Dsl.sourceNode c)).
Qed.

Lemma leaves_recorded s conns :
  inherited s = true -> leaves s (recorded conns) = false.
Proof.
  intros I. unfold leaves, recorded.
  induction conns as [|c conns IH]; cbn [filter existsb]; [reflexivity|].
  destruct (inherited (Dsl.sourceNode c)) eqn:Ic; cbn [negb existsb];
    [exact IH|].
  rewrite IH, orb_false_r. apply String.eqb_neq. intros E. subst s.
  congruence.
Qed.

(** One turn of the loop, while [Object.prototype] is as it was. *)
Lemma addConnection_grouped c w done :
  onPrototype w = false ->
  Dsl.sourceNode c <> "__proto__"%string ->
  (forall s, mapGet s (own w) = grouped s (recorded done)) ->
  onPrototype (addConnection c w) = false
  /\ forall s, mapGet s (own (addConnection c w))
               = grouped s (recorded (done ++ [c])).
Proof.
  intros P N Hr. rewrite recorded_app.
  destruct (inherited (Dsl.sourceNode c)) eqn:I.
  - rewrite addConnection_inherited; auto.
    + rewrite app_nil_r. auto.
    + rewrite Hr. unfold grouped. now rewrite leaves_recorded.
  - rewrite addConnection_plain by assumption. cbn [own onPrototype].
    split; [reflexivity|]. now apply record_grouped.
Qed.

Lemma connect_grouped nodes conns : forall done w w',
  onPrototype w = false ->
  plain conns ->
  (forall s, mapGet s (own w) = grouped s (recorded done)) ->
  connect conns nodes w = Ok w' ->
  onPrototype w' = false
  /\ forall s, mapGet s (own w') = grouped s (recorded (done ++ conns)).
Proof.
  induction conns as [|c conns IH]; cbn [connect]; intros done w w' P N Hr H.
  - injection H as <-. now rewrite app_nil_r.
  - destruct (negb (hasNode (Dsl.sourceNode c) nodes)); [discriminate|].
    destruct (negb (hasNode (Dsl.targetNode c) nodes)); [discriminate|].
    inversion N as [|? ? Nc Ncs]; subst.
    destruct (@addConnection_grouped c w done P Nc Hr) as [P' Hr'].
    replace (done ++ c :: conns) with ((done ++ [c]) ++ conns)
      by (now rewrite <- app_assoc).
    eapply IH; eassumption.
Qed.

(** The connections map of a run that finds [Object.prototype] as it
    was. *)
Lemma generateConnections_grouped conns nodes r :
  plain conns ->
  generateConnections conns nodes = Ok r ->
  forall s, mapGet s r = grouped s (recorded conns).
Proof.
  intros N H. apply generateConnections_Ok in H. destruct H as (w & H & <-).
  exact (proj2 (@connect_grouped nodes conns [] fresh w eq_refl N
                  (fun s => eq_refl) H)).
Qed.

(** A run without a source of the name [__proto__] leaves
    [Object.prototype] as it was, however it ends. *)
Lemma reachesPrototype_plain nodes conns : forall w,
  onPrototype w = false -> plain conns ->
  reachesPrototype conns nodes w = false.
Proof.
  induction conns as [|c conns IH]; cbn [reachesPrototype]; intros w P N;
    [exact P|].
  destruct (_ || _)%bool; [exact P|].
  inversion N as [|? ? Nc Ncs]; subst.
  apply IH; [|assumption].
  unfold addConnection, findSource.
  apply String.eqb_neq in Nc. rewrite Nc, P.
  destruct (mapGet (Dsl.sourceNode c) (own w)) as [b|].
  - now destruct (mapGet _ b).
  - destruct (existsb _ _); [exact P|]. cbn [andb].
    now destruct (mapGet _ []).
Qed.

Lemma outputs_recorded s i conns :
  inherited s = false -> outputs s i (recorded conns) = outputs s i conns.
Proof.
  intros I. unfold outputs, recorded. f_equal.
  induction conns as [|c conns IH]; cbn [filter]; [reflexivity|].
  destruct (inherited (Dsl.sourceNode c)) eqn:Ic; cbn [negb filter].
  - rewrite IH.
    destruct (String.eqb (Dsl.sourceNode c) s) eqn:E; [|reflexivity].
    apply String.eqb_eq in E. congruence.
  - now rewrite IH.
Qed.

Lemma leaves_In c conns : In c conns -> leaves (Dsl.sourceNode c) conns = true.
Proof.
  intros H. unfold leaves. apply existsb_exists. exists c.
  split; [exact H|apply String.eqb_refl].
Qed.

Lemma In_recorded c conns :
  In c conns -> inherited (Dsl.sourceNode c) = false -> In c (recorded conns).
Proof.
  intros H I. unfold recorded. apply filter_In. now rewrite I.
Qed.

Lemma entry_In_outputs c conns :
  In c conns -> In (entryOf c) (outputs (Dsl.sourceNode c) (slotIndex c) conns).
Proof.
  intros H. unfold outputs. apply in_map. apply filter_In.
  now rewrite String.eqb_refl, Nat.eqb_refl.
Qed.

Lemma slotAt_slotsOf s i conns :
  (i = 0%nat \/ i = 1%nat) -> outputs s i conns <> [] ->
  slotAt i (slotsOf s conns) = Some (outputs s i conns).
Proof.
  unfold slotsOf, slotAt.
  intros [-> | ->] H;
    destruct (outputs s 1 conns) as [|b o1];
    destruct (outputs s 0 conns) as [|a o0]; cbn; congruence.
Qed.

(** A node left twice by [false] and once by [true]. *)
Definition forked : list Dsl.ConnectionDeclaration :=
  [Sample.connection "a" "false" "b" "main";
   Sample.connection "a" "true" "c" "main";
   Sample.connection "a" "false" "c" "main"].

Definition bare (name : string) : N8n.N8nNode :=
  {| N8n.id := "1"; N8n.name := name; N8n.nodeType := "n8n-nodes-base.noOp";
     N8n.position := (0, 0); N8n.parameters := [];
     N8n.typeVersion := Num.Fin 1 0 |}.

(** C10.  Whatever the port names of the declarations: renaming the target
    input ports leaves the generated connections unchanged; every entry of
    the connections map is recorded under [main] with type [main] and input
    index 0; the map holds, for every declaration whose source has a key in
    it, the entries of the declarations that leave that source by the same
    slot, in their order and the entry of the declaration among them, in
    the slot that [mapOutputIndex] gives for the source port, which is 1
    for [false] and 0 for [true], [main], [output] and every other name;
    and the map is produced whenever all end points are generated nodes.
    A source has a key in the map unless its name is the one of an
    inherited function; the slots are stated for the runs in which no
    source has the name [__proto__]. *)
Theorem connections_ignore_target_port
  (conns : list Dsl.ConnectionDeclaration) (nodes : list N8n.N8nNode) :
  (forall f : Dsl.ConnectionDeclaration -> option string,
     generateConnections (map (fun c => withInput (f c) c) conns) nodes
     = generateConnections conns nodes)
  /\ (forall r, generateConnections conns nodes = Ok r ->
        allMain r
        /\ (plain conns ->
            forall c, In c conns -> inherited (Dsl.sourceNode c) = false ->
              exists slots,
                mapGet (Dsl.sourceNode c) r = Some [("main"%string, slots)]
                /\ slotAt (mapOutputIndex (outputName c)) slots
                   = Some (outputs (Dsl.sourceNode c)
                             (mapOutputIndex (outputName c)) conns)
                /\ In (entryOf c)
                     (outputs (Dsl.sourceNode c)
                        (mapOutputIndex (outputName c)) conns)))
  /\ (forall p, mapOutputIndex p = if String.eqb p "false" then 1%nat else 0%nat)
  /\ ((forall c, In c conns ->
         hasNode (Dsl.sourceNode c) nodes = true
         /\ hasNode (Dsl.targetNode c) nodes = true) ->
      exists r, generateConnections conns nodes = Ok r).
Proof.
  split.
  { intros f. unfold generateConnections. now rewrite connect_withInput. }
  split.
  { intros r H. split.
    - destruct (generateConnections_Ok _ _ H) as (w & Hw & <-).
      eapply connect_allMain; [|exact Hw]. constructor.
    - intros N c Hc I.
      pose proof (@generateConnections_grouped conns nodes r N H
                    (Dsl.sourceNode c)) as G.
      unfold grouped in G.
      rewrite (leaves_In _ _ (In_recorded _ _ Hc I)) in G.
      exists (slotsOf (Dsl.sourceNode c) (recorded conns)).
      split; [exact G|].
      pose proof (entry_In_outputs _ _ Hc) as E. unfold slotIndex in E.
      split; [|exact E].
      rewrite <- (@outputs_recorded (Dsl.sourceNode c)
                    (mapOutputIndex (outputName c)) conns I).
      apply slotAt_slotsOf; [apply slotIndex_cases|].
      rewrite outputs_recorded by exact I.
      intros Z. rewrite Z in E. exact E. }
  split; [apply mapOutputIndex_cases|].
  intros H. unfold generateConnections.
  destruct (@connect_total conns nodes fresh H) as (w & ->).
  now exists (own w).
Qed.

(** The instance of C10 on a node left twice by [false] and once by
    [true]. *)
Lemma connections_ignore_target_port_witness :
  exists r slots,
    generateConnections forked [bare "a"; bare "b"; bare "c"] = Ok r
    /\ allMain r
    /\ mapGet "a"%string r = Some [("main"%string, slots)]
    /\ slotAt 1 slots
       = Some [{| N8n.node := "b"; N8n.type := "main"; N8n.index := 0 |};
               {| N8n.node := "c"; N8n.type := "main"; N8n.index := 0 |}].
Proof.
  destruct (connections_ignore_target_port forked
              [bare "a"; bare "b"; bare "c"]) as (_ & H & _).
  destruct (H _ eq_refl) as (A & S).
  assert (N : plain forked).
  { repeat constructor; discriminate. }
  destruct (S N (Sample.connection "a" "false" "b" "main")
              (or_introl eq_refl) eq_refl) as (slots & M & L & _).
  eexists. exists slots.
  split; [reflexivity|]. split; [exact A|]. split; [exact M|exact L].
Defined.

End ConnectionFacts.

(** ** Computations that keep a relation on the generator state *)

Module Keeps.

Import Js Eff Generator.

Lemma bind_Ok {S A B} (m : M S A) (k : A -> M S B) s b s' :
  bind m k s = Ok (b, s') ->
  exists a s1, m s = Ok (a, s1) /\ k a s1 = Ok (b, s').
Proof.
  unfold bind. destruct (m s) as [[a s1]|e]; [|discriminate].
  intros H. now exists a, s1.
Qed.

Lemma bind_Throw {S A B} (m : M S A) (k : A -> M S B) s e :
  m s = Throw e -> bind m k s = Throw e.
Proof. unfold bind. now intros ->. Qed.

Lemma bind_step {S A B} (m : M S A) (k : A -> M S B) s a s1 :
  m s = Ok (a, s1) -> bind m k s = k a s1.
Proof. unfold bind. now intros ->. Qed.

Section Relation.

Variable R : Gen -> Gen -> Prop.
Hypothesis R_refl : forall g, R g g.
Hypothesis R_trans : forall a b c, R a b -> R b c -> R a c.

(** Whenever [m] returns, the state it leaves is related to the one it
    started from. *)
Definition keeps {A} (m : G A) : Prop :=
  forall g a g', m g = Ok (a, g') -> R g g'.

Lemma keeps_ret {A} (a : A) : keeps (ret a).
Proof. intros g a' g' [= _ <-]. apply R_refl. Qed.

Lemma keeps_throw {A} (e : Exn) : keeps (@throw Gen A e).
Proof. intros g a g'. discriminate. Qed.

Lemma keeps_lift {A} (r : Res A) : keeps (lift r).
Proof.
  intros g a g'. unfold lift. destruct r; [|discriminate].
  intros [= _ <-]. apply R_refl.
Qed.

Lemma keeps_bind {A B} (m : G A) (k : A -> G B) :
  keeps m -> (forall a, keeps (k a)) -> keeps (bind m k).
Proof.
  intros Hm Hk g b g' H.
  apply bind_Ok in H. destruct H as (a & g1 & H1 & H2).
  eapply R_trans; [eapply Hm; eassumption|eapply Hk; eassumption].
Qed.

Lemma keeps_mapM {A B} (f : A -> G B) (l : list A) :
  (forall a, keeps (f a)) -> keeps (mapM f l).
Proof.
  intros Hf. induction l as [|x l IH]; simpl.
  - apply keeps_ret.
  - apply keeps_bind; [apply Hf|]. intros y.
    apply keeps_bind; [exact IH|]. intros ys. apply keeps_ret.
Qed.

End Relation.

(** The layout is what [getNodePosition] reads and writes. *)
Definition sameLayout (g g' : Gen) : Prop :=
  nodePositions g' = nodePositions g
  /\ currentPosition g' = currentPosition g
  /\ optAutoLayout g' = optAutoLayout g
  /\ optSpacing g' = optSpacing g.

Lemma sameLayout_refl g : sameLayout g g.
Proof. now repeat split. Qed.

Lemma sameLayout_trans a b c : sameLayout a b -> sameLayout b c -> sameLayout a c.
Proof.
  unfold sameLayout. intros (H1 & H2 & H3 & H4) (H5 & H6 & H7 & H8).
  repeat split; congruence.
Qed.

Definition keepsLayout {A} (m : G A) : Prop := keeps sameLayout m.

Lemma keepsLayout_random {A} (t : M nat A) : keepsLayout (random t).
Proof.
  intros g a g'. unfold random.
  destruct (t (draws g)) as [[a' k]|]; [|discriminate].
  intros [= _ <-]. now repeat split.
Qed.

Lemma keepsLayout_evaluate h e : keepsLayout (evaluate h e).
Proof.
  intros g a g'. unfold evaluate.
  destruct (evaluateExpression _ _ _ _ _) as [[v k]|]; [|discriminate].
  intros [= _ <-]. now repeat split.
Qed.

Lemma keepsLayout_processParameters h ps : keepsLayout (processParameters h ps).
Proof.
  induction ps as [|p ps IH]; simpl.
  - apply keeps_ret, sameLayout_refl.
  - apply keeps_bind; [apply sameLayout_trans| |].
    + destruct (Dsl.defaultValue p);
        [apply keepsLayout_evaluate|apply keeps_ret, sameLayout_refl].
    + intros v. apply keeps_bind; [apply sameLayout_trans| |].
      * intros g a g' [= _ <-]. now repeat split.
      * intros _. exact IH.
Qed.

Lemma keepsLayout_processVariables h vs : keepsLayout (processVariables h vs).
Proof.
  induction vs as [|v vs IH]; simpl.
  - apply keeps_ret, sameLayout_refl.
  - apply keeps_bind; [apply sameLayout_trans|apply keepsLayout_evaluate|].
    intros x. apply keeps_bind; [apply sameLayout_trans| |].
    + intros g a g' [= _ <-]. now repeat split.
    + intros _. exact IH.
Qed.

Lemma keepsLayout_evaluateAll h ps : forall raw,
  keepsLayout (evaluateAll h ps raw).
Proof.
  induction ps as [|[k e] ps IH]; simpl; intros raw.
  - apply keeps_ret, sameLayout_refl.
  - apply keeps_bind; [apply sameLayout_trans|apply keepsLayout_evaluate|].
    intros v. apply IH.
Qed.

Lemma keepsLayout_generateNodeParameters h ps t :
  keepsLayout (generateNodeParameters h ps t).
Proof.
  unfold generateNodeParameters.
  apply keeps_bind; [apply sameLayout_trans|apply keepsLayout_evaluateAll|].
  intros raw. destruct (Templates.getNodeTemplate _ t).
  - apply keepsLayout_random.
  - apply keeps_ret, sameLayout_refl.
Qed.

End Keeps.

(** ** Layout *)

Module LayoutFacts.

Import Js Eff Generator Keeps MapFacts.

(** What [generateNode] does to the layout when the node has no remembered
    position and automatic layout is on. *)
Lemma generateNode_places h entry g node g' :
  generateNode h entry g = Ok (node, g') ->
  optAutoLayout g = true ->
  mapGet (Dsl.entryName entry) (nodePositions g) = None ->
  N8n.position node = currentPosition g
  /\ N8n.name node = Dsl.entryName entry
  /\ nodePositions g'
     = mapSet (Dsl.entryName entry) (currentPosition g) (nodePositions g)
  /\ currentPosition g'
     = (fst (currentPosition g) + optSpacing g, snd (currentPosition g))
  /\ optAutoLayout g' = true
  /\ optSpacing g' = optSpacing g.
Proof.
  destruct entry as [n|m]; simpl; [|discriminate].
  intros H Hauto Hnew.
  apply bind_Ok in H. destruct H as (t & g0 & H0 & H).
  unfold lift in H0. destruct (mapNodeType _); [|discriminate].
  injection H0 as <- <-.
  apply bind_Ok in H. destruct H as (p & g1 & H1 & H).
  unfold getNodePosition in H1. rewrite Hnew, Hauto in H1.
  injection H1 as <- <-.
  apply bind_Ok in H. destruct H as (ps & g2 & H2 & H).
  apply keepsLayout_generateNodeParameters in H2.
  apply bind_Ok in H. destruct H as (i & g3 & H3 & H).
  apply keepsLayout_random in H3.
  injection H as <- <-. simpl.
  destruct H2 as (A1 & A2 & A3 & A4), H3 as (B1 & B2 & B3 & B4).
  simpl in *. repeat split; congruence.
Qed.

(** The positions of a run of nodes laid out from [(x, y)]. *)
Definition row (x y s : Z) (n : nat) : list (Z * Z) :=
  map (fun k => (x + s * Z.of_nat k, y)) (seq 0 n).

Lemma row_S x y s n : row x y s (S n) = (x, y) :: row (x + s) y s n.
Proof.
  unfold row. simpl. f_equal.
  - f_equal. lia.
  - rewrite <- seq_shift, map_map. apply map_ext. intros k. f_equal. lia.
Qed.

Lemma mapM_generateNode_row h entries : forall g nodes g',
  mapM (generateNode h) entries g = Ok (nodes, g') ->
  optAutoLayout g = true ->
  NoDup (map Dsl.entryName entries) ->
  (forall e, In e entries ->
     ~ In (Dsl.entryName e) (map fst (nodePositions g))) ->
  map N8n.position nodes
  = row (fst (currentPosition g)) (snd (currentPosition g)) (optSpacing g)
      (List.length entries).
Proof.
  induction entries as [|e entries IH]; simpl; intros g nodes g' H Hauto Hnd Hnew.
  - now injection H as <- <-.
  - apply bind_Ok in H. destruct H as (node & g1 & H1 & H).
    apply bind_Ok in H. destruct H as (rest & g2 & H2 & H).
    injection H as <- <-.
    inversion Hnd as [|? ? Hnotin Hnd']; subst.
    assert (Hfresh : mapGet (Dsl.entryName e) (nodePositions g) = None).
    { apply find_None_keys. apply Hnew. now left. }
    destruct (generateNode_places _ _ _ H1 Hauto Hfresh)
      as (Hp & Hn & Hnp & Hcp & Hauto1 & Hs).
    rewrite row_S. simpl. f_equal.
    + rewrite Hp. now destruct (currentPosition g).
    + rewrite (IH _ _ _ H2 Hauto1 Hnd').
      * rewrite Hcp, Hs. reflexivity.
      * intros e' He'. rewrite Hnp, mapSet_keys_in.
        intros [Heq|Hin].
        -- apply Hnotin. rewrite <- Heq. now apply in_map.
        -- apply (Hnew e'); [now right|exact Hin].
Qed.

(** C9.  With automatic layout on and node names pairwise distinct, the
    node declared [k]-th (from 0) is placed at
    [x = startX + spacing * k], [y = startY]; with the start position
    [(0, 0)] and the spacing 200 three nodes are placed at [(0, 0)],
    [(200, 0)] and [(400, 0)]. *)
Theorem auto_layout_positions (h : Host) (options : GeneratorOptions)
  (program : Dsl.Program) (workflow : N8n.N8nWorkflow) (g : Gen) :
  orElse (autoLayout options) true = true ->
  NoDup (map Dsl.entryName (Dsl.nodes (Dsl.workflow program))) ->
  generate h program (create options) = Ok (workflow, g) ->
  map N8n.position (N8n.nodes workflow)
  = row (fst (orElse (startPosition options) (0, 0)))
      (snd (orElse (startPosition options) (0, 0)))
      (orElse (spacing options) 200)
      (List.length (Dsl.nodes (Dsl.workflow program))).
Proof.
  intros Hauto Hnd H. unfold generate in H.
  apply bind_Ok in H. destruct H as (u1 & g1 & H1 & H).
  apply bind_Ok in H. destruct H as (u2 & g2 & H2 & H).
  apply bind_Ok in H. destruct H as (nodes & g3 & H3 & H).
  apply bind_Ok in H. destruct H as (conns & g4 & H4 & H).
  apply bind_Ok in H. destruct H as (i & g5 & H5 & H).
  injection H as <- <-. simpl.
  apply keepsLayout_processParameters in H1.
  apply keepsLayout_processVariables in H2.
  destruct H1 as (A1 & A2 & A3 & A4), H2 as (B1 & B2 & B3 & B4).
  simpl in *.
  rewrite (mapM_generateNode_row _ _ _ H3).
  - rewrite B2, A2, B4, A4. reflexivity.
  - congruence.
  - exact Hnd.
  - intros e _. rewrite B1, A1. simpl. tauto.
Qed.

End LayoutFacts.

Module LayoutExample.

Import Js Eff Generator LayoutFacts.

Lemma threeNodes_distinct :
  NoDup (map Dsl.entryName (Dsl.nodes (Dsl.workflow Sample.threeNodes))).
Proof.
  simpl. repeat constructor; simpl; intuition discriminate.
Defined.

(** The instance of C9 in the claim: three nodes, start [(0, 0)], spacing
    200. *)
Lemma auto_layout_positions_witness :
  exists workflow g,
    generate Sample.hostA Sample.threeNodes (create Sample.layout200)
    = Ok (workflow, g)
    /\ map N8n.position (N8n.nodes workflow) = [(0, 0); (200, 0); (400, 0)].
Proof.
  eexists. eexists. split.
  - vm_compute. reflexivity.
  - eapply (@auto_layout_positions Sample.hostA Sample.layout200
              Sample.threeNodes);
      [reflexivity|exact threeNodes_distinct|vm_compute; reflexivity].
Defined.

End LayoutExample.

(** ** Module declarations *)

Module ModuleFacts.

Import Js Eff Generator Keeps.
Local Open Scope eff_scope.
Local Open Scope list_scope.

Lemma mapM_Throw_at {S A B} (f : A -> M S B) (x : A) (post : list A) :
  (forall s, exists e, f x s = Throw e) ->
  forall pre s, exists e, mapM f (pre ++ x :: post) s = Throw e.
Proof.
  intros Hx. induction pre as [|a pre IH]; simpl; intros s.
  - destruct (Hx s) as [e He]. exists e. now apply bind_Throw.
  - unfold bind at 1. destruct (f a s) as [[b s1]|e]; [|now exists e].
    destruct (IH s1) as [e He]. exists e. now apply bind_Throw.
Qed.

Lemma mapM_prefix_Ok {S A B} (f : A -> M S B) (x : A) (post : list A) e0 :
  (forall s, f x s = Throw e0) ->
  forall pre s bs s1,
    mapM f pre s = Ok (bs, s1) ->
    mapM f (pre ++ x :: post) s = Throw e0.
Proof.
  intros Hx. induction pre as [|a pre IH]; simpl; intros s bs s1 H.
  - apply bind_Throw, Hx.
  - apply bind_Ok in H. destruct H as (b & s2 & H1 & H).
    apply bind_Ok in H. destruct H as (bs' & s3 & H2 & _).
    erewrite bind_step by exact H1. apply bind_Throw. eapply IH. eassumption.
Qed.

(** The steps of [generate] up to and including the node entries [pre]. *)
Definition upTo (h : Host) (program : Dsl.Program) (pre : list Dsl.NodeEntry)
  : G (list N8n.N8nNode) :=
  _ <- processParameters h (Dsl.parameters (Dsl.workflow program)) ;;
  _ <- processVariables h (Dsl.variables (Dsl.workflow program)) ;;
  mapM (generateNode h) pre.

Lemma generate_module_Throw h program g pre m post :
  Dsl.nodes (Dsl.workflow program) = pre ++ Dsl.Module m :: post ->
  exists e, generate h program g = Throw e.
Proof.
  intros Hn. unfold generate. rewrite Hn.
  unfold bind at 1. destruct (processParameters _ _ g) as [[u g1]|e]; [|now exists e].
  unfold bind at 1. destruct (processVariables _ _ g1) as [[u' g2]|e]; [|now exists e].
  destruct (@mapM_Throw_at _ _ _ (generateNode h) (Dsl.Module m) post
              (fun s => ex_intro _ moduleError eq_refl) pre g2) as [e He].
  exists e. now apply bind_Throw.
Qed.

(** C8.  A [ModuleDeclaration] among the node entries makes generation
    fail: [generateNode] throws the module-resolution error on it in every
    state, [generate] returns no graph, the error is that one whenever the
    entries declared before the module were generated, and [compile]
    reports failure without a workflow. *)
Theorem module_entry_fails (h : Host) (program : Dsl.Program) (g : Gen)
  (pre post : list Dsl.NodeEntry) (m : Dsl.ModuleDeclaration) :
  Dsl.nodes (Dsl.workflow program) = pre ++ Dsl.Module m :: post ->
  (forall g0, generateNode h (Dsl.Module m) g0 = Throw moduleError)
  /\ (exists e, generate h program g = Throw e)
  /\ (forall nodes g1,
        upTo h program pre g = Ok (nodes, g1) ->
        generate h program g = Throw moduleError)
  /\ (forall options,
        Compiler.success (Compiler.compile h options program) = false
        /\ Compiler.workflow (Compiler.compile h options program) = None).
Proof.
  intros Hn.
  split; [reflexivity|].
  split; [eapply generate_module_Throw; eassumption|].
  split.
  - intros nodes g1 H. unfold upTo in H.
    apply bind_Ok in H. destruct H as (u1 & g2 & H1 & H).
    apply bind_Ok in H. destruct H as (u2 & g3 & H2 & H).
    unfold generate. rewrite Hn.
    erewrite bind_step by exact H1. erewrite bind_step by exact H2.
    apply bind_Throw.
    eapply (@mapM_prefix_Ok _ _ _ (generateNode h)); [reflexivity|eassumption].
  - intros options.
    assert (Hgen : forall ws,
              Compiler.success (Compiler.generateAndCheck h options program ws) = false
              /\ Compiler.workflow (Compiler.generateAndCheck h options program ws) = None).
    { intros ws. unfold Compiler.generateAndCheck.
      destruct (generate_module_Throw h program
                  (create (Compiler.optionsForGenerator options)) _ _ _ Hn)
        as [e He].
      rewrite He. now split. }
    unfold Compiler.compile.
    destruct (orElse (Compiler.validate options) true); [|apply Hgen].
    destruct (filter Validation.isError _); [|now split].
    destruct (orElse (Compiler.strict options) false); [|apply Hgen].
    destruct (filter Compiler.isWarning _); [apply Hgen|now split].
Qed.

Definition withModule : Dsl.Program :=
  Sample.program [] []
    [Sample.node "start" "trigger.manual" [];
     Sample.moduleEntry "auth" "./modules/auth.n8n";
     Sample.node "fetch" "http.request" []] [].

(** The instance of C8 on a workflow whose second entry is a module. *)
Lemma module_entry_fails_witness :
  generate Sample.hostA withModule (create Sample.defaults) = Throw moduleError
  /\ Compiler.success
       (Compiler.compile Sample.hostA Sample.compilerDefaults withModule)
     = false.
Proof.
  pose proof (@module_entry_fails Sample.hostA withModule
                (create Sample.defaults)
                [Sample.node "start" "trigger.manual" []]
                [Sample.node "fetch" "http.request" []]
                _ eq_refl) as (_ & _ & H & Hc).
  split.
  - eapply H. vm_compute. reflexivity.
  - apply Hc.
Defined.

End ModuleFacts.

(** ** Dangling connections *)

Module DanglingFacts.

Import Js Eff Generator Keeps ModuleFacts.
Local Open Scope list_scope.

Lemma has_In (x : string) (l : list string) :
  Validation.has x l = true <-> In x l.
Proof.
  unfold Validation.has. rewrite existsb_exists. split.
  - intros (y & Hy & E). apply String.eqb_eq in E. now subst.
  - intros H. exists x. split; [exact H|apply String.eqb_refl].
Qed.

Lemma has_false (x : string) (l : list string) :
  Validation.has x l = false <-> ~ In x l.
Proof.
  rewrite <- has_In. destruct (Validation.has x l); intuition congruence.
Qed.

Lemma hasNode_In (x : string) (nodes : list N8n.N8nNode) :
  hasNode x nodes = true <-> In x (map N8n.name nodes).
Proof.
  unfold hasNode. rewrite existsb_exists, in_map_iff. split.
  - intros (n & Hn & E). apply String.eqb_eq in E. now exists n.
  - intros (n & E & Hn). exists n. split; [exact Hn|].
    subst. apply String.eqb_refl.
Qed.

Lemma generateNode_name h entry g node g' :
  generateNode h entry g = Ok (node, g') ->
  N8n.name node = Dsl.entryName entry.
Proof.
  destruct entry as [n|m]; simpl; [|discriminate].
  intros H.
  apply bind_Ok in H. destruct H as (t & g0 & _ & H).
  apply bind_Ok in H. destruct H as (p & g1 & _ & H).
  apply bind_Ok in H. destruct H as (ps & g2 & _ & H).
  apply bind_Ok in H. destruct H as (i & g3 & _ & H).
  now injection H as <- <-.
Qed.

Lemma mapM_generateNode_names h entries : forall g nodes g',
  mapM (generateNode h) entries g = Ok (nodes, g') ->
  map N8n.name nodes = map Dsl.entryName entries.
Proof.
  induction entries as [|e entries IH]; simpl; intros g nodes g' H.
  - now injection H as <- <-.
  - apply bind_Ok in H. destruct H as (node & g1 & H1 & H).
    apply bind_Ok in H. destruct H as (rest & g2 & H2 & H).
    injection H as <- <-. simpl.
    f_equal; [eapply generateNode_name; eassumption|eapply IH; eassumption].
Qed.

(** An end point of [c] names no node of [names]. *)
Definition danglingIn (names : list string) (c : Dsl.ConnectionDeclaration)
  : Prop :=
  ~ In (Dsl.sourceNode c) names \/ ~ In (Dsl.targetNode c) names.

Lemma connect_dangling conns nodes c : forall r,
  In c conns -> danglingIn (map N8n.name nodes) c ->
  exists e, connect conns nodes r = Throw e.
Proof.
  induction conns as [|c' conns IH]; simpl; intros r Hin Hd; [tauto|].
  destruct (hasNode (Dsl.sourceNode c') nodes) eqn:Es; simpl; [|eauto].
  destruct (hasNode (Dsl.targetNode c') nodes) eqn:Et; simpl; [|eauto].
  destruct Hin as [->|Hin].
  - apply hasNode_In in Es, Et. destruct Hd; tauto.
  - now apply IH.
Qed.

Lemma generate_dangling h program g c :
  In c (Dsl.connections (Dsl.workflow program)) ->
  danglingIn (map Dsl.entryName (Dsl.nodes (Dsl.workflow program))) c ->
  exists e, generate h program g = Throw e.
Proof.
  intros Hin Hd. unfold generate.
  unfold bind at 1. destruct (processParameters _ _ g) as [[u g1]|e]; [|now exists e].
  unfold bind at 1. destruct (processVariables _ _ g1) as [[u' g2]|e]; [|now exists e].
  unfold bind at 1.
  destruct (mapM _ _ g2) as [[nodes g3]|e] eqn:Hm; [|now exists e].
  apply mapM_generateNode_names in Hm.
  unfold generateConnections.
  destruct (@connect_dangling (Dsl.connections (Dsl.workflow program)) nodes c
              fresh Hin)
    as [e He]; [now rewrite Hm|].
  exists e. apply bind_Throw. unfold lift. now rewrite He.
Qed.

Lemma checkConnections_dangling conns names c :
  In c conns -> danglingIn names c ->
  exists e, In e (Validation.checkConnections conns names)
            /\ Validation.isError e = true.
Proof.
  induction conns as [|c' conns IH]; simpl; intros Hin Hd; [tauto|].
  destruct Hin as [->|Hin].
  - destruct Hd as [Hs|Ht].
    + apply has_false in Hs. rewrite Hs.
      eexists. split; [left; reflexivity|reflexivity].
    + apply has_false in Ht. rewrite Ht.
      eexists. split.
      * apply in_or_app. right. left. reflexivity.
      * reflexivity.
  - destruct (IH Hin Hd) as (e & He & Hk). exists e. split; [|exact Hk].
    apply in_or_app. right. apply in_or_app. now right.
Qed.

Lemma checkParameters_clean ps : forall seen,
  NoDup (map Dsl.paramName ps) ->
  (forall x, In x (map Dsl.paramName ps) -> ~ In x seen) ->
  Validation.checkParameters ps seen = [].
Proof.
  induction ps as [|p ps IH]; simpl; intros seen Hnd Hseen; [reflexivity|].
  inversion Hnd; subst.
  assert (E : Validation.has (Dsl.paramName p) seen = false).
  { apply has_false. apply Hseen. now left. }
  rewrite E. simpl. apply IH; [assumption|].
  intros x Hx [<-|Hs]; [contradiction|]. apply (Hseen x); [now right|exact Hs].
Qed.

Lemma checkVariables_clean vs paramNames : forall seen,
  NoDup (map Dsl.varName vs) ->
  (forall x, In x (map Dsl.varName vs) -> ~ In x seen) ->
  (forall x, In x (map Dsl.varName vs) -> ~ In x paramNames) ->
  Validation.checkVariables vs paramNames seen = [].
Proof.
  induction vs as [|v vs IH]; simpl; intros seen Hnd Hseen Hpar; [reflexivity|].
  inversion Hnd; subst.
  assert (E : Validation.has (Dsl.varName v) seen = false).
  { apply has_false. apply Hseen. now left. }
  assert (E' : Validation.has (Dsl.varName v) paramNames = false).
  { apply has_false. apply Hpar. now left. }
  rewrite E, E'. simpl. apply IH; [assumption| |].
  - intros x Hx [<-|Hs]; [contradiction|]. apply (Hseen x); [now right|exact Hs].
  - intros x Hx. apply Hpar. now right.
Qed.

Lemma checkNodes_clean ns : forall seen,
  NoDup (map Dsl.entryName ns) ->
  (forall x, In x (map Dsl.entryName ns) -> ~ In x seen) ->
  Validation.checkNodes ns seen = [].
Proof.
  induction ns as [|n ns IH]; simpl; intros seen Hnd Hseen; [reflexivity|].
  inversion Hnd; subst.
  assert (E : Validation.has (Dsl.entryName n) seen = false).
  { apply has_false. apply Hseen. now left. }
  rewrite E. simpl. apply IH; [assumption|].
  intros x Hx [<-|Hs]; [contradiction|]. apply (Hseen x); [now right|exact Hs].
Qed.

Lemma checkConnected_warnings ns connected :
  filter Validation.isError (Validation.checkConnected ns connected) = [].
Proof.
  induction ns as [|n ns IH]; simpl; [reflexivity|].
  rewrite filter_app, IH, app_nil_r.
  now destruct (Validation.has _ connected).
Qed.

(** The workflow raises no error of its own: the names of its parameters,
    of its variables and of its nodes are as the data model wants them. *)
Definition namesDistinct (wf : Dsl.WorkflowDeclaration) : Prop :=
  NoDup (map Dsl.paramName (Dsl.parameters wf))
  /\ NoDup (map Dsl.varName (Dsl.variables wf))
  /\ (forall x, In x (map Dsl.varName (Dsl.variables wf)) ->
        ~ In x (map Dsl.paramName (Dsl.parameters wf)))
  /\ NoDup (map Dsl.entryName (Dsl.nodes wf)).

Lemma validate_single_dangling program c :
  let wf := Dsl.workflow program in
  Dsl.connections wf = [c] ->
  ~ In (Dsl.sourceNode c) (map Dsl.entryName (Dsl.nodes wf)) ->
  ~ In (Dsl.targetNode c) (map Dsl.entryName (Dsl.nodes wf)) ->
  namesDistinct wf ->
  filter Validation.isError (Validation.validateProgram program)
  = [Validation.addError (Validation.sourceMissing (Dsl.sourceNode c))
       (Dsl.connLoc c);
     Validation.addError (Validation.targetMissing (Dsl.targetNode c))
       (Dsl.connLoc c)].
Proof.
  intros wf Hc Hs Ht (Hp & Hv & Hvp & Hn).
  unfold Validation.validateProgram, Validation.validateWorkflow.
  fold wf. rewrite Hc.
  rewrite checkParameters_clean by (auto; intros x _ []).
  rewrite checkVariables_clean by (auto; intros x _ []).
  rewrite checkNodes_clean by (auto; intros x _ []).
  simpl. apply has_false in Hs, Ht. rewrite Hs, Ht. simpl.
  rewrite checkConnected_warnings. reflexivity.
Qed.

Lemma filter_nonempty {A} (f : A -> bool) (l : list A) (a : A) :
  In a l -> f a = true -> filter f l <> [].
Proof.
  intros Hin Hf E.
  assert (H : In a (filter f l)) by (apply filter_In; now split).
  rewrite E in H. exact H.
Qed.

Lemma single_dangling_error h program g c nodes g1 :
  let wf := Dsl.workflow program in
  Dsl.connections wf = [c] ->
  danglingIn (map Dsl.entryName (Dsl.nodes wf)) c ->
  upTo h program (Dsl.nodes wf) g = Ok (nodes, g1) ->
  generate h program g
  = Throw (if Validation.has (Dsl.sourceNode c)
                (map Dsl.entryName (Dsl.nodes wf))
           then targetError (Dsl.targetNode c)
           else sourceError (Dsl.sourceNode c)).
Proof.
  intros wf Hc Hd H. unfold upTo in H. fold wf in H.
  apply bind_Ok in H. destruct H as (u1 & g2 & H1 & H).
  apply bind_Ok in H. destruct H as (u2 & g3 & H2 & H).
  unfold generate. fold wf.
  erewrite bind_step by exact H1. erewrite bind_step by exact H2.
  erewrite bind_step by exact H.
  apply mapM_generateNode_names in H.
  unfold generateConnections. rewrite Hc. simpl.
  destruct (hasNode (Dsl.sourceNode c) nodes) eqn:Es.
  - assert (Ein : Validation.has (Dsl.sourceNode c)
                    (map Dsl.entryName (Dsl.nodes wf)) = true).
    { apply has_In. rewrite <- H. now apply hasNode_In. }
    rewrite Ein. simpl.
    destruct (hasNode (Dsl.targetNode c) nodes) eqn:Et; simpl.
    + exfalso. apply hasNode_In in Es, Et. rewrite H in Es, Et.
      destruct Hd; tauto.
    + reflexivity.
  - assert (Ein : Validation.has (Dsl.sourceNode c)
                    (map Dsl.entryName (Dsl.nodes wf)) = false).
    { apply has_false. rewrite <- H. intros Hin.
      apply hasNode_In in Hin. congruence. }
    rewrite Ein. reflexivity.
Qed.

(** C7.  A connection with an end point that names no declared node is
    never compiled silently: [compile] fails whatever the options; with
    validation on it returns the validation errors and no workflow, the
    generator not having run; the generator, run on its own, throws; for the
    single declaration [connect a -> b] with both names undeclared in a
    workflow without duplicate names validation gives exactly two errors,
    one for the source and one for the target, and generation, when it gets
    as far as the connections, fails on the unknown source. *)
Theorem dangling_connection_rejected (h : Host)
  (options : Compiler.CompilerOptions) (program : Dsl.Program)
  (c : Dsl.ConnectionDeclaration) :
  let wf := Dsl.workflow program in
  let names := map Dsl.entryName (Dsl.nodes wf) in
  In c (Dsl.connections wf) ->
  danglingIn names c ->
  Compiler.success (Compiler.compile h options program) = false
  /\ (orElse (Compiler.validate options) true = true ->
      Compiler.workflow (Compiler.compile h options program) = None
      /\ Compiler.errors (Compiler.compile h options program)
         = filter Validation.isError (Validation.validateProgram program)
      /\ Compiler.errors (Compiler.compile h options program) <> [])
  /\ (forall g, exists e, generate h program g = Throw e)
  /\ (Dsl.connections wf = [c] ->
      ~ In (Dsl.sourceNode c) names ->
      ~ In (Dsl.targetNode c) names ->
      namesDistinct wf ->
      filter Validation.isError (Validation.validateProgram program)
      = [Validation.addError (Validation.sourceMissing (Dsl.sourceNode c))
           (Dsl.connLoc c);
         Validation.addError (Validation.targetMissing (Dsl.targetNode c))
           (Dsl.connLoc c)])
  /\ (forall g nodes g1,
        Dsl.connections wf = [c] ->
        upTo h program (Dsl.nodes wf) g = Ok (nodes, g1) ->
        generate h program g
        = Throw (if Validation.has (Dsl.sourceNode c) names
                 then targetError (Dsl.targetNode c)
                 else sourceError (Dsl.sourceNode c))).
Proof.
  intros wf names Hin Hd.
  assert (Hne : filter Validation.isError (Validation.validateProgram program)
                <> []).
  { destruct (@checkConnections_dangling (Dsl.connections wf) names c Hin Hd)
      as (e & He & Hk).
    apply (@filter_nonempty _ Validation.isError _ e); [|exact Hk].
    unfold Validation.validateProgram, Validation.validateWorkflow.
    fold wf. fold names.
    apply in_or_app. right. apply in_or_app. right.
    apply in_or_app. right. apply in_or_app. now left. }
  assert (Hgen : forall ws,
            Compiler.success (Compiler.generateAndCheck h options program ws)
            = false).
  { intros ws. unfold Compiler.generateAndCheck.
    destruct (@generate_dangling h program
                (create (Compiler.optionsForGenerator options)) c Hin Hd)
      as [e He].
    now rewrite He. }
  split.
  { unfold Compiler.compile.
    destruct (orElse (Compiler.validate options) true); [|apply Hgen].
    destruct (filter Validation.isError _); [congruence|reflexivity]. }
  split.
  { intros Hv. unfold Compiler.compile. rewrite Hv.
    destruct (filter Validation.isError _) eqn:E; [congruence|].
    simpl. repeat split. discriminate. }
  split; [intros g; eapply generate_dangling; eassumption|].
  split; [intros; now apply validate_single_dangling|].
  intros g nodes g1 Hc H. eapply single_dangling_error; eassumption.
Qed.

(** The instance of C7 in the claim: the workflow whose only declaration
    is [connect missing -> alsoMissing]. *)
Lemma dangling_connection_rejected_witness :
  List.length (filter Validation.isError
                 (Validation.validateProgram Sample.dangling)) = 2%nat
  /\ Compiler.success
       (Compiler.compile Sample.hostA Sample.compilerDefaults Sample.dangling)
     = false
  /\ Compiler.success
       (Compiler.compile Sample.hostA Sample.withoutValidation Sample.dangling)
     = false
  /\ generate Sample.hostA Sample.dangling (create Sample.defaults)
     = Throw (sourceError "missing").
Proof.
  assert (Hin : In (Sample.connection "missing" "main" "alsoMissing" "main")
                   (Dsl.connections (Dsl.workflow Sample.dangling)))
    by (left; reflexivity).
  assert (Hd : danglingIn
                 (map Dsl.entryName (Dsl.nodes (Dsl.workflow Sample.dangling)))
                 (Sample.connection "missing" "main" "alsoMissing" "main"))
    by (left; intros []).
  destruct (@dangling_connection_rejected Sample.hostA Sample.compilerDefaults
              Sample.dangling _ Hin Hd) as (H1 & _ & _ & H4 & H5).
  destruct (@dangling_connection_rejected Sample.hostA Sample.withoutValidation
              Sample.dangling _ Hin Hd) as (H1' & _).
  split.
  { rewrite H4; [reflexivity|reflexivity|intros []|intros []|].
    repeat split; simpl; try constructor. intros x []. }
  split; [exact H1|]. split; [exact H1'|].
  apply (H5 (create Sample.defaults) [] (create Sample.defaults));
    reflexivity.
Defined.

End DanglingFacts.

(** ** The shape of mapped parameters *)

Module Shape.

Import Js.

(** [v.k] on a value, [undefined] when [v] is no object. *)
Definition field (k : string) (v : Value) : Value :=
  match v with VObj o => get o k | _ => VUndef end.

(** The [combinator] of the conditions object of an if node. *)
Definition combinator (mapped : Obj) : Value :=
  field "combinator" (get mapped "conditions").

(** The list of conditions of the conditions object of an if node. *)
Definition conditionList (mapped : Obj) : list Value :=
  match field "conditions" (get mapped "conditions") with
  | VArr l => l
  | _ => []
  end.

Definition operation (condition : Value) : Value :=
  field "operation" (field "operator" condition).

Definition operatorType (condition : Value) : Value :=
  field "type" (field "operator" condition).

(** The mapped parameters have the property [k]. *)
Definition hasKey (k : string) (mapped : Obj) : bool :=
  match lookup k mapped with Some _ => true | None => false end.

Lemma lookup_set_same k v o : lookup k (set k v o) = Some v.
Proof.
  induction o as [|[k' v'] o IH]; simpl.
  - now rewrite String.eqb_refl.
  - destruct (String.eqb k k') eqn:E; simpl.
    + now rewrite String.eqb_refl.
    + now rewrite E.
Qed.

Lemma lookup_set_other k k' v o :
  String.eqb k k' = false -> lookup k (set k' v o) = lookup k o.
Proof.
  intros Hne. induction o as [|[k0 v0] o IH]; simpl.
  - now rewrite Hne.
  - destruct (String.eqb k' k0) eqn:E; simpl.
    + apply String.eqb_eq in E. subst k0. now rewrite Hne.
    + now rewrite IH.
Qed.

Lemma hasKey_set_same k v o : hasKey k (set k v o) = true.
Proof. unfold hasKey. now rewrite lookup_set_same. Qed.

Lemma hasKey_set_other k k' v o :
  String.eqb k k' = false -> hasKey k (set k' v o) = hasKey k o.
Proof. intros H. unfold hasKey. now rewrite lookup_set_other. Qed.

End Shape.

(** ** Comparison conditions *)

Module ComparisonFacts.

Import Js Eff Regex Shape.

Lemma exec_gte_10 :
  exec Templates.comparisonRegex "${x} >= 10"
  = Some {| before := ""; whole := "${x} >= 10";
            groups := [(3%nat, "10"); (2%nat, ">="); (1%nat, "${x}")];
            after := "" |}.
Proof. vm_compute. reflexivity. Qed.

Lemma exec_typed_gte_10 :
  exec VariantTyped.comparisonRegex "${x} >= 10"
  = Some {| before := ""; whole := "${x} >= 10";
            groups := [(3%nat, "10"); (2%nat, ">="); (1%nat, "${x}")];
            after := "" |}.
Proof. vm_compute. reflexivity. Qed.

(** C4.  For the condition string [${x} >= 10] the if strategy of the
    registry returns exactly one condition, with operation [largerEqual],
    with the left operand [${x}] and the right operand [10], whose operator
    type is inferred as [number]; the variant with typed operands returns
    exactly one condition too, with operation [gte], a numeric right
    operand 10 and operator type [number], when no list of conditions and
    no [dataType] is given. *)
Theorem comparison_condition_gte (rs : Random) (w : World) (params : Obj)
  (k : nat) :
  get params "condition" = VStr "${x} >= 10" ->
  (exists mapped c,
     Templates.IfTemplate rs params k = Ok (mapped, S k)
     /\ conditionList mapped = [c]
     /\ operation c = VStr "largerEqual"
     /\ operatorType c = VStr "number"
     /\ field "leftValue" c = VStr "${x}"
     /\ field "rightValue" c = VStr "10")
  /\ (isArray (get params "conditions") = false ->
      truthy (get params "dataType") = false ->
      exists mapped c,
        VariantTyped.IfTemplate rs w params k = Ok (mapped, S k)
        /\ conditionList mapped = [c]
        /\ operation c = VStr "gte"
        /\ operatorType c = VStr "number"
        /\ field "leftValue" c = VStr "${x}"
        /\ field "rightValue" c = int 10).
Proof.
  intros Hc. split.
  - unfold Templates.IfTemplate. rewrite Hc.
    change (or (VStr "${x} >= 10") (VStr "")) with (VStr "${x} >= 10").
    cbv beta iota. rewrite exec_gte_10.
    eexists. eexists. split; [reflexivity|].
    vm_compute. repeat split.
  - intros Harr Hdt. unfold VariantTyped.IfTemplate.
    destruct (get params "conditions") eqn:E; try discriminate;
      rewrite Hc;
      change (or (VStr "${x} >= 10") (VStr "")) with (VStr "${x} >= 10");
      cbv beta iota; rewrite exec_typed_gte_10;
      unfold or at 1; rewrite Hdt;
      (eexists; eexists; split; [reflexivity|]; vm_compute; repeat split).
Qed.

(** The instance of C4 on a node whose only parameter is the condition. *)
Lemma comparison_condition_gte_witness :
  exists mapped c,
    Templates.IfTemplate Sample.randomA
      [("condition", VStr "${x} >= 10")] 0%nat
    = Ok (mapped, 1%nat)
    /\ conditionList mapped = [c]
    /\ operation c = VStr "largerEqual"
    /\ operatorType c = VStr "number"
    /\ field "leftValue" c = VStr "${x}"
    /\ field "rightValue" c = VStr "10".
Proof.
  exact (proj1 (@comparison_condition_gte Sample.randomA Sample.worldA
                  [("condition", VStr "${x} >= 10")] 0%nat eq_refl)).
Defined.

End ComparisonFacts.

(** ** Which strategies of the registry throw *)

Module TotalityFacts.

Import Js Eff Shape ConversionFacts.
Local Open Scope list_scope.

Lemma entries_truthy (v : Value) :
  truthy v = true -> exists o, entries v = Ok o.
Proof. destruct v; simpl; try discriminate; eauto. Qed.

Lemma nameValuePairs_isOk (v : Value) :
  truthy v = true ->
  isOk (Templates.nameValuePairs v) = entriesConvert v.
Proof.
  intros T. unfold Templates.nameValuePairs, entriesConvert.
  destruct (entries_truthy _ T) as [o ->].
  rewrite isOk_mapOk, isOk_mapRes.
  induction o as [|kv o IH]; cbn [forallb]; [reflexivity|].
  now rewrite isOk_mapOk, IH.
Qed.

Lemma nameValuePairs_throws (v : Value) e :
  truthy v = true -> Templates.nameValuePairs v = Throw e ->
  e = notPrimitive.
Proof.
  intros T. unfold Templates.nameValuePairs.
  destruct (entries_truthy _ T) as [o ->].
  intros H. apply mapOk_Throw in H. apply mapRes_Throw in H.
  destruct H as (kv & _ & H). apply mapOk_Throw in H.
  exact (toStr_throws _ H).
Qed.

Lemma mapM_total {S A B} (f : A -> M S B) :
  (forall a s, exists b s', f a s = Ok (b, s')) ->
  forall l s, exists bs s',
    mapM f l s = Ok (bs, s') /\ List.length bs = List.length l.
Proof.
  intros Hf. induction l as [|a l IH]; simpl; intros s.
  - exists [], s. now split.
  - destruct (Hf a s) as (b & s1 & H1).
    destruct (IH s1) as (bs & s2 & H2 & Hlen).
    exists (b :: bs), s2. split.
    + unfold bind. rewrite H1, H2. reflexivity.
    + simpl. now rewrite Hlen.
Qed.

(** The request strategy returns when [String] does on the values of the
    headers and of the body it lists. *)
Definition requestReturns (params : Obj) : bool :=
  implb (truthy (get params "headers") && isObject (get params "headers"))
    (entriesConvert (get params "headers"))
  && implb (truthy (get params "body")) (entriesConvert (get params "body")).

(** The set strategy returns when [String] does on the values of the
    assignments. *)
Definition setReturns (params : Obj) : bool :=
  implb (truthy (get params "assignments")
         && isObject (get params "assignments"))
    (entriesConvert (get params "assignments")).

Lemma HttpRequestTemplate_returns params k :
  isOk (Templates.HttpRequestTemplate params k) = requestReturns params.
Proof.
  unfold Templates.HttpRequestTemplate, requestReturns, bind, ret, lift.
  assert (B : forall mapped : Obj,
             isOk (match
                     (if truthy (get params "body")
                      then fun s : nat =>
                             match
                               match Templates.nameValuePairs (get params "body") with
                               | Ok a => Ok (a, s)
                               | Throw e => Throw e
                               end
                             with
                             | Ok (a, s') =>
                                 Ok (set "bodyParameters"
                                       (VObj [("parameters"%string, a)])
                                       (set "sendBody" (VBool true) mapped), s')
                             | Throw e => Throw e
                             end
                      else fun s : nat => Ok (mapped, s)) k
                   with
                   | Ok (a, s') => Ok (a, s')
                   | Throw e => Throw e
                   end)
             = implb (truthy (get params "body"))
                 (entriesConvert (get params "body"))).
  { intros mapped. destruct (truthy (get params "body")) eqn:Eb; cbn [implb].
    - rewrite <- (nameValuePairs_isOk _ Eb).
      now destruct (Templates.nameValuePairs (get params "body")).
    - reflexivity. }
  destruct (truthy (get params "headers")) eqn:Eh; cbn [andb].
  - destruct (isObject (get params "headers")); cbn [implb].
    + rewrite <- (nameValuePairs_isOk _ Eh).
      destruct (Templates.nameValuePairs (get params "headers"));
        cbn [isOk andb]; [apply B|reflexivity].
    + apply B.
  - cbn [implb]. apply B.
Qed.

Lemma HttpRequestTemplate_throws params k e :
  Templates.HttpRequestTemplate params k = Throw e -> e = notPrimitive.
Proof.
  unfold Templates.HttpRequestTemplate, bind, ret, lift.
  assert (B : forall mapped : Obj,
             match
               (if truthy (get params "body")
                then fun s : nat =>
                       match
                         match Templates.nameValuePairs (get params "body") with
                         | Ok a => Ok (a, s)
                         | Throw e => Throw e
                         end
                       with
                       | Ok (a, s') =>
                           Ok (set "bodyParameters"
                                 (VObj [("parameters"%string, a)])
                                 (set "sendBody" (VBool true) mapped), s')
                       | Throw e => Throw e
                       end
                else fun s : nat => Ok (mapped, s)) k
             with
             | Ok (a, s') => Ok (a, s')
             | Throw e => Throw e
             end = Throw e -> e = notPrimitive).
  { intros mapped. destruct (truthy (get params "body")) eqn:Eb;
      [|discriminate].
    destruct (Templates.nameValuePairs (get params "body")) eqn:N;
      [discriminate|].
    intros [= <-]. exact (nameValuePairs_throws _ Eb N). }
  destruct (truthy (get params "headers")) eqn:Eh; cbn [andb]; [|apply B].
  destruct (isObject (get params "headers")); [|apply B].
  destruct (Templates.nameValuePairs (get params "headers")) eqn:N; [apply B|].
  intros [= <-]. exact (nameValuePairs_throws _ Eh N).
Qed.

Section Assignments.

Variable rs : Random.

(** The callback of the loop of the set strategy. *)
Definition assignment (kv : string * Value) : Templates.T Value :=
  (id <- Templates.generateId rs ;;
   value <- lift (toStr (snd kv)) ;;
   ret (VObj [("id"%string, VStr id);
              ("name"%string, VStr (fst kv));
              ("value"%string, VStr value);
              ("type"%string, VStr (Templates.getValueType (snd kv)))]))%eff.

Lemma assignments_isOk es : forall k,
  isOk (mapM assignment es k) = forallb (fun kv => converts (snd kv)) es.
Proof.
  induction es as [|kv es IH]; intros k; cbn [mapM forallb]; [reflexivity|].
  rewrite <- (IH (S k)).
  unfold bind at 1. unfold assignment at 1.
  unfold bind, Templates.generateId, lift, ret, converts.
  destruct (toStr (snd kv)); cbn [isOk andb]; [|reflexivity].
  now destruct (mapM assignment es (S k)) as [[bs k']|].
Qed.

Lemma assignments_throws es : forall k e,
  mapM assignment es k = Throw e -> e = notPrimitive.
Proof.
  induction es as [|kv es IH]; intros k e; cbn [mapM]; [discriminate|].
  unfold bind at 1. unfold assignment at 1.
  unfold bind, Templates.generateId, lift, ret.
  destruct (toStr (snd kv)) eqn:E.
  - destruct (mapM assignment es (S k)) as [[bs k']|e'] eqn:M; [discriminate|].
    intros [= <-]. exact (IH _ _ M).
  - intros [= <-]. exact (toStr_throws _ E).
Qed.

Lemma SetTemplate_returns params k :
  isOk (Templates.SetTemplate rs params k) = setReturns params.
Proof.
  unfold Templates.SetTemplate, setReturns. fold assignment.
  unfold bind at 1.
  destruct (truthy (get params "assignments")) eqn:Et; cbn [andb implb];
    [|reflexivity].
  destruct (isObject (get params "assignments")); cbn [implb]; [|reflexivity].
  unfold entriesConvert. destruct (entries_truthy _ Et) as [es ->].
  unfold bind, lift. rewrite <- (assignments_isOk es k).
  now destruct (mapM assignment es k) as [[bs k']|].
Qed.

Lemma SetTemplate_throws params k e :
  Templates.SetTemplate rs params k = Throw e -> e = notPrimitive.
Proof.
  unfold Templates.SetTemplate. fold assignment.
  unfold bind at 1.
  destruct (truthy (get params "assignments")) eqn:Et; cbn [andb];
    [|discriminate].
  destruct (isObject (get params "assignments")); [|discriminate].
  destruct (entries_truthy _ Et) as [es ->].
  unfold bind, lift.
  destruct (mapM assignment es k) as [[bs k']|e'] eqn:M; [discriminate|].
  intros [= <-]. exact (assignments_throws _ _ M).
Qed.

End Assignments.

Lemma IfTemplate_string_total rs params k :
  (isString (get params "condition")
   || negb (truthy (get params "condition")))%bool = true ->
  isOk (Templates.IfTemplate rs params k) = true.
Proof.
  unfold Templates.IfTemplate, or. intros H.
  destruct (get params "condition") as [| |b|n|s|l|o]; cbn [isString truthy orb negb] in *;
    try discriminate.
  - destruct (Regex.exec _ _); reflexivity.
  - destruct (Regex.exec _ _); reflexivity.
  - destruct b; [discriminate|]. destruct (Regex.exec _ _); reflexivity.
  - destruct (Num.isNaN n || Num.isZero n)%bool; [|discriminate].
    cbn [negb]. destruct (Regex.exec _ _); reflexivity.
  - destruct (negb (Str.isEmpty s)); destruct (Regex.exec _ _); reflexivity.
Qed.

Lemma ScheduleTriggerTemplate_string_total params k :
  (isString (get params "cron")
   || negb (truthy (get params "cron")))%bool = true ->
  isOk (Templates.ScheduleTriggerTemplate params k) = true.
Proof.
  unfold Templates.ScheduleTriggerTemplate. intros H.
  destruct (truthy (get params "cron")) eqn:Et; [|reflexivity].
  destruct (get params "cron"); cbn [isString truthy orb negb] in *;
    try discriminate.
  destruct (5 <=? _)%nat; reflexivity.
Qed.

(** A node of the DSL: [node check "flow.if" { condition: 5 }]. *)
Definition numericCondition : Dsl.Program :=
  Sample.program [] []
    [Sample.node "check" "flow.if" [("condition", Sample.number 5)]] [].

(** C2, evaluated.  The if strategy throws a TypeError on a numeric
    [condition] and the schedule strategy on a numeric [cron]; compiling a
    workflow with such a node fails with that error.  The request and the
    set strategy throw the TypeError of [String] on a value that is an
    object with a [toString] of its own: they return exactly when [String]
    returns on every value they list, and throw nothing else.  The gmail,
    code and manual trigger strategies return on every parameter map, and
    the if and the schedule strategy return whenever their parameter is a
    string or falsy. *)
Theorem wrongly_typed_parameters_throw (rs : Random) (k : nat) :
  Templates.IfTemplate rs [("condition", int 5)] k
  = Throw (TypeError "condition.match is not a function")
  /\ Templates.ScheduleTriggerTemplate [("cron", int 5)] k
     = Throw (TypeError "params.cron.split is not a function")
  /\ map Validation.message
       (Compiler.errors
          (Compiler.compile Sample.hostA Sample.compilerDefaults
             numericCondition))
     = ["Compilation error: TypeError: condition.match is not a function"]
  /\ Templates.HttpRequestTemplate
       [("body", VObj [("a"%string, unprintable)])] k
     = Throw notPrimitive
  /\ Templates.SetTemplate rs
       [("assignments", VObj [("a"%string, unprintable)])] k
     = Throw notPrimitive
  /\ (forall params k',
        isOk (Templates.GmailTemplate params k') = true
        /\ isOk (Templates.CodeTemplate params k') = true
        /\ isOk (Templates.ManualTriggerTemplate params k') = true
        /\ isOk (Templates.HttpRequestTemplate params k')
           = requestReturns params
        /\ isOk (Templates.SetTemplate rs params k') = setReturns params
        /\ (forall e, Templates.HttpRequestTemplate params k' = Throw e ->
                      e = notPrimitive)
        /\ (forall e, Templates.SetTemplate rs params k' = Throw e ->
                      e = notPrimitive))
  /\ (forall params k',
        (isString (get params "condition")
         || negb (truthy (get params "condition")))%bool = true ->
        isOk (Templates.IfTemplate rs params k') = true)
  /\ (forall params k',
        (isString (get params "cron")
         || negb (truthy (get params "cron")))%bool = true ->
        isOk (Templates.ScheduleTriggerTemplate params k') = true).
Proof.
  split; [reflexivity|]. split; [reflexivity|].
  split; [vm_compute; reflexivity|].
  split; [reflexivity|]. split; [reflexivity|].
  split.
  { intros params k'. split; [reflexivity|].
    split; [reflexivity|]. split; [reflexivity|].
    split; [apply HttpRequestTemplate_returns|].
    split; [apply SetTemplate_returns|].
    split; [apply HttpRequestTemplate_throws|apply SetTemplate_throws]. }
  split; [intros; now apply IfTemplate_string_total|].
  intros; now apply ScheduleTriggerTemplate_string_total.
Qed.

End TotalityFacts.

(** ** The request strategy and the body of a request *)

Module RequestFacts.

Import Js Eff Shape VariantCommon ConversionFacts.
Local Open Scope list_scope.

(** The properties the request strategies use for a body. *)
Definition bodyKeys : list string :=
  ["sendBody"; "bodyParameters"; "body"; "jsonParameters"; "contentType";
   "rawContentType"].

(** [o'] has the properties of [o], except perhaps those named in [keys]. *)
Definition untouched (keys : list string) (o o' : Obj) : Prop :=
  forall key, existsb (String.eqb key) keys = false ->
              lookup key o' = lookup key o.

Lemma untouched_refl keys o : untouched keys o o.
Proof. intros key _. reflexivity. Qed.

Lemma untouched_set keys k v o o' :
  existsb (String.eqb k) keys = true ->
  untouched keys o o' -> untouched keys o (set k v o').
Proof.
  intros Hk H key Hkey.
  rewrite lookup_set_other; [now apply H|].
  destruct (String.eqb key k) eqn:E; [|reflexivity].
  apply String.eqb_eq in E. subst. congruence.
Qed.

Lemma variant_pairs_isOk (v : Value) :
  truthy v = true -> isOk (nameValuePairs v) = entriesConvert v.
Proof.
  intros T. unfold nameValuePairs, entriesConvert.
  destruct (TotalityFacts.entries_truthy _ T) as [o ->].
  rewrite isOk_mapOk, isOk_mapRes.
  induction o as [|kv o IH]; cbn [forallb]; [reflexivity|].
  now rewrite isOk_mapOk, IH.
Qed.

(** Whether the block that lists the entries of [v] returns. *)
Definition lists (v : Value) : bool :=
  implb (truthy v && isObject v) (entriesConvert v).

Lemma listed_isOk key flag v mapped k :
  isOk (listed key flag v mapped k) = lists v.
Proof.
  unfold listed, lists.
  destruct (truthy v) eqn:Et; cbn [andb implb]; [|reflexivity].
  destruct (isObject v); cbn [implb]; [|reflexivity].
  rewrite <- (variant_pairs_isOk _ Et). unfold bind, lift.
  now destruct (nameValuePairs v).
Qed.

Lemma listed_spec key flag v mapped k mapped' k' :
  listed key flag v mapped k = Ok (mapped', k') ->
  k' = k /\ untouched [key; flag] mapped mapped'.
Proof.
  unfold listed.
  destruct (truthy v && isObject v).
  - unfold bind, lift, ret. destruct (nameValuePairs v) as [ps|e];
      [|discriminate].
    intros [= <- <-]. split; [reflexivity|].
    apply untouched_set; [simpl; now rewrite String.eqb_refl|].
    apply untouched_set; [simpl; rewrite String.eqb_refl; apply orb_true_r|].
    apply untouched_refl.
  - intros [= <- <-]. split; [reflexivity|apply untouched_refl].
Qed.

(** Whether the block for the body returns, for the resolved method. *)
Definition bodyReturns (params : Obj) (method : Value) : bool :=
  implb (truthy (get params "body") && carriesBody method
         && isObject (get params "body"))
    (entriesConvert (get params "body")).

Lemma withBody_isOk params mapped k :
  isOk (withBody params mapped k) = bodyReturns params (get mapped "method").
Proof.
  unfold withBody, bodyReturns.
  destruct (truthy (get params "body")) eqn:Et; cbn [andb implb];
    [|reflexivity].
  destruct (carriesBody (get mapped "method")); cbn [andb implb];
    [|reflexivity].
  rewrite <- (variant_pairs_isOk _ Et).
  destruct (get params "body") as [| |b|n|s|l|o]; cbn [isObject typeof implb];
    try reflexivity;
    unfold bind, lift; now destruct (nameValuePairs _).
Qed.

Lemma withBody_spec params mapped k mapped' k' :
  withBody params mapped k = Ok (mapped', k') ->
  k' = k
  /\ (truthy (get params "body") && carriesBody (get mapped "method") = false ->
      mapped' = mapped)
  /\ (truthy (get params "body") && carriesBody (get mapped "method") = true ->
      lookup "sendBody" mapped' = Some (VBool true)).
Proof.
  unfold withBody.
  destruct (truthy (get params "body") && carriesBody (get mapped "method"))
    eqn:E.
  - destruct (get params "body") as [| |b|n|s|l|o] eqn:Eb;
      cbn [isObject typeof]; unfold bind, lift, ret;
      try (intros [= <- <-]; split; [reflexivity|];
           split; [discriminate|]; intros _;
           rewrite ?lookup_set_other by reflexivity; apply lookup_set_same);
      (destruct (nameValuePairs _) as [ps|e]; [|discriminate];
       intros [= <- <-]; split; [reflexivity|];
       split; [discriminate|]; intros _;
       rewrite !lookup_set_other by reflexivity; apply lookup_set_same).
  - intros [= <- <-]. split; [reflexivity|]. split; [reflexivity|discriminate].
Qed.

Lemma withAuth_spec params mapped k :
  exists mapped',
    withAuth params mapped k = Ok (mapped', k)
    /\ untouched ["authentication"; "basicAuth"; "headerAuth"] mapped mapped'.
Proof.
  unfold withAuth.
  destruct (truthy (get params "auth")) eqn:Et;
    [|eexists; split; [reflexivity|apply untouched_refl]].
  assert (Hp : exists t, prop (get params "auth") "type" = Ok t).
  { destruct (get params "auth"); simpl in *; try discriminate; eauto. }
  destruct Hp as [t Ht]. unfold bind, lift. rewrite Ht.
  destruct (isStr "basicAuth" t); [|destruct (isStr "headerAuth" t)];
    (eexists; split; [reflexivity|]);
    repeat (apply untouched_set; [reflexivity|]); apply untouched_refl.
Qed.

(** Whether the block for the timeout returns. *)
Definition timeoutReturns (params : Obj) : bool :=
  implb (truthy (get params "timeout")) (isOk (toNum (get params "timeout"))).

Lemma withTimeout_isOk params mapped k :
  isOk (withTimeout params mapped k) = timeoutReturns params.
Proof.
  unfold withTimeout, timeoutReturns.
  destruct (truthy (get params "timeout")); cbn [implb]; [|reflexivity].
  unfold bind, lift. now destruct (toNum _).
Qed.

Lemma withTimeout_spec params mapped k mapped' k' :
  withTimeout params mapped k = Ok (mapped', k') ->
  k' = k /\ untouched ["timeout"] mapped mapped'.
Proof.
  unfold withTimeout.
  destruct (truthy (get params "timeout")).
  - unfold bind, lift, ret. destruct (toNum _) as [t|e]; [|discriminate].
    intros [= <- <-]. split; [reflexivity|].
    apply untouched_set; [reflexivity|]. apply untouched_refl.
  - intros [= <- <-]. split; [reflexivity|apply untouched_refl].
Qed.

(** The resolved method: [params.method || 'GET']. *)
Definition methodOf (params : Obj) : Value :=
  or (get params "method") (VStr "GET").

(** The request strategy of the variants returns when [String] does on
    the values it lists and [Number] on the timeout. *)
Definition variantReturns (params : Obj) : bool :=
  lists (get params "queryParameters")
  && lists (get params "headers")
  && bodyReturns params (methodOf params)
  && timeoutReturns params.

Lemma variant_request_spec params k mapped k' :
  HttpRequestTemplate params k = Ok (mapped, k') ->
  k' = k
  /\ hasKey "sendBody" mapped
     = truthy (get params "body") && carriesBody (methodOf params)
  /\ (carriesBody (methodOf params) = false ->
      forall key, In key bodyKeys -> hasKey key mapped = false).
Proof.
  unfold HttpRequestTemplate.
  set (base := [("method", _); ("url", _); ("authentication", _);
                ("requestMethod", _)]).
  intros H.
  apply Keeps.bind_Ok in H. destruct H as (m1 & k1 & H1 & H).
  apply Keeps.bind_Ok in H. destruct H as (m2 & k2 & H2 & H).
  apply Keeps.bind_Ok in H. destruct H as (m3 & k3 & H3 & H).
  apply Keeps.bind_Ok in H. destruct H as (m4 & k4 & H4 & H).
  apply Keeps.bind_Ok in H. destruct H as (m5 & k5 & H5 & H).
  injection H as <- <-.
  apply listed_spec in H1. destruct H1 as [-> U1].
  apply listed_spec in H2. destruct H2 as [-> U2].
  apply withBody_spec in H3. destruct H3 as (-> & B0 & B1).
  destruct (withAuth_spec params m3 k) as (m4' & H4' & U4).
  rewrite H4' in H4. injection H4 as <- <-.
  apply withTimeout_spec in H5. destruct H5 as [-> U5].
  split; [reflexivity|].
  assert (Hm : get m2 "method" = methodOf params).
  { unfold get. rewrite U2, U1 by reflexivity. reflexivity. }
  assert (Hbase : forall key, In key bodyKeys -> lookup key m2 = None).
  { intros key Hk. simpl in Hk.
    repeat (destruct Hk as [<-|Hk];
            [rewrite U2, U1 by reflexivity; reflexivity|]).
    destruct Hk. }
  assert (Hlate : forall key, In key bodyKeys -> lookup key m5 = lookup key m3).
  { intros key Hk. simpl in Hk.
    repeat (destruct Hk as [<-|Hk];
            [rewrite U5, U4 by reflexivity; reflexivity|]).
    destruct Hk. }
  rewrite Hm in B0, B1.
  split.
  - unfold hasKey. rewrite Hlate by (left; reflexivity).
    destruct (truthy (get params "body") && carriesBody (methodOf params)).
    + now rewrite B1.
    + rewrite B0, Hbase by (reflexivity || (left; reflexivity)). reflexivity.
  - intros Hc key Hk. unfold hasKey. rewrite (Hlate _ Hk).
    rewrite B0 by (rewrite Hc; apply andb_false_r).
    now rewrite (Hbase _ Hk).
Qed.

Lemma variant_request_returns params k :
  isOk (HttpRequestTemplate params k) = variantReturns params.
Proof.
  unfold HttpRequestTemplate, variantReturns.
  set (base := [("method", _); ("url", _); ("authentication", _);
                ("requestMethod", _)]).
  rewrite <- (listed_isOk "queryParameters" "sendQuery"
                (get params "queryParameters") base k).
  unfold bind at 1.
  destruct (listed "queryParameters" _ _ base k) as [[m1 k1]|e] eqn:H1;
    cbn [isOk andb]; [|reflexivity].
  apply listed_spec in H1. destruct H1 as [-> U1].
  rewrite <- (listed_isOk "headerParameters" "sendHeaders"
                (get params "headers") m1 k).
  unfold bind at 1.
  destruct (listed "headerParameters" _ _ m1 k) as [[m2 k2]|e] eqn:H2;
    cbn [isOk andb]; [|reflexivity].
  apply listed_spec in H2. destruct H2 as [-> U2].
  assert (Hm : get m2 "method" = methodOf params).
  { unfold get. rewrite U2, U1 by reflexivity. reflexivity. }
  rewrite <- Hm, <- (withBody_isOk params m2 k).
  unfold bind at 1.
  destruct (withBody params m2 k) as [[m3 k3]|e] eqn:H3;
    cbn [isOk andb]; [|reflexivity].
  apply withBody_spec in H3. destruct H3 as (-> & _ & _).
  destruct (withAuth_spec params m3 k) as (m4 & H4 & _).
  unfold bind at 1. rewrite H4.
  rewrite <- (withTimeout_isOk params m4 k).
  unfold bind, ret. now destruct (withTimeout params m4 k) as [[m5 k5]|e].
Qed.

Lemma registry_request_spec params k mapped k' :
  Templates.HttpRequestTemplate params k = Ok (mapped, k') ->
  k' = k
  /\ hasKey "sendBody" mapped = truthy (get params "body")
  /\ hasKey "bodyParameters" mapped = truthy (get params "body").
Proof.
  unfold Templates.HttpRequestTemplate, bind, ret, lift.
  destruct (truthy (get params "headers") && isObject (get params "headers")).
  - destruct (Templates.nameValuePairs (get params "headers")) as [ps|e];
      [|discriminate].
    destruct (truthy (get params "body")).
    + destruct (Templates.nameValuePairs (get params "body")) as [qs|e];
        [|discriminate].
      intros [= <- <-]. repeat split.
    + intros [= <- <-]. repeat split.
  - destruct (truthy (get params "body")).
    + destruct (Templates.nameValuePairs (get params "body")) as [qs|e];
        [|discriminate].
      intros [= <- <-]. repeat split.
    + intros [= <- <-]. repeat split.
Qed.

(** A request with the method [GET] and a body of one field. *)
Definition getWithBody : Obj :=
  [("method", VStr "GET"); ("body", VObj [("a", int 1)])].

(** C5 as stated fails on the strategy of the registry: for the method
    [GET] and a non-empty body it emits [sendBody] and [bodyParameters]. *)
Lemma get_with_body_counterexample :
  exists mapped k,
    Templates.HttpRequestTemplate getWithBody 0%nat = Ok (mapped, k)
    /\ truthy (get getWithBody "body") = true
    /\ get getWithBody "method" = VStr "GET"
    /\ hasKey "sendBody" mapped = true
    /\ hasKey "bodyParameters" mapped = true.
Proof.
  eexists. eexists. split; [vm_compute; reflexivity|].
  repeat split.
Qed.

(** C5, amended.  Whenever it returns, the request strategy of the
    registry has emitted [sendBody] and [bodyParameters] exactly when
    [body] is truthy, whatever the method.  Whenever it returns, the
    request strategy of the two variants has emitted [sendBody] exactly
    when [body] is truthy and the resolved method is [POST], [PUT] or
    [PATCH]; for every other method, [GET] included, it has emitted none
    of the body fields.  Neither draws a random number.  Each returns
    exactly when [String] returns on every value it lists (and, in the
    variants, [Number] on the timeout), which is the case of a body made
    of strings, numbers and booleans. *)
Theorem body_fields_by_strategy (params : Obj) (k : nat) :
  (forall mapped k',
     Templates.HttpRequestTemplate params k = Ok (mapped, k') ->
     k' = k
     /\ hasKey "sendBody" mapped = truthy (get params "body")
     /\ hasKey "bodyParameters" mapped = truthy (get params "body"))
  /\ (forall mapped k',
        HttpRequestTemplate params k = Ok (mapped, k') ->
        k' = k
        /\ hasKey "sendBody" mapped
           = truthy (get params "body") && carriesBody (methodOf params)
        /\ (carriesBody (methodOf params) = false ->
            forall key, In key bodyKeys -> hasKey key mapped = false))
  /\ carriesBody (VStr "GET") = false
  /\ isOk (Templates.HttpRequestTemplate params k)
     = TotalityFacts.requestReturns params
  /\ isOk (HttpRequestTemplate params k) = variantReturns params.
Proof.
  split; [intros mapped k'; apply registry_request_spec|].
  split; [intros mapped k'; apply variant_request_spec|].
  split; [reflexivity|].
  split; [apply TotalityFacts.HttpRequestTemplate_returns|].
  apply variant_request_returns.
Qed.

(** A request with the method [POST] and a body of one field, on which
    both strategies return, with [sendBody]. *)
Definition postWithBody : Obj :=
  [("method", VStr "POST"); ("body", VObj [("a", int 1)])].

(** The instance of C5 on that request. *)
Lemma body_fields_by_strategy_witness :
  (exists mapped,
     Templates.HttpRequestTemplate postWithBody 0%nat = Ok (mapped, 0%nat)
     /\ hasKey "sendBody" mapped = true)
  /\ (exists mapped,
        HttpRequestTemplate postWithBody 0%nat = Ok (mapped, 0%nat)
        /\ hasKey "sendBody" mapped = true)
  /\ TotalityFacts.requestReturns postWithBody = true
  /\ variantReturns postWithBody = true.
Proof.
  destruct (body_fields_by_strategy postWithBody 0%nat)
    as (R & V & _ & RR & VR).
  split.
  { eexists. split; [vm_compute; reflexivity|].
    exact (proj1 (proj2 (R _ _ ltac:(vm_compute; reflexivity)))). }
  split.
  { eexists. split; [vm_compute; reflexivity|].
    exact (proj1 (proj2 (V _ _ ltac:(vm_compute; reflexivity)))). }
  split; vm_compute; reflexivity.
Defined.

End RequestFacts.

(** ** Compound conditions *)

Module CompoundFacts.

Import Js Eff Regex Shape VariantCommon VariantCompound.
Local Open Scope list_scope.

(** [s] without its first [n] characters. *)
Fixpoint drop (n : nat) (s : string) : string :=
  match n, s with
  | S n', String _ s' => drop n' s'
  | _, _ => s
  end.

(** A literal pattern matches at the head exactly when the text starts
    with it. *)
Lemma run_lit (R : Type) (p : string) : forall s c (k : string -> Caps -> option R),
  run (lit p) s c k
  = if Str.startsWith p s then k (drop (String.length p) s) c else None.
Proof.
  induction p as [|a p IH]; intros s c k; [reflexivity|].
  destruct p as [|a' p'].
  - simpl. destruct s as [|b s']; [reflexivity|].
    rewrite andb_true_r. reflexivity.
  - change (lit (String a (String a' p')))
      with (Cat (chr a) (lit (String a' p'))).
    cbn [run chr]. destruct s as [|b s']; [reflexivity|].
    cbn [Str.startsWith]. destruct (Ascii.eqb a b); [|reflexivity].
    rewrite IH. reflexivity.
Qed.

Lemma searchFrom_lit (p : string) : forall s pre,
  (match searchFrom (lit p) pre s with Some _ => true | None => false end)
  = Str.includes p s.
Proof.
  induction s as [|a s IH]; intros pre.
  - cbn [searchFrom]. rewrite run_lit. cbn [Str.includes].
    destruct (Str.startsWith p ""); reflexivity.
  - cbn [searchFrom]. rewrite run_lit. cbn [Str.includes].
    destruct (Str.startsWith p (String a s)); [reflexivity|].
    apply IH.
Qed.

Lemma test_lit (p s : string) : test (lit p) s = Str.includes p s.
Proof. unfold test, exec. apply searchFrom_lit. Qed.

(** Cleaning a condition neither adds nor removes an occurrence of [||]. *)
Lemma startsWith_bars_dropLast a s :
  Str.startsWith "||" (String a (Str.dropLast "}" s))
  = Str.startsWith "||" (String a s).
Proof.
  cbn [Str.startsWith]. f_equal.
  destruct s as [|b [|c s']]; cbn [Str.dropLast Str.startsWith]; try reflexivity.
  destruct (Ascii.eqb b "}") eqn:E; [|reflexivity].
  apply Ascii.eqb_eq in E. subst b. reflexivity.
Qed.

Lemma dropLast_cons a b s :
  Str.dropLast "}" (String a (String b s))
  = String a (Str.dropLast "}" (String b s)).
Proof. reflexivity. Qed.

Lemma includes_bars_dropLast s :
  Str.includes "||" (Str.dropLast "}" s) = Str.includes "||" s.
Proof.
  induction s as [|a s IH]; [reflexivity|].
  destruct s as [|b s'].
  - cbn [Str.dropLast]. destruct (Ascii.eqb a "}") eqn:E; [|reflexivity].
    apply Ascii.eqb_eq in E. subst a. reflexivity.
  - rewrite dropLast_cons.
    change (Str.includes "||" (String a (Str.dropLast "}" (String b s'))))
      with (Str.startsWith "||" (String a (Str.dropLast "}" (String b s')))
            || Str.includes "||" (Str.dropLast "}" (String b s')))%bool.
    rewrite startsWith_bars_dropLast, IH. reflexivity.
Qed.

Lemma dropOpen_cases s :
  dropOpen s = s \/ s = String "$" (String "{" (dropOpen s)).
Proof.
  destruct s as [|a s]; [now left|].
  destruct (Ascii.ascii_dec a "$") as [->|Ha].
  - destruct s as [|b r]; [now left|].
    destruct (Ascii.ascii_dec b "{") as [->|Hb]; [now right|].
    left. destruct b as [[] [] [] [] [] [] [] []];
      try reflexivity; now elim Hb.
  - left. destruct a as [[] [] [] [] [] [] [] []];
      try reflexivity; now elim Ha.
Qed.

Lemma includes_bars_dropOpen s :
  Str.includes "||" (dropOpen s) = Str.includes "||" s.
Proof.
  destruct (dropOpen_cases s) as [->|E]; [reflexivity|].
  rewrite E at 2. reflexivity.
Qed.

Lemma includes_bars_clean c :
  Str.includes "||" (cleanCondition c) = Str.includes "||" c.
Proof.
  unfold cleanCondition.
  now rewrite includes_bars_dropLast, includes_bars_dropOpen.
Qed.

Lemma splitFrom_length_cur sep s : forall skip cur cur',
  List.length (Str.splitFrom sep skip cur s)
  = List.length (Str.splitFrom sep skip cur' s).
Proof.
  induction s as [|a s IH]; intros skip cur cur'; [reflexivity|].
  cbn [Str.splitFrom]. destruct skip as [|skip]; [|apply IH].
  destruct (Str.startsWith sep (String a s)); [reflexivity|apply IH].
Qed.

Lemma splitFrom_bars_dropLast s : forall skip cur,
  List.length (Str.splitFrom "||" skip cur (Str.dropLast "}" s))
  = List.length (Str.splitFrom "||" skip cur s).
Proof.
  induction s as [|a s IH]; intros skip cur; [reflexivity|].
  destruct s as [|b s'].
  - cbn [Str.dropLast]. destruct (Ascii.eqb a "}") eqn:E.
    + apply Ascii.eqb_eq in E. subst a. destruct skip; reflexivity.
    + reflexivity.
  - rewrite dropLast_cons. cbn [Str.splitFrom].
    destruct skip as [|skip]; [|apply IH].
    rewrite startsWith_bars_dropLast.
    destruct (Str.startsWith "||" (String a (String b s'))).
    + cbn [List.length]. f_equal. apply IH.
    + apply IH.
Qed.

Lemma split_bars_dropOpen s :
  List.length (Str.split "||" (dropOpen s))
  = List.length (Str.split "||" s).
Proof.
  destruct (dropOpen_cases s) as [->|E]; [reflexivity|].
  rewrite E at 2. unfold Str.split. cbn. apply splitFrom_length_cur.
Qed.

Lemma split_bars_clean c :
  List.length (Str.split "||" (cleanCondition c))
  = List.length (Str.split "||" c).
Proof.
  unfold cleanCondition, Str.split.
  rewrite splitFrom_bars_dropLast. apply split_bars_dropOpen.
Qed.

Lemma includes_nonempty p s :
  Str.includes (String "|" p) s = true -> Str.isEmpty s = false.
Proof. destruct s; [discriminate|reflexivity]. Qed.

Lemma parseConditionPart_total rs part k :
  exists v, parseConditionPart rs part k = Ok (v, S k).
Proof.
  unfold parseConditionPart.
  destruct (exec includesRegex part); [eexists; reflexivity|].
  destruct (exec nodeRefRegex part); eexists; reflexivity.
Qed.

Lemma registry_if_single rs params k c :
  get params "condition" = VStr c ->
  exists mapped,
    Templates.IfTemplate rs params k = Ok (mapped, S k)
    /\ combinator mapped = VStr "and"
    /\ List.length (conditionList mapped) = 1%nat.
Proof.
  intros Hc. unfold Templates.IfTemplate. rewrite Hc.
  assert (Hor : exists c', or (VStr c) (VStr "") = VStr c').
  { unfold or. destruct (truthy (VStr c)); eauto. }
  destruct Hor as [c' ->].
  destruct (exec Templates.comparisonRegex c');
    (eexists; split; [reflexivity|split; reflexivity]).
Qed.

Lemma compound_or rs w params k c :
  isArray (get params "conditions") = false ->
  get params "condition" = VStr c ->
  Str.includes "||" c = true ->
  exists mapped k',
    IfTemplate rs w params k = Ok (mapped, k')
    /\ combinator mapped = VStr "or"
    /\ List.length (conditionList mapped)
       = List.length (Str.split "||" c).
Proof.
  intros Harr Hc Hinc.
  assert (Hor : or (VStr c) (VStr "") = VStr c).
  { unfold or. cbn [truthy]. now rewrite (includes_nonempty _ _ Hinc). }
  assert (Hcomplex : isComplexExpression c = true).
  { unfold isComplexExpression, complexPatterns. cbn [existsb].
    now rewrite test_lit, Hinc. }
  destruct (@TotalityFacts.mapM_total nat _ _ (parseConditionPart rs)
              (fun a s => let (v, H) := parseConditionPart_total rs a s in
                          ex_intro _ v (ex_intro _ (S s) H))
              (map Str.trim (Str.split "||" (cleanCondition c))) k)
    as (cs & k' & Hcs & Hlen).
  rewrite length_map, split_bars_clean in Hlen.
  exists (set "conditions"
            (VObj [("options",
                    conditionOptions (notFalse (get params "caseSensitive")));
                   ("combinator", VStr "or");
                   ("conditions", VArr cs)])
            [("options", or (get params "options") (VObj []))]), k'.
  split; [|split; [reflexivity|exact Hlen]].
  unfold IfTemplate.
  destruct (get params "conditions"); try discriminate;
    rewrite Hc, Hor; cbn [toStr]; unfold bind at 1, lift;
    rewrite Hcomplex;
    unfold parseComplexCondition; rewrite includes_bars_clean, Hinc;
    unfold bind; rewrite Hcs; reflexivity.
Qed.

(** A condition with two clauses joined by [||]. *)
Definition eitherCondition : Dsl.NodeEntry :=
  Sample.node "check" "flow.if" [("condition", Sample.str "a || b")].

(** C1 as stated fails on the generator: the if strategy of the registry
    does not split at [||]; the condition [a || b], of two clauses, gives a
    single condition under the combinator [and]. *)
Lemma or_condition_counterexample :
  exists mapped g,
    Generator.generateNodeParameters Sample.hostA
      [("condition", Sample.str "a || b")] "n8n-nodes-base.if"
      (Generator.create Sample.defaults)
    = Ok (mapped, g)
    /\ Str.includes "||" "a || b" = true
    /\ List.length (Str.split "||" "a || b") = 2%nat
    /\ combinator mapped = VStr "and"
    /\ List.length (conditionList mapped) = 1%nat.
Proof.
  eexists. eexists. split; [vm_compute; reflexivity|].
  repeat split.
Qed.

(** C1, amended.  For a condition string the if strategy of the registry,
    the one the generator applies, returns exactly one condition under the
    combinator [and].  The variant with compound conditions, when no list
    of conditions is given and the condition string contains [||], returns
    the combinator [or] and as many conditions as the string has clauses
    separated by [||]. *)
Theorem or_condition_by_strategy (rs : Random) (w : World) (params : Obj)
  (k : nat) (c : string) :
  get params "condition" = VStr c ->
  (exists mapped,
     Templates.IfTemplate rs params k = Ok (mapped, S k)
     /\ combinator mapped = VStr "and"
     /\ List.length (conditionList mapped) = 1%nat)
  /\ (isArray (get params "conditions") = false ->
      Str.includes "||" c = true ->
      exists mapped k',
        IfTemplate rs w params k = Ok (mapped, k')
        /\ combinator mapped = VStr "or"
        /\ List.length (conditionList mapped)
           = List.length (Str.split "||" c)).
Proof.
  intros Hc. split.
  - exact (@registry_if_single rs params k c Hc).
  - intros Harr Hinc. now apply compound_or.
Qed.

(** The instance of the amended C1 on the condition [a || b || c]. *)
Lemma or_condition_by_strategy_witness :
  (exists mapped,
     Templates.IfTemplate Sample.randomA
       [("condition", VStr "a || b || c")] 0%nat = Ok (mapped, 1%nat)
     /\ combinator mapped = VStr "and"
     /\ List.length (conditionList mapped) = 1%nat)
  /\ (exists mapped k',
        IfTemplate Sample.randomA Sample.worldA
          [("condition", VStr "a || b || c")] 0%nat = Ok (mapped, k')
        /\ combinator mapped = VStr "or"
        /\ List.length (conditionList mapped) = 3%nat).
Proof.
  destruct (@or_condition_by_strategy Sample.randomA Sample.worldA
              [("condition", VStr "a || b || c")] 0%nat "a || b || c" eq_refl)
    as [H1 H2].
  split; [exact H1|]. exact (H2 eq_refl eq_refl).
Defined.

End CompoundFacts.

(** ** Template strings *)

Module TemplateFacts.

Import Js Eff Generator ConversionFacts.


















Section Tables.

Variable w : World.
Variable variables : list (string * Value).
Variable parameters : list (string * ParamInfo).

Let resolve := Generator.resolve w variables parameters.
Let evaluateTemplate := Generator.evaluateTemplate w variables parameters.
Let replacePiece := Generator.replacePiece w variables parameters.


(** [String] returns on every value a span can resolve to: those of the
    variables, and the defaults of the parameters. *)
Definition rendered (p : ParamInfo) : Value := or (infoDefault p) (VStr "").

Definition tablesConvert : bool :=
  forallb (fun kv => converts (snd kv)) variables
  && forallb (fun kp => converts (rendered (snd kp))) parameters.

Lemma mapGet_forallb {A} (f : string * A -> bool) (m : list (string * A))
  (key : string) (a : A) :
  forallb f m = true -> mapGet key m = Some a -> exists key', f (key', a) = true.
Proof.
  unfold mapGet.
  induction m as [|[k' a'] m IH]; cbn [forallb Templates.find];
    [discriminate|].
  intros H. apply andb_prop in H. destruct H as [Hf Hm].
  destruct (String.eqb key k'); [|now apply IH].
  intros [= <-]. now exists k'.
Qed.

(** A span resolves, or [String] throws on the value it resolves to. *)
Lemma resolve_outcome (body : string) (k : nat) :
  (exists out k', resolve body k = Ok (out, k'))
  \/ resolve body k = Throw notPrimitive.
Proof.
  unfold resolve, Generator.resolve, lift.
  destruct (mapGet _ variables) as [v|].
  { destruct (toStr v) eqn:E; [left; eauto|right].
    now rewrite (toStr_throws _ E). }
  destruct (mapGet _ parameters) as [p|].
  { destruct (toStr _) eqn:E; [left; eauto|right].
    now rewrite (toStr_throws _ E). }
  left.
  destruct (Str.startsWith "now(" _); [eexists; eexists; reflexivity|].
  destruct (Str.startsWith "env(" _); eexists; eexists; reflexivity.
Qed.

Lemma resolve_returns (body : string) (k : nat) :
  tablesConvert = true -> exists out k', resolve body k = Ok (out, k').
Proof.
  unfold tablesConvert. intros H. apply andb_prop in H. destruct H as [Hv Hp].
  unfold resolve, Generator.resolve, lift.
  destruct (mapGet _ variables) as [v|] eqn:Ev.
  { destruct (mapGet_forallb _ _ _ Hv Ev) as [key H]. cbn [snd] in H.
    destruct (converts_Ok _ H) as [s ->]. eauto. }
  destruct (mapGet _ parameters) as [p|] eqn:Ep.
  { destruct (mapGet_forallb _ _ _ Hp Ep) as [key H]. cbn [snd] in H.
    destruct (converts_Ok _ H) as [s Hs]. unfold rendered in Hs.
    rewrite Hs. eauto. }
  destruct (Str.startsWith "now(" _); [eexists; eexists; reflexivity|].
  destruct (Str.startsWith "env(" _); eexists; eexists; reflexivity.
Qed.

Lemma mapM_replacePiece_outcome (ps : list Piece) : forall k,
  (exists out k', mapM replacePiece ps k = Ok (out, k'))
  \/ mapM replacePiece ps k = Throw notPrimitive.
Proof.
  induction ps as [|p ps IH]; intros k; cbn [mapM];
    [left; eexists; eexists; reflexivity|].
  unfold bind, ret.
  assert (H : (exists out k', replacePiece p k = Ok (out, k'))
              \/ replacePiece p k = Throw notPrimitive).
  { destruct p as [c|body]; [left; eexists; eexists; reflexivity|].
    apply resolve_outcome. }
  destruct H as [(out & k1 & ->)| ->]; [|now right].
  destruct (IH k1) as [(outs & k2 & ->)| ->]; [left; eauto|now right].
Qed.

Lemma evaluateTemplate_outcome (template : string) (k : nat) :
  (exists out k', evaluateTemplate template k = Ok (out, k'))
  \/ evaluateTemplate template k = Throw notPrimitive.
Proof.
  unfold evaluateTemplate, Generator.evaluateTemplate. fold replacePiece.
  unfold bind, ret.
  destruct (mapM_replacePiece_outcome (pieces 0 template) k)
    as [(out & k' & ->)| ->]; [left; eauto|now right].
Qed.

Lemma evaluateTemplate_returns (template : string) (k : nat) :
  tablesConvert = true ->
  exists out k', evaluateTemplate template k = Ok (out, k').
Proof.
  intros T. unfold evaluateTemplate, Generator.evaluateTemplate.
  assert (Hf : forall p s, exists b s', replacePiece p s = Ok (b, s')).
  { intros [c|body] s; [eexists; eexists; reflexivity|].
    now apply resolve_returns. }
  destruct (@TotalityFacts.mapM_total nat _ _ replacePiece Hf
              (pieces 0 template) k) as (bs & k' & H & _).
  fold replacePiece. unfold bind. rewrite H. eexists. eexists. reflexivity.
Qed.



End Tables.

(** *** The [env] call *)


(** One of the two quote characters. *)
Definition isQuote (a : ascii) : bool :=
  existsb (Ascii.eqb a) (list_ascii_of_string VariantCompound.quotes).


















End TemplateFacts.

(** ** Two runs on the same source *)

Module RunFacts.

Import Js Eff Generator Shape.
Local Open Scope list_scope.

(** *** What a run draws *)

(** An object with its [id] blanked. *)
Definition blankId (v : Value) : Value :=
  match v with
  | VObj o => VObj (set "id" (VStr "") o)
  | _ => v
  end.

Definition blankIds (v : Value) : Value :=
  match v with
  | VArr l => VArr (map blankId l)
  | _ => v
  end.

(** [f] applied to the property [k] of an object that has it. *)
Definition under (k : string) (f : Value -> Value) (v : Value) : Value :=
  match v with
  | VObj o =>
      match lookup k o with
      | Some x => VObj (set k (f x) o)
      | None => v
      end
  | _ => v
  end.

Definition objectOf (v : Value) (otherwise : Obj) : Obj :=
  match v with VObj o => o | _ => otherwise end.

(** The parameters of a node without the identifiers its strategy drew:
    those of the conditions of an if node and of the assignments of a set
    node. *)
Definition scrubParameters (nodeType : string) (ps : Obj) : Obj :=
  if String.eqb nodeType "n8n-nodes-base.if"
  then objectOf (under "conditions" (under "conditions" blankIds) (VObj ps)) ps
  else if String.eqb nodeType "n8n-nodes-base.set"
  then objectOf (under "assignments" (under "assignments" blankIds) (VObj ps)) ps
  else ps.

Definition scrubNode (n : N8n.N8nNode) : N8n.N8nNode :=
  {| N8n.id := "";
     N8n.name := N8n.name n;
     N8n.nodeType := N8n.nodeType n;
     N8n.position := N8n.position n;
     N8n.parameters := scrubParameters (N8n.nodeType n) (N8n.parameters n);
     N8n.typeVersion := N8n.typeVersion n |}.

(** A workflow without its fresh identifiers: the instance id, the node
    ids and the ids inside the parameters. *)
Definition scrubWorkflow (wf : N8n.N8nWorkflow) : N8n.N8nWorkflow :=
  {| N8n.nodes := map scrubNode (N8n.nodes wf);
     N8n.connections := N8n.connections wf;
     N8n.pinData := N8n.pinData wf;
     N8n.instanceId := "";
     N8n.workflowName := N8n.workflowName wf;
     N8n.active := N8n.active wf;
     N8n.executionOrder := N8n.executionOrder wf |}.

(** *** Strategies on two random sources *)

(** Two results of a strategy for the node type [t] agree up to the
    drawn identifiers. *)
Definition agree (t : string) (r1 r2 : Res (Obj * nat)) : Prop :=
  match r1, r2 with
  | Ok (o1, _), Ok (o2, _) => scrubParameters t o1 = scrubParameters t o2
  | Throw e1, Throw e2 => e1 = e2
  | _, _ => False
  end.

Lemma agree_same t (f : nat -> Res (Obj * nat)) k1 k2 :
  (forall k, f k = match f 0%nat with
                   | Ok (o, _) => Ok (o, k)
                   | Throw e => Throw e
                   end) ->
  agree t (f k1) (f k2).
Proof.
  intros H. rewrite (H k1), (H k2). unfold agree.
  destruct (f 0%nat) as [[o k]|e]; reflexivity.
Qed.

Lemma Http_stateless params k :
  Templates.HttpRequestTemplate params k
  = match Templates.HttpRequestTemplate params 0%nat with
    | Ok (o, _) => Ok (o, k)
    | Throw e => Throw e
    end.
Proof.
  unfold Templates.HttpRequestTemplate, bind, ret, lift.
  destruct (truthy (get params "headers") && isObject (get params "headers"));
    [destruct (Templates.nameValuePairs (get params "headers"));
     [|reflexivity]|];
    (destruct (truthy (get params "body"));
     [destruct (Templates.nameValuePairs (get params "body"))|]; reflexivity).
Qed.

Lemma Schedule_stateless params k :
  Templates.ScheduleTriggerTemplate params k
  = match Templates.ScheduleTriggerTemplate params 0%nat with
    | Ok (o, _) => Ok (o, k)
    | Throw e => Throw e
    end.
Proof.
  unfold Templates.ScheduleTriggerTemplate.
  destruct (truthy (get params "cron")); [|reflexivity].
  destruct (get params "cron"); try reflexivity.
  destruct (5 <=? _)%nat; reflexivity.
Qed.

Lemma If_agree r1 r2 params k1 k2 :
  agree "n8n-nodes-base.if"
    (Templates.IfTemplate r1 params k1) (Templates.IfTemplate r2 params k2).
Proof.
  unfold Templates.IfTemplate.
  destruct (or (get params "condition") (VStr "")); try reflexivity.
  destruct (Regex.exec Templates.comparisonRegex s); reflexivity.
Qed.

Lemma assignment_step rs kv k :
  TotalityFacts.assignment rs kv k
  = match toStr (snd kv) with
    | Ok value =>
        Ok (VObj [("id", VStr (random36 rs k)); ("name", VStr (fst kv));
                  ("value", VStr value);
                  ("type", VStr (Templates.getValueType (snd kv)))], S k)
    | Throw e => Throw e
    end.
Proof.
  unfold TotalityFacts.assignment, bind, Templates.generateId, lift, ret.
  now destruct (toStr (snd kv)).
Qed.

(** The assignments of the set strategy, one drawn identifier each: two
    runs throw the same, or agree up to the identifiers. *)
Lemma assignments_agree r1 r2 es : forall k1 k2,
  match mapM (TotalityFacts.assignment r1) es k1,
        mapM (TotalityFacts.assignment r2) es k2 with
  | Ok (l1, _), Ok (l2, _) => map blankId l1 = map blankId l2
  | Throw e1, Throw e2 => e1 = e2
  | _, _ => False
  end.
Proof.
  induction es as [|e es IH]; intros k1 k2; [reflexivity|].
  specialize (IH (S k1) (S k2)). cbn [mapM].
  unfold bind, ret. rewrite !assignment_step.
  destruct (toStr (snd e)) as [value|err]; cbv beta iota; [|reflexivity].
  destruct (mapM (TotalityFacts.assignment r1) es (S k1)) as [[l1 k1']|e1],
           (mapM (TotalityFacts.assignment r2) es (S k2)) as [[l2 k2']|e2];
    cbv beta iota in IH; try contradiction; [|exact IH].
  cbn [map]. rewrite IH. reflexivity.
Qed.

Lemma Set_agree r1 r2 params k1 k2 :
  agree "n8n-nodes-base.set"
    (Templates.SetTemplate r1 params k1) (Templates.SetTemplate r2 params k2).
Proof.
  unfold Templates.SetTemplate.
  fold (TotalityFacts.assignment r1). fold (TotalityFacts.assignment r2).
  unfold bind, lift, ret.
  destruct (truthy (get params "assignments")
            && isObject (get params "assignments")); [|reflexivity].
  destruct (entries (get params "assignments")) as [es|e]; [|reflexivity].
  pose proof (assignments_agree r1 r2 es k1 k2) as H.
  destruct (mapM (TotalityFacts.assignment r1) es k1) as [[l1 k1']|e1],
           (mapM (TotalityFacts.assignment r2) es k2) as [[l2 k2']|e2];
    cbv beta iota in H; try contradiction; [|exact H].
  cbn. rewrite H. reflexivity.
Qed.

(** Every strategy of the registry, and the absence of one. *)
Lemma registry_agree r1 r2 t raw k1 k2 :
  match Templates.getNodeTemplate r1 t, Templates.getNodeTemplate r2 t with
  | Some f1, Some f2 => agree t (f1 raw k1) (f2 raw k2)
  | None, None => True
  | _, _ => False
  end.
Proof.
  unfold Templates.getNodeTemplate, Templates.NODE_TEMPLATES.
  cbn [Templates.find].
  destruct (String.eqb t "n8n-nodes-base.httpRequest") eqn:E1.
  { apply agree_same. intros k. apply Http_stateless. }
  destruct (String.eqb t "n8n-nodes-base.gmail") eqn:E2.
  { apply agree_same. intros k. reflexivity. }
  destruct (String.eqb t "n8n-nodes-base.if") eqn:E3.
  { apply String.eqb_eq in E3. subst t. apply If_agree. }
  destruct (String.eqb t "n8n-nodes-base.scheduleTrigger") eqn:E4.
  { apply agree_same. intros k. apply Schedule_stateless. }
  destruct (String.eqb t "n8n-nodes-base.code") eqn:E5.
  { apply agree_same. intros k. reflexivity. }
  destruct (String.eqb t "n8n-nodes-base.set") eqn:E6.
  { apply String.eqb_eq in E6. subst t. apply Set_agree. }
  destruct (String.eqb t "n8n-nodes-base.manualTrigger") eqn:E7.
  { apply agree_same. intros k. reflexivity. }
  exact I.
Qed.

(** *** Two generators *)

(** Two generator states that differ at most in the number of draws. *)
Definition Rel (g1 g2 : Gen) : Prop :=
  optInstanceId g1 = optInstanceId g2
  /\ optAutoLayout g1 = optAutoLayout g2
  /\ optSpacing g1 = optSpacing g2
  /\ parameters g1 = parameters g2
  /\ variables g1 = variables g2
  /\ nodePositions g1 = nodePositions g2
  /\ currentPosition g1 = currentPosition g2
  /\ reads g1 = reads g2.

Lemma Rel_refl g : Rel g g.
Proof. unfold Rel. now repeat split. Qed.

(** Two results that throw the same error, or return values related by
    [eqA] in related states. *)
Definition related {A} (eqA : A -> A -> Prop) (x1 x2 : Res (A * Gen)) : Prop :=
  match x1, x2 with
  | Ok (a1, g1), Ok (a2, g2) => eqA a1 a2 /\ Rel g1 g2
  | Throw e1, Throw e2 => e1 = e2
  | _, _ => False
  end.

Lemma related_bind {A B} (eqA : A -> A -> Prop) (eqB : B -> B -> Prop)
  (m1 m2 : G A) (k1 k2 : A -> G B) g1 g2 :
  related eqA (m1 g1) (m2 g2) ->
  (forall a1 a2 g1' g2',
     eqA a1 a2 -> Rel g1' g2' -> related eqB (k1 a1 g1') (k2 a2 g2')) ->
  related eqB (bind m1 k1 g1) (bind m2 k2 g2).
Proof.
  unfold bind, related at 1. intros Hm Hk.
  destruct (m1 g1) as [[a1 g1']|e1], (m2 g2) as [[a2 g2']|e2];
    try contradiction.
  - destruct Hm. now apply Hk.
  - exact Hm.
Qed.

Lemma related_ret {A} (eqA : A -> A -> Prop) a1 a2 g1 g2 :
  eqA a1 a2 -> Rel g1 g2 -> related eqA (ret a1 g1) (ret a2 g2).
Proof. now split. Qed.

Lemma related_lift {A} (r : Res A) g1 g2 :
  Rel g1 g2 -> related eq (lift r g1) (lift r g2).
Proof. intros H. unfold lift. destruct r; [now split|reflexivity]. Qed.

Lemma related_mapM {A B} (eqB : B -> B -> Prop) (f1 f2 : A -> G B) l :
  (forall a g1 g2, Rel g1 g2 -> related eqB (f1 a g1) (f2 a g2)) ->
  forall g1 g2, Rel g1 g2 ->
    related (Forall2 eqB) (mapM f1 l g1) (mapM f2 l g2).
Proof.
  intros Hf. induction l as [|a l IH]; intros g1 g2 Hg; cbn [mapM].
  - apply related_ret; [constructor|exact Hg].
  - eapply related_bind; [apply Hf; exact Hg|].
    intros b1 b2 g1' g2' Hb Hg'.
    eapply related_bind; [apply IH; exact Hg'|].
    intros bs1 bs2 g1'' g2'' Hbs Hg''.
    apply related_ret; [now constructor|exact Hg''].
Qed.

Section TwoRuns.

Variable w : World.
Variables r1 r2 : Random.

Let h1 : Host := {| randomSource := r1; world := w |}.
Let h2 : Host := {| randomSource := r2; world := w |}.

Lemma related_evaluate e g1 g2 :
  Rel g1 g2 -> related eq (evaluate h1 e g1) (evaluate h2 e g2).
Proof.
  intros (A1 & A2 & A3 & A4 & A5 & A6 & A7 & A8).
  unfold evaluate. cbn [world h1 h2]. rewrite A4, A5, A8.
  destruct (evaluateExpression w _ _ e _) as [[v k]|err]; [|reflexivity].
  split; [reflexivity|]. unfold Rel. cbn. now repeat split.
Qed.

Lemma related_processParameters ps : forall g1 g2,
  Rel g1 g2 ->
  related eq (processParameters h1 ps g1) (processParameters h2 ps g2).
Proof.
  induction ps as [|p ps IH]; intros g1 g2 Hg; cbn [processParameters].
  - now apply related_ret.
  - eapply related_bind with (eqA := eq).
    + destruct (Dsl.defaultValue p);
        [now apply related_evaluate|now apply related_ret].
    + intros v1 v2 g1' g2' <- Hg'.
      eapply related_bind with (eqA := eq).
      * destruct Hg' as (A1 & A2 & A3 & A4 & A5 & A6 & A7 & A8).
        split; [reflexivity|]. unfold Rel. cbn. rewrite A4.
        now repeat split.
      * intros _ _ g1'' g2'' _ Hg''. now apply IH.
Qed.

Lemma related_processVariables vs : forall g1 g2,
  Rel g1 g2 ->
  related eq (processVariables h1 vs g1) (processVariables h2 vs g2).
Proof.
  induction vs as [|v vs IH]; intros g1 g2 Hg; cbn [processVariables].
  - now apply related_ret.
  - eapply related_bind with (eqA := eq); [now apply related_evaluate|].
    intros v1 v2 g1' g2' <- Hg'.
    eapply related_bind with (eqA := eq).
    + destruct Hg' as (A1 & A2 & A3 & A4 & A5 & A6 & A7 & A8).
      split; [reflexivity|]. unfold Rel. cbn. rewrite A5.
      now repeat split.
    + intros _ _ g1'' g2'' _ Hg''. now apply IH.
Qed.

Lemma related_evaluateAll ps : forall raw g1 g2,
  Rel g1 g2 ->
  related eq (evaluateAll h1 ps raw g1) (evaluateAll h2 ps raw g2).
Proof.
  induction ps as [|[key e] ps IH]; intros raw g1 g2 Hg; cbn [evaluateAll].
  - now apply related_ret.
  - eapply related_bind with (eqA := eq); [now apply related_evaluate|].
    intros v1 v2 g1' g2' <- Hg'. now apply IH.
Qed.

Lemma related_random {A} (eqA : A -> A -> Prop) (t1 t2 : M nat A) g1 g2 :
  Rel g1 g2 ->
  match t1 (draws g1), t2 (draws g2) with
  | Ok (a1, _), Ok (a2, _) => eqA a1 a2
  | Throw e1, Throw e2 => e1 = e2
  | _, _ => False
  end ->
  related eqA (random t1 g1) (random t2 g2).
Proof.
  intros Hg H. unfold random.
  destruct (t1 (draws g1)) as [[a1 k1]|e1], (t2 (draws g2)) as [[a2 k2]|e2];
    try contradiction; [|exact H].
  split; [exact H|]. unfold Rel in *. cbn. tauto.
Qed.

Lemma related_generateNodeParameters ps t g1 g2 :
  Rel g1 g2 ->
  related (fun o1 o2 => scrubParameters t o1 = scrubParameters t o2)
    (generateNodeParameters h1 ps t g1) (generateNodeParameters h2 ps t g2).
Proof.
  intros Hg. unfold generateNodeParameters.
  eapply related_bind with (eqA := eq); [now apply related_evaluateAll|].
  intros raw ? g1' g2' <- Hg'. cbn [randomSource h1 h2].
  pose proof (registry_agree r1 r2 t raw (draws g1') (draws g2')) as H.
  destruct (Templates.getNodeTemplate r1 t) as [f1|],
           (Templates.getNodeTemplate r2 t) as [f2|]; try contradiction.
  - apply related_random; [exact Hg'|exact H].
  - now apply related_ret.
Qed.

Lemma related_getNodePosition name g1 g2 :
  Rel g1 g2 ->
  related eq (getNodePosition name g1) (getNodePosition name g2).
Proof.
  intros (A1 & A2 & A3 & A4 & A5 & A6 & A7 & A8).
  unfold getNodePosition. rewrite A6, A2, A7, A3.
  destruct (mapGet name (nodePositions g2)).
  - split; [reflexivity|]. unfold Rel. tauto.
  - destruct (optAutoLayout g2) eqn:E.
    + split; [reflexivity|]. unfold Rel. cbn. repeat split; congruence.
    + split; [reflexivity|]. unfold Rel. repeat split; congruence.
Qed.

(** Two nodes that agree up to their identifiers, which are both empty
    or both not. *)
Definition sameNode (n1 n2 : N8n.N8nNode) : Prop :=
  scrubNode n1 = scrubNode n2
  /\ Str.isEmpty (N8n.id n1) = Str.isEmpty (N8n.id n2).

Lemma fillPattern_filled rs c pattern k :
  Str.isEmpty (fst (N8n.fillPattern rs (String c pattern) k)) = false.
Proof.
  cbn [N8n.fillPattern].
  destruct (Ascii.eqb c "x");
    [|destruct (Ascii.eqb c "y")];
    destruct (N8n.fillPattern rs pattern _); reflexivity.
Qed.

Lemma related_generateNode entry g1 g2 :
  Rel g1 g2 ->
  related sameNode (generateNode h1 entry g1) (generateNode h2 entry g2).
Proof.
  intros Hg. destruct entry as [n|m]; cbn [generateNode]; [|reflexivity].
  eapply related_bind with (eqA := eq); [now apply related_lift|].
  intros t ? g1a g2a <- Ha.
  eapply related_bind with (eqA := eq); [now apply related_getNodePosition|].
  intros p ? g1b g2b <- Hb.
  eapply related_bind; [apply related_generateNodeParameters; exact Hb|].
  intros o1 o2 g1c g2c Ho Hc.
  eapply related_bind
    with (eqA := fun i1 i2 => Str.isEmpty i1 = Str.isEmpty i2).
  - apply related_random; [exact Hc|]. cbn [randomSource h1 h2].
    unfold N8n.generateNodeId.
    pose proof (fillPattern_filled r1 "x" "xxxxxxx-xxxx-4xxx-yxxx-xxxxxxxxxxxx"
                  (draws g1c)) as F1.
    pose proof (fillPattern_filled r2 "x" "xxxxxxx-xxxx-4xxx-yxxx-xxxxxxxxxxxx"
                  (draws g2c)) as F2.
    destruct (N8n.fillPattern r1 _ _) as [i1 k1].
    destruct (N8n.fillPattern r2 _ _) as [i2 k2].
    cbn [fst] in F1, F2. congruence.
  - intros i1 i2 g1d g2d Hi Hd. apply related_ret; [|exact Hd].
    split; [|exact Hi]. unfold scrubNode. cbn. now rewrite Ho.
Qed.

Lemma sameNode_names l1 l2 :
  Forall2 sameNode l1 l2 -> map N8n.name l1 = map N8n.name l2.
Proof.
  induction 1 as [|n1 n2 l1 l2 [H _] _ IH]; [reflexivity|].
  cbn. rewrite IH. f_equal.
  exact (f_equal N8n.name H).
Qed.

Lemma sameNode_scrub l1 l2 :
  Forall2 sameNode l1 l2 -> map scrubNode l1 = map scrubNode l2.
Proof.
  induction 1 as [|n1 n2 l1 l2 [H _] _ IH]; [reflexivity|].
  cbn. now rewrite IH, H.
Qed.

(** Two workflows that agree up to their identifiers. *)
Definition sameWorkflow (w1 w2 : N8n.N8nWorkflow) : Prop :=
  scrubWorkflow w1 = scrubWorkflow w2
  /\ Forall2 sameNode (N8n.nodes w1) (N8n.nodes w2).

Lemma hasNode_names name l1 l2 :
  map N8n.name l1 = map N8n.name l2 -> hasNode name l1 = hasNode name l2.
Proof.
  revert l2. induction l1 as [|n1 l1 IH]; intros [|n2 l2] H;
    try discriminate; [reflexivity|].
  cbn in H. injection H as Hn Hl. cbn. rewrite Hn. f_equal. now apply IH.
Qed.

Lemma connect_names conns l1 l2 :
  map N8n.name l1 = map N8n.name l2 ->
  forall r, connect conns l1 r = connect conns l2 r.
Proof.
  intros H. induction conns as [|c conns IH]; intros r; [reflexivity|].
  cbn [connect]. rewrite !(hasNode_names _ _ _ H).
  destruct (negb _); [reflexivity|]. destruct (negb _); [reflexivity|].
  apply IH.
Qed.

Lemma related_generate program g1 g2 :
  Rel g1 g2 ->
  related sameWorkflow (generate h1 program g1) (generate h2 program g2).
Proof.
  intros Hg. unfold generate.
  eapply related_bind with (eqA := eq);
    [now apply related_processParameters|].
  intros _ _ g1a g2a _ Ha.
  eapply related_bind with (eqA := eq);
    [now apply related_processVariables|].
  intros _ _ g1b g2b _ Hb.
  eapply related_bind;
    [apply related_mapM; [apply related_generateNode|exact Hb]|].
  intros l1 l2 g1c g2c Hl Hc.
  unfold generateConnections.
  rewrite (connect_names _ _ _ (sameNode_names Hl)).
  eapply related_bind with (eqA := eq); [now apply related_lift|].
  intros cs ? g1d g2d <- Hd.
  eapply related_bind with (eqA := fun _ _ => True).
  - unfold instanceIdOf.
    assert (Hr : related (fun _ _ : string => True)
                   (random (generateInstanceId h1) g1d)
                   (random (generateInstanceId h2) g2d)).
    { apply related_random; [exact Hd|exact I]. }
    destruct Hd as (A1 & A2 & A3 & A4 & A5 & A6 & A7 & A8).
    rewrite A1.
    destruct (optInstanceId g2d) as [s|] eqn:E; [|exact Hr].
    destruct (Str.isEmpty s); [exact Hr|].
    split; [exact I|]. unfold Rel. repeat split; congruence.
  - intros i1 i2 g1e g2e _ He. apply related_ret; [|exact He].
    split; [|exact Hl].
    unfold scrubWorkflow. cbn. now rewrite (sameNode_scrub Hl).
Qed.

End TwoRuns.

(** *** The validator on two graphs *)

Lemma validateNode_same n1 n2 :
  sameNode n1 n2 -> Validation.validateNode n1 = Validation.validateNode n2.
Proof.
  intros [H E]. unfold Validation.validateNode. rewrite E.
  change (N8n.name n1) with (N8n.name (scrubNode n1)).
  change (N8n.nodeType n1) with (N8n.nodeType (scrubNode n1)).
  change (N8n.typeVersion n1) with (N8n.typeVersion (scrubNode n1)).
  rewrite H. reflexivity.
Qed.

Lemma checkGraphNodes_same l1 l2 :
  Forall2 sameNode l1 l2 ->
  forall seen,
    Validation.checkGraphNodes l1 seen = Validation.checkGraphNodes l2 seen.
Proof.
  induction 1 as [|n1 n2 l1 l2 H _ IH]; intros seen; [reflexivity|].
  cbn [Validation.checkGraphNodes].
  rewrite (validateNode_same H).
  replace (N8n.name n1) with (N8n.name n2)
    by (destruct H as [H _]; exact (eq_sym (f_equal N8n.name H))).
  now rewrite IH.
Qed.

Lemma validateN8nWorkflow_same w1 w2 :
  sameWorkflow w1 w2 ->
  Validation.validateN8nWorkflow w1 = Validation.validateN8nWorkflow w2.
Proof.
  intros [H Hl]. unfold Validation.validateN8nWorkflow.
  rewrite (sameNode_names Hl), (checkGraphNodes_same Hl).
  replace (N8n.connections w1) with (N8n.connections w2)
    by exact (eq_sym (f_equal N8n.connections H)).
  destruct Hl; reflexivity.
Qed.

(** *** Two compilations *)

(** The result of a compilation without the fresh identifiers of its
    graph. *)
Definition scrubResult (r : Compiler.CompilerResult) : Compiler.CompilerResult :=
  {| Compiler.success := Compiler.success r;
     Compiler.workflow := option_map scrubWorkflow (Compiler.workflow r);
     Compiler.ast := Compiler.ast r;
     Compiler.errors := Compiler.errors r;
     Compiler.warnings := Compiler.warnings r |}.

Lemma generateAndCheck_twice (w : World) (r1 r2 : Random) options program ws :
  scrubResult
    (Compiler.generateAndCheck {| randomSource := r1; world := w |}
       options program ws)
  = scrubResult
      (Compiler.generateAndCheck {| randomSource := r2; world := w |}
         options program ws).
Proof.
  unfold Compiler.generateAndCheck.
  pose proof (related_generate w r1 r2 program
                (Rel_refl (create (Compiler.optionsForGenerator options))))
    as H.
  unfold related in H.
  destruct (generate {| randomSource := r1; world := w |} _ _)
    as [[w1 g1]|e1],
    (generate {| randomSource := r2; world := w |} _ _) as [[w2 g2]|e2];
    try contradiction; [|now subst].
  destruct H as [[Hs Hl] _].
  rewrite (validateN8nWorkflow_same (conj Hs Hl)).
  destruct (orElse (Compiler.validate options) true).
  - destruct (Validation.validateN8nWorkflow w2) as [es|e]; [|reflexivity].
    destruct (filter Validation.isError es);
      unfold scrubResult; cbn; now rewrite Hs.
  - unfold scrubResult; cbn; now rewrite Hs.
Qed.

(** A conditional between a trigger and a request. *)
Definition branching : Dsl.Program :=
  Sample.program [] []
    [Sample.node "start" "trigger.manual" [];
     Sample.node "check" "flow.if"
       [("condition", Sample.str "${x} >= 10")];
     Sample.node "fetch" "http.request"
       [("url", Sample.str "https://example.com")]]
    [Sample.connection "start" "main" "check" "main";
     Sample.connection "check" "true" "fetch" "main"].

(** A request stamped with the time of the compilation. *)
Definition stamped : Dsl.Program :=
  Sample.program [] []
    [Sample.node "fetch" "http.request"
       [("url", Dsl.TemplateExpression "https://example.com/?at=${now()}")]]
    [].

(** The same clock, one second later. *)
Definition worldLater : World :=
  {| nowISO := fun k => nowISO Sample.worldA (S k);
     environ := environ Sample.worldA;
     dateParses := dateParses Sample.worldA |}.

(** The clock is read by [now()]: on one random source and two clocks the
    parameters of [stamped] differ. *)
Remark clock_is_read :
  option_map (fun wf => map N8n.parameters (N8n.nodes wf))
    (Compiler.workflow
       (Compiler.compile Sample.hostA Sample.compilerDefaults stamped))
  <> option_map (fun wf => map N8n.parameters (N8n.nodes wf))
       (Compiler.workflow
          (Compiler.compile
             {| randomSource := Sample.randomA; world := worldLater |}
             Sample.compilerDefaults stamped)).
Proof. vm_compute. discriminate. Qed.

(** C3, as stated, fails: the two compilations of [branching] on two
    random sources both succeed, with the same positions, types and
    versions, but the parameters of the conditional differ, in the
    identifier that its strategy draws for the condition. *)
Lemma compile_twice_counterexample :
  exists w1 w2,
    Compiler.compile Sample.hostA Sample.compilerDefaults branching
    = {| Compiler.success := true; Compiler.workflow := Some w1;
         Compiler.ast := Some branching; Compiler.errors := [];
         Compiler.warnings := [] |}
    /\ Compiler.compile Sample.hostB Sample.compilerDefaults branching
       = {| Compiler.success := true; Compiler.workflow := Some w2;
            Compiler.ast := Some branching; Compiler.errors := [];
            Compiler.warnings := [] |}
    /\ map N8n.position (N8n.nodes w1) = map N8n.position (N8n.nodes w2)
    /\ map N8n.nodeType (N8n.nodes w1) = map N8n.nodeType (N8n.nodes w2)
    /\ map N8n.typeVersion (N8n.nodes w1)
       = map N8n.typeVersion (N8n.nodes w2)
    /\ map N8n.parameters (N8n.nodes w1)
       <> map N8n.parameters (N8n.nodes w2).
Proof.
  eexists. eexists.
  split; [vm_compute; reflexivity|].
  split; [vm_compute; reflexivity|].
  repeat split; try reflexivity.
  vm_compute. discriminate.
Qed.

(** C3, amended: on one clock and one environment, the two compilations
    of a program with the same options, each on its own random source,
    agree on success, errors, warnings and syntax tree, and their graphs
    are equal once the fresh identifiers are blanked: the instance id,
    the node ids, and the ids that the if and set strategies draw inside
    the parameters. Positions, types, versions, connections and all other
    parameters are equal.  This is so for a program in which no connection
    leaves a node of the name [__proto__]: its compilation leaves
    [Object.prototype] as it found it, whatever nodes are generated and
    however the run ends, so that the second run starts as the first
    did. *)
Theorem compile_twice_up_to_ids (w : World) (r1 r2 : Random)
  (options : Compiler.CompilerOptions) (program : Dsl.Program) :
  ConnectionFacts.plain (Dsl.connections (Dsl.workflow program)) ->
  scrubResult
    (Compiler.compile {| randomSource := r1; world := w |} options program)
  = scrubResult
      (Compiler.compile {| randomSource := r2; world := w |} options program)
  /\ forall nodes,
       reachesPrototype (Dsl.connections (Dsl.workflow program)) nodes fresh
       = false.
Proof.
  intros N. split.
  - unfold Compiler.compile.
    destruct (orElse (Compiler.validate options) true);
      [|apply generateAndCheck_twice].
    destruct (filter Validation.isError (Validation.validateProgram program));
      [|reflexivity].
    destruct (orElse (Compiler.strict options) false);
      [|apply generateAndCheck_twice].
    destruct (filter Compiler.isWarning (Validation.validateProgram program));
      [apply generateAndCheck_twice|reflexivity].
  - intros nodes. now apply ConnectionFacts.reachesPrototype_plain.
Qed.

(** The instance of C3 on the conditional, compiled on two random
    sources. *)
Lemma compile_twice_up_to_ids_witness :
  scrubResult (Compiler.compile Sample.hostA Sample.compilerDefaults branching)
  = scrubResult
      (Compiler.compile Sample.hostB Sample.compilerDefaults branching).
Proof.
  refine (proj1 (@compile_twice_up_to_ids Sample.worldA Sample.randomA
                   Sample.randomB Sample.compilerDefaults branching _)).
  repeat constructor; discriminate.
Defined.

(** A connection that leaves a node of the name [__proto__] puts the key
    [main] on [Object.prototype].  A loop that finds the key there gives a
    source an empty entry, where the loop of a process that has not run
    such a connection records the target. *)
Remark prototype_key_outlives_run :
  reachesPrototype [Sample.connection "__proto__" "main" "b" "main"]
    [ConnectionFacts.bare "__proto__"; ConnectionFacts.bare "b"] fresh
  = true
  /\ connect [Sample.connection "a" "main" "b" "main"]
       [ConnectionFacts.bare "a"; ConnectionFacts.bare "b"] fresh
     = Ok {| own := [("a"%string,
                      [("main"%string,
                        [Some [{| N8n.node := "b"; N8n.type := "main";
                                  N8n.index := 0 |}]])])];
             onPrototype := false |}
  /\ connect [Sample.connection "a" "main" "b" "main"]
       [ConnectionFacts.bare "a"; ConnectionFacts.bare "b"]
       {| own := []; onPrototype := true |}
     = Ok {| own := [("a"%string, [])]; onPrototype := true |}.
Proof. repeat split. Qed.

End RunFacts.

(** ** The outcome of a compilation *)

Module OutcomeFacts.

Import Js Eff Generator.
Local Open Scope list_scope.

Lemma generateAndCheck_outcome h options program ws :
  let r := Compiler.generateAndCheck h options program ws in
  (Compiler.success r = true <-> Compiler.errors r = [])
  /\ (Compiler.success r = true ->
      exists wf, Compiler.workflow r = Some wf
                 /\ Compiler.ast r = Some program).
Proof.
  unfold Compiler.generateAndCheck.
  destruct (generate h program _) as [[wf g]|e]; cbn.
  - destruct (orElse (Compiler.validate options) true); cbn.
    + destruct (Validation.validateN8nWorkflow wf) as [es|e]; cbn.
      * destruct (filter Validation.isError es); cbn.
        -- split; [tauto|eauto].
        -- split; [split; discriminate|discriminate].
      * split; [split; discriminate|discriminate].
    + split; [tauto|eauto].
  - split; [split; discriminate|discriminate].
Qed.

(** [compile] reports success exactly when it reports no error, and a
    successful result carries the graph and the syntax tree. *)
Theorem success_iff_no_errors (h : Host) (options : Compiler.CompilerOptions)
  (program : Dsl.Program) :
  let r := Compiler.compile h options program in
  (Compiler.success r = true <-> Compiler.errors r = [])
  /\ (Compiler.success r = true ->
      exists wf, Compiler.workflow r = Some wf
                 /\ Compiler.ast r = Some program).
Proof.
  unfold Compiler.compile.
  destruct (orElse (Compiler.validate options) true);
    [|apply generateAndCheck_outcome].
  destruct (filter Validation.isError (Validation.validateProgram program));
    [|cbn; split; [split; discriminate|discriminate]].
  destruct (orElse (Compiler.strict options) false);
    [|apply generateAndCheck_outcome].
  destruct (filter Compiler.isWarning (Validation.validateProgram program));
    [apply generateAndCheck_outcome|].
  cbn. split; [split; discriminate|discriminate].
Qed.

End OutcomeFacts.

(** ** The generated graph *)

Module GraphFacts.

Import Js Eff Generator MapFacts Keeps.
Local Open Scope list_scope.

(** The entries of a slot all name a node of [names]. *)
Definition slotResolves (names : list string)
  (slot : option (list N8n.NodeConnection)) : Prop :=
  match slot with
  | Some l => Forall (fun e => In (N8n.node e) names) l
  | None => True
  end.

(** A connections map whose sources and targets are all in [names]. *)
Definition resolves (names : list string) (r : N8n.WorkflowConnections)
  : Prop :=
  Forall (fun kv : string * N8n.NodeConnections =>
            In (fst kv) names
            /\ Forall (fun ts : string * N8n.Slots =>
                         Forall (slotResolves names) (snd ts)) (snd kv)) r.

Lemma record_resolves names c r :
  In (Dsl.sourceNode c) names -> In (Dsl.targetNode c) names ->
  resolves names r -> resolves names (ConnectionFacts.record c r).
Proof.
  intros Hs Ht Hr. unfold ConnectionFacts.record, resolves.
  set (byType := orElse (mapGet (Dsl.sourceNode c) r) []).
  set (slots := orElse (mapGet "main"%string byType) []).
  assert (HbyType : Forall (fun ts : string * N8n.Slots =>
                              Forall (slotResolves names) (snd ts)) byType).
  { subst byType. destruct (mapGet (Dsl.sourceNode c) r) as [b|] eqn:E; cbn.
    - exact (proj2 (@find_Forall _ _ _ _ _ Hr E)).
    - constructor. }
  assert (Hslots : Forall (slotResolves names) slots).
  { subst slots. destruct (mapGet "main"%string byType) as [s|] eqn:E; cbn.
    - exact (@find_Forall _ _ _ _ _ HbyType E).
    - constructor. }
  apply mapSet_Forall; [exact Hr|]. cbn. split; [exact Hs|].
  apply mapSet_Forall; [exact HbyType|]. cbn.
  apply slotSet_Forall; [exact I|exact Hslots|].
  cbn. apply Forall_app. split.
  - destruct (slotAt _ slots) as [l|] eqn:E; cbn; [|constructor].
    exact (@slotAt_Forall (slotResolves names) _ _ _ Hslots E).
  - constructor; [exact Ht|constructor].
Qed.

Lemma addConnection_resolves names c w :
  In (Dsl.sourceNode c) names -> In (Dsl.targetNode c) names ->
  resolves names (own w) -> resolves names (own (addConnection c w)).
Proof.
  intros Hs Ht Hr.
  destruct (ConnectionFacts.addConnection_cases c w) as [-> | [-> | ->]].
  - exact Hr.
  - apply mapSet_Forall; [exact Hr|]. cbn. split; [exact Hs|].
    destruct (mapGet (Dsl.sourceNode c) (own w)) as [b|] eqn:E; cbn.
    + exact (proj2 (@find_Forall _ _ _ _ _ Hr E)).
    + constructor.
  - now apply record_resolves.
Qed.

Lemma connect_resolves conns nodes : forall w w',
  resolves (map N8n.name nodes) (own w) ->
  connect conns nodes w = Ok w' ->
  resolves (map N8n.name nodes) (own w').
Proof.
  induction conns as [|c conns IH]; cbn [connect]; intros w w' Hr.
  - now intros [= <-].
  - destruct (hasNode (Dsl.sourceNode c) nodes) eqn:Es; [|discriminate].
    destruct (hasNode (Dsl.targetNode c) nodes) eqn:Et; [|discriminate].
    cbn. apply IH. apply addConnection_resolves; [| |exact Hr];
      now apply DanglingFacts.hasNode_In.
Qed.

Lemma generateConnections_resolves conns nodes r :
  generateConnections conns nodes = Ok r ->
  resolves (map N8n.name nodes) r.
Proof.
  intros H. apply ConnectionFacts.generateConnections_Ok in H.
  destruct H as (w & H & <-).
  eapply connect_resolves; [|exact H]. constructor.
Qed.

(** The steps of [generate], taken apart. *)
Lemma generate_Ok h program g wf g' :
  generate h program g = Ok (wf, g') ->
  exists g1 g2 g3,
    processParameters h (Dsl.parameters (Dsl.workflow program)) g = Ok (tt, g1)
    /\ processVariables h (Dsl.variables (Dsl.workflow program)) g1
       = Ok (tt, g2)
    /\ mapM (generateNode h) (Dsl.nodes (Dsl.workflow program)) g2
       = Ok (N8n.nodes wf, g3)
    /\ generateConnections (Dsl.connections (Dsl.workflow program))
         (N8n.nodes wf) = Ok (N8n.connections wf)
    /\ instanceIdOf h g3 = Ok (N8n.instanceId wf, g')
    /\ N8n.pinData wf = []
    /\ N8n.workflowName wf = Dsl.workflowName (Dsl.workflow program)
    /\ N8n.active wf = false
    /\ N8n.executionOrder wf = "v1"%string.
Proof.
  intros H. unfold generate in H.
  apply bind_Ok in H. destruct H as ([] & g1 & H1 & H).
  apply bind_Ok in H. destruct H as ([] & g2 & H2 & H).
  apply bind_Ok in H. destruct H as (nodes & g3 & H3 & H).
  apply bind_Ok in H. destruct H as (conns & g4 & H4 & H).
  apply bind_Ok in H. destruct H as (i & g5 & H5 & H).
  injection H as <- <-. cbn.
  unfold lift in H4.
  destruct (generateConnections _ nodes) as [cs|e] eqn:Hc; [|discriminate].
  injection H4 as <- <-.
  exists g1, g2, g3. now repeat split.
Qed.

(** Every connection of a generated graph starts and ends at a node of
    the graph. *)
Theorem generated_connections_resolve (h : Host) (program : Dsl.Program)
  (g g' : Gen) (wf : N8n.N8nWorkflow) :
  generate h program g = Ok (wf, g') ->
  forall source byType,
    In (source, byType) (N8n.connections wf) ->
    In source (map N8n.name (N8n.nodes wf))
    /\ forall t slots l e,
         In (t, slots) byType -> In (Some l) slots -> In e l ->
         In (N8n.node e) (map N8n.name (N8n.nodes wf)).
Proof.
  intros H source byType Hin.
  destruct (generate_Ok _ _ _ H) as (g1 & g2 & g3 & _ & _ & _ & Hc & _).
  apply ConnectionFacts.generateConnections_Ok in Hc.
  destruct Hc as (w & Hc & Hw).
  apply connect_resolves in Hc; [|constructor]. rewrite Hw in Hc.
  unfold resolves in Hc. rewrite Forall_forall in Hc.
  destruct (Hc _ Hin) as [Hs Ht]. cbn in Hs, Ht.
  split; [exact Hs|].
  intros t slots l e H1 H2 H3.
  rewrite Forall_forall in Ht. specialize (Ht _ H1). cbn in Ht.
  rewrite Forall_forall in Ht. specialize (Ht _ H2). cbn in Ht.
  rewrite Forall_forall in Ht. now apply Ht.
Qed.

Lemma generated_connections_resolve_witness :
  exists wf g',
    generate Sample.hostA Sample.threeNodes (create Sample.defaults)
    = Ok (wf, g')
    /\ forall source byType,
         In (source, byType) (N8n.connections wf) ->
         In source (map N8n.name (N8n.nodes wf))
         /\ forall t slots l e,
              In (t, slots) byType -> In (Some l) slots -> In e l ->
              In (N8n.node e) (map N8n.name (N8n.nodes wf)).
Proof.
  eexists. eexists. split.
  - vm_compute. reflexivity.
  - eapply (@generated_connections_resolve Sample.hostA Sample.threeNodes
              (create Sample.defaults)).
    vm_compute. reflexivity.
Defined.

(** What [generateNode] returns for a node declaration. *)
Definition follows (entry : Dsl.NodeEntry) (n : N8n.N8nNode) : Prop :=
  exists d,
    entry = Dsl.Node d
    /\ N8n.name n = Dsl.nodeName d
    /\ mapNodeType (Dsl.nodeType d) = Ok (N8n.nodeType n)
    /\ N8n.typeVersion n = typeVersionOf (N8n.nodeType n).

Lemma generateNode_follows h entry g n g' :
  generateNode h entry g = Ok (n, g') -> follows entry n.
Proof.
  destruct entry as [d|m]; cbn [generateNode]; [|discriminate].
  intros H.
  apply bind_Ok in H. destruct H as (t & g0 & H0 & H).
  apply bind_Ok in H. destruct H as (p & g1 & _ & H).
  apply bind_Ok in H. destruct H as (ps & g2 & _ & H).
  apply bind_Ok in H. destruct H as (i & g3 & _ & H).
  injection H as <- <-. exists d. cbn.
  unfold lift in H0. destruct (mapNodeType _) as [t'|]; [|discriminate].
  injection H0 as <- <-. now repeat split.
Qed.

Lemma mapM_generateNode_follows h entries : forall g nodes g',
  mapM (generateNode h) entries g = Ok (nodes, g') ->
  Forall2 follows entries nodes.
Proof.
  induction entries as [|e entries IH]; cbn [mapM]; intros g nodes g' H.
  - injection H as <- <-. constructor.
  - apply bind_Ok in H. destruct H as (n & g1 & H1 & H).
    apply bind_Ok in H. destruct H as (rest & g2 & H2 & H).
    injection H as <- <-.
    constructor; [eapply generateNode_follows|eapply IH]; eassumption.
Qed.

(** A generated graph has one node per declared node, in the order of
    the declarations, with the declared name, the type the table gives for
    the declared type and the version the table gives for that type; it
    carries the name of the workflow, is inactive, pins no data and asks
    for the execution order [v1]. *)
Theorem generated_nodes_follow_declarations (h : Host)
  (program : Dsl.Program) (g g' : Gen) (wf : N8n.N8nWorkflow) :
  generate h program g = Ok (wf, g') ->
  Forall2 follows (Dsl.nodes (Dsl.workflow program)) (N8n.nodes wf)
  /\ N8n.workflowName wf = Dsl.workflowName (Dsl.workflow program)
  /\ N8n.active wf = false
  /\ N8n.pinData wf = []
  /\ N8n.executionOrder wf = "v1"%string.
Proof.
  intros H.
  destruct (generate_Ok _ _ _ H)
    as (g1 & g2 & g3 & _ & _ & Hn & _ & _ & Hp & Hw & Ha & He).
  split; [eapply mapM_generateNode_follows; eassumption|].
  now repeat split.
Qed.

Lemma generated_nodes_follow_declarations_witness :
  exists wf g',
    generate Sample.hostA Sample.threeNodes (create Sample.defaults)
    = Ok (wf, g')
    /\ (Forall2 follows (Dsl.nodes (Dsl.workflow Sample.threeNodes))
          (N8n.nodes wf)
        /\ N8n.workflowName wf
           = Dsl.workflowName (Dsl.workflow Sample.threeNodes)
        /\ N8n.active wf = false
        /\ N8n.pinData wf = []
        /\ N8n.executionOrder wf = "v1"%string).
Proof.
  eexists. eexists. split.
  - vm_compute. reflexivity.
  - eapply (@generated_nodes_follow_declarations Sample.hostA
              Sample.threeNodes (create Sample.defaults)).
    vm_compute. reflexivity.
Defined.

End GraphFacts.

(** ** Identifiers *)

Module IdFacts.

Import Js Eff Generator Keeps.
Local Open Scope list_scope.

(** A lower-case hexadecimal digit. *)
Definition isHex (c : ascii) : bool :=
  existsb (Ascii.eqb c) (list_ascii_of_string "0123456789abcdef").

Fixpoint allHex (s : string) : bool :=
  match s with
  | EmptyString => true
  | String c s' => isHex c && allHex s'
  end.

Lemma hexDigit_hex (v : Z) : isHex (N8n.hexDigit v) = true.
Proof.
  unfold N8n.hexDigit.
  assert (H : (Z.to_nat (v mod 16) < 16)%nat).
  { pose proof (Z.mod_pos_bound v 16). lia. }
  revert H. generalize (Z.to_nat (v mod 16)). intros n H.
  do 16 (destruct n as [|n]; [reflexivity|]). lia.
Qed.

Lemma hexDigit_variant (r : Z) :
  In (N8n.hexDigit (Z.lor (Z.land r 3) 8))
     ["8"; "9"; "a"; "b"]%char.
Proof.
  change 3 with (Z.ones 2). rewrite Z.land_ones by lia.
  pose proof (Z.mod_pos_bound r (2 ^ 2)) as H.
  assert (C : r mod 2 ^ 2 = 0 \/ r mod 2 ^ 2 = 1
              \/ r mod 2 ^ 2 = 2 \/ r mod 2 ^ 2 = 3) by lia.
  destruct C as [-> | [-> | [-> | ->]]]; cbn; tauto.
Qed.

(** What the position [i] of a node id holds. *)
Definition idChar (i : nat) (c : ascii) : Prop :=
  if ((i =? 8) || (i =? 13) || (i =? 18) || (i =? 23))%nat then c = "-"%char
  else if (i =? 14)%nat then c = "4"%char
  else if (i =? 19)%nat then In c ["8"; "9"; "a"; "b"]%char
  else isHex c = true.

(** A node id has the shape of a version 4 UUID, and takes 31 draws:
    36 characters, hyphens at 8, 13, 18 and 23, a 4 at 14, one of 8, 9, a,
    b at 19 and lower-case hexadecimal digits elsewhere. *)
Theorem node_id_shape (rs : Random) (k : nat) :
  exists s,
    N8n.generateNodeId rs k = Ok (s, (k + 31)%nat)
    /\ String.length s = 36%nat
    /\ forall i c, String.get i s = Some c -> idChar i c.
Proof.
  unfold N8n.generateNodeId. cbn.
  eexists. split; [do 2 f_equal; lia|].
  split; [reflexivity|].
  intros i c.
  do 36 (destruct i as [|i];
         [cbn; intros [= <-];
          first [reflexivity | apply hexDigit_hex | apply hexDigit_variant]|]).
  cbn. discriminate.
Qed.

Lemma hexDigits_shape h n : forall k,
  String.length (hexDigits h n k) = n /\ allHex (hexDigits h n k) = true.
Proof.
  induction n as [|n IH]; intros k; cbn [hexDigits String.length allHex].
  - now split.
  - destruct (IH (S k)) as [L A]. rewrite L, A, hexDigit_hex. now split.
Qed.

(** The instance id is kept while the generator runs. *)
Definition sameOption (g g' : Gen) : Prop := optInstanceId g' = optInstanceId g.

Lemma sameOption_trans a b c :
  sameOption a b -> sameOption b c -> sameOption a c.
Proof. unfold sameOption. congruence. Qed.

Lemma keepsOption_evaluate h e : keeps sameOption (evaluate h e).
Proof.
  intros g a g'. unfold evaluate.
  destruct (evaluateExpression _ _ _ _ _) as [[v k]|]; [|discriminate].
  now intros [= _ <-].
Qed.

Lemma keepsOption_random {A} (t : M nat A) : keeps sameOption (random t).
Proof.
  intros g a g'. unfold random.
  destruct (t (draws g)) as [[a' k]|]; [|discriminate].
  now intros [= _ <-].
Qed.

Lemma keepsOption_processParameters h ps :
  keeps sameOption (processParameters h ps).
Proof.
  induction ps as [|p ps IH]; cbn [processParameters].
  - now apply keeps_ret.
  - apply keeps_bind; [apply sameOption_trans| |].
    + destruct (Dsl.defaultValue p);
        [apply keepsOption_evaluate|now apply keeps_ret].
    + intros v. apply keeps_bind; [apply sameOption_trans| |].
      * now intros g a g' [= _ <-].
      * intros _. exact IH.
Qed.

Lemma keepsOption_processVariables h vs :
  keeps sameOption (processVariables h vs).
Proof.
  induction vs as [|v vs IH]; cbn [processVariables].
  - now apply keeps_ret.
  - apply keeps_bind; [apply sameOption_trans|apply keepsOption_evaluate|].
    intros x. apply keeps_bind; [apply sameOption_trans| |].
    + now intros g a g' [= _ <-].
    + intros _. exact IH.
Qed.

Lemma keepsOption_evaluateAll h ps : forall raw,
  keeps sameOption (evaluateAll h ps raw).
Proof.
  induction ps as [|[k e] ps IH]; cbn [evaluateAll]; intros raw.
  - now apply keeps_ret.
  - apply keeps_bind; [apply sameOption_trans|apply keepsOption_evaluate|].
    intros v. apply IH.
Qed.

Lemma keepsOption_generateNode h entry : keeps sameOption (generateNode h entry).
Proof.
  destruct entry as [d|m]; cbn [generateNode]; [|apply keeps_throw].
  apply keeps_bind; [apply sameOption_trans|now apply keeps_lift|].
  intros t. apply keeps_bind; [apply sameOption_trans| |].
  { intros g p g'. unfold getNodePosition.
    destruct (mapGet _ _); [now intros [= _ <-]|].
    destruct (optAutoLayout g); now intros [= _ <-]. }
  intros p. apply keeps_bind; [apply sameOption_trans| |].
  { unfold generateNodeParameters.
    apply keeps_bind; [apply sameOption_trans|apply keepsOption_evaluateAll|].
    intros raw. destruct (Templates.getNodeTemplate _ t);
      [apply keepsOption_random|now apply keeps_ret]. }
  intros ps. apply keeps_bind; [apply sameOption_trans|apply keepsOption_random|].
  intros i. now apply keeps_ret.
Qed.

(** What [instanceIdOf] returns: the given id, or a drawn one. *)
Definition givenOrDrawn (given : option string) (s : string) : Prop :=
  match given with
  | Some i => if Str.isEmpty i
              then String.length s = 64%nat /\ allHex s = true
              else s = i
  | None => String.length s = 64%nat /\ allHex s = true
  end.

(** The instance id of a generated graph is the [instanceId] option when
    one is given and is not the empty string; otherwise it is 64 drawn
    lower-case hexadecimal digits. *)
Theorem instance_id_given_or_drawn (h : Host) (options : GeneratorOptions)
  (program : Dsl.Program) (wf : N8n.N8nWorkflow) (g' : Gen) :
  generate h program (create options) = Ok (wf, g') ->
  givenOrDrawn (instanceId options) (N8n.instanceId wf).
Proof.
  intros H. unfold generate in H.
  apply bind_Ok in H. destruct H as (u1 & g1 & H1 & H).
  apply bind_Ok in H. destruct H as (u2 & g2 & H2 & H).
  apply bind_Ok in H. destruct H as (nodes & g3 & H3 & H).
  apply bind_Ok in H. destruct H as (conns & g4 & H4 & H).
  apply bind_Ok in H. destruct H as (i & g5 & H5 & H).
  injection H as <- <-. cbn [N8n.instanceId].
  apply keepsOption_processParameters in H1.
  apply keepsOption_processVariables in H2.
  apply (@keeps_mapM sameOption (fun g => eq_refl) sameOption_trans
           _ _ (generateNode h) _ (keepsOption_generateNode h)) in H3.
  unfold lift in H4. destruct (generateConnections _ nodes); [|discriminate].
  injection H4 as _ <-.
  assert (E : optInstanceId g3 = instanceId options).
  { unfold sameOption in *. cbn in H1. congruence. }
  unfold instanceIdOf in H5. rewrite E in H5. unfold givenOrDrawn.
  assert (D : forall s g6,
            random (generateInstanceId h) g3 = Ok (s, g6) ->
            String.length s = 64%nat /\ allHex s = true).
  { intros s g6 [= <- _]. exact (hexDigits_shape h 64 (draws g3)). }
  destruct (instanceId options) as [given|]; [|now apply (D _ _ H5)].
  destruct (Str.isEmpty given); [now apply (D _ _ H5)|].
  now injection H5 as <- _.
Qed.

Definition named : GeneratorOptions :=
  {| instanceId := Some "abc"; autoLayout := None;
     startPosition := None; spacing := None |}.

Lemma instance_id_given_or_drawn_witness :
  exists wf g',
    generate Sample.hostA Sample.threeNodes (create named) = Ok (wf, g')
    /\ givenOrDrawn (Some "abc"%string) (N8n.instanceId wf).
Proof.
  eexists. eexists. split.
  - vm_compute. reflexivity.
  - eapply (@instance_id_given_or_drawn Sample.hostA named Sample.threeNodes).
    vm_compute. reflexivity.
Defined.

End IdFacts.

(** ** Node types *)

Module TypeFacts.

Import Js Eff Generator Keeps ModuleFacts.
Local Open Scope list_scope.

(** The names every JavaScript object inherits.  A table indexed with one
    of them answers with the inherited member, which the tables of the
    embedding leave out. *)
Definition inheritedKeys : list string :=
  ["constructor"; "toString"; "toLocaleString"; "valueOf"; "hasOwnProperty";
   "isPrototypeOf"; "propertyIsEnumerable"; "__proto__"; "__defineGetter__";
   "__defineSetter__"; "__lookupGetter__"; "__lookupSetter__"]%string.

Definition unknownType (t : string) : Exn :=
  Error ("Unknown node type: " ++ t)%string.

Lemma generateNode_unknown h d g :
  Templates.find (Dsl.nodeType d) Dsl.DSL_TO_N8N_NODE_TYPES = None ->
  generateNode h (Dsl.Node d) g = Throw (unknownType (Dsl.nodeType d)).
Proof.
  intros H. cbn [generateNode]. apply bind_Throw.
  unfold lift, mapNodeType. now rewrite H.
Qed.

(** A node whose declared type is not a key of the type table makes
    generation fail: [generate] returns no graph in any state, the error
    is [Unknown node type] with the declared type whenever the entries
    declared before the node were generated, and [compile] reports
    failure without a workflow, whatever the options. *)
Theorem unknown_node_type_fails (h : Host) (program : Dsl.Program)
  (pre post : list Dsl.NodeEntry) (d : Dsl.NodeDeclaration) :
  Dsl.nodes (Dsl.workflow program) = pre ++ Dsl.Node d :: post ->
  Templates.find (Dsl.nodeType d) Dsl.DSL_TO_N8N_NODE_TYPES = None ->
  ~ In (Dsl.nodeType d) inheritedKeys ->
  (forall g, exists e, generate h program g = Throw e)
  /\ (forall g nodes g1,
        upTo h program pre g = Ok (nodes, g1) ->
        generate h program g = Throw (unknownType (Dsl.nodeType d)))
  /\ (forall options,
        Compiler.success (Compiler.compile h options program) = false
        /\ Compiler.workflow (Compiler.compile h options program) = None).
Proof.
  intros Hn Ht _.
  assert (Hg : forall g, exists e, generate h program g = Throw e).
  { intros g. unfold generate. rewrite Hn.
    unfold bind at 1.
    destruct (processParameters _ _ g) as [[u g1]|e]; [|now exists e].
    unfold bind at 1.
    destruct (processVariables _ _ g1) as [[u' g2]|e]; [|now exists e].
    destruct (@mapM_Throw_at _ _ _ (generateNode h) (Dsl.Node d) post
                (fun s => ex_intro _ _ (generateNode_unknown h d s Ht)) pre g2)
      as [e He].
    exists e. now apply bind_Throw. }
  split; [exact Hg|]. split.
  - intros g nodes g1 H. unfold upTo in H.
    apply bind_Ok in H. destruct H as (u1 & g2 & H1 & H).
    apply bind_Ok in H. destruct H as (u2 & g3 & H2 & H).
    unfold generate. rewrite Hn.
    erewrite bind_step by exact H1. erewrite bind_step by exact H2.
    apply bind_Throw.
    eapply (@mapM_prefix_Ok _ _ _ (generateNode h));
      [intros s; now apply generateNode_unknown|eassumption].
  - intros options.
    assert (Hc : forall ws,
              Compiler.success (Compiler.generateAndCheck h options program ws)
              = false
              /\ Compiler.workflow
                   (Compiler.generateAndCheck h options program ws) = None).
    { intros ws. unfold Compiler.generateAndCheck.
      destruct (Hg (create (Compiler.optionsForGenerator options))) as [e He].
      rewrite He. now split. }
    unfold Compiler.compile.
    destruct (orElse (Compiler.validate options) true); [|apply Hc].
    destruct (filter Validation.isError _); [|now split].
    destruct (orElse (Compiler.strict options) false); [|apply Hc].
    destruct (filter Compiler.isWarning _); [apply Hc|now split].
Qed.

(** A workflow whose second node has a type the table does not know. *)
Definition mistyped : Dsl.Program :=
  Sample.program [] []
    [Sample.node "start" "trigger.manual" [];
     Sample.node "fetch" "http.get" []]
    [Sample.connection "start" "main" "fetch" "main"].

Lemma unknown_node_type_fails_witness :
  generate Sample.hostA mistyped (create Sample.defaults)
  = Throw (unknownType "http.get")
  /\ map Validation.message
       (Compiler.errors
          (Compiler.compile Sample.hostA Sample.compilerDefaults mistyped))
     = ["Compilation error: Error: Unknown node type: http.get"]%string
  /\ Compiler.success
       (Compiler.compile Sample.hostA Sample.compilerDefaults mistyped)
     = false.
Proof.
  assert (Hk : ~ In "http.get"%string inheritedKeys).
  { cbn. intuition discriminate. }
  pose proof (@unknown_node_type_fails Sample.hostA mistyped
                [Sample.node "start" "trigger.manual" []] []
                _ eq_refl eq_refl Hk) as (_ & H & Hc).
  split; [|split].
  - eapply H. vm_compute. reflexivity.
  - vm_compute. reflexivity.
  - apply Hc.
Defined.

End TypeFacts.

(** ** Placement *)

Module PlacementFacts.

Import Js Eff Generator Keeps MapFacts.
Local Open Scope list_scope.

(** The layout after [generateNode] with automatic layout off: as
    before. *)
Lemma generateNode_unplaced h entry g node g' :
  generateNode h entry g = Ok (node, g') ->
  optAutoLayout g = false ->
  nodePositions g = [] ->
  N8n.position node = (0, 0)
  /\ optAutoLayout g' = false
  /\ nodePositions g' = [].
Proof.
  destruct entry as [n|m]; cbn [generateNode]; [|discriminate].
  intros H Hauto Hnone.
  apply bind_Ok in H. destruct H as (t & g0 & H0 & H).
  unfold lift in H0. destruct (mapNodeType _); [|discriminate].
  injection H0 as <- <-.
  apply bind_Ok in H. destruct H as (p & g1 & H1 & H).
  unfold getNodePosition in H1. rewrite Hnone, Hauto in H1. cbn in H1.
  injection H1 as <- <-.
  apply bind_Ok in H. destruct H as (ps & g2 & H2 & H).
  apply keepsLayout_generateNodeParameters in H2.
  apply bind_Ok in H. destruct H as (i & g3 & H3 & H).
  apply keepsLayout_random in H3.
  injection H as <- <-. cbn.
  destruct H2 as (A1 & A2 & A3 & A4), H3 as (B1 & B2 & B3 & B4).
  repeat split; congruence.
Qed.

Lemma mapM_generateNode_unplaced h entries : forall g nodes g',
  mapM (generateNode h) entries g = Ok (nodes, g') ->
  optAutoLayout g = false ->
  nodePositions g = [] ->
  Forall (fun n => N8n.position n = (0, 0)) nodes.
Proof.
  induction entries as [|e entries IH]; cbn [mapM]; intros g nodes g' H Ha Hn.
  - injection H as <- <-. constructor.
  - apply bind_Ok in H. destruct H as (node & g1 & H1 & H).
    apply bind_Ok in H. destruct H as (rest & g2 & H2 & H).
    injection H as <- <-.
    destruct (generateNode_unplaced _ _ _ H1 Ha Hn) as (P & A & N).
    constructor; [exact P|]. eapply IH; eassumption.
Qed.

(** With automatic layout off every node is placed at [(0, 0)], whatever
    the start position and the spacing given. *)
Theorem layout_off_places_at_origin (h : Host) (options : GeneratorOptions)
  (program : Dsl.Program) (wf : N8n.N8nWorkflow) (g' : Gen) :
  autoLayout options = Some false ->
  generate h program (create options) = Ok (wf, g') ->
  Forall (fun n => N8n.position n = (0, 0)) (N8n.nodes wf).
Proof.
  intros Hoff H. unfold generate in H.
  apply bind_Ok in H. destruct H as (u1 & g1 & H1 & H).
  apply bind_Ok in H. destruct H as (u2 & g2 & H2 & H).
  apply bind_Ok in H. destruct H as (nodes & g3 & H3 & H).
  apply bind_Ok in H. destruct H as (conns & g4 & H4 & H).
  apply bind_Ok in H. destruct H as (i & g5 & H5 & H).
  injection H as <- <-. cbn [N8n.nodes].
  apply keepsLayout_processParameters in H1.
  apply keepsLayout_processVariables in H2.
  destruct H1 as (A1 & A2 & A3 & A4), H2 as (B1 & B2 & B3 & B4).
  cbn in A1, A3. rewrite Hoff in A3. cbn in A3.
  eapply mapM_generateNode_unplaced; [eassumption| |]; congruence.
Qed.

(** No layout, a start position and a spacing. *)
Definition unplaced : GeneratorOptions :=
  {| instanceId := None; autoLayout := Some false;
     startPosition := Some (40, 60); spacing := Some 300 |}.

Lemma layout_off_places_at_origin_witness :
  exists wf g',
    generate Sample.hostA Sample.threeNodes (create unplaced) = Ok (wf, g')
    /\ Forall (fun n => N8n.position n = (0, 0)) (N8n.nodes wf).
Proof.
  eexists. eexists. split.
  - vm_compute. reflexivity.
  - eapply (@layout_off_places_at_origin Sample.hostA unplaced
              Sample.threeNodes);
      [reflexivity|vm_compute; reflexivity].
Defined.

(** The positions remembered for the nodes generated so far. *)
Definition remembered (g : Gen) (n : N8n.N8nNode) : Prop :=
  mapGet (N8n.name n) (nodePositions g) = Some (N8n.position n).

(** The remembered positions only grow. *)
Definition grows (g g' : Gen) : Prop :=
  forall k p, mapGet k (nodePositions g) = Some p ->
              mapGet k (nodePositions g') = Some p.

Lemma generateNode_remembers h entry g node g' :
  generateNode h entry g = Ok (node, g') ->
  optAutoLayout g = true ->
  remembered g' node /\ grows g g' /\ optAutoLayout g' = true.
Proof.
  destruct entry as [n|m]; cbn [generateNode]; [|discriminate].
  intros H Hauto.
  apply bind_Ok in H. destruct H as (t & g0 & H0 & H).
  unfold lift in H0. destruct (mapNodeType _); [|discriminate].
  injection H0 as <- <-.
  apply bind_Ok in H. destruct H as (p & g1 & H1 & H).
  apply bind_Ok in H. destruct H as (ps & g2 & H2 & H).
  apply keepsLayout_generateNodeParameters in H2.
  apply bind_Ok in H. destruct H as (i & g3 & H3 & H).
  apply keepsLayout_random in H3.
  injection H as <- <-. unfold remembered, grows. cbn.
  destruct H2 as (A1 & A2 & A3 & A4), H3 as (B1 & B2 & B3 & B4).
  rewrite B1, A1, B3, A3.
  unfold getNodePosition in H1.
  destruct (mapGet (Dsl.nodeName n) (nodePositions g)) as [q|] eqn:E.
  - injection H1 as <- <-. repeat split; auto.
  - rewrite Hauto in H1. injection H1 as <- <-. cbn.
    split; [apply find_mapSet_same|]. split; [|exact Hauto].
    intros k q Hk. rewrite find_mapSet_other; [exact Hk|].
    intros ->. congruence.
Qed.

Lemma mapM_generateNode_remembers h entries : forall g nodes g',
  mapM (generateNode h) entries g = Ok (nodes, g') ->
  optAutoLayout g = true ->
  Forall (remembered g') nodes /\ grows g g'.
Proof.
  induction entries as [|e entries IH]; cbn [mapM]; intros g nodes g' H Ha.
  - injection H as <- <-. split; [constructor|now intros k p].
  - apply bind_Ok in H. destruct H as (node & g1 & H1 & H).
    apply bind_Ok in H. destruct H as (rest & g2 & H2 & H).
    injection H as <- <-.
    destruct (generateNode_remembers _ _ _ H1 Ha) as (R & G & A).
    destruct (IH _ _ _ H2 A) as (Rs & G').
    split; [constructor; [now apply G'|exact Rs]|].
    intros k p Hk. now apply G', G.
Qed.

(** Two nodes of a generated graph that bear the same name are placed at
    the same position: the layout keeps one place per name. *)
Theorem same_name_same_position (h : Host) (program : Dsl.Program)
  (g g' : Gen) (wf : N8n.N8nWorkflow) (n1 n2 : N8n.N8nNode) :
  generate h program g = Ok (wf, g') ->
  optAutoLayout g = true ->
  In n1 (N8n.nodes wf) -> In n2 (N8n.nodes wf) ->
  N8n.name n1 = N8n.name n2 ->
  N8n.position n1 = N8n.position n2.
Proof.
  intros H Hauto I1 I2 E. unfold generate in H.
  apply bind_Ok in H. destruct H as (u1 & g1 & H1 & H).
  apply bind_Ok in H. destruct H as (u2 & g2 & H2 & H).
  apply bind_Ok in H. destruct H as (nodes & g3 & H3 & H).
  apply bind_Ok in H. destruct H as (conns & g4 & H4 & H).
  apply bind_Ok in H. destruct H as (i & g5 & H5 & H).
  injection H as <- <-. cbn [N8n.nodes] in I1, I2.
  apply keepsLayout_processParameters in H1.
  apply keepsLayout_processVariables in H2.
  destruct H1 as (A1 & A2 & A3 & A4), H2 as (B1 & B2 & B3 & B4).
  assert (Ha : optAutoLayout g2 = true) by congruence.
  destruct (mapM_generateNode_remembers _ _ _ H3 Ha) as [R _].
  rewrite Forall_forall in R.
  pose proof (R _ I1) as R1. pose proof (R _ I2) as R2.
  unfold remembered in R1, R2. rewrite E in R1. congruence.
Qed.

(** Two nodes named [fetch], after a trigger. *)
Definition twice : Dsl.Program :=
  Sample.program [] []
    [Sample.node "start" "trigger.manual" [];
     Sample.node "fetch" "http.request" [];
     Sample.node "fetch" "integration.email" []] [].

Lemma same_name_same_position_witness :
  exists wf g' n1 n2,
    generate Sample.hostA twice (create Sample.defaults) = Ok (wf, g')
    /\ nth_error (N8n.nodes wf) 1 = Some n1
    /\ nth_error (N8n.nodes wf) 2 = Some n2
    /\ N8n.position n1 = N8n.position n2.
Proof.
  eexists. eexists. eexists. eexists.
  split; [vm_compute; reflexivity|].
  split; [reflexivity|]. split; [reflexivity|].
  eapply (@same_name_same_position Sample.hostA twice
            (create Sample.defaults));
    [vm_compute; reflexivity|reflexivity
     |right; left; reflexivity|right; right; left; reflexivity
     |reflexivity].
Defined.

End PlacementFacts.

(** ** Holes in the output slots *)

Module HoleFacts.

Import Js Eff Generator Keeps MapFacts ConnectionFacts.
Local Open Scope list_scope.

Definition holeError : Exn := TypeError "outputs is not iterable".

Lemma checkSlots_Throw slots names e :
  Validation.checkSlots slots names = Throw e -> e = holeError.
Proof.
  induction slots as [|[l|] slots IH]; cbn [Validation.checkSlots].
  - discriminate.
  - destruct (Validation.checkSlots slots names); [discriminate|].
    intros [= <-]. now apply IH.
  - now intros [= <-].
Qed.

Lemma checkSlots_hole slots names :
  In None slots -> Validation.checkSlots slots names = Throw holeError.
Proof.
  induction slots as [|[l|] slots IH]; cbn [Validation.checkSlots In].
  - tauto.
  - intros [H|H]; [discriminate|]. now rewrite IH.
  - reflexivity.
Qed.

Lemma checkTypes_Throw byType names e :
  Validation.checkTypes byType names = Throw e -> e = holeError.
Proof.
  induction byType as [|[t slots] byType IH]; cbn [Validation.checkTypes].
  - discriminate.
  - destruct (Validation.checkSlots slots names) eqn:E.
    + destruct (Validation.checkTypes byType names); [discriminate|].
      intros [= <-]. now apply IH.
    + intros [= <-]. eapply checkSlots_Throw. eassumption.
Qed.

Lemma checkTypes_hole byType names t slots :
  In (t, slots) byType -> In None slots ->
  Validation.checkTypes byType names = Throw holeError.
Proof.
  intros Hin Hn.
  induction byType as [|[t' slots'] byType IH]; cbn [Validation.checkTypes In] in *.
  - tauto.
  - destruct Hin as [[= -> ->]|Hin].
    + now rewrite checkSlots_hole.
    + destruct (Validation.checkSlots slots' names) eqn:E.
      * now rewrite IH.
      * f_equal. eapply checkSlots_Throw. eassumption.
Qed.

Lemma checkGraphConnections_hole cs names s byType t slots :
  In (s, byType) cs -> In (t, slots) byType -> In None slots ->
  Validation.checkGraphConnections cs names = Throw holeError.
Proof.
  intros Hin Ht Hn.
  induction cs as [|[s' byType'] cs IH];
    cbn [Validation.checkGraphConnections In] in *.
  - tauto.
  - destruct Hin as [[= -> ->]|Hin].
    + now rewrite (@checkTypes_hole _ names _ _ Ht Hn).
    + destruct (Validation.checkTypes byType' names) eqn:E.
      * now rewrite IH.
      * f_equal. eapply checkTypes_Throw. eassumption.
Qed.

Lemma find_In {A} (k : string) (a : A) (m : list (string * A)) :
  mapGet k m = Some a -> In (k, a) m.
Proof.
  unfold mapGet.
  induction m as [|[k' a'] m IH]; cbn [Templates.find]; [discriminate|].
  destruct (String.eqb k k') eqn:E.
  - apply String.eqb_eq in E. subst. intros [= ->]. now left.
  - intros H. right. now apply IH.
Qed.

(** The first output slot of [s] is a hole. *)
Definition holeAt (s : string) (r : N8n.WorkflowConnections) : Prop :=
  exists byType slots,
    mapGet s r = Some byType /\ mapGet "main" byType = Some (None :: slots).

(** [c] leaves its source by the output [false]. *)
Definition leavesByFalse (c : Dsl.ConnectionDeclaration) : Prop :=
  Dsl.sourceOutput c = Some "false"%string.

Lemma leavesByFalse_slot c : leavesByFalse c -> ConnectionFacts.slotIndex c = 1%nat.
Proof.
  unfold leavesByFalse, ConnectionFacts.slotIndex, outputName.
  now intros ->.
Qed.

Lemma outputs_falseOnly s conns :
  (forall c, In c conns -> Dsl.sourceNode c = s -> leavesByFalse c) ->
  ConnectionFacts.outputs s 0 conns = [].
Proof.
  unfold ConnectionFacts.outputs.
  induction conns as [|c conns IH]; cbn [filter map]; intros H;
    [reflexivity|].
  assert (IH' := IH (fun c' Hc' => H c' (or_intror Hc'))).
  destruct (String.eqb (Dsl.sourceNode c) s) eqn:E; cbn [andb];
    [|exact IH'].
  apply String.eqb_eq in E.
  rewrite (leavesByFalse_slot (H c (or_introl eq_refl) E)). exact IH'.
Qed.

(** The slots of a source that is left by [false] only. *)
Lemma grouped_falseOnly s conns :
  ConnectionFacts.inherited s = false ->
  (exists c, In c conns /\ Dsl.sourceNode c = s) ->
  (forall c, In c conns -> Dsl.sourceNode c = s -> leavesByFalse c) ->
  exists o1,
    ConnectionFacts.grouped s (ConnectionFacts.recorded conns)
    = Some [("main"%string, [None; Some o1])].
Proof.
  intros I (c & Hc & <-) Hall. unfold ConnectionFacts.grouped.
  rewrite (ConnectionFacts.leaves_In _ _ (ConnectionFacts.In_recorded _ _ Hc I)).
  unfold ConnectionFacts.slotsOf.
  rewrite !ConnectionFacts.outputs_recorded by exact I.
  rewrite (outputs_falseOnly _ Hall).
  destruct (ConnectionFacts.outputs (Dsl.sourceNode c) 1 conns) as [|e o1] eqn:E.
  - destruct (ConnectionFacts.outputs_some _ _ (ConnectionFacts.leaves_In _ _ Hc))
      as [N|N]; [now rewrite (outputs_falseOnly _ Hall) in N|contradiction].
  - now exists (e :: o1).
Qed.

(** Some connection leaves [s], and every connection that leaves [s]
    leaves it by the output [false]. *)
Definition falseOnly (s : string) (conns : list Dsl.ConnectionDeclaration)
  : Prop :=
  (exists c, In c conns /\ Dsl.sourceNode c = s)
  /\ forall c, In c conns -> Dsl.sourceNode c = s -> leavesByFalse c.

(** A node that is left by its [false] output only breaks the validation
    of the generated graph: the first output slot of the node stays a
    hole, the loop over the outputs throws a TypeError on it, and
    [compile], with validation on, never succeeds.  This is so for a node
    that has a key of its own in the connections map, one whose name is
    not the name of an inherited function, in a run where no connection
    leaves a node of the name [__proto__]. *)
Theorem false_only_source_breaks_validation (h : Host)
  (program : Dsl.Program) (s : string) :
  ConnectionFacts.plain (Dsl.connections (Dsl.workflow program)) ->
  ConnectionFacts.inherited s = false ->
  falseOnly s (Dsl.connections (Dsl.workflow program)) ->
  (forall g wf g',
     generate h program g = Ok (wf, g') ->
     holeAt s (N8n.connections wf)
     /\ Validation.validateN8nWorkflow wf = Throw holeError)
  /\ (forall options,
        orElse (Compiler.validate options) true = true ->
        Compiler.success (Compiler.compile h options program) = false
        /\ Compiler.workflow (Compiler.compile h options program) = None).
Proof.
  intros Hplain Hown [Hex Hall].
  assert (Hgen : forall g wf g',
            generate h program g = Ok (wf, g') ->
            holeAt s (N8n.connections wf)
            /\ Validation.validateN8nWorkflow wf = Throw holeError).
  { intros g wf g' H. unfold generate in H.
    apply bind_Ok in H. destruct H as (u1 & g1 & H1 & H).
    apply bind_Ok in H. destruct H as (u2 & g2 & H2 & H).
    apply bind_Ok in H. destruct H as (nodes & g3 & H3 & H).
    apply bind_Ok in H. destruct H as (conns & g4 & H4 & H).
    apply bind_Ok in H. destruct H as (i & g5 & H5 & H).
    injection H as <- <-. cbn [N8n.connections].
    unfold lift in H4.
    destruct (generateConnections _ nodes) as [r|] eqn:Hc; [|discriminate].
    injection H4 as <- _.
    pose proof (@ConnectionFacts.generateConnections_grouped _ _ _ Hplain Hc s)
      as G.
    destruct (@grouped_falseOnly s _ Hown Hex Hall) as (o1 & Ho).
    rewrite Ho in G.
    assert (Hole : holeAt s r).
    { exists [("main"%string, [None; Some o1])], [Some o1].
      split; [exact G|reflexivity]. }
    split; [exact Hole|].
    destruct Hole as (byType & slots & Hs & Hm).
    unfold Validation.validateN8nWorkflow. cbn [N8n.connections N8n.nodes].
    rewrite (@checkGraphConnections_hole r _ s byType "main" (None :: slots));
      [reflexivity|now apply find_In|now apply find_In|now left]. }
  split; [exact Hgen|].
  intros options Hv.
  assert (Hc : forall ws,
            Compiler.success (Compiler.generateAndCheck h options program ws)
            = false
            /\ Compiler.workflow
                 (Compiler.generateAndCheck h options program ws) = None).
  { intros ws. unfold Compiler.generateAndCheck. rewrite Hv.
    destruct (generate h program _) as [[wf g]|e] eqn:Hg; [|now split].
    destruct (Hgen _ _ _ Hg) as [_ ->]. now split. }
  unfold Compiler.compile. rewrite Hv.
  destruct (filter Validation.isError _); [|now split].
  destruct (orElse (Compiler.strict options) false); [|apply Hc].
  destruct (filter Compiler.isWarning _); [apply Hc|now split].
Qed.

(** A conditional with its [false] branch only. *)
Definition oneBranch : Dsl.Program :=
  Sample.program [] []
    [Sample.node "start" "trigger.manual" [];
     Sample.node "check" "flow.if" [("condition", Sample.str "a == b")];
     Sample.node "fetch" "http.request" []]
    [Sample.connection "start" "main" "check" "main";
     Sample.connection "check" "false" "fetch" "main"].

Lemma false_only_source_breaks_validation_witness :
  map Validation.message
    (Compiler.errors
       (Compiler.compile Sample.hostA Sample.compilerDefaults oneBranch))
  = ["Compilation error: TypeError: outputs is not iterable"]%string
  /\ Compiler.success
       (Compiler.compile Sample.hostA Sample.compilerDefaults oneBranch)
     = false.
Proof.
  assert (P : ConnectionFacts.plain
                (Dsl.connections (Dsl.workflow oneBranch))).
  { repeat constructor; discriminate. }
  assert (F : falseOnly "check" (Dsl.connections (Dsl.workflow oneBranch))).
  { split.
    - eexists. split; [right; left; reflexivity|reflexivity].
    - intros c [<-|[<-|[]]]; [discriminate|reflexivity]. }
  split; [vm_compute; reflexivity|].
  apply (@false_only_source_breaks_validation Sample.hostA oneBranch
           "check" P eq_refl F).
  reflexivity.
Defined.

(** A node of the name [toString] that is left by [false] only: the map
    gets no key, and the graph passes the validation. *)
Definition inheritedBranch : Dsl.Program :=
  Sample.program [] []
    [Sample.node "toString" "flow.if" [("condition", Sample.str "a == b")];
     Sample.node "fetch" "http.request" []]
    [Sample.connection "toString" "false" "fetch" "main"].

Remark inherited_source_has_no_hole :
  exists wf,
    Compiler.compile Sample.hostA Sample.compilerDefaults inheritedBranch
    = {| Compiler.success := true; Compiler.workflow := Some wf;
         Compiler.ast := Some inheritedBranch; Compiler.errors := [];
         Compiler.warnings := [] |}
    /\ N8n.connections wf = [].
Proof. eexists. split; [vm_compute; reflexivity|reflexivity]. Qed.

End HoleFacts.

(** ** The validator of the syntax tree *)

Module ValidatorFacts.

Import Js Eff Generator Keeps ModuleFacts DanglingFacts.
Local Open Scope list_scope.

Lemma filter_all {A} (f : A -> bool) (l : list A) :
  Forall (fun a => f a = true) l -> filter f l = l.
Proof.
  induction 1 as [|a l Ha _ IH]; cbn [filter]; [reflexivity|].
  now rewrite Ha, IH.
Qed.

Lemma filter_none {A} (f : A -> bool) (l : list A) :
  Forall (fun a => f a = false) l -> filter f l = [].
Proof.
  induction 1 as [|a l Ha _ IH]; cbn [filter]; [reflexivity|].
  now rewrite Ha, IH.
Qed.

Lemma checkParameters_errors ps : forall seen,
  Forall (fun e => Validation.isError e = true)
    (Validation.checkParameters ps seen).
Proof.
  induction ps as [|p ps IH]; cbn [Validation.checkParameters]; intros seen.
  - constructor.
  - apply Forall_app. split; [|apply IH].
    destruct (Validation.has _ seen); repeat constructor.
Qed.

Lemma checkVariables_errors vs ps : forall seen,
  Forall (fun e => Validation.isError e = true)
    (Validation.checkVariables vs ps seen).
Proof.
  induction vs as [|v vs IH]; cbn [Validation.checkVariables]; intros seen.
  - constructor.
  - apply Forall_app. split.
    + destruct (Validation.has _ seen); repeat constructor.
    + apply Forall_app. split; [|apply IH].
      destruct (Validation.has _ ps); repeat constructor.
Qed.

Lemma checkNodes_errors ns : forall seen,
  Forall (fun e => Validation.isError e = true)
    (Validation.checkNodes ns seen).
Proof.
  induction ns as [|n ns IH]; cbn [Validation.checkNodes]; intros seen.
  - constructor.
  - apply Forall_app. split; [|apply IH].
    destruct (Validation.has _ seen); repeat constructor.
Qed.

Lemma checkConnections_errors cs names :
  Forall (fun e => Validation.isError e = true)
    (Validation.checkConnections cs names).
Proof.
  induction cs as [|c cs IH]; cbn [Validation.checkConnections].
  - constructor.
  - apply Forall_app. split.
    + destruct (Validation.has _ names); repeat constructor.
    + apply Forall_app. split; [|apply IH].
      destruct (Validation.has _ names); repeat constructor.
Qed.

Lemma checkConnected_all_warnings ns connected :
  Forall (fun e => Validation.isError e = false)
    (Validation.checkConnected ns connected).
Proof.
  induction ns as [|n ns IH]; cbn [Validation.checkConnected].
  - constructor.
  - apply Forall_app. split; [|apply IH].
    destruct (Validation.has _ connected); repeat constructor.
Qed.

Lemma checkParameters_nil ps : forall seen,
  Validation.checkParameters ps seen = [] ->
  NoDup (map Dsl.paramName ps)
  /\ forall x, In x (map Dsl.paramName ps) -> ~ In x seen.
Proof.
  induction ps as [|p ps IH]; cbn [Validation.checkParameters map];
    intros seen H.
  - split; [constructor|intros x []].
  - destruct (Validation.has (Dsl.paramName p) seen) eqn:E; [discriminate|].
    apply has_false in E. destruct (IH _ H) as [Hnd Hd].
    split.
    + constructor; [|exact Hnd]. intros Hin. apply (Hd _ Hin). now left.
    + intros x [<-|Hx]; [exact E|]. intros Hs. apply (Hd _ Hx). now right.
Qed.

Lemma checkVariables_nil vs ps : forall seen,
  Validation.checkVariables vs ps seen = [] ->
  NoDup (map Dsl.varName vs)
  /\ (forall x, In x (map Dsl.varName vs) -> ~ In x seen)
  /\ (forall x, In x (map Dsl.varName vs) -> ~ In x ps).
Proof.
  induction vs as [|v vs IH]; cbn [Validation.checkVariables map];
    intros seen H.
  - split; [constructor|split; intros x []].
  - destruct (Validation.has (Dsl.varName v) seen) eqn:E; [discriminate|].
    destruct (Validation.has (Dsl.varName v) ps) eqn:E'; [discriminate|].
    apply has_false in E, E'. destruct (IH _ H) as (Hnd & Hd & Hp).
    split; [|split].
    + constructor; [|exact Hnd]. intros Hin. apply (Hd _ Hin). now left.
    + intros x [<-|Hx]; [exact E|]. intros Hs. apply (Hd _ Hx). now right.
    + intros x [<-|Hx]; [exact E'|]. now apply Hp.
Qed.

Lemma checkNodes_nil ns : forall seen,
  Validation.checkNodes ns seen = [] ->
  NoDup (map Dsl.entryName ns)
  /\ forall x, In x (map Dsl.entryName ns) -> ~ In x seen.
Proof.
  induction ns as [|n ns IH]; cbn [Validation.checkNodes map]; intros seen H.
  - split; [constructor|intros x []].
  - destruct (Validation.has (Dsl.entryName n) seen) eqn:E; [discriminate|].
    apply has_false in E. destruct (IH _ H) as [Hnd Hd].
    split.
    + constructor; [|exact Hnd]. intros Hin. apply (Hd _ Hin). now left.
    + intros x [<-|Hx]; [exact E|]. intros Hs. apply (Hd _ Hx). now right.
Qed.

Lemma checkConnections_nil cs names :
  Validation.checkConnections cs names = [] <->
  forall c, In c cs ->
    In (Dsl.sourceNode c) names /\ In (Dsl.targetNode c) names.
Proof.
  induction cs as [|c cs IH]; cbn [Validation.checkConnections In].
  - split; [intros _ c []|reflexivity].
  - destruct (Validation.has (Dsl.sourceNode c) names) eqn:Es;
      [|split; [discriminate|]].
    + destruct (Validation.has (Dsl.targetNode c) names) eqn:Et;
        [|split; [discriminate|]].
      * apply has_In in Es, Et. cbn [app]. rewrite IH. split.
        -- intros H c' [<-|Hc']; [now split|now apply H].
        -- intros H c' Hc'. apply H. now right.
      * intros H. apply has_false in Et.
        destruct (H c (or_introl eq_refl)). contradiction.
    + intros H. apply has_false in Es.
      destruct (H c (or_introl eq_refl)). contradiction.
Qed.

(** The connections name declared nodes on both sides. *)
Definition connectionsResolve (wf : Dsl.WorkflowDeclaration) : Prop :=
  forall c, In c (Dsl.connections wf) ->
    In (Dsl.sourceNode c) (map Dsl.entryName (Dsl.nodes wf))
    /\ In (Dsl.targetNode c) (map Dsl.entryName (Dsl.nodes wf)).

(** The nodes that no connection mentions. *)
Definition unconnected (wf : Dsl.WorkflowDeclaration) : list Dsl.NodeEntry :=
  filter (fun n =>
            negb (existsb (fun c =>
                             String.eqb (Dsl.entryName n) (Dsl.sourceNode c)
                             || String.eqb (Dsl.entryName n) (Dsl.targetNode c))
                    (Dsl.connections wf)))
    (Dsl.nodes wf).

Lemma has_mentioned (x : string) (cs : list Dsl.ConnectionDeclaration) :
  Validation.has x
    (flat_map (fun c => [Dsl.sourceNode c; Dsl.targetNode c]) cs)
  = existsb (fun c => String.eqb x (Dsl.sourceNode c)
                      || String.eqb x (Dsl.targetNode c)) cs.
Proof.
  unfold Validation.has.
  induction cs as [|c cs IH]; cbn [flat_map existsb app]; [reflexivity|].
  now rewrite IH, orb_assoc.
Qed.

Lemma checkConnected_count ns cs :
  List.length
    (Validation.checkConnected ns
       (flat_map (fun c => [Dsl.sourceNode c; Dsl.targetNode c]) cs))
  = List.length
      (filter (fun n =>
                 negb (existsb
                         (fun c =>
                            String.eqb (Dsl.entryName n) (Dsl.sourceNode c)
                            || String.eqb (Dsl.entryName n) (Dsl.targetNode c))
                         cs)) ns).
Proof.
  induction ns as [|n ns IH]; cbn [Validation.checkConnected filter];
    [reflexivity|].
  rewrite length_app, IH, has_mentioned.
  now destruct (existsb _ cs).
Qed.

(** The validator of the syntax tree reports no error exactly when the
    parameter names are pairwise distinct, the variable names are pairwise
    distinct and none is a parameter name, the node names are pairwise
    distinct and both ends of every connection are declared nodes; and it
    gives one warning for each node that no connection mentions. *)
Theorem validation_errors_characterised (program : Dsl.Program) :
  let wf := Dsl.workflow program in
  (filter Validation.isError (Validation.validateProgram program) = []
   <-> namesDistinct wf /\ connectionsResolve wf)
  /\ List.length
       (filter Compiler.isWarning (Validation.validateProgram program))
     = List.length (unconnected wf).
Proof.
  intros wf. unfold Validation.validateProgram, Validation.validateWorkflow.
  fold wf. split.
  - rewrite !filter_app.
    rewrite (filter_all _ (checkParameters_errors _ _)).
    rewrite (filter_all _ (checkVariables_errors _ _ _)).
    rewrite (filter_all _ (checkNodes_errors _ _)).
    rewrite (filter_all _ (checkConnections_errors _ _)).
    rewrite (filter_none _ (checkConnected_all_warnings _ _)), app_nil_r.
    unfold namesDistinct, connectionsResolve. split.
    + intros H.
      apply app_eq_nil in H. destruct H as [Hp H].
      apply app_eq_nil in H. destruct H as [Hv H].
      apply app_eq_nil in H. destruct H as [Hn Hc].
      apply checkParameters_nil in Hp. apply checkVariables_nil in Hv.
      apply checkNodes_nil in Hn.
      pose proof (proj1 (checkConnections_nil _ _) Hc) as Hc'.
      tauto.
    + intros ((Hp & Hv & Hvp & Hn) & Hc).
      rewrite checkParameters_clean by (auto; intros x _ []).
      rewrite checkVariables_clean by (auto; intros x _ []).
      rewrite checkNodes_clean by (auto; intros x _ []).
      exact (proj2 (checkConnections_nil _ _) Hc).
  - unfold Compiler.isWarning. rewrite !filter_app, !length_app.
    rewrite (filter_none (fun e => negb (Validation.isError e)));
      [|eapply Forall_impl; [|apply checkParameters_errors];
        cbn; now intros a ->].
    rewrite (filter_none (fun e => negb (Validation.isError e)));
      [|eapply Forall_impl; [|apply checkVariables_errors];
        cbn; now intros a ->].
    rewrite (filter_none (fun e => negb (Validation.isError e)));
      [|eapply Forall_impl; [|apply checkNodes_errors];
        cbn; now intros a ->].
    rewrite (filter_none (fun e => negb (Validation.isError e)));
      [|eapply Forall_impl; [|apply checkConnections_errors];
        cbn; now intros a ->].
    rewrite (filter_all (fun e => negb (Validation.isError e)));
      [|eapply Forall_impl; [|apply checkConnected_all_warnings];
        cbn; now intros a ->].
    cbn [List.length Nat.add]. apply checkConnected_count.
Qed.

(** A program the validator accepts fails in the generator, if at all,
    before the connections: once its parameters, its variables and all its
    nodes are generated, [generate] returns a graph. *)
Theorem validated_connections_generate (h : Host) (program : Dsl.Program)
  (g g1 : Gen) (nodes : list N8n.N8nNode) :
  filter Validation.isError (Validation.validateProgram program) = [] ->
  upTo h program (Dsl.nodes (Dsl.workflow program)) g = Ok (nodes, g1) ->
  exists wf g',
    generate h program g = Ok (wf, g') /\ N8n.nodes wf = nodes.
Proof.
  intros Hv H.
  apply (proj1 (validation_errors_characterised program)) in Hv.
  destruct Hv as [_ Hc].
  unfold upTo in H.
  apply bind_Ok in H. destruct H as (u1 & g2 & H1 & H).
  apply bind_Ok in H. destruct H as (u2 & g3 & H2 & H).
  pose proof (mapM_generateNode_names _ _ _ H) as Hn.
  destruct (@ConnectionFacts.connect_total
              (Dsl.connections (Dsl.workflow program)) nodes fresh)
    as [r Hr].
  { intros c Hin. destruct (Hc c Hin) as [Hs Ht].
    rewrite <- Hn in Hs, Ht. split; now apply hasNode_In. }
  unfold generate.
  erewrite bind_step by exact H1. erewrite bind_step by exact H2.
  erewrite bind_step by exact H.
  unfold generateConnections. rewrite Hr.
  erewrite bind_step by reflexivity.
  assert (Hi : exists i g', instanceIdOf h g1 = Ok (i, g')).
  { unfold instanceIdOf.
    destruct (optInstanceId g1) as [s|]; [destruct (Str.isEmpty s)|];
      eexists; eexists; reflexivity. }
  destruct Hi as (i & g' & Hi).
  erewrite bind_step by exact Hi.
  eexists. eexists. split; reflexivity.
Qed.

Lemma validated_connections_generate_witness :
  exists wf g',
    generate Sample.hostA Sample.threeNodes (create Sample.defaults)
    = Ok (wf, g').
Proof.
  assert (V : filter Validation.isError
                (Validation.validateProgram Sample.threeNodes) = [])
    by reflexivity.
  assert (U : exists nodes g1,
            upTo Sample.hostA Sample.threeNodes
              (Dsl.nodes (Dsl.workflow Sample.threeNodes))
              (create Sample.defaults) = Ok (nodes, g1))
    by (eexists; eexists; vm_compute; reflexivity).
  destruct U as (nodes & g1 & U).
  destruct (@validated_connections_generate Sample.hostA Sample.threeNodes
              (create Sample.defaults) g1 nodes V U) as (wf & g' & H & _).
  now exists wf, g'.
Defined.

End ValidatorFacts.

(** ** The connections map, by source *)

Module GroupingFacts.

Import Js Eff Generator Keeps MapFacts ConnectionFacts.
Local Open Scope list_scope.

Lemma mapSet_NoDup {A} (k : string) (a : A) (m : list (string * A)) :
  NoDup (map fst m) -> NoDup (map fst (mapSet k a m)).
Proof.
  induction m as [|[k' a'] m IH]; cbn [mapSet map fst]; intros H.
  - constructor; [intros []|constructor].
  - inversion H as [|? ? Hk Hm]; subst.
    destruct (String.eqb k k') eqn:E; cbn [map fst].
    + apply String.eqb_eq in E. subst. now constructor.
    + constructor; [|now apply IH].
      rewrite mapSet_keys_in. intros [->|Hin]; [|contradiction].
      now rewrite String.eqb_refl in E.
Qed.

Lemma connect_NoDup nodes conns : forall w w',
  NoDup (map fst (own w)) -> connect conns nodes w = Ok w' ->
  NoDup (map fst (own w')).
Proof.
  induction conns as [|c conns IH]; cbn [connect]; intros w w' Hr H.
  - now injection H as <-.
  - destruct (negb (hasNode (Dsl.sourceNode c) nodes)); [discriminate|].
    destruct (negb (hasNode (Dsl.targetNode c) nodes)); [discriminate|].
    eapply IH; [|eassumption].
    destruct (addConnection_cases c w) as [-> | [-> | ->]];
      [exact Hr|now apply mapSet_NoDup|].
    unfold record. now apply mapSet_NoDup.
Qed.

Lemma grouped_other s done c :
  Dsl.sourceNode c <> s -> grouped s (done ++ [c]) = grouped s done.
Proof.
  intros E. apply String.eqb_neq in E.
  unfold grouped, slotsOf. rewrite leaves_app, !outputs_app, E.
  cbn [andb]. now rewrite orb_false_r, !app_nil_r.
Qed.

Lemma grouped_recorded s conns :
  inherited s = false -> grouped s (recorded conns) = grouped s conns.
Proof.
  intros I. unfold grouped, slotsOf.
  rewrite !outputs_recorded by exact I.
  replace (leaves s (recorded conns)) with (leaves s conns); [reflexivity|].
  unfold leaves, recorded.
  induction conns as [|c conns IH]; cbn [filter existsb]; [reflexivity|].
  destruct (inherited (Dsl.sourceNode c)) eqn:Ic; cbn [negb existsb].
  - rewrite IH.
    destruct (String.eqb (Dsl.sourceNode c) s) eqn:E; [|reflexivity].
    apply String.eqb_eq in E. congruence.
  - now rewrite IH.
Qed.

Lemma grouped_inherited s conns :
  inherited s = true -> grouped s (recorded conns) = None.
Proof. intros I. unfold grouped. now rewrite leaves_recorded. Qed.

(** The entry of the source after [record], from its entry before. *)
Lemma record_same c r done :
  mapGet (Dsl.sourceNode c) r = grouped (Dsl.sourceNode c) done ->
  mapGet (Dsl.sourceNode c) (record c r)
  = grouped (Dsl.sourceNode c) (done ++ [c]).
Proof.
  intros Hr. unfold grouped. rewrite leaves_app.
  rewrite String.eqb_refl, orb_true_r.
  unfold record. rewrite find_mapSet_same. f_equal.
  rewrite Hr. unfold grouped, slotsOf.
  rewrite !outputs_app, String.eqb_refl. cbn [andb].
  destruct (leaves (Dsl.sourceNode c) done) eqn:L.
  - cbn [orElse mapGet Templates.find String.eqb Ascii.eqb Bool.eqb].
    destruct (@outputs_some _ _ L) as [N|N];
      destruct (slotIndex_cases c) as [-> | ->];
      destruct (outputs (Dsl.sourceNode c) 0 done) as [|a o0];
      destruct (outputs (Dsl.sourceNode c) 1 done) as [|b o1];
      try congruence; cbn; rewrite ?app_nil_r; reflexivity.
  - rewrite !(@outputs_none _ _ _ L).
    destruct (slotIndex_cases c) as [-> | ->]; reflexivity.
Qed.

Lemma record_other c r s :
  Dsl.sourceNode c <> s -> mapGet s (record c r) = mapGet s r.
Proof.
  intros E. unfold record. rewrite find_mapSet_other by congruence.
  reflexivity.
Qed.

(** What the own keys hold in the course of a run, whatever the names of
    the sources: no key [__proto__]; while [Object.prototype] is as it
    was, the recorded declarations by source; and at any time, under a
    key, either nothing, or all the declarations that leave the source. *)
Definition shaped (done : list Dsl.ConnectionDeclaration) (w : Wiring)
  : Prop :=
  mapGet "__proto__"%string (own w) = None
  /\ (onPrototype w = false ->
      forall s, mapGet s (own w) = grouped s (recorded done))
  /\ (forall s b, mapGet s (own w) = Some b ->
                  b = [] \/ Some b = grouped s done).

Lemma shaped_fresh : shaped [] fresh.
Proof.
  split; [reflexivity|]. split; [reflexivity|]. discriminate.
Qed.

Lemma grouped_Some_inherited s conns b :
  grouped s (recorded conns) = Some b -> inherited s = false.
Proof.
  intros H. destruct (inherited s) eqn:I; [|reflexivity].
  now rewrite grouped_inherited in H.
Qed.

Lemma mapSet_proto {A} (k : string) (a : A) (m : list (string * A)) :
  k <> "__proto__"%string ->
  mapGet "__proto__"%string (mapSet k a m) = mapGet "__proto__"%string m.
Proof. intros H. apply find_mapSet_other. congruence. Qed.

Lemma addConnection_shaped c w done :
  shaped done w -> shaped (done ++ [c]) (addConnection c w).
Proof.
  intros (H0 & H1 & H2).
  assert (Keep : forall s b,
            mapGet (Dsl.sourceNode c) (own w) = None ->
            mapGet s (own w) = Some b ->
            b = [] \/ Some b = grouped s (done ++ [c])).
  { intros s b N Hs. destruct (H2 s b Hs) as [->|G]; [now left|right].
    rewrite grouped_other; [exact G|]. intros E. congruence. }
  destruct (onPrototype w) eqn:P.
  - (* the prototype has the key *)
    destruct (findSource (Dsl.sourceNode c) w) as [byType| |] eqn:F.
    + pose proof (@findSource_named _ _ _ H0 F) as Np.
      destruct (mapGet "main"%string byType) as [slots|] eqn:Gm.
      * destruct (@addConnection_array c w byType slots F Gm) as [M ->].
        unfold shaped. cbn [own onPrototype].
        split; [rewrite record_other by exact Np; exact H0|].
        split; [rewrite P; discriminate|].
        intros s b Hs.
        destruct (string_dec (Dsl.sourceNode c) s) as [E|E].
        -- subst s. right. rewrite <- Hs. apply record_same.
           rewrite M. destruct (H2 _ _ M) as [->|G]; [discriminate|exact G].
        -- rewrite record_other in Hs by exact E.
           destruct (H2 s b Hs) as [->|G']; [now left|right].
           now rewrite grouped_other.
      * rewrite (@addConnection_shared c w byType P F Gm).
        unfold shaped. cbn [own onPrototype].
        split; [now rewrite mapSet_proto|]. split; [discriminate|].
        assert (B : byType = []).
        { pose proof (@findSource_Own _ _ _ F) as E.
          destruct (mapGet (Dsl.sourceNode c) (own w)) as [b|] eqn:M;
            cbn [orElse] in E; [|exact E]. subst b.
          destruct (H2 _ _ M) as [->|G]; [reflexivity|].
          unfold grouped in G. destruct (leaves _ done); [|discriminate].
          injection G as ->. discriminate. }
        subst byType. intros s b Hs.
        destruct (string_dec (Dsl.sourceNode c) s) as [E|E].
        -- subst s. rewrite find_mapSet_same in Hs. injection Hs as <-.
           now left.
        -- rewrite find_mapSet_other in Hs by congruence.
           destruct (H2 s b Hs) as [->|G]; [now left|right].
           now rewrite grouped_other.
    + rewrite (@addConnection_Prototype c w F).
      unfold shaped. cbn [own onPrototype].
      split; [exact H0|]. split; [discriminate|].
      intros s b. apply Keep. apply findSource_unowned. now left.
    + rewrite (@addConnection_Inherited c w F).
      split; [exact H0|]. split; [rewrite P; discriminate|].
      intros s b. apply Keep. apply findSource_unowned. now right.
  - (* the prototype is as it was *)
    specialize (H1 eq_refl).
    destruct (String.eqb (Dsl.sourceNode c) "__proto__") eqn:Ep.
    + apply String.eqb_eq in Ep.
      assert (F : findSource (Dsl.sourceNode c) w = Prototype).
      { unfold findSource. now rewrite Ep, H0. }
      rewrite (@addConnection_Prototype c w F).
      unfold shaped. cbn [own onPrototype].
      split; [exact H0|]. split; [discriminate|].
      intros s b. apply Keep. now rewrite Ep.
    + apply String.eqb_neq in Ep.
      destruct (@addConnection_grouped c w done P Ep H1) as [P' G].
      split.
      { rewrite G. unfold grouped.
        replace (leaves "__proto__"%string (recorded (done ++ [c])))
          with false; [reflexivity|].
        symmetry.
        assert (L : leaves "__proto__"%string (recorded done) = false).
        { pose proof (H1 "__proto__"%string) as Q. rewrite H0 in Q.
          unfold grouped in Q. now destruct (leaves _ (recorded done)). }
        rewrite recorded_app.
        destruct (inherited (Dsl.sourceNode c));
          [now rewrite app_nil_r|].
        rewrite leaves_app, L. cbn [orb]. now apply String.eqb_neq. }
      split; [intros _; exact G|].
      intros s b Hs. right. rewrite G in Hs.
      rewrite <- (@grouped_recorded s (done ++ [c])
                    (@grouped_Some_inherited s (done ++ [c]) b Hs)).
      now symmetry.
Qed.

Lemma connect_shaped nodes conns : forall done w w',
  shaped done w -> connect conns nodes w = Ok w' ->
  shaped (done ++ conns) w'.
Proof.
  induction conns as [|c conns IH]; cbn [connect]; intros done w w' S H.
  - injection H as <-. now rewrite app_nil_r.
  - destruct (negb (hasNode (Dsl.sourceNode c) nodes)); [discriminate|].
    destruct (negb (hasNode (Dsl.targetNode c) nodes)); [discriminate|].
    replace (done ++ c :: conns) with ((done ++ [c]) ++ conns)
      by (now rewrite <- app_assoc).
    eapply IH; [|eassumption]. now apply addConnection_shaped.
Qed.

(** Whatever the names of the sources, a key of the connections map
    holds nothing, or all the declarations that leave its node. *)
Lemma generateConnections_shaped conns nodes r :
  generateConnections conns nodes = Ok r ->
  NoDup (map fst r)
  /\ forall s b, mapGet s r = Some b -> b = [] \/ Some b = grouped s conns.
Proof.
  intros H. apply generateConnections_Ok in H. destruct H as (w & H & <-).
  split.
  - eapply connect_NoDup; [|exact H]. constructor.
  - exact (proj2 (proj2 (@connect_shaped nodes conns [] fresh w
                           shaped_fresh H))).
Qed.

(** The connections map of a graph has no key twice.  In a run where no
    declaration leaves a node of the name [__proto__], it has one key for
    each node that a declaration leaves, but for the nodes with the name
    of a function that every object inherits, which get none: their
    declarations are written onto that function and are lost.  Under the
    key, the output type [main] holds the slots of the node: in each slot
    the targets of the declarations that leave the node by that slot, in
    the order of the declarations; the second slot is absent when no
    declaration uses it, and the first is a hole when only the second is
    used. *)
Theorem connections_grouped_by_source
  (conns : list Dsl.ConnectionDeclaration) (nodes : list N8n.N8nNode)
  (r : N8n.WorkflowConnections) :
  plain conns ->
  generateConnections conns nodes = Ok r ->
  NoDup (map fst r)
  /\ (forall s, mapGet s r = grouped s (recorded conns))
  /\ (forall s, inherited s = true -> mapGet s r = None)
  /\ (forall s, inherited s = false -> mapGet s r = grouped s conns).
Proof.
  intros N H.
  pose proof (@generateConnections_grouped conns nodes r N H) as G.
  split; [exact (proj1 (generateConnections_shaped _ _ H))|].
  split; [exact G|].
  split; intros s I; rewrite G.
  - now apply grouped_inherited.
  - now apply grouped_recorded.
Qed.

Lemma connections_grouped_by_source_witness :
  exists r,
    generateConnections forked [bare "a"; bare "b"; bare "c"] = Ok r
    /\ mapGet "a" r
       = Some [("main"%string,
                [Some [{| N8n.node := "c"; N8n.type := "main";
                          N8n.index := 0 |}];
                 Some [{| N8n.node := "b"; N8n.type := "main";
                          N8n.index := 0 |};
                       {| N8n.node := "c"; N8n.type := "main";
                          N8n.index := 0 |}]])]
    /\ mapGet "b" r = None.
Proof.
  assert (N : plain forked) by (repeat constructor; discriminate).
  eexists. split; [reflexivity|].
  split;
    (etransitivity;
     [eapply (@connections_grouped_by_source forked
                [bare "a"; bare "b"; bare "c"] _ N); reflexivity
     |reflexivity]).
Defined.

(** A declaration that leaves a node of the name [toString], and one that
    leaves an ordinary node: the map has a key for the second only. *)
Remark inherited_source_not_recorded :
  generateConnections
    [Sample.connection "toString" "main" "b" "main";
     Sample.connection "a" "main" "b" "main"]
    [bare "toString"; bare "a"; bare "b"]
  = Ok [("a"%string,
         [("main"%string,
           [Some [{| N8n.node := "b"; N8n.type := "main";
                     N8n.index := 0 |}]])])].
Proof. reflexivity. Qed.

(** After a declaration that leaves a node of the name [__proto__], a
    source that had no key yet gets an empty one, and a source that had
    one goes on being recorded. *)
Remark prototype_source_stops_recording :
  generateConnections
    [Sample.connection "a" "main" "b" "main";
     Sample.connection "__proto__" "main" "b" "main";
     Sample.connection "a" "false" "b" "main";
     Sample.connection "b" "main" "a" "main"]
    [bare "__proto__"; bare "a"; bare "b"]
  = Ok [("a"%string,
         [("main"%string,
           [Some [{| N8n.node := "b"; N8n.type := "main";
                     N8n.index := 0 |}];
            Some [{| N8n.node := "b"; N8n.type := "main";
                     N8n.index := 0 |}]])]);
        ("b"%string, [])].
Proof. reflexivity. Qed.

End GroupingFacts.

(** ** The validation of the generated graph *)

Module SecondPassFacts.

Import Js Eff Generator Keeps MapFacts ConnectionFacts DanglingFacts.
Import GraphFacts HoleFacts ValidatorFacts GroupingFacts.
Local Open Scope list_scope.

Lemma types_filled :
  Forall (fun kv : string * string => Str.isEmpty (snd kv) = false)
    Dsl.DSL_TO_N8N_NODE_TYPES.
Proof. repeat constructor. Qed.

Lemma mapNodeType_filled t ty :
  mapNodeType t = Ok ty -> Str.isEmpty ty = false.
Proof.
  unfold mapNodeType.
  destruct (Templates.find t Dsl.DSL_TO_N8N_NODE_TYPES) as [x|] eqn:E;
    [|discriminate].
  intros [= <-]. apply find_In in E.
  pose proof types_filled as F. rewrite Forall_forall in F.
  exact (F _ E).
Qed.

Lemma versions_truthy :
  Forall (fun kv : string * Num.num => truthy (VNum (snd kv)) = true)
    Dsl.DEFAULT_TYPE_VERSIONS.
Proof. repeat constructor. Qed.

Lemma typeVersionOf_truthy ty : truthy (VNum (typeVersionOf ty)) = true.
Proof.
  unfold typeVersionOf.
  destruct (Templates.find ty Dsl.DEFAULT_TYPE_VERSIONS) as [v|];
    [|reflexivity].
  destruct (truthy (VNum v)) eqn:E; [exact E|reflexivity].
Qed.

Lemma generateNode_checked h entry g n g' :
  generateNode h entry g = Ok (n, g') ->
  Dsl.entryName entry <> EmptyString ->
  Validation.validateNode n = [].
Proof.
  destruct entry as [d|m]; cbn [generateNode Dsl.entryName]; [|discriminate].
  intros H Hname.
  apply bind_Ok in H. destruct H as (t & g0 & H0 & H).
  apply bind_Ok in H. destruct H as (p & g1 & _ & H).
  apply bind_Ok in H. destruct H as (ps & g2 & _ & H).
  apply bind_Ok in H. destruct H as (i & g3 & H3 & H).
  injection H as <- <-.
  unfold lift in H0. destruct (mapNodeType _) as [ty|] eqn:Ht; [|discriminate].
  injection H0 as <- <-. apply mapNodeType_filled in Ht.
  unfold random, N8n.generateNodeId in H3.
  pose proof (RunFacts.fillPattern_filled (randomSource h) "x"
                "xxxxxxx-xxxx-4xxx-yxxx-xxxxxxxxxxxx" (draws g2)) as Hi.
  destruct (N8n.fillPattern _ _ _) as [i' k'].
  injection H3 as <- _. cbn [fst] in Hi.
  unfold Validation.validateNode. cbn [N8n.id N8n.name N8n.nodeType
                                       N8n.typeVersion].
  rewrite Hi, Ht, typeVersionOf_truthy.
  destruct (Dsl.nodeName d); [contradiction|reflexivity].
Qed.

Lemma mapM_generateNode_checked h entries : forall g nodes g',
  mapM (generateNode h) entries g = Ok (nodes, g') ->
  (forall e, In e entries -> Dsl.entryName e <> EmptyString) ->
  Forall (fun n => Validation.validateNode n = []) nodes.
Proof.
  induction entries as [|e entries IH]; cbn [mapM]; intros g nodes g' H Hn.
  - injection H as <- <-. constructor.
  - apply bind_Ok in H. destruct H as (n & g1 & H1 & H).
    apply bind_Ok in H. destruct H as (rest & g2 & H2 & H).
    injection H as <- <-. constructor.
    + eapply generateNode_checked; [eassumption|]. apply Hn. now left.
    + eapply IH; [eassumption|]. intros e' He'. apply Hn. now right.
Qed.

Lemma checkGraphNodes_clean nodes : forall seen,
  NoDup (map N8n.name nodes) ->
  (forall x, In x (map N8n.name nodes) -> ~ In x seen) ->
  Forall (fun n => Validation.validateNode n = []) nodes ->
  Validation.checkGraphNodes nodes seen = [].
Proof.
  induction nodes as [|n nodes IH]; cbn [Validation.checkGraphNodes map];
    intros seen Hnd Hd Hv; [reflexivity|].
  inversion Hnd as [|? ? Hnot Hnd']; subst.
  inversion Hv as [|? ? Hn Hv']; subst.
  assert (E : Validation.has (N8n.name n) seen = false).
  { apply has_false. apply Hd. now left. }
  rewrite E, Hn. cbn [app]. apply IH; [exact Hnd'| |exact Hv'].
  intros x Hx [<-|Hs]; [contradiction|]. apply (Hd x); [now right|exact Hs].
Qed.

(** A slot that is no hole and whose entries name nodes of [names]. *)
Definition slotFilled (names : list string)
  (slot : option (list N8n.NodeConnection)) : Prop :=
  exists l, slot = Some l /\ Forall (fun e => In (N8n.node e) names) l.

Lemma checkSlots_clean names slots :
  Forall (slotFilled names) slots ->
  Validation.checkSlots slots names = Ok [].
Proof.
  induction 1 as [|slot slots (l & -> & Hl) _ IH];
    cbn [Validation.checkSlots]; [reflexivity|].
  rewrite IH. f_equal. rewrite app_nil_r.
  induction Hl as [|e l He _ IHl]; cbn [flat_map]; [reflexivity|].
  apply has_In in He. now rewrite He, IHl.
Qed.

Lemma checkTypes_clean names byType :
  Forall (fun ts : string * N8n.Slots => Forall (slotFilled names) (snd ts))
    byType ->
  Validation.checkTypes byType names = Ok [].
Proof.
  induction 1 as [|[t slots] byType Hs _ IH];
    cbn [Validation.checkTypes]; [reflexivity|].
  cbn [snd] in Hs. now rewrite (@checkSlots_clean names slots Hs), IH.
Qed.

Lemma checkGraphConnections_clean names cs :
  Forall (fun kv : string * N8n.NodeConnections =>
            In (fst kv) names
            /\ Forall (fun ts : string * N8n.Slots =>
                         Forall (slotFilled names) (snd ts)) (snd kv)) cs ->
  Validation.checkGraphConnections cs names = Ok [].
Proof.
  induction 1 as [|[s byType] cs [Hs Hb] _ IH];
    cbn [Validation.checkGraphConnections]; [reflexivity|].
  cbn [fst snd] in Hs, Hb. apply has_In in Hs.
  now rewrite Hs, (@checkTypes_clean names byType Hb), IH.
Qed.

Lemma In_find {A} (k : string) (a : A) (m : list (string * A)) :
  NoDup (map fst m) -> In (k, a) m -> mapGet k m = Some a.
Proof.
  unfold mapGet.
  induction m as [|[k' a'] m IH]; cbn [map fst In Templates.find];
    intros Hnd Hin; [contradiction|].
  inversion Hnd as [|? ? Hnot Hnd']; subst.
  destruct Hin as [[= -> ->]|Hin].
  - now rewrite String.eqb_refl.
  - destruct (String.eqb k k') eqn:E; [|now apply IH].
    apply String.eqb_eq in E. subst. exfalso. apply Hnot.
    change k' with (fst (k', a)). now apply in_map.
Qed.

Lemma slotIndex_false c : slotIndex c = 1%nat -> leavesByFalse c.
Proof.
  unfold slotIndex, leavesByFalse. rewrite mapOutputIndex_cases.
  destruct (String.eqb (outputName c) "false") eqn:E; [|discriminate].
  intros _. apply String.eqb_eq in E. unfold outputName in E.
  destruct (Dsl.sourceOutput c) as [s|]; [|discriminate].
  destruct (Str.isEmpty s); [discriminate|now subst].
Qed.

Lemma outputs_nil_false s conns :
  outputs s 0 conns = [] ->
  forall c, In c conns -> Dsl.sourceNode c = s -> leavesByFalse c.
Proof.
  unfold outputs. intros H c Hin Hs. apply slotIndex_false.
  destruct (slotIndex_cases c) as [E|E]; [|exact E]. exfalso.
  assert (Hf : In c (filter (fun c => String.eqb (Dsl.sourceNode c) s
                                      && (slotIndex c =? 0)%nat) conns)).
  { apply filter_In. split; [exact Hin|].
    rewrite Hs, String.eqb_refl, E. reflexivity. }
  apply (in_map entryOf) in Hf. rewrite H in Hf. exact Hf.
Qed.

Lemma leaves_exists s conns :
  leaves s conns = true -> exists c, In c conns /\ Dsl.sourceNode c = s.
Proof.
  unfold leaves. rewrite existsb_exists. intros (c & Hin & E).
  apply String.eqb_eq in E. now exists c.
Qed.

Lemma outputs_resolve names s i conns :
  (forall c, In c conns -> In (Dsl.targetNode c) names) ->
  Forall (fun e => In (N8n.node e) names) (outputs s i conns).
Proof.
  intros H. unfold outputs. apply Forall_forall. intros e He.
  apply in_map_iff in He. destruct He as (c & <- & Hc).
  apply filter_In in Hc. cbn. apply H. tauto.
Qed.

(** A connections map with keys in [names] that holds, under a key,
    nothing or all the declarations that leave the node, for declarations
    that all end at a node of [names] and none of whose sources is left by
    [false] only, is without holes. *)
Lemma grouped_filled names conns r :
  NoDup (map fst r) ->
  (forall s b, mapGet s r = Some b -> b = [] \/ Some b = grouped s conns) ->
  (forall kv, In kv r -> In (fst kv) names) ->
  (forall c, In c conns -> In (Dsl.targetNode c) names) ->
  (forall s, ~ falseOnly s conns) ->
  Forall (fun kv : string * N8n.NodeConnections =>
            In (fst kv) names
            /\ Forall (fun ts : string * N8n.Slots =>
                         Forall (slotFilled names) (snd ts)) (snd kv)) r.
Proof.
  intros Hnd Hg Hsrc Ht Hno. apply Forall_forall. intros [s byType] Hin.
  split; [exact (Hsrc _ Hin)|].
  cbn [fst snd]. apply (@In_find _ _ _ _ Hnd) in Hin.
  destruct (Hg _ _ Hin) as [->|G]; [constructor|].
  unfold grouped in G.
  destruct (leaves s conns) eqn:L; [|discriminate].
  injection G as ->.
  destruct (@leaves_exists _ _ L) as (c0 & Hc0 & Es).
  pose proof (@outputs_resolve names s 0 _ Ht) as R0.
  pose proof (@outputs_resolve names s 1 _ Ht) as R1.
  constructor; [|constructor]. cbn [snd]. unfold slotsOf.
  destruct (outputs s 1 conns) as [|b o1] eqn:E1.
  - constructor; [|constructor]. now exists (outputs s 0 conns).
  - destruct (outputs s 0 conns) as [|a o0] eqn:E0.
    + exfalso. apply (Hno s). split; [now exists c0|].
      now apply outputs_nil_false.
    + constructor; [now exists (a :: o0)|].
      constructor; [now exists (b :: o1)|constructor].
Qed.

(** On a program that the first validation accepts, that declares a node
    and gives every node a name, and in which no node is left by its
    [false] output only, the validation of the generated graph finds
    nothing; [compile], when it is not strict, then succeeds with that
    graph and the warnings of the first validation. *)
Theorem second_validation_finds_nothing (h : Host)
  (options : Compiler.CompilerOptions) (program : Dsl.Program)
  (wf : N8n.N8nWorkflow) (g' : Gen) :
  let decl := Dsl.workflow program in
  filter Validation.isError (Validation.validateProgram program) = [] ->
  Dsl.nodes decl <> [] ->
  (forall e, In e (Dsl.nodes decl) -> Dsl.entryName e <> EmptyString) ->
  (forall s, ~ falseOnly s (Dsl.connections decl)) ->
  generate h program (create (Compiler.optionsForGenerator options))
  = Ok (wf, g') ->
  Validation.validateN8nWorkflow wf = Ok []
  /\ (orElse (Compiler.validate options) true = true ->
      orElse (Compiler.strict options) false = false ->
      Compiler.compile h options program
      = {| Compiler.success := true;
           Compiler.workflow := Some wf;
           Compiler.ast := Some program;
           Compiler.errors := [];
           Compiler.warnings :=
             filter Compiler.isWarning
               (Validation.validateProgram program) |}).
Proof.
  intros decl Hv Hne Hnames Hno H.
  assert (V : Validation.validateN8nWorkflow wf = Ok []).
  { pose proof (proj1 (proj1 (validation_errors_characterised program)) Hv)
      as [(_ & _ & _ & Hnd) Hends]. fold decl in Hnd, Hends.
    destruct (@generate_Ok _ _ _ _ _ H)
      as (g1 & g2 & g3 & _ & _ & Hn & Hc & _). fold decl in Hn, Hc.
    pose proof (@mapM_generateNode_names _ _ _ _ _ Hn) as Enames.
    pose proof (@mapM_generateNode_checked _ _ _ _ _ Hn Hnames) as Hchk.
    destruct (@generateConnections_shaped _ _ _ Hc) as [Hk Hg].
    pose proof (@generateConnections_resolves _ _ _ Hc) as Hr.
    unfold Validation.validateN8nWorkflow.
    rewrite (@checkGraphConnections_clean (map N8n.name (N8n.nodes wf))).
    - rewrite checkGraphNodes_clean;
        [|now rewrite Enames|intros x _ []|exact Hchk].
      destruct (N8n.nodes wf) as [|n ns] eqn:En; [|reflexivity].
      cbn in Enames. symmetry in Enames. apply map_eq_nil in Enames.
      contradiction.
    - apply grouped_filled with (conns := Dsl.connections decl);
        [exact Hk|exact Hg| | |exact Hno].
      + intros kv Hkv. unfold resolves in Hr. rewrite Forall_forall in Hr.
        exact (proj1 (Hr kv Hkv)).
      + intros c Hin. rewrite Enames. exact (proj2 (Hends c Hin)). }
  split; [exact V|].
  intros Hval Hstrict. unfold Compiler.compile, Compiler.generateAndCheck.
  rewrite Hval, Hv, Hstrict, H, V. cbn [filter]. now rewrite app_nil_r.
Qed.

Lemma second_validation_finds_nothing_witness :
  exists wf,
    Compiler.compile Sample.hostA Sample.compilerDefaults Sample.threeNodes
    = {| Compiler.success := true;
         Compiler.workflow := Some wf;
         Compiler.ast := Some Sample.threeNodes;
         Compiler.errors := [];
         Compiler.warnings := [] |}.
Proof.
  assert (G : exists wf g',
            generate Sample.hostA Sample.threeNodes
              (create (Compiler.optionsForGenerator Sample.compilerDefaults))
            = Ok (wf, g'))
    by (eexists; eexists; vm_compute; reflexivity).
  destruct G as (wf & g' & G). exists wf.
  refine (proj2 (@second_validation_finds_nothing Sample.hostA
                   Sample.compilerDefaults Sample.threeNodes wf g'
                   eq_refl _ _ _ G) eq_refl eq_refl).
  - discriminate.
  - intros e [<-|[<-|[<-|[]]]]; discriminate.
  - intros s [(c & Hc & Es) Hall]. pose proof (Hall c Hc Es) as F.
    cbn in Hc. destruct Hc as [<-|[<-|[]]]; discriminate F.
Defined.

End SecondPassFacts.

(** ** The mail strategy *)

Module MailFacts.

Import Js Eff Shape.
Local Open Scope list_scope.

Lemma lookup_absent k (o : Obj) : ~ In k (map fst o) -> lookup k o = None.
Proof.
  induction o as [|[k' v'] o IH]; cbn [lookup map fst In]; intros H;
    [reflexivity|].
  destruct (String.eqb k k') eqn:E.
  - apply String.eqb_eq in E. subst. tauto.
  - apply IH. tauto.
Qed.

(** [{...a, ...b}] read at [k]: the value of [b] when [b] has the key,
    that of [a] otherwise. *)
Lemma lookup_spread k (b : Obj) : forall a : Obj,
  NoDup (map fst b) ->
  lookup k (spread a b)
  = match lookup k b with Some v => Some v | None => lookup k a end.
Proof.
  unfold spread.
  induction b as [|[k0 v0] b IH]; intros a Hnd;
    cbn [fold_left lookup fst snd]; [reflexivity|].
  inversion Hnd as [|? ? Hnot Hnd']; subst. rewrite (IH _ Hnd').
  destruct (String.eqb k k0) eqn:E.
  - apply String.eqb_eq in E. subst k0.
    rewrite (@lookup_absent k b Hnot). apply lookup_set_same.
  - destruct (lookup k b); [reflexivity|]. now apply lookup_set_other.
Qed.

(** The object literal of the mail strategy before the parameters are
    spread over it. *)
Definition computed (params : Obj) : Obj :=
  [("operation", VStr "send");
   ("sendTo", or (get params "to") (VStr ""));
   ("subject", or (get params "subject") (VStr ""));
   ("message", or (get params "body") (VStr ""));
   ("emailType", or (get params "bodyType") (VStr "text"))]%string.

(** The mail strategy copies every parameter it is given to its result,
    unchanged and under its own key, over the fields it computes: a given
    [operation], [subject], [sendTo], [message] or [emailType] replaces
    the computed one, and [to], [body] and [bodyType] appear beside the
    fields computed from them.  It throws on no input and draws
    nothing. *)
Theorem mail_parameters_override (params : Obj) (k0 : nat) :
  NoDup (map fst params) ->
  exists mapped,
    Templates.GmailTemplate params k0 = Ok (mapped, k0)
    /\ (forall k v, lookup k params = Some v -> lookup k mapped = Some v)
    /\ (forall k, lookup k params = None ->
          lookup k mapped = lookup k (computed params)).
Proof.
  intros Hnd. eexists. split; [reflexivity|].
  fold (computed params).
  split; intros k; [intros v H|intros H];
    rewrite (@lookup_spread k params (computed params) Hnd), H; reflexivity.
Qed.

Lemma mail_parameters_override_witness :
  exists mapped,
    Templates.GmailTemplate
      [("to", VStr "a@example.com"); ("operation", VStr "get")]%string 0%nat
    = Ok (mapped, 0%nat)
    /\ lookup "operation" mapped = Some (VStr "get")
    /\ lookup "sendTo" mapped = Some (VStr "a@example.com")
    /\ lookup "to" mapped = Some (VStr "a@example.com").
Proof.
  assert (Hnd : NoDup (map fst [("to"%string, VStr "a@example.com");
                                ("operation"%string, VStr "get")])).
  { repeat constructor; cbn; intuition discriminate. }
  destruct (@mail_parameters_override _ 0%nat Hnd) as (mapped & H & Hc & Hd).
  exists mapped. split; [exact H|].
  split; [apply Hc; reflexivity|].
  split; [rewrite Hd; reflexivity|apply Hc; reflexivity].
Defined.

End MailFacts.

(** ** The lexer *)

Module LexerFacts.

Import Js Lexer.
Local Open Scope nat_scope.
Local Open Scope list_scope.

(** *** Progress *)

Lemma span_length p s :
  String.length (fst (span p s)) + String.length (snd (span p s))
  = String.length s.
Proof.
  induction s as [|c s IH]; cbn [span]; [reflexivity|].
  destruct (p c); [|reflexivity].
  destruct (span p s) as [v rest]. cbn in *. lia.
Qed.

Lemma span_head p c s : p c = true -> fst (span p (String c s)) <> EmptyString.
Proof.
  intros H. cbn [span]. rewrite H. now destruct (span p s).
Qed.

(** The input a reader leaves is shorter than [n]. *)
Definition leaves (n : nat) (r : Res (Token * State)) : Prop :=
  match r with
  | Ok (_, st) => String.length (input st) < n
  | Throw _ => True
  end.

Lemma stringLoop_bound q start n : forall s v l col,
  String.length s <= n ->
  leaves (S (String.length s)) (stringLoop q start s v l col).
Proof.
  induction n as [|n IH]; intros s v l col Hn;
    destruct s as [|c r]; cbn [stringLoop]; try exact I;
    [cbn in Hn; lia|].
  assert (H : forall s' v' l' col',
            String.length s' <= String.length r ->
            leaves (S (String.length (String c r)))
              (stringLoop q start s' v' l' col')).
  { intros s' v' l' col' Hs'.
    assert (H := IH s' v' l' col' ltac:(cbn in Hn; lia)).
    unfold leaves in *. destruct (stringLoop _ _ s' _ _ _) as [[t st]|];
      [cbn in *; lia|exact I]. }
  destruct (Ascii.eqb c q); [cbn; lia|].
  destruct (Ascii.eqb c "\").
  - destruct r as [|e r']; [exact I|]. apply H. cbn. lia.
  - destruct (Ascii.eqb c "010"); apply H; lia.
Qed.

Lemma stringLoop_leaves q start s v l col :
  leaves (S (String.length s)) (stringLoop q start s v l col).
Proof. now apply stringLoop_bound with (n := String.length s). Qed.

Lemma multiLineLoop_leaves start s : forall v l col,
  leaves (S (String.length s)) (multiLineLoop start s v l col).
Proof.
  induction s as [|c tl IH]; intros v l col; cbn [multiLineLoop];
    [exact I|].
  destruct tl as [|c1 [|c2 r]]; try exact I.
  assert (H : forall v' l' col',
            leaves (S (String.length (String c (String c1 (String c2 r)))))
              (multiLineLoop start (String c1 (String c2 r)) v' l' col')).
  { intros v' l' col'. specialize (IH v' l' col').
    unfold leaves in *.
    destruct (multiLineLoop _ _ _ _ _) as [[t st]|]; [cbn in *; lia|exact I]. }
  destruct (Ascii.eqb c quote && Ascii.eqb c1 quote && Ascii.eqb c2 quote);
    [cbn; lia|].
  destruct (Ascii.eqb c "010"); apply H.
Qed.

Lemma blockLoop_leaves start s : forall v l col,
  String.length (input (snd (blockLoop start s v l col))) <= String.length s.
Proof.
  induction s as [|c tl IH]; intros v l col; cbn [blockLoop];
    [cbn; lia|].
  destruct tl as [|c1 r]; [cbn; lia|].
  destruct (Ascii.eqb c "*" && Ascii.eqb c1 "/"); [cbn; lia|].
  destruct (Ascii.eqb c "010");
    match goal with
    | |- context [blockLoop start ?s' ?v' ?l' ?col'] =>
        specialize (IH v' l' col'); cbn in *; lia
    end.
Qed.

Lemma advance_length st :
  String.length (input (snd (advance st))) = String.length (input st) - 1.
Proof.
  unfold advance. destruct (input st); cbn; lia.
Qed.

(** A token that [nextToken] returns took at least one character. *)
Lemma nextToken_leaves s : forall l col,
  leaves (String.length s) (nextToken s l col).
Proof.
  induction s as [|c r IH]; intros l col; cbn [nextToken]; [exact I|].
  set (st := {| input := String c r; atLine := l; atColumn := col |}).
  assert (S1 : forall t st0, input st0 = String c r ->
                 leaves (String.length (String c r)) (single t st0)).
  { intros t st0 E. unfold single, advance. rewrite E. cbn. lia. }
  assert (S2 : forall t, leaves (String.length (String c r)) (double t st)).
  { intros t. unfold double, advance. cbn. destruct r; cbn; lia. }
  repeat match goal with
         | |- leaves _ (if ?b then _ else _) => destruct b eqn:?
         | |- leaves _ (single _ _) => apply S1; reflexivity
         | |- leaves _ (double _ _) => apply S2
         end.
  - (* readComment *)
    unfold readComment, advance. cbn [input atLine atColumn st].
    destruct r as [|c1 r1]; cbn [input];
      match goal with
      | |- context [span ?p ?s] =>
          pose proof (span_length p s); destruct (span p s); cbn in *; lia
      end.
  - (* readBlockComment *)
    unfold readBlockComment, advance. cbn [input atLine atColumn st].
    destruct r as [|c1 r1]; cbn [input atLine atColumn];
      match goal with
      | |- context [blockLoop ?a ?s ?v ?l' ?c'] =>
          pose proof (blockLoop_leaves a s v l' c');
          destruct (blockLoop a s v l' c'); cbn in *; lia
      end.
  - (* readMultiLineString *)
    unfold readMultiLineString, advance. cbn [input atLine atColumn st].
    destruct r as [|c1 [|c2 r2]]; cbn [input atLine atColumn];
      match goal with
      | |- context [multiLineLoop ?a ?s ?v ?l' ?c'] =>
          pose proof (multiLineLoop_leaves a s v l' c') as H;
          unfold leaves in *;
          destruct (multiLineLoop a s v l' c') as [[t st']|];
          [cbn in *; lia|exact I]
      end.
  - (* readString *)
    unfold readString, advance. cbn [input atLine atColumn st].
    pose proof (stringLoop_leaves c col r EmptyString l (S col)) as H.
    unfold leaves in *.
    destruct (stringLoop _ _ _ _ _ _) as [[t st']|]; [cbn in *; lia|exact I].
  - (* readNumber *)
    unfold readNumber. cbn [input atLine atColumn st].
    match goal with
    | H : isDigit c = true |- context [span ?p ?s] =>
        pose proof (span_length p s);
        pose proof (@span_head p c r) as N; cbn beta in N;
        rewrite H in N; specialize (N eq_refl);
        destruct (span p s) as [v rest]; cbn in *;
        destruct v; [congruence|cbn in *; lia]
    end.
  - (* readIdentifier *)
    unfold readIdentifier. cbn [input atLine atColumn st].
    match goal with
    | H : (isAlpha c || Ascii.eqb c "_") = true |- context [span ?p ?s] =>
        pose proof (span_length p s);
        assert (N : fst (span p s) <> EmptyString);
        [apply span_head; unfold isAlphaNumeric;
         apply orb_true_iff in H; destruct H as [-> | ->];
         [reflexivity|now rewrite orb_true_r]|];
        destruct (span p s) as [v rest]; cbn in *;
        destruct v; [congruence|cbn in *; lia]
    end.
  - (* a skipped character *)
    specialize (IH l (S col)). unfold leaves in *.
    destruct (nextToken r l (S col)) as [[t st']|]; [cbn; lia|exact I].
  - exact I.
Qed.

Lemma skipBlanks_length s : forall col,
  String.length (fst (skipBlanks s col)) <= String.length s.
Proof.
  induction s as [|c r IH]; intros col; cbn [skipBlanks]; [cbn; lia|].
  destruct (_ || _); [specialize (IH (S col)); cbn; lia|cbn; lia].
Qed.

(** *** The tokens *)

Definition eofAt (l col : nat) : Token :=
  {| type := EOF; value := EmptyString; line := l; column := col |}.

Definition notEOF (t : Token) : Prop := type t <> EOF.

Lemma getKeywordType_notEOF k : getKeywordType k <> EOF.
Proof.
  unfold getKeywordType.
  repeat match goal with
         | |- (if ?b then _ else _) <> _ => destruct b
         end; discriminate.
Qed.

Lemma stringLoop_notEOF_bound q start n : forall s v l col t st,
  String.length s <= n ->
  stringLoop q start s v l col = Ok (t, st) -> notEOF t.
Proof.
  induction n as [|n IH]; intros s v l col t st Hn;
    destruct s as [|c r]; cbn [stringLoop]; try discriminate;
    [cbn in Hn; lia|].
  destruct (Ascii.eqb c q); [intros [= <- _]; discriminate|].
  destruct (Ascii.eqb c "\").
  - destruct r as [|e r']; [discriminate|]. apply IH. cbn in *. lia.
  - destruct (Ascii.eqb c "010"); apply IH; cbn in *; lia.
Qed.

Lemma stringLoop_notEOF q start s v l col t st :
  stringLoop q start s v l col = Ok (t, st) -> notEOF t.
Proof. now apply stringLoop_notEOF_bound with (n := String.length s). Qed.

Lemma multiLineLoop_notEOF start s : forall v l col t st,
  multiLineLoop start s v l col = Ok (t, st) -> notEOF t.
Proof.
  induction s as [|c tl IH]; intros v l col t st; cbn [multiLineLoop];
    [discriminate|].
  destruct tl as [|c1 [|c2 r]]; try discriminate.
  destruct (_ && _); [intros [= <- _]; discriminate|].
  destruct (Ascii.eqb c "010"); apply IH.
Qed.

Lemma blockLoop_notEOF start s : forall v l col,
  notEOF (fst (blockLoop start s v l col)).
Proof.
  induction s as [|c tl IH]; intros v l col; cbn [blockLoop];
    [discriminate|].
  destruct tl as [|c1 r]; [discriminate|].
  destruct (_ && _); [discriminate|].
  destruct (Ascii.eqb c "010"); apply IH.
Qed.

Lemma nextToken_notEOF s : forall l col t st,
  nextToken s l col = Ok (t, st) -> notEOF t.
Proof.
  induction s as [|c r IH]; intros l col t st; cbn [nextToken];
    [discriminate|].
  repeat match goal with
         | |- (if ?b then _ else _) = _ -> _ => destruct b
         | |- single _ _ = _ -> _ =>
             unfold single, advance; cbn; intros [= <- _]; discriminate
         | |- double _ _ = _ -> _ =>
             unfold double, advance; cbn; destruct r;
             intros [= <- _]; discriminate
         end.
  - unfold readComment, advance. cbn. destruct r; cbn;
      try match goal with
          | |- context [span ?p ?s] => destruct (span p s)
          end; intros [= <- _]; discriminate.
  - unfold readBlockComment.
    destruct (advance _) as [x st1]. destruct (advance st1) as [y st2].
    intros [= E]. apply (f_equal fst) in E. cbn [fst] in E.
    rewrite <- E. apply blockLoop_notEOF.
  - unfold readMultiLineString.
    destruct (advance _) as [x st1]. destruct (advance st1) as [y st2].
    destruct (advance st2) as [z st3]. apply multiLineLoop_notEOF.
  - unfold readString.
    destruct (advance _) as [x st1]. apply stringLoop_notEOF.
  - unfold readNumber.
    match goal with
    | |- context [span ?p ?s] => destruct (span p s)
    end. intros [= <- _]; discriminate.
  - unfold readIdentifier.
    match goal with
    | |- context [span ?p ?s] => destruct (span p s)
    end. intros [= <- _]. unfold notEOF. cbn.
    match goal with
    | |- (if ?b then _ else _) <> _ => destruct b
    end; [apply getKeywordType_notEOF|discriminate].
  - apply IH.
  - discriminate.
Qed.

(** One turn of the loop of [tokenize]. *)
Lemma tokens_step fuel st acc s col t st2 :
  input st <> EmptyString ->
  skipBlanks (input st) (atColumn st) = (s, col) ->
  nextToken s (atLine st) col = Ok (t, st2) ->
  tokens (S fuel) st acc = tokens fuel st2 (acc ++ [t]).
Proof.
  intros Hne Hb Hn. cbn [tokens]. unfold skipWhitespace. rewrite Hb.
  cbn [input atLine atColumn]. rewrite Hn.
  destruct (input st); [contradiction|].
  destruct s; [discriminate|reflexivity].
Qed.

Lemma tokens_throw fuel st acc s col e :
  input st <> EmptyString ->
  skipBlanks (input st) (atColumn st) = (s, col) ->
  s <> EmptyString ->
  nextToken s (atLine st) col = Throw e ->
  tokens (S fuel) st acc = Some (Throw e).
Proof.
  intros Hne Hb Hs Hn. cbn [tokens]. unfold skipWhitespace. rewrite Hb.
  cbn [input atLine atColumn]. rewrite Hn.
  destruct (input st); [contradiction|].
  destruct s; [contradiction|reflexivity].
Qed.

Lemma tokens_end fuel st acc :
  input st = EmptyString ->
  tokens (S fuel) st acc
  = Some (Ok (acc ++ [eofAt (atLine st) (atColumn st)])).
Proof. intros H. cbn [tokens]. now rewrite H. Qed.

Lemma tokens_total fuel : forall st acc,
  String.length (input st) < fuel ->
  Forall notEOF acc ->
  exists r,
    tokens fuel st acc = Some r
    /\ forall ts, r = Ok ts ->
         exists body l col, ts = body ++ [eofAt l col] /\ Forall notEOF body.
Proof.
  induction fuel as [|fuel IH]; intros st acc Hlen Hacc; [lia|].
  cbn [tokens].
  destruct (Str.isEmpty (input st)).
  { eexists. split; [reflexivity|]. intros ts [= <-].
    now exists acc, (atLine st), (atColumn st). }
  pose proof (skipBlanks_length (input st) (atColumn st)) as Hs.
  unfold skipWhitespace.
  destruct (skipBlanks (input st) (atColumn st)) as [s col] eqn:E.
  cbn [input atLine atColumn fst] in *.
  destruct (Str.isEmpty s).
  { eexists. split; [reflexivity|]. intros ts [= <-].
    now exists acc, (atLine st), col. }
  pose proof (nextToken_leaves s (atLine st) col) as Hl.
  pose proof (nextToken_notEOF s (atLine st) col) as Hn.
  destruct (nextToken s (atLine st) col) as [[t st2]|e].
  - apply IH; [cbn in Hl; lia|].
    apply Forall_app. split; [exact Hacc|]. constructor; [|constructor].
    now apply (Hn t st2).
  - eexists. split; [reflexivity|]. discriminate.
Qed.

(** The lexer stops on every input: it throws or returns tokens; the
    tokens it returns end with the token [EOF], with an empty value, and
    hold no other token of that type. *)
Theorem tokenize_ends_with_eof (text : string) :
  exists r,
    tokenize text = Some r
    /\ forall ts, r = Ok ts ->
         exists body l col, ts = body ++ [eofAt l col] /\ Forall notEOF body.
Proof.
  unfold tokenize. apply tokens_total; [cbn; lia|constructor].
Qed.

End LexerFacts.

(** ** String literals *)

Module LiteralFacts.

Import Js Lexer LexerFacts.
Local Open Scope nat_scope.
Local Open Scope list_scope.

(** Every character of [s] is of the class [p]. *)
Fixpoint every (p : ascii -> bool) (s : string) : bool :=
  match s with
  | EmptyString => true
  | String c r => p c && every p r
  end.

(** A character that stands for itself between quotes [q]. *)
Definition plain (q c : ascii) : bool :=
  negb (Ascii.eqb c q) && negb (Ascii.eqb c "\") && negb (Ascii.eqb c "010").

Lemma append_assoc' (a b c : string) : ((a ++ b) ++ c = a ++ (b ++ c))%string.
Proof. induction a as [|x a IH]; cbn; [reflexivity|now rewrite IH]. Qed.

Lemma stringLoop_plain q start rest s : forall v l col,
  every (plain q) s = true ->
  stringLoop q start (s ++ String q rest) v l col
  = Ok ({| type := STRING; value := v ++ s; line := l; column := start |},
        {| input := rest; atLine := l;
           atColumn := S (col + String.length s) |}).
Proof.
  induction s as [|c s IH]; intros v l col H; cbn [append stringLoop].
  - rewrite Ascii.eqb_refl. cbn.
    rewrite Nat.add_0_r. do 3 f_equal.
    induction v as [|x v IHv]; cbn; [reflexivity|now rewrite <- IHv].
  - cbn [every] in H. apply andb_true_iff in H. destruct H as [Hc Hs].
    unfold plain in Hc.
    apply andb_true_iff in Hc. destruct Hc as [Hc H3].
    apply andb_true_iff in Hc. destruct Hc as [H1 H2].
    apply negb_true_iff in H1, H2, H3. rewrite H1, H2, H3.
    rewrite (IH _ _ _ Hs). cbn [String.length].
    rewrite append_assoc'. cbn [append].
    do 3 f_equal. lia.
Qed.

(** Comparisons of two known characters, decided. *)
Ltac decide_chars :=
  repeat match goal with
         | |- context [Ascii.eqb ?a ?b] =>
             is_ground a; is_ground b;
             let v := eval vm_compute in (Ascii.eqb a b) in
             change (Ascii.eqb a b) with v
         | |- context [isDigit ?a] =>
             is_ground a;
             let v := eval vm_compute in (isDigit a) in
             change (isDigit a) with v
         | |- context [isAlpha ?a] =>
             is_ground a;
             let v := eval vm_compute in (isAlpha a) in
             change (isAlpha a) with v
         | |- context [skipped ?a] =>
             is_ground a;
             let v := eval vm_compute in (skipped a) in
             change (skipped a) with v
         end.

(** A quotation mark or an apostrophe. *)
Definition isQuote (q : ascii) : bool := Ascii.eqb q quote || Ascii.eqb q "'".

(** The lexer gives back the text between two quotes: a text without
    the quote, without a backslash and without a line break, written
    between quotation marks or between apostrophes, is read as one token
    [STRING] whose value is the text, at line 1 and column 1, followed by
    [EOF] at the column after the closing quote. *)
Theorem string_literal_round_trip (q : ascii) (s : string) :
  isQuote q = true ->
  every (plain q) s = true ->
  tokenize (String q (s ++ String q EmptyString))
  = Some (Ok [{| type := STRING; value := s; line := 1; column := 1 |};
              eofAt 1 (String.length s + 3)]).
Proof.
  intros Hq Hs. unfold tokenize.
  assert (L : String.length (String q (s ++ String q EmptyString))
              = S (S (String.length s))).
  { cbn. f_equal. clear. induction s as [|c s IH]; cbn; [reflexivity|].
    now rewrite IH. }
  rewrite L.
  assert (N : nextToken (String q (s ++ String q EmptyString)) 1 1
              = Ok ({| type := STRING; value := s; line := 1; column := 1 |},
                    {| input := EmptyString; atLine := 1;
                       atColumn := String.length s + 3 |})).
  { assert (R : readString q {| input := String q (s ++ String q EmptyString);
                                atLine := 1; atColumn := 1 |}
                = Ok ({| type := STRING; value := s; line := 1; column := 1 |},
                      {| input := EmptyString; atLine := 1;
                         atColumn := String.length s + 3 |})).
    { unfold readString, advance. cbn [input atLine atColumn].
      rewrite (@stringLoop_plain q 1 EmptyString s EmptyString 1 2 Hs).
      cbn [append].
      do 3 f_equal. lia. }
    unfold isQuote in Hq. apply orb_true_iff in Hq.
    destruct Hq as [Hq|Hq]; apply Ascii.eqb_eq in Hq; subst q;
      cbn [nextToken]; unfold quote, peek; decide_chars;
      cbn [andb orb input].
    - destruct s as [|c s]; cbn [append String.get isChar andb].
      + exact R.
      + cbn [every] in Hs. apply andb_true_iff in Hs. destruct Hs as [Hc _].
        unfold plain in Hc.
        apply andb_true_iff in Hc. destruct Hc as [Hc _].
        apply andb_true_iff in Hc. destruct Hc as [Hc _].
        apply negb_true_iff in Hc. unfold quote in Hc. rewrite Hc.
        cbn [andb]. exact R.
    - exact R. }
  assert (B : skipBlanks (String q (s ++ String q EmptyString)) 1
              = (String q (s ++ String q EmptyString), 1)).
  { unfold isQuote in Hq. apply orb_true_iff in Hq.
    destruct Hq as [Hq|Hq]; apply Ascii.eqb_eq in Hq; subst q; reflexivity. }
  assert (Hne : input (create (String q (s ++ String q EmptyString)))
                <> EmptyString) by discriminate.
  rewrite (@tokens_step _ (create _) [] _ _ _ _ Hne B N).
  now rewrite tokens_end.
Qed.

Lemma string_literal_round_trip_witness :
  tokenize "'a b: {c}'"
  = Some (Ok [{| type := STRING; value := "a b: {c}"; line := 1;
                 column := 1 |};
              eofAt 1 11]).
Proof.
  exact (@string_literal_round_trip "'"%char "a b: {c}" eq_refl eq_refl).
Defined.

End LiteralFacts.

(** ** Words, line breaks and characters passed over *)

Module WordFacts.

Import Js Lexer LexerFacts LiteralFacts.
Local Open Scope nat_scope.
Local Open Scope list_scope.

(** The first character of a word, and the others. *)
Definition wordStart (c : ascii) : bool := isAlpha c || Ascii.eqb c "_".

Definition wordChar (c : ascii) : bool := isAlphaNumeric c || Ascii.eqb c "_".

Definition blank (c : ascii) : bool :=
  Ascii.eqb c " " || Ascii.eqb c "009" || Ascii.eqb c "013".

Lemma wordStart_not_digit c : wordStart c = true -> isDigit c = false.
Proof.
  unfold wordStart, isAlpha, isDigit, Str.isLower, Str.isUpper, Str.isDigit.
  destruct (Ascii.eqb c "_") eqn:E.
  - apply Ascii.eqb_eq in E. now subst.
  - rewrite orb_false_r. generalize (Str.code c). intros n H.
    destruct (Nat.leb_spec 48 n); destruct (Nat.leb_spec n 57);
      destruct (Nat.leb_spec 97 n); destruct (Nat.leb_spec n 122);
      destruct (Nat.leb_spec 65 n); destruct (Nat.leb_spec n 90);
      cbn in *; try reflexivity; try discriminate; lia.
Qed.

Lemma wordStart_wordChar c : wordStart c = true -> wordChar c = true.
Proof.
  unfold wordStart, wordChar, isAlphaNumeric. intros H.
  apply orb_true_iff in H. destruct H as [-> | ->];
    [reflexivity|apply orb_true_r].
Qed.

(** The characters that [nextToken] tests for before it looks for a word:
    none starts a word. *)
Ltac not_the_char c H :=
  repeat match goal with
         | |- context [Ascii.eqb c ?x] =>
             let E := fresh "E" in
             destruct (Ascii.eqb c x) eqn:E;
             [apply Ascii.eqb_eq in E; subst c; vm_compute in H;
              discriminate H|]
         end.

Lemma nextToken_word c r l col :
  wordStart c = true ->
  nextToken (String c r) l col
  = readIdentifier {| input := String c r; atLine := l; atColumn := col |}.
Proof.
  intros H. cbn [nextToken].
  pose proof (@wordStart_not_digit _ H) as D. rewrite D.
  unfold wordStart in H.
  replace (isAlpha c || Ascii.eqb c "_") with true.
  unfold quote. not_the_char c H. reflexivity.
Qed.

Lemma span_every p w rest :
  every p w = true ->
  match rest with String c _ => p c = false | EmptyString => True end ->
  span p (w ++ rest) = (w, rest).
Proof.
  intros Hw Hr. induction w as [|c w IH]; cbn [append span].
  - destruct rest as [|c r]; [reflexivity|]. cbn [span]. now rewrite Hr.
  - cbn [every] in Hw. apply andb_true_iff in Hw. destruct Hw as [-> Hw].
    now rewrite (IH Hw).
Qed.

Lemma keyword_type k :
  (if existsb (String.eqb k) keywords then getKeywordType k else IDENTIFIER)
  = getKeywordType k.
Proof.
  destruct (existsb (String.eqb k) keywords) eqn:E; [reflexivity|].
  unfold getKeywordType.
  repeat match goal with
         | |- _ = (if String.eqb k ?x then _ else _) =>
             let F := fresh "F" in
             destruct (String.eqb k x) eqn:F;
             [apply String.eqb_eq in F; subst k; discriminate E|]
         | |- _ = (if String.eqb k ?x || String.eqb k ?y then _ else _) =>
             let F := fresh "F" in
             let G := fresh "G" in
             destruct (String.eqb k x) eqn:F;
             [apply String.eqb_eq in F; subst k; discriminate E|];
             destruct (String.eqb k y) eqn:G;
             [apply String.eqb_eq in G; subst k; discriminate E|]
         end.
  reflexivity.
Qed.

(** The token of the word [w], at line [l] and column [col]. *)
Definition wordToken (w : string) (l col : nat) : Token :=
  {| type := getKeywordType (Str.toLowerCase w); value := w;
     line := l; column := col |}.

Lemma readIdentifier_word c w rest l col :
  every wordChar (String c w) = true ->
  match rest with String d _ => wordChar d = false | EmptyString => True end ->
  readIdentifier {| input := String c w ++ rest; atLine := l;
                    atColumn := col |}
  = Ok (wordToken (String c w) l col,
        {| input := rest; atLine := l;
           atColumn := col + String.length (String c w) |}).
Proof.
  intros Hw Hr. unfold readIdentifier. cbn [input atLine atColumn].
  fold wordChar. rewrite (@span_every wordChar _ rest Hw Hr).
  now rewrite keyword_type.
Qed.

(** A word, a letter or an underscore followed by letters, digits and
    underscores, is read as one token that carries the word as written.
    Its type is found from the word in lower case: the keywords
    [workflow], [param], [var], [node], [module] and [connect] are known
    in any mix of cases, so are [true] and [false], which give [BOOLEAN];
    every other word is an [IDENTIFIER]. *)
Theorem word_lexes_to_one_token (c : ascii) (w : string) :
  wordStart c = true ->
  every wordChar w = true ->
  tokenize (String c w)
  = Some (Ok [wordToken (String c w) 1 1; eofAt 1 (String.length w + 2)]).
Proof.
  intros Hc Hw. unfold tokenize.
  assert (Hall : every wordChar (String c w) = true).
  { cbn [every]. now rewrite (@wordStart_wordChar _ Hc). }
  assert (B : skipBlanks (String c w) 1 = (String c w, 1)).
  { cbn [skipBlanks]. unfold wordStart in Hc.
    not_the_char c Hc. reflexivity. }
  assert (N : nextToken (String c w) 1 1
              = Ok (wordToken (String c w) 1 1,
                    {| input := EmptyString; atLine := 1;
                       atColumn := 1 + String.length (String c w) |})).
  { rewrite (@nextToken_word _ _ _ _ Hc).
    pose proof (@readIdentifier_word c w EmptyString 1 1 Hall I) as R.
    replace (String c w ++ EmptyString)%string with (String c w) in R; [exact R|].
    clear. generalize (String c w). intros s.
    induction s as [|x s IH]; cbn; [reflexivity|now rewrite <- IH]. }
  assert (Hne : input (create (String c w)) <> EmptyString) by discriminate.
  cbn [String.length].
  rewrite (@tokens_step _ (create _) [] _ _ _ _ Hne B N).
  rewrite tokens_end by reflexivity. cbn [atLine atColumn app String.length].
  do 4 f_equal. unfold eofAt. f_equal. lia.
Qed.

Lemma word_lexes_to_one_token_witness :
  tokenize "Workflow"
  = Some (Ok [{| type := WORKFLOW; value := "Workflow"; line := 1;
                 column := 1 |}; eofAt 1 9])
  /\ tokenize "TRUE"
     = Some (Ok [{| type := BOOLEAN; value := "TRUE"; line := 1;
                    column := 1 |}; eofAt 1 5]).
Proof.
  split.
  - exact (@word_lexes_to_one_token "W"%char "orkflow" eq_refl eq_refl).
  - exact (@word_lexes_to_one_token "T"%char "RUE" eq_refl eq_refl).
Defined.

Definition lineBreak : ascii := "010"%char.

(** After a line break the columns are counted from 2: of two words on
    two lines, the first is at line 1 and column 1 and the second at line
    2 and column 2, the line break between them being a token [NEWLINE]
    at line 2 and column 1. *)
Theorem columns_after_line_break (c d : ascii) (w v : string) :
  wordStart c = true -> every wordChar w = true ->
  wordStart d = true -> every wordChar v = true ->
  tokenize (String c w ++ String lineBreak (String d v))
  = Some (Ok [wordToken (String c w) 1 1;
              {| type := NEWLINE; value := String lineBreak EmptyString;
                 line := 2; column := 1 |};
              wordToken (String d v) 2 2;
              eofAt 2 (String.length v + 3)]).
Proof.
  intros Hc Hw Hd Hv. unfold tokenize.
  assert (Hallc : every wordChar (String c w) = true).
  { cbn [every]. now rewrite (@wordStart_wordChar _ Hc). }
  assert (Halld : every wordChar (String d v) = true).
  { cbn [every]. now rewrite (@wordStart_wordChar _ Hd). }
  set (rest := String lineBreak (String d v)).
  assert (L : String.length (String c w ++ rest)%string
              = S (S (S (String.length w + String.length v)))).
  { clear. cbn. f_equal. induction w as [|x w IH]; cbn; [reflexivity|].
    now rewrite IH. }
  rewrite L.
  (* the first word *)
  assert (B1 : skipBlanks (String c w ++ rest)%string 1 = ((String c w ++ rest)%string, 1)).
  { cbn [append skipBlanks]. unfold wordStart in Hc.
    not_the_char c Hc. reflexivity. }
  assert (N1 : nextToken (String c w ++ rest)%string 1 1
               = Ok (wordToken (String c w) 1 1,
                     {| input := rest; atLine := 1;
                        atColumn := 1 + String.length (String c w) |})).
  { cbn [append]. rewrite (@nextToken_word _ _ _ _ Hc).
    exact (@readIdentifier_word c w rest 1 1 Hallc eq_refl). }
  assert (Hne1 : input (create (String c w ++ rest)%string) <> EmptyString)
    by discriminate.
  rewrite (@tokens_step _ (create _) [] _ _ _ _ Hne1 B1 N1).
  (* the line break *)
  rewrite (@tokens_step _ _ _ rest (1 + String.length (String c w))
             {| type := NEWLINE; value := String lineBreak EmptyString;
                line := 2; column := 1 |}
             {| input := String d v; atLine := 2; atColumn := 2 |});
    [|discriminate|reflexivity|reflexivity].
  (* the second word *)
  assert (B2 : skipBlanks (String d v) 2 = (String d v, 2)).
  { cbn [skipBlanks]. unfold wordStart in Hd.
    not_the_char d Hd. reflexivity. }
  assert (N2 : nextToken (String d v) 2 2
               = Ok (wordToken (String d v) 2 2,
                     {| input := EmptyString; atLine := 2;
                        atColumn := 2 + String.length (String d v) |})).
  { rewrite (@nextToken_word _ _ _ _ Hd).
    pose proof (@readIdentifier_word d v EmptyString 2 2 Halld I) as R.
    replace (String d v ++ EmptyString)%string with (String d v) in R;
      [exact R|].
    clear. generalize (String d v). intros s.
    induction s as [|x s IH]; cbn; [reflexivity|now rewrite <- IH]. }
  assert (Hne2 : input {| input := String d v; atLine := 2; atColumn := 2 |}
                 <> EmptyString) by discriminate.
  rewrite (@tokens_step _ _ _ _ _ _ _ Hne2 B2 N2).
  rewrite tokens_end by reflexivity. cbn [atLine atColumn app String.length].
  do 6 f_equal. unfold eofAt. f_equal. lia.
Qed.

Lemma columns_after_line_break_witness :
  tokenize ("a" ++ String lineBreak "b")
  = Some (Ok [wordToken "a" 1 1;
              {| type := NEWLINE; value := String lineBreak EmptyString;
                 line := 2; column := 1 |};
              wordToken "b" 2 2;
              eofAt 2 3]).
Proof.
  exact (@columns_after_line_break "a"%char "b"%char EmptyString EmptyString
           eq_refl eq_refl eq_refl eq_refl).
Defined.

(** What [String.get 0] reads of a text. *)
Definition first (s : string) : option ascii := String.get 0 s.

(** A character that [nextToken] passes over makes the lexer throw when
    the input ends after it or goes on with a blank: the token is then
    looked for at the next place without skipping blanks, and the end of
    the input is read as the character [undefined]. *)
Theorem skipped_character_then_blank_throws (fuel : nat) (st : State)
  (acc : list Token) (c : ascii) (r : string) :
  skipped c = true ->
  input (skipWhitespace st) = String c r ->
  match r with String d _ => blank d = true | EmptyString => True end ->
  tokens (S fuel) st acc
  = Some (Throw (unexpected (first r) (atLine st)
                   (S (atColumn (skipWhitespace st))))).
Proof.
  intros Hc Hin Hr.
  assert (Hne : input st <> EmptyString).
  { intros E. unfold skipWhitespace in Hin. rewrite E in Hin.
    discriminate Hin. }
  unfold skipWhitespace in *.
  destruct (skipBlanks (input st) (atColumn st)) as [s col] eqn:B.
  cbn [input atColumn] in *. subst s.
  apply (@tokens_throw fuel st acc (String c r) col _ Hne B);
    [discriminate|].
  assert (Hnext : nextToken (String c r) (atLine st) col
                  = nextToken r (atLine st) (S col)).
  { unfold skipped in Hc.
    destruct r as [|d r'].
    - repeat (apply orb_true_iff in Hc; destruct Hc as [Hc|Hc]);
        apply Ascii.eqb_eq in Hc; subst c; reflexivity.
    - unfold blank in Hr.
      assert (Hd : d = " "%char \/ d = "009"%char \/ d = "013"%char).
      { repeat (apply orb_true_iff in Hr; destruct Hr as [Hr|Hr]);
          apply Ascii.eqb_eq in Hr; auto. }
      repeat (apply orb_true_iff in Hc; destruct Hc as [Hc|Hc]);
        apply Ascii.eqb_eq in Hc; subst c;
        destruct Hd as [-> | [-> | ->]]; reflexivity. }
  rewrite Hnext. destruct r as [|d r']; [reflexivity|].
  unfold blank in Hr.
  repeat (apply orb_true_iff in Hr; destruct Hr as [Hr|Hr]);
    apply Ascii.eqb_eq in Hr; subst d; reflexivity.
Qed.

Lemma skipped_character_then_blank_throws_witness :
  tokenize "a * b"
  = Some (Throw (Error "Unexpected character ' ' at line 1, column 4"))
  /\ tokenize "a *"
     = Some (Throw (Error "Unexpected character 'undefined' at line 1, column 4")).
Proof.
  split.
  - unfold tokenize. cbn [String.length].
    rewrite (@tokens_step _ (create "a * b") [] "a * b" 1
               (wordToken "a" 1 1)
               {| input := " * b"; atLine := 1; atColumn := 2 |});
      [|discriminate|reflexivity|reflexivity].
    exact (@skipped_character_then_blank_throws 4
             {| input := " * b"; atLine := 1; atColumn := 2 |}
             ([] ++ [wordToken "a" 1 1]) "*"%char " b" eq_refl eq_refl eq_refl).
  - unfold tokenize. cbn [String.length].
    rewrite (@tokens_step _ (create "a *") [] "a *" 1
               (wordToken "a" 1 1)
               {| input := " *"; atLine := 1; atColumn := 2 |});
      [|discriminate|reflexivity|reflexivity].
    exact (@skipped_character_then_blank_throws 2
             {| input := " *"; atLine := 1; atColumn := 2 |}
             ([] ++ [wordToken "a" 1 1]) "*"%char EmptyString
             eq_refl eq_refl I).
Defined.

End WordFacts.

(** ** The parser *)

Module ParserFacts.

Import Js Lexer LexerFacts Parser.
Local Open Scope nat_scope.
Local Open Scope list_scope.
Local Open Scope parse_scope.

(** *** Expressions without calls *)

Fixpoint callFree (e : Dsl.Expression) : bool :=
  match e with
  | Dsl.FunctionCallExpression _ _ => false
  | Dsl.ObjectExpression ps => forallb (fun '(_, v) => callFree v) ps
  | Dsl.ArrayExpression es => forallb callFree es
  | _ => true
  end.

Definition allFree (ps : Properties) : bool :=
  forallb (fun '(_, v) => callFree v) ps.

Definition keys (ps : Properties) : list string := map fst ps.

(** *** Assignments *)

Lemma hasKey_In {A} k (o : list (string * A)) :
  hasKey k o = true <-> In k (map fst o).
Proof.
  induction o as [|[k' v'] o IH]; cbn; [split; [discriminate|tauto]|].
  rewrite orb_true_iff, IH, String.eqb_eq. split; intros [H|H]; auto.
Qed.

Lemma replace_keys {A} k (v : A) o : map fst (replace k v o) = map fst o.
Proof.
  induction o as [|[k' v'] o IH]; cbn; [reflexivity|].
  destruct (String.eqb k k') eqn:E; cbn.
  - apply String.eqb_eq in E. now subst.
  - now rewrite IH.
Qed.

Lemma insertIndex_In {A} i k (v : A) o x :
  In x (map fst (insertIndex i k v o)) <-> x = k \/ In x (map fst o).
Proof.
  induction o as [|[k' v'] o IH]; cbn.
  - intuition.
  - destruct (arrayIndex k') as [j|]; [destruct (j <? i)%Z|]; cbn;
      try rewrite IH; intuition.
Qed.

Lemma insertIndex_NoDup {A} i k (v : A) o :
  ~ In k (map fst o) -> NoDup (map fst o) ->
  NoDup (map fst (insertIndex i k v o)).
Proof.
  induction o as [|[k' v'] o IH]; cbn; intros Hk Hn.
  - constructor; [tauto|constructor].
  - inversion Hn as [|? ? Hx Hr]; subst.
    assert (G : NoDup (k :: k' :: map fst o)).
    { constructor; [cbn; tauto|exact Hn]. }
    destruct (arrayIndex k') as [j|]; [destruct (j <? i)%Z|]; cbn; auto.
    constructor.
    + rewrite insertIndex_In. intros [E|E]; [subst; tauto|tauto].
    + apply IH; tauto.
Qed.

Lemma assign_NoDup k (v : Dsl.Expression) o :
  NoDup (keys o) -> NoDup (keys (assign k v o)).
Proof.
  unfold assign, keys. intros Hn.
  destruct (String.eqb k "__proto__"); [exact Hn|].
  destruct (hasKey k o) eqn:E.
  - now rewrite replace_keys.
  - assert (Hk : ~ In k (map fst o)).
    { rewrite <- hasKey_In, E. discriminate. }
    destruct (arrayIndex k) as [i|].
    + now apply insertIndex_NoDup.
    + rewrite map_app. cbn. apply NoDup_app; [exact Hn|repeat constructor; tauto|].
      intros x Hx [<-|[]]. tauto.
Qed.

Lemma replace_allFree k v o :
  callFree v = true -> allFree o = true -> allFree (replace k v o) = true.
Proof.
  unfold allFree. intros Hv.
  induction o as [|[k' v'] o IH]; cbn; [reflexivity|].
  rewrite andb_true_iff. intros [H1 H2].
  destruct (String.eqb k k'); cbn; rewrite ?Hv, ?H1, ?H2, ?IH; auto.
Qed.

Lemma insertIndex_allFree i k v o :
  callFree v = true -> allFree o = true -> allFree (insertIndex i k v o) = true.
Proof.
  unfold allFree. intros Hv.
  induction o as [|[k' v'] o IH]; cbn; [now rewrite Hv|].
  rewrite andb_true_iff. intros [H1 H2].
  destruct (arrayIndex k') as [j|]; [destruct (j <? i)%Z|]; cbn;
    rewrite ?Hv, ?H1, ?H2, ?IH; auto.
Qed.

Lemma assign_allFree k v o :
  callFree v = true -> allFree o = true -> allFree (assign k v o) = true.
Proof.
  unfold assign. intros Hv Ho.
  destruct (String.eqb k "__proto__"); [exact Ho|].
  destruct (hasKey k o).
  - now apply replace_allFree.
  - destruct (arrayIndex k) as [i|].
    + now apply insertIndex_allFree.
    + unfold allFree in *. rewrite forallb_app, Ho. cbn. now rewrite Hv.
Qed.

(** *** Runs of a parsing method

    The tokens of a parser end with the token [EOF] and hold no other
    of that type. *)

Definition wellFormed (tokens : list Token) : Prop :=
  exists body l col, tokens = body ++ [eofAt l col] /\ Forall notEOF body.

(** The text of a [ParseError] made at the token [t]. *)
Definition located (what : string) (t : Token) : string :=
  (what ++ " at line " ++ show (line t) ++ ", column " ++ show (column t))%string.

(** A [ParseError] that a parsing method makes: at a token of the parser,
    and not the one that wraps another exception. *)
Definition reported (tokens : list Token) (message : string) (t : Token)
  : Prop :=
  In t tokens
  /\ exists what,
       message = located what t
       /\ Str.startsWith "Unexpected error" what = false.

Section Runs.

Variable tokens : list Token.
Hypothesis WF : wellFormed tokens.

Let n : nat := List.length tokens.

Local Abbreviation getCurrentToken := (Parser.getCurrentToken tokens).
Local Abbreviation previous := (Parser.previous tokens).
Local Abbreviation isAtEnd := (Parser.isAtEnd tokens).
Local Abbreviation check := (Parser.check tokens).
Local Abbreviation advance := (Parser.advance tokens).
Local Abbreviation matchType := (Parser.matchType tokens).
Local Abbreviation expect := (Parser.expect tokens).
Local Abbreviation expectValue := (Parser.expectValue tokens).
Local Abbreviation advanceValue := (Parser.advanceValue tokens).
Local Abbreviation previousValue := (Parser.previousValue tokens).
Local Abbreviation here := (Parser.here tokens).
Local Abbreviation unexpectedToken := (Parser.unexpectedToken tokens).
Local Abbreviation parsePrimary := (Parser.parsePrimary tokens).
Local Abbreviation parseTemplateExpression := (Parser.parseTemplateExpression tokens).
Local Abbreviation objectTurn := (Parser.objectTurn tokens).
Local Abbreviation parseObject := (Parser.parseObject tokens).
Local Abbreviation arrayTurn := (Parser.arrayTurn tokens).
Local Abbreviation parseArray := (Parser.parseArray tokens).
Local Abbreviation parseExpression := (Parser.parseExpression tokens).
Local Abbreviation objectLoop := (Parser.objectLoop tokens).
Local Abbreviation arrayLoop := (Parser.arrayLoop tokens).
Local Abbreviation parseParameter := (Parser.parseParameter tokens).
Local Abbreviation parseVariable := (Parser.parseVariable tokens).
Local Abbreviation parametersLoop := (Parser.parametersLoop tokens).
Local Abbreviation parseNode := (Parser.parseNode tokens).
Local Abbreviation parseModule := (Parser.parseModule tokens).
Local Abbreviation portName := (Parser.portName tokens).
Local Abbreviation parseConnection := (Parser.parseConnection tokens).
Local Abbreviation workflowLoop := (Parser.workflowLoop tokens).
Local Abbreviation parseWorkflow := (Parser.parseWorkflow tokens).
Local Abbreviation parseProgram := (Parser.parseProgram tokens).
Local Abbreviation parseWithin := (Parser.parseWithin tokens).
Local Abbreviation parse := (Parser.parse tokens).

(** [m] at [c] ends, with a result that meets [Q] or with a [ParseError]
    of its own. *)
Definition runs {A} (m : P A) (c : nat) (Q : A -> nat -> Prop) : Prop :=
  exists o,
    m c = Some o
    /\ match o with
       | Done a c' => Q a c'
       | Fail (ParseError message t) _ => reported tokens message t
       | Fail (Other _) _ => False
       end.

Lemma runs_ret {A} (a : A) c (Q : A -> nat -> Prop) :
  Q a c -> runs (ret a) c Q.
Proof. intros H. eexists. split; [reflexivity|exact H]. Qed.

Lemma runs_bind {A B} (m : P A) (k : A -> P B) c
  (Q : A -> nat -> Prop) (R : B -> nat -> Prop) :
  runs m c Q ->
  (forall a c', Q a c' -> runs (k a) c' R) ->
  runs (bind m k) c R.
Proof.
  intros (o & Hm & Ho) Hk. unfold runs, bind. rewrite Hm.
  destruct o as [a c'|t c'].
  - exact (Hk a c' Ho).
  - eexists. split; [reflexivity|exact Ho].
Qed.

Lemma runs_weaken {A} (m : P A) c (Q R : A -> nat -> Prop) :
  runs m c Q -> (forall a c', Q a c' -> R a c') -> runs m c R.
Proof.
  intros (o & Hm & Ho) H. exists o. split; [exact Hm|].
  destruct o as [a c'|[msg t|e] c']; auto.
Qed.

Lemma runs_current {A} (k : option Token -> P A) c t
  (Q : A -> nat -> Prop) :
  nth_error tokens c = Some t ->
  runs (k (Some t)) c Q -> runs (bind getCurrentToken k) c Q.
Proof.
  intros Ht H. unfold runs, bind, Parser.getCurrentToken. rewrite Ht.
  exact H.
Qed.

Lemma runs_read {A B} name (f : Token -> A) t (k : A -> P B) c
  (Q : B -> nat -> Prop) :
  runs (k (f t)) c Q -> runs (bind (field name f (Some t)) k) c Q.
Proof. intros H. exact H. Qed.

(** The token at [c] is there and is not the last. *)
Definition live (c : nat) : Prop :=
  exists t, nth_error tokens c = Some t /\ sameType (type t) EOF = false.

Lemma sameType_EOF t : sameType (type t) EOF = false <-> notEOF t.
Proof.
  unfold notEOF. destruct (type t); cbn; split; intros H;
    try reflexivity; try discriminate; try (exfalso; apply H; reflexivity).
Qed.

Lemma token_at c : c < n -> exists t, nth_error tokens c = Some t.
Proof.
  intros H. destruct (nth_error tokens c) as [t|] eqn:E; [now exists t|].
  apply nth_error_None in E. unfold n in H. lia.
Qed.

Lemma live_next c : live c -> S c < n.
Proof.
  intros (t & Ht & Hne). destruct WF as (body & l & col & -> & Hb).
  unfold n. rewrite length_app. cbn.
  assert (Hc : c < List.length (body ++ [eofAt l col])).
  { apply nth_error_Some. now rewrite Ht. }
  rewrite length_app in Hc. cbn in Hc.
  destruct (Nat.eq_dec c (List.length body)) as [->|]; [|lia].
  rewrite nth_error_app2, Nat.sub_diag in Ht by lia.
  injection Ht as <-. discriminate Hne.
Qed.

Lemma live_before c : live c -> c < n.
Proof. intros H. apply live_next in H. lia. Qed.

Lemma in_tokens c t : nth_error tokens c = Some t -> In t tokens.
Proof. apply nth_error_In. Qed.

Lemma runs_field {A} name (f : Token -> A) t c :
  runs (field name f (Some t)) c (fun a c' => a = f t /\ c' = c).
Proof. apply runs_ret. auto. Qed.

Lemma runs_throw {A} what c t (Q : A -> nat -> Prop) :
  In t tokens -> Str.startsWith "Unexpected error" what = false ->
  runs (throwParseError what (Some t)) c Q.
Proof.
  intros Hin Hw. eexists. split; [reflexivity|].
  split; [exact Hin|]. now exists what.
Qed.

Lemma runs_isAtEnd c :
  c < n -> runs isAtEnd c (fun b c' => c' = c /\ (b = false -> live c)).
Proof.
  intros H. destruct (token_at H) as (t & Ht).
  unfold Parser.isAtEnd. apply (runs_current _ Ht). apply runs_read.
  apply runs_ret. split; [reflexivity|]. intros E. now exists t.
Qed.

Lemma runs_check ty c :
  c < n -> runs (check ty) c (fun b c' => c' = c /\ (b = true -> live c)).
Proof.
  intros H. unfold Parser.check.
  eapply runs_bind; [apply (runs_isAtEnd H)|]. intros e c' [-> He].
  destruct e.
  - apply runs_ret. split; [reflexivity|discriminate].
  - destruct (token_at H) as (t & Ht).
    apply (runs_current _ Ht). apply runs_read.
    apply runs_ret. split; [reflexivity|]. intros _. now apply He.
Qed.

Lemma runs_advance c :
  live c -> runs advance c (fun t c' => c' = S c /\ t <> None).
Proof.
  intros (t & Ht & Hne). exists (Done (Some t) (S c)). split.
  - unfold Parser.advance, Parser.isAtEnd, bind, Parser.getCurrentToken,
      Parser.previous.
    rewrite Ht. cbn. rewrite Hne. cbn. now rewrite Ht.
  - split; [reflexivity|discriminate].
Qed.

Lemma runs_value (t : option Token) c :
  t <> None -> runs (field "value" value t) c (fun _ c' => c' = c).
Proof.
  destruct t as [t|]; [|contradiction]. intros _. now apply runs_ret.
Qed.

Lemma runs_advanceValue c :
  live c -> runs advanceValue c (fun _ c' => c' = S c).
Proof.
  intros H. unfold Parser.advanceValue.
  eapply runs_bind; [apply (runs_advance H)|]. intros t c' [-> Ht].
  now apply runs_value.
Qed.

Lemma runs_matchType ty c :
  c < n ->
  runs (matchType ty) c
    (fun b c' => if b then c' = S c /\ c' < n else c' = c).
Proof.
  intros H. unfold Parser.matchType.
  eapply runs_bind; [apply (runs_check ty H)|]. intros b c' [-> Hb].
  destruct b.
  - specialize (Hb eq_refl).
    eapply runs_bind; [apply (runs_advance Hb)|]. intros t c' [-> _].
    apply runs_ret. split; [reflexivity|now apply live_next].
  - now apply runs_ret.
Qed.

Lemma runs_expect ty c :
  c < n ->
  runs (expect ty) c (fun t c' => c' = S c /\ c' < n /\ t <> None).
Proof.
  intros H. unfold Parser.expect.
  eapply runs_bind; [apply (runs_check ty H)|]. intros b c' [-> Hb].
  destruct b.
  - specialize (Hb eq_refl).
    eapply runs_weaken; [apply (runs_advance Hb)|].
    intros t c' [-> Ht]. repeat split; auto. now apply live_next.
  - destruct (token_at H) as (t & Ht).
    apply (runs_current _ Ht). apply runs_read. apply (runs_current _ Ht).
    apply runs_throw; [now apply (in_tokens c)|].
    destruct ty; reflexivity.
Qed.

Lemma runs_expectValue ty c :
  c < n -> runs (expectValue ty) c (fun _ c' => c' = S c /\ c' < n).
Proof.
  intros H. unfold Parser.expectValue.
  eapply runs_bind; [apply (runs_expect ty H)|]. intros t c' (-> & Hn & Ht).
  eapply runs_weaken; [apply (runs_value _ Ht)|]. intros _ c' ->. auto.
Qed.

Lemma runs_previousValue c :
  c < n -> runs previousValue (S c) (fun _ c' => c' = S c).
Proof.
  intros H. destruct (token_at H) as (t & Ht).
  exists (Done (value t) (S c)). split; [|reflexivity].
  unfold Parser.previousValue, bind, Parser.previous. now rewrite Ht.
Qed.

Lemma runs_here c : c < n -> runs here c (fun _ c' => c' = c).
Proof.
  intros H. destruct (token_at H) as (t & Ht).
  unfold Parser.here. apply (runs_current _ Ht). apply runs_read.
  apply (runs_current _ Ht). apply runs_read. now apply runs_ret.
Qed.

Lemma runs_at {A} what c (Q : A -> nat -> Prop) :
  c < n -> Str.startsWith "Unexpected error" what = false ->
  runs (t <- getCurrentToken ;; throwParseError what t) c Q.
Proof.
  intros H Hw. destruct (token_at H) as (t & Ht).
  apply (runs_current _ Ht).
  apply runs_throw; [now apply (in_tokens c)|exact Hw].
Qed.

Lemma runs_unexpectedToken {A} c (Q : A -> nat -> Prop) :
  c < n -> runs unexpectedToken c Q.
Proof.
  intros H. destruct (token_at H) as (t & Ht).
  unfold Parser.unexpectedToken. apply (runs_current _ Ht). apply runs_read.
  apply (runs_current _ Ht).
  apply runs_throw; [now apply (in_tokens c)|reflexivity].
Qed.

(** *** Expressions *)

Definition moved (c : nat) (ok : Dsl.Expression -> Prop)
  : Dsl.Expression -> nat -> Prop :=
  fun e c' => c < c' /\ c' < n /\ ok e.

Definition free (e : Dsl.Expression) : Prop := callFree e = true.

Lemma runs_parsePrimary parseObject parseArray c :
  c < n ->
  (forall c', c' = S c -> c' < n -> runs parseObject c' (moved c free)) ->
  (forall c', c' = S c -> c' < n -> runs parseArray c' (moved c free)) ->
  runs (parsePrimary parseObject parseArray) c (moved c free).
Proof.
  intros H Ho Ha. unfold Parser.parsePrimary.
  assert (V : forall (f : string -> Dsl.Expression) c',
             (forall v, free (f v)) -> c' = S c /\ c' < n ->
             runs (v <- previousValue ;; ret (f v)) c' (moved c free)).
  { intros f c' Hf [-> Hn].
    eapply runs_bind; [apply (runs_previousValue H)|]. intros v c' ->.
    apply runs_ret. unfold moved. repeat split; auto. }
  eapply runs_bind; [apply (runs_matchType STRING H)|]. intros [] c1 H1.
  { apply V; [reflexivity|exact H1]. }
  subst c1.
  eapply runs_bind; [apply (runs_matchType NUMBER H)|]. intros [] c1 H1.
  { apply V; [reflexivity|exact H1]. }
  subst c1.
  eapply runs_bind; [apply (runs_matchType BOOLEAN H)|]. intros [] c1 H1.
  { apply V; [reflexivity|exact H1]. }
  subst c1.
  eapply runs_bind; [apply (runs_matchType IDENTIFIER H)|]. intros [] c1 H1.
  { apply V; [reflexivity|exact H1]. }
  subst c1.
  eapply runs_bind; [apply (runs_matchType LBRACE H)|]. intros [] c1 H1.
  { now apply Ho. }
  subst c1.
  eapply runs_bind; [apply (runs_matchType LBRACKET H)|]. intros [] c1 H1.
  { now apply Ha. }
  subst c1. now apply runs_unexpectedToken.
Qed.

Lemma runs_parseTemplateExpression primary c :
  c < n ->
  runs primary c (moved c free) ->
  runs (parseTemplateExpression primary) c (moved c free).
Proof.
  intros H Hp. unfold Parser.parseTemplateExpression.
  eapply runs_bind; [apply (runs_check STRING H)|]. intros [] c1 [-> Hl];
    [|exact Hp].
  specialize (Hl eq_refl). pose proof (live_next Hl) as Hn.
  eapply runs_bind; [apply (runs_advanceValue Hl)|]. intros v c1 ->.
  destruct (Str.includes "${" v);
    (eapply runs_bind; [apply (runs_here Hn)|]; intros _ c1 ->;
     apply runs_ret; unfold moved, free; repeat split; auto).
Qed.

Lemma runs_parseObject loop c :
  S c < n ->
  runs (loop []) (S c)
    (fun ps c' => c < c' /\ c' < n /\ allFree ps = true) ->
  runs (parseObject loop) (S c) (moved c free).
Proof.
  intros H Hl. unfold Parser.parseObject.
  eapply runs_bind; [exact Hl|]. intros ps c1 (H1 & H2 & Hps).
  eapply runs_bind; [apply (runs_expect RBRACE H2)|].
  intros _ c2 (-> & H3 & _).
  eapply runs_bind; [apply (runs_here H3)|]. intros _ c3 ->.
  apply runs_ret. unfold moved, free. repeat split; auto; lia.
Qed.

Lemma runs_parseArray loop c :
  S c < n ->
  runs (loop []) (S c)
    (fun es c' => c < c' /\ c' < n /\ forallb callFree es = true) ->
  runs (parseArray loop) (S c) (moved c free).
Proof.
  intros H Hl. unfold Parser.parseArray.
  eapply runs_bind; [exact Hl|]. intros es c1 (H1 & H2 & Hes).
  eapply runs_bind; [apply (runs_expect RBRACKET H2)|].
  intros _ c2 (-> & H3 & _).
  eapply runs_bind; [apply (runs_here H3)|]. intros _ c3 ->.
  apply runs_ret. unfold moved, free. repeat split; auto; lia.
Qed.

Lemma runs_objectTurn parseExpression again ps c c0 :
  c0 <= c -> c < n -> allFree ps = true ->
  (forall c', c < c' -> c' < n -> runs parseExpression c' (moved c' free)) ->
  (forall ps' c', c < c' -> c' < n -> allFree ps' = true ->
     runs (again ps') c'
       (fun r c'' => c0 <= c'' /\ c'' < n /\ allFree r = true)) ->
  runs (objectTurn parseExpression again ps) c
    (fun r c' => c0 <= c' /\ c' < n /\ allFree r = true).
Proof.
  intros H0 H Hps He Ha. unfold Parser.objectTurn.
  eapply runs_bind; [apply (runs_check RBRACE H)|]. intros [] c1 [-> _].
  { now apply runs_ret. }
  eapply runs_bind; [apply (runs_isAtEnd H)|]. intros [] c1 [-> _].
  { now apply runs_ret. }
  eapply runs_bind; [apply (runs_check IDENTIFIER H)|]. intros i c1 [-> Hi].
  eapply runs_bind with (Q := fun _ c' => c' = S c /\ c' < n).
  { destruct i.
    - specialize (Hi eq_refl).
      eapply runs_weaken; [apply (runs_advanceValue Hi)|].
      intros _ c1 ->. split; [reflexivity|now apply live_next].
    - eapply runs_bind; [apply (runs_check STRING H)|].
      intros [] c1 [-> Hs].
      + specialize (Hs eq_refl).
        eapply runs_weaken; [apply (runs_advanceValue Hs)|].
        intros _ c1 ->. split; [reflexivity|now apply live_next].
      + now apply runs_at. }
  intros key c1 [-> H1].
  eapply runs_bind; [apply (runs_expect COLON H1)|].
  intros _ c2 (-> & H2 & _).
  eapply runs_bind; [apply He; [lia|exact H2]|].
  intros v c3 (H3 & H4 & Hv).
  assert (Hps' : allFree (assign key v ps) = true)
    by now apply assign_allFree.
  eapply runs_bind; [apply (runs_matchType COMMA H4)|]. intros [] c4 H5.
  - destruct H5 as [-> H5]. apply Ha; [lia|exact H5|exact Hps'].
  - subst c4. apply runs_ret. repeat split; auto; lia.
Qed.

Lemma runs_arrayTurn parseExpression again es c c0 :
  c0 <= c -> c < n -> forallb callFree es = true ->
  (forall c', c <= c' -> c' < n -> runs parseExpression c' (moved c' free)) ->
  (forall es' c', c < c' -> c' < n -> forallb callFree es' = true ->
     runs (again es') c'
       (fun r c'' => c0 <= c'' /\ c'' < n /\ forallb callFree r = true)) ->
  runs (arrayTurn parseExpression again es) c
    (fun r c' => c0 <= c' /\ c' < n /\ forallb callFree r = true).
Proof.
  intros H0 H Hes He Ha. unfold Parser.arrayTurn.
  eapply runs_bind; [apply (runs_check RBRACKET H)|]. intros [] c1 [-> _].
  { now apply runs_ret. }
  eapply runs_bind; [apply (runs_isAtEnd H)|]. intros [] c1 [-> _].
  { now apply runs_ret. }
  eapply runs_bind; [apply He; [lia|exact H]|].
  intros v c3 (H3 & H4 & Hv).
  assert (Hes' : forallb callFree (es ++ [v]) = true).
  { rewrite forallb_app, Hes. cbn. unfold free in Hv. now rewrite Hv. }
  eapply runs_bind; [apply (runs_matchType COMMA H4)|]. intros [] c4 H5.
  - destruct H5 as [-> H5]. apply Ha; [lia|exact H5|exact Hes'].
  - subst c4. apply runs_ret. repeat split; auto; lia.
Qed.

(** With two steps for each token left, an expression is parsed to its
    end, and so is the rest of a list with one step more. *)
Lemma runs_expressions fuel :
  (forall c, c < n -> 2 * (n - c) <= fuel ->
     runs (parseExpression fuel) c (moved c free))
  /\ (forall ps c, c < n -> 2 * (n - c) + 1 <= fuel -> allFree ps = true ->
        runs (objectLoop fuel ps) c
          (fun r c' => c <= c' /\ c' < n /\ allFree r = true))
  /\ (forall es c, c < n -> 2 * (n - c) + 1 <= fuel ->
        forallb callFree es = true ->
        runs (arrayLoop fuel es) c
          (fun r c' => c <= c' /\ c' < n /\ forallb callFree r = true)).
Proof.
  induction fuel as [|fuel (IHe & IHo & IHa)].
  { repeat split; intros; lia. }
  repeat split.
  - intros c H Hf. cbn [Parser.parseExpression].
    apply runs_parseTemplateExpression; [exact H|].
    apply runs_parsePrimary; [exact H| |].
    + intros c' -> Hn. apply runs_parseObject; [exact Hn|].
      eapply runs_weaken; [apply IHo; [exact Hn|lia|reflexivity]|].
      cbn beta. intros r c' (? & ? & ?). repeat split; auto.
    + intros c' -> Hn. apply runs_parseArray; [exact Hn|].
      eapply runs_weaken; [apply IHa; [exact Hn|lia|reflexivity]|].
      cbn beta. intros r c' (? & ? & ?). repeat split; auto.
  - intros ps c H Hf Hps. cbn [Parser.objectLoop].
    apply runs_objectTurn; auto.
    + intros c' H1 H2. apply IHe; [exact H2|lia].
    + intros ps' c' H1 H2 Hps'.
      eapply runs_weaken; [apply IHo; [exact H2|lia|exact Hps']|].
      cbn beta. intros r c'' (? & ? & ?). repeat split; auto; lia.
  - intros es c H Hf Hes. cbn [Parser.arrayLoop].
    apply runs_arrayTurn; auto.
    + intros c' H1 H2. apply IHe; [exact H2|lia].
    + intros es' c' H1 H2 Hes'.
      eapply runs_weaken; [apply IHa; [exact H2|lia|exact Hes']|].
      cbn beta. intros r c'' (? & ? & ?). repeat split; auto; lia.
Qed.

(** *** Declarations *)

Definition goodProps (ps : Properties) : Prop :=
  allFree ps = true /\ NoDup (keys ps).

Definition goodParameter (d : Dsl.ParameterDeclaration) : Prop :=
  match Dsl.defaultValue d with
  | Some e => free e
  | None => True
  end.

Definition goodVariable (d : Dsl.VariableDeclaration) : Prop :=
  free (Dsl.varValue d).

Definition goodEntry (e : Dsl.NodeEntry) : Prop :=
  match e with
  | Dsl.Node d => goodProps (Dsl.nodeParameters d)
  | Dsl.Module d => goodProps (Dsl.moduleParameters d)
  end.

Definition goodWorkflow (w : Dsl.WorkflowDeclaration) : Prop :=
  Forall goodParameter (Dsl.parameters w)
  /\ Forall goodVariable (Dsl.variables w)
  /\ Forall goodEntry (Dsl.nodes w).

Definition after {A} (c : nat) (ok : A -> Prop) : A -> nat -> Prop :=
  fun a c' => c < c' /\ c' < n /\ ok a.

Lemma runs_parseExpression fuel c :
  c < n -> 2 * (n - c) <= fuel ->
  runs (parseExpression fuel) c (moved c free).
Proof. apply (runs_expressions fuel). Qed.

Lemma runs_parseParameter fuel c :
  c < n -> 2 * (n - c) <= S fuel ->
  runs (parseParameter fuel) c (after c goodParameter).
Proof.
  intros H Hf. unfold Parser.parseParameter.
  eapply runs_bind; [apply (runs_expect PARAM H)|].
  intros _ c1 (-> & H1 & _).
  eapply runs_bind; [apply (runs_expectValue IDENTIFIER H1)|].
  intros name c2 (-> & H2).
  eapply runs_bind; [apply (runs_expectValue IDENTIFIER H2)|].
  intros ty c3 (-> & H3).
  eapply runs_bind; [apply (runs_matchType EQUALS H3)|]. intros m c4 H4.
  eapply runs_bind with
    (Q := fun (v : option Dsl.Expression) c' =>
            c < c' /\ c' < n
            /\ match v with Some e => free e | None => True end).
  { destruct m.
    - destruct H4 as [-> H4].
      eapply runs_bind; [apply (runs_parseExpression H4); lia|].
      intros v c5 (H5 & H6 & Hv). apply runs_ret. repeat split; auto; lia.
    - subst c4. apply runs_ret. repeat split; auto; lia. }
  intros v c5 (H5 & H6 & Hv).
  eapply runs_bind; [apply (runs_here H6)|]. intros loc c6 ->.
  apply runs_ret. unfold after, goodParameter. cbn. auto.
Qed.

Lemma runs_parseVariable fuel c :
  c < n -> 2 * (n - c) <= S fuel ->
  runs (parseVariable fuel) c (after c goodVariable).
Proof.
  intros H Hf. unfold Parser.parseVariable.
  eapply runs_bind; [apply (runs_expect VAR H)|].
  intros _ c1 (-> & H1 & _).
  eapply runs_bind; [apply (runs_expectValue IDENTIFIER H1)|].
  intros name c2 (-> & H2).
  eapply runs_bind; [apply (runs_expect EQUALS H2)|].
  intros _ c3 (-> & H3 & _).
  eapply runs_bind; [apply (runs_parseExpression H3); lia|].
  intros v c4 (H4 & H5 & Hv).
  eapply runs_bind; [apply (runs_here H5)|]. intros loc c6 ->.
  apply runs_ret. unfold after, goodVariable. cbn. repeat split; auto; lia.
Qed.

Lemma runs_parametersLoop fuel : forall ps c,
  c < n -> 2 * (n - c) + 1 <= fuel -> goodProps ps ->
  runs (parametersLoop fuel ps) c
    (fun r c' => c <= c' /\ c' < n /\ goodProps r).
Proof.
  induction fuel as [|fuel IH]; intros ps c H Hf Hps; [lia|].
  cbn [Parser.parametersLoop].
  eapply runs_bind; [apply (runs_check RBRACE H)|]. intros [] c1 [-> _].
  { now apply runs_ret. }
  eapply runs_bind; [apply (runs_isAtEnd H)|]. intros [] c1 [-> _].
  { now apply runs_ret. }
  eapply runs_bind; [apply (runs_expectValue IDENTIFIER H)|].
  intros name c1 (-> & H1).
  eapply runs_bind; [apply (runs_expect COLON H1)|].
  intros _ c2 (-> & H2 & _).
  eapply runs_bind; [apply (runs_parseExpression H2); lia|].
  intros v c3 (H3 & H4 & Hv).
  eapply runs_bind; [apply (runs_matchType COMMA H4)|]. intros m c4 H5.
  assert (H6 : c3 <= c4 /\ c4 < n).
  { destruct m; [destruct H5 as [-> ?]|subst c4]; lia. }
  eapply runs_weaken.
  - apply IH; [lia|lia|]. destruct Hps as [Ha Hn].
    split; [now apply assign_allFree|now apply assign_NoDup].
  - cbn beta. intros r c5 (? & ? & ?).
    split; [lia|split; [lia|assumption]].
Qed.

Lemma runs_parseNode fuel c :
  c < n -> 2 * (n - c) <= S fuel ->
  runs (parseNode fuel) c (after c (fun d => goodEntry (Dsl.Node d))).
Proof.
  intros H Hf. unfold Parser.parseNode.
  eapply runs_bind; [apply (runs_expect NODE H)|].
  intros _ c1 (-> & H1 & _).
  eapply runs_bind; [apply (runs_expectValue IDENTIFIER H1)|].
  intros name c2 (-> & H2).
  eapply runs_bind; [apply (runs_expectValue STRING H2)|].
  intros ty c3 (-> & H3).
  eapply runs_bind; [apply (runs_expect LBRACE H3)|].
  intros _ c4 (-> & H4 & _).
  eapply runs_bind.
  { apply (runs_parametersLoop (fuel := fuel) (ps := [])); [exact H4|lia|].
    split; [reflexivity|constructor]. }
  intros ps c5 (H5 & H6 & Hps).
  eapply runs_bind; [apply (runs_expect RBRACE H6)|].
  intros _ c6 (-> & H7 & _).
  eapply runs_bind; [apply (runs_here H7)|]. intros loc c7 ->.
  apply runs_ret. unfold after. cbn. repeat split; auto; try lia; apply Hps.
Qed.

Lemma runs_parseModule fuel c :
  c < n -> 2 * (n - c) <= S fuel ->
  runs (parseModule fuel) c (after c (fun d => goodEntry (Dsl.Module d))).
Proof.
  intros H Hf. unfold Parser.parseModule.
  eapply runs_bind; [apply (runs_expect MODULE H)|].
  intros _ c1 (-> & H1 & _).
  eapply runs_bind; [apply (runs_expectValue IDENTIFIER H1)|].
  intros name c2 (-> & H2).
  eapply runs_bind; [apply (runs_expect EQUALS H2)|].
  intros _ c3 (-> & H3 & _).
  eapply runs_bind; [apply (runs_expectValue STRING H3)|].
  intros path c4 (-> & H4).
  eapply runs_bind; [apply (runs_expect LBRACE H4)|].
  intros _ c5 (-> & H5 & _).
  eapply runs_bind.
  { apply (runs_parametersLoop (fuel := fuel) (ps := [])); [exact H5|lia|].
    split; [reflexivity|constructor]. }
  intros ps c6 (H6 & H7 & Hps).
  eapply runs_bind; [apply (runs_expect RBRACE H7)|].
  intros _ c7 (-> & H8 & _).
  eapply runs_bind; [apply (runs_here H8)|]. intros loc c8 ->.
  apply runs_ret. unfold after. cbn. repeat split; auto; try lia; apply Hps.
Qed.

Lemma runs_portName what c :
  c < n -> Str.startsWith "Unexpected error" ("Expected connection " ++ what ++ " name")%string = false ->
  runs (portName what) c (fun _ c' => c' = S c /\ c' < n).
Proof.
  intros H Hw. unfold Parser.portName.
  eapply runs_bind; [apply (runs_check IDENTIFIER H)|]. intros [] c1 [-> Hi].
  { specialize (Hi eq_refl).
    eapply runs_weaken; [apply (runs_advanceValue Hi)|].
    intros _ c1 ->. split; [reflexivity|now apply live_next]. }
  eapply runs_bind; [apply (runs_check BOOLEAN H)|]. intros [] c1 [-> Hb].
  { specialize (Hb eq_refl).
    eapply runs_weaken; [apply (runs_advanceValue Hb)|].
    intros _ c1 ->. split; [reflexivity|now apply live_next]. }
  now apply runs_at.
Qed.

Lemma runs_parseConnection c :
  c < n -> runs parseConnection c (after c (fun _ => True)).
Proof.
  intros H. unfold Parser.parseConnection.
  eapply runs_bind; [apply (runs_expect CONNECT H)|].
  intros _ c1 (-> & H1 & _).
  eapply runs_bind; [apply (runs_expectValue IDENTIFIER H1)|].
  intros src c2 (-> & H2).
  eapply runs_bind; [apply (runs_matchType DOT H2)|]. intros d c3 H3.
  eapply runs_bind with (Q := fun _ c' => c < c' /\ c' < n).
  { destruct d.
    - destruct H3 as [-> H3].
      eapply runs_weaken; [apply (runs_portName "output" H3); reflexivity|].
      cbn beta. intros _ c4 [-> ?]. lia.
    - subst c3. apply runs_ret. lia. }
  intros out c4 [H4 H5].
  eapply runs_bind; [apply (runs_expect ARROW H5)|].
  intros _ c5 (-> & H6 & _).
  eapply runs_bind; [apply (runs_expectValue IDENTIFIER H6)|].
  intros tgt c6 (-> & H7).
  eapply runs_bind; [apply (runs_matchType DOT H7)|]. intros d' c7 H8.
  eapply runs_bind with (Q := fun _ c' => c < c' /\ c' < n).
  { destruct d'.
    - destruct H8 as [-> H8].
      eapply runs_weaken; [apply (runs_portName "input" H8); reflexivity|].
      cbn beta. intros _ c8 [-> ?]. lia.
    - subst c7. apply runs_ret. lia. }
  intros inp c8 [H9 H10].
  eapply runs_bind; [apply (runs_here H10)|]. intros loc c9 ->.
  apply runs_ret. unfold after. auto.
Qed.

Lemma goodWorkflow_push w ps vs ns cs :
  goodWorkflow w -> Forall goodParameter ps -> Forall goodVariable vs ->
  Forall goodEntry ns ->
  goodWorkflow
    {| Dsl.workflowName := Dsl.workflowName w;
       Dsl.parameters := Dsl.parameters w ++ ps;
       Dsl.variables := Dsl.variables w ++ vs;
       Dsl.nodes := Dsl.nodes w ++ ns;
       Dsl.connections := Dsl.connections w ++ cs |}.
Proof.
  intros (Hp & Hv & Hn) Hps Hvs Hns. unfold goodWorkflow. cbn.
  repeat split; apply Forall_app; auto.
Qed.

Lemma runs_workflowLoop fuel : forall w c,
  c < n -> 2 * (n - c) <= fuel -> goodWorkflow w ->
  runs (workflowLoop fuel w) c
    (fun r c' => c' < n /\ goodWorkflow r).
Proof.
  induction fuel as [|fuel IH]; intros w c H Hf Hw; [lia|].
  cbn [Parser.workflowLoop]. cbv zeta.
  eapply runs_bind; [apply (runs_check RBRACE H)|]. intros [] c1 [-> _].
  { now apply runs_ret. }
  eapply runs_bind; [apply (runs_isAtEnd H)|]. intros [] c1 [-> _].
  { now apply runs_ret. }
  eapply runs_bind; [apply (runs_check PARAM H)|]. intros [] c1 [-> _].
  { eapply runs_bind; [apply (runs_parseParameter (fuel := fuel) H); lia|].
    intros d c1 (H1 & H2 & Hd).
    apply IH; [exact H2|lia|]. apply goodWorkflow_push; auto. }
  eapply runs_bind; [apply (runs_check VAR H)|]. intros [] c1 [-> _].
  { eapply runs_bind; [apply (runs_parseVariable (fuel := fuel) H); lia|].
    intros d c1 (H1 & H2 & Hd).
    apply IH; [exact H2|lia|]. apply goodWorkflow_push; auto. }
  eapply runs_bind; [apply (runs_check NODE H)|]. intros [] c1 [-> _].
  { eapply runs_bind; [apply (runs_parseNode (fuel := fuel) H); lia|].
    intros d c1 (H1 & H2 & Hd).
    apply IH; [exact H2|lia|]. apply goodWorkflow_push; auto. }
  eapply runs_bind; [apply (runs_check MODULE H)|]. intros [] c1 [-> _].
  { eapply runs_bind; [apply (runs_parseModule (fuel := fuel) H); lia|].
    intros d c1 (H1 & H2 & Hd).
    apply IH; [exact H2|lia|]. apply goodWorkflow_push; auto. }
  eapply runs_bind; [apply (runs_check CONNECT H)|]. intros [] c1 [-> _].
  { eapply runs_bind; [apply (runs_parseConnection H)|].
    intros d c1 (H1 & H2 & Hd).
    apply IH; [exact H2|lia|]. apply goodWorkflow_push; auto. }
  now apply runs_unexpectedToken.
Qed.

Lemma tokens_nonempty : 0 < n.
Proof.
  destruct WF as (body & l & col & E & _). unfold n. rewrite E, length_app.
  cbn. lia.
Qed.

Lemma runs_parseProgram fuel :
  2 * n <= fuel ->
  runs (parseProgram fuel) 0 (fun p _ => goodWorkflow (Dsl.workflow p)).
Proof.
  intros Hf. pose proof tokens_nonempty as H.
  unfold Parser.parseProgram, Parser.parseWorkflow.
  eapply runs_bind with (Q := fun w c' => c' < n /\ goodWorkflow w).
  { eapply runs_bind; [apply (runs_expect WORKFLOW H)|].
    intros _ c1 (-> & H1 & _).
    eapply runs_bind; [apply (runs_expectValue STRING H1)|].
    intros name c2 (-> & H2).
    eapply runs_bind; [apply (runs_expect LBRACE H2)|].
    intros _ c3 (-> & H3 & _).
    eapply runs_bind.
    { apply (runs_workflowLoop (fuel := fuel)); [exact H3|lia|].
      repeat split; constructor. }
    intros w c4 (H4 & Hw).
    eapply runs_bind; [apply (runs_expect RBRACE H4)|].
    intros _ c5 (-> & H5 & _).
    eapply runs_bind; [apply (runs_here H5)|]. intros loc c6 ->.
    apply runs_ret. exact (conj H5 Hw). }
  cbn beta. intros w c1 (H1 & Hw).
  eapply runs_bind; [apply (runs_isAtEnd H1)|]. intros e c2 [-> _].
  eapply runs_bind with (Q := fun _ _ => True).
  { destruct e; [now apply runs_ret|].
    eapply runs_weaken; [apply (runs_expect EOF H1)|]. auto. }
  intros _ c3 _. now apply runs_ret.
Qed.

(** [parse] ends: it returns a program, or throws a [ParseError] of a
    parsing method. *)
Lemma parse_spec :
  exists r,
    parse = Some r
    /\ match r with
       | Returned p => goodWorkflow (Dsl.workflow p)
       | Raised (ParseError message t) => reported tokens message t
       | Raised (Other _) => False
       end.
Proof.
  destruct (@runs_parseProgram (2 * n) (le_n _)) as (o & Ho & H).
  unfold Parser.parse, Parser.parseWithin. fold n. rewrite Ho.
  destruct o as [p c|[message t|e] c].
  - now exists (Returned p).
  - now exists (Raised (ParseError message t)).
  - contradiction.
Qed.

End Runs.

End ParserFacts.

Module ParsedFacts.

Import Js Lexer LexerFacts Parser ParserFacts.
Local Open Scope nat_scope.
Local Open Scope list_scope.

Lemma kept_wellFormed ts : wellFormed ts -> wellFormed (filter kept ts).
Proof.
  intros (body & l & col & -> & Hb).
  exists (filter kept body), l, col. split.
  - now rewrite filter_app.
  - apply Forall_forall. intros t Ht. apply filter_In in Ht.
    rewrite Forall_forall in Hb. now apply Hb.
Qed.

Lemma create_spec text :
  exists r,
    create text = Some r
    /\ match r with
       | Ok ts => wellFormed ts
       | Throw e => tokenize text = Some (Throw e)
       end.
Proof.
  unfold create.
  destruct (@tokens_total (S (String.length text)) (Lexer.create text) [])
    as (r & Hr & H); [cbn; lia|constructor|].
  unfold tokenize. rewrite Hr. destruct r as [ts|e].
  - eexists. split; [reflexivity|]. apply kept_wellFormed.
    exact (H ts eq_refl).
  - eexists. split; reflexivity.
Qed.

(** What [parseText] gives, on every text. *)
Lemma parseText_spec text :
  exists r,
    parseText text = Some r
    /\ match r with
       | Returned p => goodWorkflow (Dsl.workflow p)
       | Raised (ParseError message t) =>
           exists ts, create text = Some (Ok ts) /\ reported ts message t
       | Raised (Other e) => tokenize text = Some (Throw e)
       end.
Proof.
  unfold parseText. destruct (create_spec text) as (r & Hr & H).
  rewrite Hr. destruct r as [ts|e].
  - destruct (parse_spec H) as (r & Hp & Hg). exists r. split; [exact Hp|].
    destruct r as [p|[message t|e]]; [exact Hg| |contradiction].
    now exists ts.
  - eexists. split; [reflexivity|exact H].
Qed.

(** The parser stops on every text.  It returns a program, or throws
    what the lexer threw, or throws a [ParseError] made at a token of the
    text, whose message ends with the line and the column of that token
    and is not the message that wraps another exception: no parsing
    method reads a token that is not there. *)
Theorem parser_ends_with_located_error (text : string) :
  exists r,
    parseText text = Some r
    /\ match r with
       | Returned _ => True
       | Raised (ParseError message t) =>
           exists ts, create text = Some (Ok ts) /\ reported ts message t
       | Raised (Other e) => tokenize text = Some (Throw e)
       end.
Proof.
  destruct (parseText_spec text) as (r & Hr & H). exists r.
  split; [exact Hr|]. destruct r as [p|[message t|e]]; auto.
Qed.

(** No expression of a parsed program is a call or holds one: in a
    default value, in the value of a variable and in the parameters of a
    node or of a module, a name followed by a parenthesis does not parse,
    and calls are only made inside template strings. *)
Theorem parsed_without_calls (text : string) (program : Dsl.Program) :
  parseText text = Some (Returned program) ->
  let w := Dsl.workflow program in
  (forall d e, In d (Dsl.parameters w) -> Dsl.defaultValue d = Some e ->
     callFree e = true)
  /\ (forall d, In d (Dsl.variables w) -> callFree (Dsl.varValue d) = true)
  /\ (forall d k e, In (Dsl.Node d) (Dsl.nodes w) ->
        In (k, e) (Dsl.nodeParameters d) -> callFree e = true)
  /\ (forall d k e, In (Dsl.Module d) (Dsl.nodes w) ->
        In (k, e) (Dsl.moduleParameters d) -> callFree e = true).
Proof.
  intros Hp. destruct (parseText_spec text) as (r & Hr & H).
  rewrite Hp in Hr. injection Hr as <-. destruct H as (Hps & Hvs & Hns).
  cbv zeta. rewrite Forall_forall in Hps, Hvs, Hns.
  assert (A : forall ps k e, allFree ps = true -> In (k, e) ps ->
                callFree e = true).
  { intros ps k e Ha Hin. unfold allFree in Ha.
    rewrite forallb_forall in Ha. exact (Ha (k, e) Hin). }
  repeat split.
  - intros d e Hd He. specialize (Hps d Hd). unfold goodParameter in Hps.
    now rewrite He in Hps.
  - intros d Hd. exact (Hvs d Hd).
  - intros d k e Hd Hin. destruct (Hns _ Hd) as [Ha _]. exact (A _ k e Ha Hin).
  - intros d k e Hd Hin. destruct (Hns _ Hd) as [Ha _]. exact (A _ k e Ha Hin).
Qed.

Definition sampleText : string :=
  "workflow 'w' { param p number = 1 var v = [p, {a: 'x'}] node n 't' { k: v } }".

Lemma parsed_without_calls_witness :
  exists program,
    parseText sampleText = Some (Returned program)
    /\ forall d, In d (Dsl.variables (Dsl.workflow program)) ->
         callFree (Dsl.varValue d) = true.
Proof.
  eexists. split; [vm_compute; reflexivity|].
  eapply (@parsed_without_calls sampleText). vm_compute. reflexivity.
Defined.

(** The parameters of a parsed node or module have distinct keys: a key
    written twice in a block is kept once, with its last value. *)
Theorem parsed_parameters_distinct (text : string) (program : Dsl.Program) :
  parseText text = Some (Returned program) ->
  (forall d, In (Dsl.Node d) (Dsl.nodes (Dsl.workflow program)) ->
     NoDup (map fst (Dsl.nodeParameters d)))
  /\ (forall d, In (Dsl.Module d) (Dsl.nodes (Dsl.workflow program)) ->
        NoDup (map fst (Dsl.moduleParameters d))).
Proof.
  intros Hp. destruct (parseText_spec text) as (r & Hr & H).
  rewrite Hp in Hr. injection Hr as <-. destruct H as (_ & _ & Hns).
  rewrite Forall_forall in Hns.
  split; intros d Hd; destruct (Hns _ Hd) as [_ Hn]; exact Hn.
Qed.

Definition twiceText : string :=
  "workflow 'w' { node n 't' { a: 1, b: 2, a: 3 } }".

Lemma parsed_parameters_distinct_witness :
  exists program d,
    parseText twiceText = Some (Returned program)
    /\ Dsl.nodes (Dsl.workflow program) = [Dsl.Node d]
    /\ map fst (Dsl.nodeParameters d) = ["a"; "b"]%string
    /\ NoDup (map fst (Dsl.nodeParameters d)).
Proof.
  eexists. eexists. split; [vm_compute; reflexivity|].
  split; [reflexivity|]. split; [reflexivity|].
  refine (proj1 (@parsed_parameters_distinct twiceText _ _) _ _);
    [vm_compute; reflexivity|left; reflexivity].
Defined.

End ParsedFacts.

(** ** The compiler on a source text *)

Module DriverFacts.

Import Js Eff Lexer Parser ParserFacts ParsedFacts.
Local Open Scope list_scope.

Lemma existsb_filter {A} (f : A -> bool) l :
  existsb f l = true -> filter f l <> [].
Proof.
  induction l as [|a l IH]; cbn; [discriminate|].
  destruct (f a); [discriminate|exact IH].
Qed.

(** [compile] and [validateOnly] return on every text, and where
    [validateOnly] reports an error, [compile] with the validation on
    fails, with an error and without a graph: for a text that the lexer
    or the parser refuses, and for a program that the validator
    refuses. *)
Theorem validation_errors_fail_compilation (h : Host)
  (options : Compiler.CompilerOptions) (text : string) :
  Generator.orElse (Compiler.validate options) true = true ->
  exists found result,
    Driver.validateOnly text = Some found
    /\ Driver.compile h options text = Some result
    /\ (existsb Validation.isError found = true ->
        Compiler.success result = false
        /\ Compiler.workflow result = None
        /\ Compiler.errors result <> []).
Proof.
  intros Hv. unfold Driver.validateOnly, Driver.compile.
  destruct (parseText_spec text) as (r & Hr & _). rewrite Hr.
  destruct r as [program|[message t|e]].
  - eexists. eexists. split; [reflexivity|]. split; [reflexivity|].
    intros He. unfold Compiler.compile. rewrite Hv.
    apply existsb_filter in He.
    destruct (filter Validation.isError (Validation.validateProgram program));
      [contradiction|].
    cbn. repeat split. discriminate.
  - eexists. eexists. split; [reflexivity|]. split; [reflexivity|].
    intros _. cbn. repeat split. discriminate.
  - eexists. eexists. split; [reflexivity|]. split; [reflexivity|].
    intros _. cbn. repeat split. destruct e; discriminate.
Qed.

Definition defaults : Compiler.CompilerOptions :=
  {| Compiler.generatorOptions :=
       {| Generator.instanceId := None; Generator.autoLayout := None;
          Generator.startPosition := None; Generator.spacing := None |};
     Compiler.validate := None; Compiler.strict := None |}.

Definition danglingText : string :=
  "workflow 'w' { node a 'trigger.manual' { } connect a -> b }".

Lemma validation_errors_fail_compilation_witness :
  exists found result,
    Driver.validateOnly danglingText = Some found
    /\ Driver.compile Sample.hostA defaults danglingText = Some result
    /\ existsb Validation.isError found = true
    /\ Compiler.success result = false
    /\ Compiler.workflow result = None
    /\ Compiler.errors result <> [].
Proof.
  destruct (@validation_errors_fail_compilation Sample.hostA defaults
              danglingText eq_refl) as (found & result & Hf & Hr & H).
  exists found, result. split; [exact Hf|]. split; [exact Hr|].
  assert (He : existsb Validation.isError found = true).
  { assert (E : option_map (existsb Validation.isError)
                  (Driver.validateOnly danglingText) = Some true)
      by (vm_compute; reflexivity).
    rewrite Hf in E. now injection E. }
  split; [exact He|exact (H He)].
Defined.

End DriverFacts.

(** ** Signs and truth values *)

Module LiteralTextFacts.

Import Js Lexer LexerFacts LiteralFacts WordFacts Parser.
Local Open Scope nat_scope.
Local Open Scope list_scope.

(** A minus sign starts no token but the arrow: where it is not followed
    by [>], the lexer throws, so a number cannot be written with a
    sign. *)
Theorem minus_without_arrow_throws (fuel : nat) (st : State)
  (acc : list Token) (r : string) :
  input (skipWhitespace st) = String "-" r ->
  isChar ">" (String.get 0 r) = false ->
  tokens (S fuel) st acc
  = Some (Throw (unexpected (Some "-"%char) (atLine st)
                   (atColumn (skipWhitespace st)))).
Proof.
  intros Hin Hr.
  assert (Hne : input st <> EmptyString).
  { intros E. unfold skipWhitespace in Hin. rewrite E in Hin.
    discriminate Hin. }
  unfold skipWhitespace in *.
  destruct (skipBlanks (input st) (atColumn st)) as [s col] eqn:B.
  cbn [input atColumn] in *. subst s.
  apply (@tokens_throw fuel st acc (String "-" r) col _ Hne B);
    [discriminate|].
  cbn [nextToken]. unfold peek. cbn [input String.get].
  decide_chars. cbn [andb orb].
  replace (isChar ">" (String.get 0 r)) with false. reflexivity.
Qed.

Lemma minus_without_arrow_throws_witness :
  tokenize "-1"
  = Some (Throw (Error "Unexpected character '-' at line 1, column 1")).
Proof.
  exact (@minus_without_arrow_throws 2 (Lexer.create "-1") [] "1"
           eq_refl eq_refl).
Defined.

(** The text of a workflow with one variable, whose value is [w]. *)
Definition oneVariable (w : string) : string :=
  "workflow 'w' { var v = " ++ w ++ " }".

(** A word that the lexer takes for a truth value, [true] or [false] in
    any mix of cases, is parsed as the literal [true] only when it is
    written [true] in lower case: [TRUE] and [True] are the literal
    [false]. *)
Theorem truth_value_is_true_only_in_lower_case (c : ascii) (w : string) :
  wordStart c = true ->
  every wordChar w = true ->
  getKeywordType (Str.toLowerCase (String c w)) = BOOLEAN ->
  exists program,
    parseText (oneVariable (String c w)) = Some (Returned program)
    /\ map Dsl.varValue (Dsl.variables (Dsl.workflow program))
       = [Dsl.LiteralExpression
            (Dsl.LBoolean (String.eqb (String c w) "true"))].
Proof.
  intros Hc Hw Hk.
  assert (Hall : every wordChar (String c w) = true).
  { cbn [every]. now rewrite (@wordStart_wordChar _ Hc). }
  assert (T : tokenize (oneVariable (String c w))
              = Some (Ok [
                  {| type := WORKFLOW; value := "workflow"; line := 1;
                     column := 1 |};
                  {| type := STRING; value := "w"; line := 1; column := 10 |};
                  {| type := LBRACE; value := "{"; line := 1; column := 14 |};
                  {| type := VAR; value := "var"; line := 1; column := 16 |};
                  {| type := IDENTIFIER; value := "v"; line := 1;
                     column := 20 |};
                  {| type := EQUALS; value := "="; line := 1; column := 22 |};
                  {| type := BOOLEAN; value := String c w; line := 1;
                     column := 24 |};
                  {| type := RBRACE; value := "}"; line := 1;
                     column := 26 + String.length w |};
                  eofAt 1 (27 + String.length w)])).
  { assert (B : skipBlanks (String " " (String c (w ++ " }"))) 23
                = (String c (w ++ " }"), 24)).
    { cbn [skipBlanks]. change (Ascii.eqb " " " ") with true. cbn [orb].
      clear Hall Hk. unfold wordStart in Hc. not_the_char c Hc.
      reflexivity. }
    unfold tokenize, oneVariable, Lexer.create.
    cbn [String.length append].
    do 6 (erewrite tokens_step;
          [|discriminate|vm_compute; reflexivity|vm_compute; reflexivity];
          cbn [app]).
    erewrite tokens_step;
      [|discriminate|exact B
       |cbn [atLine]; rewrite (@nextToken_word _ _ _ _ Hc);
        exact (@readIdentifier_word c w " }" 1 24 Hall eq_refl)].
    unfold wordToken. rewrite Hk. cbn [app].
    erewrite tokens_step;
      [|discriminate|vm_compute; reflexivity|vm_compute; reflexivity].
    rewrite tokens_end by reflexivity. vm_compute. reflexivity. }
  unfold parseText, Parser.create. rewrite T. cbn [filter kept type].
  eexists. split.
  - vm_compute. reflexivity.
  - vm_compute. reflexivity.
Qed.

Lemma truth_value_is_true_only_in_lower_case_witness :
  exists program,
    parseText "workflow 'w' { var v = TRUE }" = Some (Returned program)
    /\ map Dsl.varValue (Dsl.variables (Dsl.workflow program))
       = [Dsl.LiteralExpression (Dsl.LBoolean false)].
Proof.
  exact (@truth_value_is_true_only_in_lower_case "T"%char "RUE"
           eq_refl eq_refl eq_refl).
Defined.

End LiteralTextFacts.

(** ** The place of a declaration *)

Module PlaceFacts.

Import Js Lexer Parser.
Local Open Scope nat_scope.
Local Open Scope list_scope.
Local Open Scope parse_scope.

(** [loc] is the line and the column of the token at [c]. *)
Definition atToken (tokens : list Token) (c : nat) (loc : Dsl.Loc) : Prop :=
  exists t,
    nth_error tokens c = Some t
    /\ loc = {| Dsl.line := Some (line t); Dsl.column := Some (column t) |}.

Lemma bind_Done {A B} (m : P A) (k : A -> P B) c b c' :
  bind m k c = Some (Done b c') ->
  exists a c1, m c = Some (Done a c1) /\ k a c1 = Some (Done b c').
Proof.
  unfold bind. destruct (m c) as [[a c1|t c1]|]; try discriminate.
  intros H. now exists a, c1.
Qed.

Lemma here_Done tokens c loc c' :
  here tokens c = Some (Done loc c') -> c' = c /\ atToken tokens c loc.
Proof.
  unfold here, bind, getCurrentToken, field, ret, fail, atToken.
  destruct (nth_error tokens c) as [t|] eqn:E; [|discriminate].
  rewrite E. intros H. injection H as <- <-.
  split; [reflexivity|]. now exists t.
Qed.

(** *** The index never goes back *)

Definition mono {A} (m : P A) : Prop :=
  forall c a c', m c = Some (Done a c') -> c <= c'.

Lemma mono_ret {A} (a : A) : mono (ret a).
Proof. intros c a' c' H. injection H as _ <-. lia. Qed.

Lemma mono_fail {A} t : mono (fail (A := A) t).
Proof. intros c a c' H. discriminate H. Qed.

Lemma mono_out {A} : mono (out (A := A)).
Proof. intros c a c' H. discriminate H. Qed.

Lemma mono_bind {A B} (m : P A) (k : A -> P B) :
  mono m -> (forall a, mono (k a)) -> mono (bind m k).
Proof.
  intros Hm Hk c b c' H. apply bind_Done in H.
  destruct H as (a & c1 & H1 & H2).
  apply Hm in H1. apply Hk in H2. lia.
Qed.

Lemma mono_field {A} name (f : Token -> A) t : mono (field name f t).
Proof. destruct t; [apply mono_ret|apply mono_fail]. Qed.

Lemma mono_throwParseError {A} what t : mono (throwParseError (A := A) what t).
Proof. destruct t; apply mono_fail. Qed.

Lemma mono_getCurrentToken tokens : mono (getCurrentToken tokens).
Proof. intros c a c' H. injection H as _ <-. lia. Qed.

Lemma mono_previous tokens : mono (previous tokens).
Proof. intros c a c' H. injection H as _ <-. lia. Qed.

Lemma mono_step : mono (fun c => Some (Done tt (S c))).
Proof. intros c a c' H. injection H as _ <-. lia. Qed.

Create HintDb mono discriminated.
#[local] Hint Resolve mono_ret mono_fail mono_out mono_field
  mono_throwParseError mono_getCurrentToken mono_previous mono_step : mono.

Ltac mono :=
  repeat (intros;
          first [ solve [auto with mono]
                | apply mono_bind
                | match goal with
                  | |- mono (if ?b then _ else _) => destruct b
                  end ]).

Lemma mono_isAtEnd tokens : mono (isAtEnd tokens).
Proof. unfold isAtEnd. mono. Qed.
#[local] Hint Resolve mono_isAtEnd : mono.

Lemma mono_check tokens ty : mono (check tokens ty).
Proof. unfold check. mono. Qed.
#[local] Hint Resolve mono_check : mono.

Lemma mono_advance tokens : mono (advance tokens).
Proof. unfold advance. mono. Qed.
#[local] Hint Resolve mono_advance : mono.

Lemma mono_matchType tokens ty : mono (matchType tokens ty).
Proof. unfold matchType. mono. Qed.

Lemma mono_expect tokens ty : mono (expect tokens ty).
Proof. unfold expect. mono. Qed.
#[local] Hint Resolve mono_matchType mono_expect : mono.

Lemma mono_expectValue tokens ty : mono (expectValue tokens ty).
Proof. unfold expectValue. mono. Qed.

Lemma mono_advanceValue tokens : mono (advanceValue tokens).
Proof. unfold advanceValue. mono. Qed.

Lemma mono_previousValue tokens : mono (previousValue tokens).
Proof. unfold previousValue. mono. Qed.

Lemma mono_here tokens : mono (here tokens).
Proof. unfold here. mono. Qed.

Lemma mono_unexpectedToken {A} tokens : mono (unexpectedToken (A := A) tokens).
Proof. unfold unexpectedToken. mono. Qed.
#[local] Hint Resolve mono_expectValue mono_advanceValue mono_previousValue
  mono_here mono_unexpectedToken : mono.

Lemma mono_expressions tokens fuel :
  mono (parseExpression tokens fuel)
  /\ (forall ps, mono (objectLoop tokens fuel ps))
  /\ (forall es, mono (arrayLoop tokens fuel es)).
Proof.
  induction fuel as [|fuel (IHe & IHo & IHa)].
  { repeat split; intros; intros c a c' H; discriminate H. }
  repeat split.
  - intros c a c' H. cbn [parseExpression] in H. revert c a c' H.
    change (mono (parseTemplateExpression tokens
                    (parsePrimary tokens (parseObject tokens (objectLoop tokens fuel))
                       (parseArray tokens (arrayLoop tokens fuel))))).
    unfold parseTemplateExpression, parsePrimary, parseObject, parseArray.
    mono.
  - intros ps c a c' H. cbn [objectLoop] in H. revert c a c' H.
    change (mono (objectTurn tokens (parseExpression tokens fuel)
                    (objectLoop tokens fuel) ps)).
    unfold objectTurn. mono.
  - intros es c a c' H. cbn [arrayLoop] in H. revert c a c' H.
    change (mono (arrayTurn tokens (parseExpression tokens fuel)
                    (arrayLoop tokens fuel) es)).
    unfold arrayTurn. mono.
Qed.

Lemma mono_parseExpression tokens fuel : mono (parseExpression tokens fuel).
Proof. apply mono_expressions. Qed.
#[local] Hint Resolve mono_parseExpression : mono.

Lemma mono_parametersLoop tokens fuel : forall ps,
  mono (parametersLoop tokens fuel ps).
Proof.
  induction fuel as [|fuel IH]; intros ps; cbn [parametersLoop]; mono.
Qed.

Lemma mono_portName tokens what : mono (portName tokens what).
Proof. unfold portName. mono. Qed.
#[local] Hint Resolve mono_parametersLoop mono_portName : mono.

(** A token that is expected and found is passed. *)
Lemma expect_Done tokens ty c t c' :
  expect tokens ty c = Some (Done t c') -> c' = S c.
Proof.
  unfold expect, check, advance, isAtEnd, bind, getCurrentToken, previous,
    field, ret, throwParseError.
  destruct (nth_error tokens c) as [x|] eqn:E; [|discriminate].
  destruct (sameType (type x) EOF) eqn:F;
    repeat first [rewrite E|rewrite F|progress cbv beta iota];
    [discriminate|].
  destruct (sameType (type x) ty);
    repeat first [rewrite E|rewrite F|progress cbv beta iota];
    [|discriminate].
  intros H. now injection H as _ <-.
Qed.

(** The runs that make up a run of a method, with what each does to the
    index. *)
Ltac peel H :=
  repeat (apply bind_Done in H;
          let a := fresh "a" in
          let c1 := fresh "c" in
          let E := fresh "E" in
          destruct H as (a & c1 & E & H); cbv beta in H;
          match type of E with
          | here _ _ = _ => apply here_Done in E; destruct E as [? E]
          | expect _ _ _ = _ => apply expect_Done in E
          | ?m ?c = Some (Done ?x ?c') =>
              let M := fresh "M" in
              assert (M : c <= c')
                by (apply (fun X : mono m => X c x c' E); mono)
          end).

(** The line and the column stored in a declaration are those of the
    token that follows the declaration, not of the one it starts with:
    a node, a module, a parameter, a variable and a connection read
    their place when their last token is passed. *)
Theorem declaration_place_is_next_token (tokens : list Token)
  (fuel c c' : nat) :
  (forall d, parseNode tokens fuel c = Some (Done d c') ->
     c < c' /\ atToken tokens c' (Dsl.nodeLoc d))
  /\ (forall d, parseModule tokens fuel c = Some (Done d c') ->
        c < c' /\ atToken tokens c' (Dsl.moduleLoc d))
  /\ (forall d, parseParameter tokens fuel c = Some (Done d c') ->
        c < c' /\ atToken tokens c' (Dsl.paramLoc d))
  /\ (forall d, parseVariable tokens fuel c = Some (Done d c') ->
        c < c' /\ atToken tokens c' (Dsl.varLoc d))
  /\ (forall d, parseConnection tokens c = Some (Done d c') ->
        c < c' /\ atToken tokens c' (Dsl.connLoc d)).
Proof.
  split; [|split; [|split; [|split]]]; intros d H;
    first [unfold parseNode in H | unfold parseModule in H
          | unfold parseParameter in H | unfold parseVariable in H
          | unfold parseConnection in H];
    peel H; injection H as <- <-; subst; cbn; (split; [lia|assumption]).
Qed.

Definition twoNodes : list Token :=
  [{| type := NODE; value := "node"; line := 1; column := 1 |};
   {| type := IDENTIFIER; value := "a"; line := 1; column := 6 |};
   {| type := STRING; value := "t"; line := 1; column := 8 |};
   {| type := LBRACE; value := "{"; line := 1; column := 12 |};
   {| type := RBRACE; value := "}"; line := 1; column := 13 |};
   {| type := NODE; value := "node"; line := 2; column := 2 |};
   {| type := EOF; value := ""; line := 2; column := 6 |}]%string.

Lemma declaration_place_is_next_token_witness :
  exists d,
    parseNode twoNodes 14 0 = Some (Done d 5)
    /\ Dsl.nodeLoc d = {| Dsl.line := Some 2; Dsl.column := Some 2 |}.
Proof.
  eexists. split; [vm_compute; reflexivity|].
  destruct (proj1 (@declaration_place_is_next_token twoNodes 14 0 5) _
              eq_refl) as (_ & t & Ht & E).
  injection Ht as <-. exact E.
Defined.

End PlaceFacts.

(** ** Strings that are not closed *)

Module OpenStringFacts.

Import Js Lexer LexerFacts LiteralFacts.
Local Open Scope nat_scope.
Local Open Scope list_scope.

(** A character that is neither the quote [q] nor a backslash. *)
Definition ordinary (q c : ascii) : bool :=
  negb (Ascii.eqb c q) && negb (Ascii.eqb c "\").

(** The line breaks of a text. *)
Fixpoint lineBreaks (s : string) : nat :=
  match s with
  | EmptyString => 0
  | String c r => (if Ascii.eqb c "010" then 1 else 0) + lineBreaks r
  end.

Lemma stringLoop_open q start s : forall v l col,
  every (ordinary q) s = true ->
  stringLoop q start s v l col
  = Throw (unterminated "string" (l + lineBreaks s) start).
Proof.
  induction s as [|c s IH]; intros v l col H; cbn [stringLoop lineBreaks].
  - now rewrite Nat.add_0_r.
  - cbn [every] in H. apply andb_true_iff in H. destruct H as [Hc Hs].
    unfold ordinary in Hc. apply andb_true_iff in Hc. destruct Hc as [H1 H2].
    apply negb_true_iff in H1, H2. rewrite H1, H2.
    destruct (Ascii.eqb c "010"); rewrite (IH _ _ _ Hs); do 2 f_equal; lia.
Qed.

(** A string that is opened and not closed makes the lexer throw at the
    end of the input; the error names the line of the end of the input,
    the line of the opening quote plus the line breaks after it, with
    the column of the opening quote. *)
Theorem unterminated_string_names_last_line (fuel : nat) (st : State)
  (acc : list Token) (q : ascii) (s : string) :
  isQuote q = true ->
  every (ordinary q) s = true ->
  input (skipWhitespace st) = String q s ->
  tokens (S fuel) st acc
  = Some (Throw (unterminated "string" (atLine st + lineBreaks s)
                   (atColumn (skipWhitespace st)))).
Proof.
  intros Hq Hs Hin.
  assert (Hne : input st <> EmptyString).
  { intros E. unfold skipWhitespace in Hin. rewrite E in Hin.
    discriminate Hin. }
  unfold skipWhitespace in *.
  destruct (skipBlanks (input st) (atColumn st)) as [s0 col] eqn:B.
  cbn [input atColumn] in *. subst s0.
  apply (@tokens_throw fuel st acc (String q s) col _ Hne B);
    [discriminate|].
  assert (R : readString q {| input := String q s; atLine := atLine st;
                              atColumn := col |}
              = Throw (unterminated "string" (atLine st + lineBreaks s) col)).
  { unfold readString, advance. cbn [input atLine atColumn].
    exact (@stringLoop_open q col s EmptyString (atLine st) (S col) Hs). }
  unfold isQuote in Hq. apply orb_true_iff in Hq.
  destruct Hq as [Hq|Hq]; apply Ascii.eqb_eq in Hq; subst q;
    cbn [nextToken]; unfold quote, peek; decide_chars;
    cbn [andb orb input].
  - destruct s as [|c s]; cbn [String.get isChar andb].
    + exact R.
    + cbn [every] in Hs. apply andb_true_iff in Hs. destruct Hs as [Hc _].
      unfold ordinary in Hc. apply andb_true_iff in Hc. destruct Hc as [Hc _].
      apply negb_true_iff in Hc. unfold quote in Hc. rewrite Hc.
      cbn [andb]. exact R.
  - exact R.
Qed.

Definition lineBreak : string := String "010" EmptyString.

Lemma unterminated_string_names_last_line_witness :
  tokenize ("'a" ++ lineBreak ++ "b" ++ lineBreak ++ "c")
  = Some (Throw (Error "Unterminated string at line 3, column 1")).
Proof.
  exact (@unterminated_string_names_last_line 5
           (create ("'a" ++ lineBreak ++ "b" ++ lineBreak ++ "c")) []
           "'"%char ("a" ++ lineBreak ++ "b" ++ lineBreak ++ "c")
           eq_refl eq_refl eq_refl).
Defined.

End OpenStringFacts.

(** ** Comments that are not closed *)

Module OpenCommentFacts.

Import Js Lexer LexerFacts LiteralFacts.
Local Open Scope nat_scope.
Local Open Scope list_scope.

Lemma blockLoop_open start s (c : ascii) : forall v l col,
  Str.includes "*/" (s ++ String c EmptyString) = false ->
  exists t st,
    blockLoop start (s ++ String c EmptyString) v l col = (t, st)
    /\ type t = COMMENT
    /\ value t = Str.trim (v ++ s)
    /\ input st = String c EmptyString.
Proof.
  induction s as [|x s IH]; intros v l col H; cbn [append blockLoop].
  - eexists. eexists. split; [reflexivity|]. cbn.
    repeat split. f_equal.
    clear. induction v as [|y v IHv]; cbn; [reflexivity|now rewrite <- IHv].
  - cbn [append Str.includes] in H. apply orb_false_iff in H.
    destruct H as [Hs Hr].
    destruct (s ++ String c EmptyString)%string as [|c1 r] eqn:E.
    { destruct s; discriminate E. }
    assert (Hx : Ascii.eqb x "*" && Ascii.eqb c1 "/" = false).
    { cbn [Str.startsWith] in Hs. rewrite andb_true_r in Hs.
      now rewrite (Ascii.eqb_sym x), (Ascii.eqb_sym c1). }
    rewrite Hx. rewrite <- E in *.
    destruct (Ascii.eqb x "010");
      match goal with
      | |- context [blockLoop start _ ?v' ?l' ?col'] =>
          destruct (IH v' l' col' Hr) as (t & st & Hb & Ht & Hv & Hi)
      end;
      exists t, st; rewrite Hb; repeat split; auto;
      rewrite Hv, append_assoc'; reflexivity.
Qed.

(** A block comment that is not closed is no error: the comment ends one
    character before the end of the input, and the last character of the
    input is lexed after it, as if it were outside the comment. *)
Theorem unclosed_comment_is_no_error (s : string) (c : ascii) (l col : nat) :
  Str.includes "*/" (s ++ String c EmptyString) = false ->
  exists t st,
    nextToken ("/*" ++ s ++ String c EmptyString) l col = Ok (t, st)
    /\ type t = COMMENT
    /\ value t = Str.trim s
    /\ input st = String c EmptyString.
Proof.
  intros H. cbn [append nextToken]. unfold peek. cbn [input String.get].
  decide_chars. cbn [andb orb isChar].
  change (Ascii.eqb "*" "/") with false. change (Ascii.eqb "*" "*") with true.
  cbn [andb].
  unfold readBlockComment, advance. cbn [input atLine atColumn].
  destruct (@blockLoop_open col s c EmptyString l (S (S col)) H)
    as (t & st & Hb & Ht & Hv & Hi).
  exists t, st. rewrite Hb. repeat split; assumption.
Qed.

Lemma unclosed_comment_is_no_error_witness :
  tokenize "/* note"
  = Some (Ok [{| type := COMMENT; value := "not"; line := 1; column := 1 |};
              {| type := IDENTIFIER; value := "e"; line := 1; column := 7 |};
              eofAt 1 8]).
Proof.
  destruct (@unclosed_comment_is_no_error " not" "e"%char 1 1 eq_refl)
    as (t & st & Hn & _).
  unfold tokenize. cbn [String.length].
  erewrite tokens_step; [|discriminate|reflexivity|exact Hn].
  assert (E : nextToken "/* note" 1 1
              = Ok ({| type := COMMENT; value := "not"; line := 1;
                       column := 1 |},
                    {| input := "e"; atLine := 1; atColumn := 7 |}))
    by (vm_compute; reflexivity).
  pose proof (eq_trans (eq_sym Hn) E) as X. injection X as -> ->.
  vm_compute. reflexivity.
Defined.

End OpenCommentFacts.

(** ** Names *)

Module NameFacts.

Import Js Lexer LexerFacts LiteralFacts WordFacts Parser.
Local Open Scope nat_scope.
Local Open Scope list_scope.

Lemma getKeywordType_cases k :
  In (getKeywordType k)
    [WORKFLOW; PARAM; VAR; NODE; MODULE; CONNECT; BOOLEAN; IDENTIFIER].
Proof.
  unfold getKeywordType.
  repeat match goal with
         | |- In (if ?b then _ else _) _ => destruct b
         end; cbn; tauto.
Qed.

(** The text of a workflow with one node, whose name is [w]. *)
Definition oneNode (w : string) : string :=
  "workflow 'w' { node " ++ w ++ " 't' { } }".

(** A keyword is no name, in any mix of cases: a node named by a word
    that the lexer does not take for an identifier, as [Node], [VAR] or
    [true], is refused by the parser, at the name. *)
Theorem keyword_is_no_name (c : ascii) (w : string) :
  wordStart c = true ->
  every wordChar w = true ->
  getKeywordType (Str.toLowerCase (String c w)) <> IDENTIFIER ->
  exists token,
    parseText (oneNode (String c w))
    = Some (Raised
              (ParseError
                 ("Expected IDENTIFIER but got "
                  ++ typeName (getKeywordType (Str.toLowerCase (String c w)))
                  ++ " at line 1, column 21") token))
    /\ value token = String c w.
Proof.
  intros Hc Hw Hk.
  assert (Hall : every wordChar (String c w) = true).
  { cbn [every]. now rewrite (@wordStart_wordChar _ Hc). }
  remember (getKeywordType (Str.toLowerCase (String c w))) as ty eqn:Ety.
  assert (T : tokenize (oneNode (String c w))
              = Some (Ok [
                  {| type := WORKFLOW; value := "workflow"; line := 1;
                     column := 1 |};
                  {| type := STRING; value := "w"; line := 1; column := 10 |};
                  {| type := LBRACE; value := "{"; line := 1; column := 14 |};
                  {| type := NODE; value := "node"; line := 1; column := 16 |};
                  {| type := ty; value := String c w; line := 1;
                     column := 21 |};
                  {| type := STRING; value := "t"; line := 1;
                     column := 23 + String.length w |};
                  {| type := LBRACE; value := "{"; line := 1;
                     column := 27 + String.length w |};
                  {| type := RBRACE; value := "}"; line := 1;
                     column := 29 + String.length w |};
                  {| type := RBRACE; value := "}"; line := 1;
                     column := 31 + String.length w |};
                  eofAt 1 (32 + String.length w)])).
  { assert (B : skipBlanks (String " " (String c (w ++ " 't' { } }"))) 20
                = (String c (w ++ " 't' { } }"), 21)).
    { cbn [skipBlanks]. change (Ascii.eqb " " " ") with true. cbn [orb].
      clear Hall Hk Ety. unfold wordStart in Hc. not_the_char c Hc.
      reflexivity. }
    unfold tokenize, oneNode, Lexer.create.
    cbn [String.length append].
    do 4 (erewrite tokens_step;
          [|discriminate|vm_compute; reflexivity|vm_compute; reflexivity];
          cbn [app]).
    erewrite tokens_step;
      [|discriminate|exact B
       |cbn [atLine]; rewrite (@nextToken_word _ _ _ _ Hc);
        exact (@readIdentifier_word c w " 't' { } }" 1 21 Hall eq_refl)].
    unfold wordToken. rewrite <- Ety. cbn [app].
    do 4 (erewrite tokens_step;
          [|discriminate|vm_compute; reflexivity|vm_compute; reflexivity];
          cbn [app]).
    rewrite tokens_end by reflexivity. vm_compute. reflexivity. }
  unfold parseText, Parser.create. rewrite T.
  exists {| type := ty; value := String c w; line := 1; column := 21 |}.
  split; [|reflexivity].
  pose proof (getKeywordType_cases (Str.toLowerCase (String c w))) as Hin.
  rewrite <- Ety in Hin. clear Ety T. cbn [In] in Hin.
  repeat (destruct Hin as [<-|Hin]; [try (vm_compute; reflexivity)|]);
    [now contradiction Hk|contradiction].
Qed.

Lemma keyword_is_no_name_witness :
  exists token,
    parseText "workflow 'w' { node Node 't' { } }"
    = Some (Raised
              (ParseError
                 "Expected IDENTIFIER but got NODE at line 1, column 21"
                 token))
    /\ value token = "Node".
Proof.
  exact (@keyword_is_no_name "N"%char "ode" eq_refl eq_refl
           ltac:(discriminate)).
Defined.

End NameFacts.

(** ** The evaluation of an expression *)

Module EvaluationFacts.

Import Js Eff Generator ConversionFacts.
Local Open Scope list_scope.

(** Induction on an expression, through the lists it holds. *)
Lemma expression_induction (Q : Dsl.Expression -> Prop) :
  (forall v, Q (Dsl.LiteralExpression v)) ->
  (forall n, Q (Dsl.IdentifierExpression n)) ->
  (forall f args, Q (Dsl.FunctionCallExpression f args)) ->
  (forall t, Q (Dsl.TemplateExpression t)) ->
  (forall ps, Forall (fun p => Q (snd p)) ps -> Q (Dsl.ObjectExpression ps)) ->
  (forall es, Forall Q es -> Q (Dsl.ArrayExpression es)) ->
  forall e, Q e.
Proof.
  intros Hl Hi Hf Ht Ho Ha.
  fix IH 1. intros [v|n|f args|t|ps|es].
  - apply Hl.
  - apply Hi.
  - apply Hf.
  - apply Ht.
  - apply Ho. induction ps as [|[k e] ps IHps]; constructor;
      [exact (IH e)|exact IHps].
  - apply Ha. induction es as [|e es IHes]; constructor;
      [exact (IH e)|exact IHes].
Qed.

Definition unsupported : Exn :=
  Error "Unsupported expression type: FunctionCallExpression".

(** What an evaluation may throw: the error of a call, from an expression
    that holds one, or the TypeError of [String] in a template. *)
Definition throws {A} (free : bool) (r : Res (A * nat)) : Prop :=
  match r with
  | Ok _ => True
  | Throw x => (x = unsupported /\ free = false) \/ x = notPrimitive
  end.

Lemma throws_bind {A B} (m : E A) (f : A -> E B) (free1 free2 : bool) k :
  throws free1 (m k) ->
  (forall a k', throws free2 (f a k')) ->
  throws (free1 && free2) (bind m f k).
Proof.
  unfold bind, throws at 1. intros Hm Hf.
  destruct (m k) as [[a k']|x].
  - specialize (Hf a k'). unfold throws in *.
    destruct (f a k') as [|y]; [exact I|].
    destruct Hf as [[-> ->]| ->]; [left|now right].
    now rewrite andb_false_r.
  - unfold throws. destruct Hm as [[-> ->]| ->]; [now left|now right].
Qed.

Section Tables.

Variable w : World.
Variable variables : list (string * Value).
Variable parameters : list (string * ParamInfo).

Let evaluateExpression := Generator.evaluateExpression w variables parameters.

Lemma evaluateExpression_throws e : forall k,
  throws (ParserFacts.callFree e) (evaluateExpression e k).
Proof.
  induction e as [v|n|f args|t|ps IH|es IH] using expression_induction;
    intros k.
  - exact I.
  - unfold evaluateExpression. cbn.
    destruct (mapGet n variables); [exact I|].
    destruct (mapGet n parameters); exact I.
  - left. now split.
  - unfold evaluateExpression. cbn.
    destruct (@TemplateFacts.evaluateTemplate_outcome w variables
                parameters t k) as [(out & k' & H)|H];
      unfold bind; rewrite H; [exact I|now right].
  - unfold evaluateExpression.
    cbn [Generator.evaluateExpression ParserFacts.callFree].
    generalize (@nil (string * Value)). revert k.
    induction IH as [|[key e] ps He _ IHps]; intros k obj.
    + exact I.
    + cbn [forallb snd] in *. apply throws_bind; [apply He|].
      intros a k'. apply IHps.
  - unfold evaluateExpression.
    cbn [Generator.evaluateExpression ParserFacts.callFree].
    set (each := fix each (es : list Dsl.Expression) : E (list Value) :=
                   match es with
                   | [] => ret []
                   | e :: es' =>
                       bind (Generator.evaluateExpression w variables
                               parameters e)
                         (fun v => bind (each es') (fun vs => ret (v :: vs)))
                   end).
    assert (L : forall k,
               throws (forallb ParserFacts.callFree es) (each es k)).
    { induction IH as [|e es He _ IHes]; intros k0; [exact I|].
      cbn [forallb].
      change (each (e :: es))
        with (bind (Generator.evaluateExpression w variables parameters e)
                (fun v => bind (each es) (fun vs => ret (v :: vs)))).
      apply throws_bind; [apply He|]. intros a k'.
      rewrite <- (andb_true_r (forallb ParserFacts.callFree es)).
      apply throws_bind; [apply IHes|]. intros vs k''. exact I. }
    rewrite <- (andb_true_r (forallb ParserFacts.callFree es)).
    apply throws_bind; [apply L|]. intros vs k'. exact I.
Qed.

(** [String] returns on the values of the variables and on the defaults
    of the parameters. *)
Hypothesis convert : TemplateFacts.tablesConvert variables parameters = true.

(** The outcome of an evaluation, then: a value when the expression
    holds no call, the error of the call otherwise. *)
Definition outcome {A} (free : bool) (r : Res (A * nat)) : Prop :=
  if free then exists v k', r = Ok (v, k') else r = Throw unsupported.

Lemma evaluateExpression_outcome e : forall k,
  outcome (ParserFacts.callFree e) (evaluateExpression e k).
Proof.
  induction e as [v|n|f args|t|ps IH|es IH] using expression_induction;
    intros k.
  - cbn. eexists. eexists. reflexivity.
  - cbn. unfold evaluateExpression. cbn.
    destruct (mapGet n variables); [eexists; eexists; reflexivity|].
    destruct (mapGet n parameters); eexists; eexists; reflexivity.
  - reflexivity.
  - cbn. unfold evaluateExpression. cbn.
    destruct (@TemplateFacts.evaluateTemplate_returns w variables parameters
                t k convert) as (out & k' & H).
    unfold bind. rewrite H. eexists. eexists. reflexivity.
  - unfold evaluateExpression.
    cbn [Generator.evaluateExpression ParserFacts.callFree].
    generalize (@nil (string * Value)). revert k.
    induction IH as [|[key e] ps He _ IHps]; intros k obj.
    + cbn. eexists. eexists. reflexivity.
    + cbn [forallb snd] in *. specialize (He k). unfold outcome in *.
      fold evaluateExpression.
      destruct (ParserFacts.callFree e); cbn [andb].
      * destruct He as (v & k' & He).
        erewrite Keeps.bind_step by exact He. apply IHps.
      * now apply Keeps.bind_Throw.
  - unfold evaluateExpression.
    cbn [Generator.evaluateExpression ParserFacts.callFree].
    set (each := fix each (es : list Dsl.Expression) : E (list Value) :=
                   match es with
                   | [] => ret []
                   | e :: es' =>
                       bind (Generator.evaluateExpression w variables
                               parameters e)
                         (fun v => bind (each es') (fun vs => ret (v :: vs)))
                   end).
    assert (L : forall k,
               outcome (forallb ParserFacts.callFree es) (each es k)).
    { induction IH as [|e es He _ IHes]; intros k0.
      - cbn. eexists. eexists. reflexivity.
      - cbn [forallb]. specialize (He k0). unfold outcome in *.
        change (each (e :: es))
          with (bind (Generator.evaluateExpression w variables parameters e)
                  (fun v => bind (each es) (fun vs => ret (v :: vs)))).
        fold evaluateExpression.
        destruct (ParserFacts.callFree e); cbn [andb].
        + destruct He as (v & k' & He).
          erewrite Keeps.bind_step by exact He. specialize (IHes k').
          destruct (forallb ParserFacts.callFree es).
          * destruct IHes as (vs & k'' & IHes).
            erewrite Keeps.bind_step by exact IHes. eexists. eexists. reflexivity.
          * now apply Keeps.bind_Throw.
        + now apply Keeps.bind_Throw. }
    specialize (L k). unfold outcome in *.
    destruct (forallb ParserFacts.callFree es).
    + destruct L as (vs & k' & L).
      erewrite Keeps.bind_step by exact L. eexists. eexists. reflexivity.
    + now apply Keeps.bind_Throw.
Qed.

End Tables.

(** [evaluateExpression] throws the error of the unsupported type on the
    expressions that are a call or hold one, and the TypeError of [String]
    on a template with a span whose value has no primitive value, an
    object with a [toString] of its own; it throws nothing else.  When
    [String] returns on the values of the variables and on the defaults
    of the parameters, an expression without a call has a value and an
    expression with a call throws the error of the unsupported type,
    whatever the host. *)
Theorem evaluation_throws_on_calls_only (w : World)
  (variables : list (string * Value)) (parameters : list (string * ParamInfo))
  (e : Dsl.Expression) (k : nat) :
  let result := Generator.evaluateExpression w variables parameters e k in
  (TemplateFacts.tablesConvert variables parameters = true ->
   (ParserFacts.callFree e = true -> exists v k', result = Ok (v, k'))
   /\ (ParserFacts.callFree e = false -> result = Throw unsupported))
  /\ (forall x, result = Throw x -> x = unsupported \/ x = notPrimitive)
  /\ (result = Throw unsupported -> ParserFacts.callFree e = false)
  /\ (ParserFacts.callFree e = true ->
      forall x, result = Throw x -> x = notPrimitive).
Proof.
  intros result. subst result.
  pose proof (evaluateExpression_throws w variables parameters e k) as T.
  unfold throws in T.
  split.
  { intros C.
    pose proof (@evaluateExpression_outcome w variables parameters C e k)
      as H.
    unfold outcome in H. destruct (ParserFacts.callFree e).
    - split; [intros _; exact H|discriminate].
    - split; [discriminate|intros _; exact H]. }
  destruct (Generator.evaluateExpression w variables parameters e k)
    as [[v k']|y].
  { split; [discriminate|]. split; [discriminate|]. discriminate. }
  split.
  { intros x [= <-]. destruct T as [[-> _]| ->]; [now left|now right]. }
  split.
  { intros [= ->]. destruct T as [[_ F]|N]; [exact F|discriminate N]. }
  intros F x [= <-]. destruct T as [[_ F']| ->]; [congruence|reflexivity].
Qed.

Lemma evaluation_throws_on_calls_only_witness :
  (exists v k',
     Generator.evaluateExpression Sample.worldA [] []
       (Dsl.ArrayExpression [Dsl.IdentifierExpression "a"]) 0%nat
     = Ok (v, k'))
  /\ Generator.evaluateExpression Sample.worldA [] []
       (Dsl.ArrayExpression
          [Dsl.IdentifierExpression "a";
           Dsl.FunctionCallExpression "now" []]) 0%nat
     = Throw unsupported.
Proof.
  split.
  - exact (proj1 (proj1 (@evaluation_throws_on_calls_only Sample.worldA
                           [] []
                           (Dsl.ArrayExpression [Dsl.IdentifierExpression "a"])
                           0%nat) eq_refl) eq_refl).
  - exact (proj2 (proj1 (@evaluation_throws_on_calls_only Sample.worldA
                           [] []
                           (Dsl.ArrayExpression
                              [Dsl.IdentifierExpression "a";
                               Dsl.FunctionCallExpression "now" []])
                           0%nat) eq_refl) eq_refl).
Defined.

(** A template without a call, on a variable bound to an object with a
    [toString] of its own: the evaluation throws the TypeError. *)
Remark call_free_template_throws :
  ParserFacts.callFree (Dsl.TemplateExpression "${v}") = true
  /\ Generator.evaluateExpression Sample.worldA
       [("v"%string, unprintable)] []
       (Dsl.TemplateExpression "${v}") 0%nat
     = Throw notPrimitive.
Proof. split; reflexivity. Qed.

End EvaluationFacts.
